(* ===== verification/_CoqProject ===== *)
-Q . S2P
Prelude.v
Buffers.v
Protocol.v
Mysql.v
Channels.v
Pollers.v
Connections.v
Json.v
JsonUtf8.v
JsonFloat.v
JsonLexer.v
JsonParser.v
JsonDump.v
JsonLexing.v
JsonParsing.v
JsonGrammar.v
JsonIntegers.v
JsonEscaping.v
JsonPrinting.v
JsonRounding.v
JsonDiyfp.v
JsonGrisu.v
JsonFloats.v
JsonTexts.v
JsonRoundtrip.v
JsonText.v
RedisClient.v
Stores.v
Chat.v
Framing.v
Handlers.v
Requests.v
Loops.v
Threads.v
Timers.v
Servers.v
Log.v
Config.v
Addresses.v
SocketCalls.v
System.v
Startup.v
Client.v
Clients.v
