(* ===== verification/Prelude.v ===== *)
(** * 414chatroom: a verification library for the chat server

    The program is a chat server: a network library in the style of muduo
    (src/net), its base classes (src/base), wrappers of MySQL (src/mysqlapi,
    src/mysqlmgr) and the server itself (src/chatserversrc).  This library
    translates that code to Rocq and proves what it does.

    ** How the parts of the program work together

    [main] reads the configuration file, opens the databases, loads the users and
    the history, and starts the server on the main loop.  An [EventLoop] polls its
    channels, runs their callbacks, its timers and the functors other threads
    queued.  The [Acceptor] of a [TcpServer] accepts a descriptor; the server
    makes a [TcpConnection] of it on one of the loops of the thread pool, which
    reports to [ChatServer::onConnected].  That makes a [ChatSession], whose
    [onRead] cuts the input buffer into packages, decodes them with
    [BinaryStreamReader], and answers a request with [TcpSession::sendPackage],
    which encodes with [BinaryStreamWriter] and gives the bytes to the connection.
    The handlers use the [UserManager] (users, from MySQL) and the
    [MsgCacheManager] (history, in redis); requests and answers are JSON texts, which
    the library in src/json parses and prints.

    ** Conventions

    Definitions keep the names of the source, in a Module per class.  A method
    that only computes is a function; a method that changes state is a
    computation of the monad [M S] below over the store [S] of the component.
    Its outcome is a value, an exception ([Throw]) or undefined behaviour
    ([Undef], with the reason), so "defined" in a theorem means: no access out of
    bounds, no dangling or null pointer, no signed overflow, no read of an
    uninitialised value in what is modelled.  Integers are numbers of [Z] with
    their wrap-around written out ([uwrap], [swrap]); memory is a list of bytes
    with checked access ([load], [store]).  Objects that are shared are entries of
    a heap, named by their address.  What the kernel, the clock, MySQL, redis
    and another thread do is an argument, a type class of
    operations ([MysqlApi], [RedisApi], [SocketApi], [EpollApi]) or the schedule of
    a step relation; laws of such code are separate classes ([RedisLaws], [SocketLaws],
    [EpollLaws]) with instances that show they can hold.  A fatal record
    of the log ends the process through a null pointer, as [AsyncLog.output] does
    whenever the file of the log can be opened.

    ** Files

    - Prelude.v: outcomes, machine integers, memory blocks, C strings, the monad,
      total-correctness triples ([wp]) and relations that a computation respects.
    - Buffers.v: net/Endian.h and net/ByteBuffer.* ([ByteBuffer]: the vector is
      the block [m_buffer], the two indexes are numbers of 64 bits).
    - Protocol.v: net/ProtocolStream.* ([Codec] the 7-bit lengths and the
      checksum, [BinaryStreamReader], [BinaryStreamWriter]; [Packet] puts both
      together).
    - Mysql.v: utils/ConvertStringUtil.h, mysqlapi/* ([Field], [Row],
      [QueryResult], [CDatabaseMysql] with the life of its handle) and mysqlmgr/*
      ([CMysqlManager], the bootstrap script).
    - Channels.v, Pollers.v: net/Channel.*, net/Poller.h as the class [Poller] with
      its contract [PollerSpec], and the three implementations net/EpollPoller.*,
      net/PollPoller.*, net/SelectPoller.*.
    - Connections.v: net/TcpConnection.* with both buffers, the state and the
      functors it queues; what it does is the log of its world.
    - Json.v: values of nlohmann::json and the members the server calls.  The text
      side of json/json.hpp, definitions: JsonUtf8.v ([Utf8]: decoder, encoder and
      byte ranges, with their theorems), JsonFloat.v ([dtoa_impl]: the printer of
      doubles; [Float]: what the C library does with them), JsonLexer.v ([Lexer],
      the class lexer), JsonParser.v ([Dom], json_sax_dom_parser over paths into the
      root, and [Parser]), JsonDump.v ([Serializer]).  Theorems: JsonLexing.v and
      JsonParsing.v (totality; the tokens that are read), JsonGrammar.v (the grammar of
      the texts and its values, and that the parser reads exactly those), JsonIntegers.v,
      JsonEscaping.v, JsonPrinting.v and JsonTexts.v (the reference printer, that the
      serializer is it, and that its texts are in the grammar), JsonRounding.v,
      JsonDiyfp.v, JsonGrisu.v and JsonFloats.v (the rounding interval, the scaled
      numbers, the digits, the texts of doubles), JsonRoundtrip.v (the properties) and
      JsonText.v ([json_parse] and [json_dump], as the server calls them).
    - RedisClient.v: the templates of include/sw/redis++ that the history uses, over the
      compiled part of that library ([RedisApi]).
    - Stores.v: chatserversrc/UserManager.* and chatserversrc/MsgCacheManager.*.
    - Chat.v: chatserversrc/Msg.h, TcpSession.*, ChatSession.*, ChatServer.* over
      one store [World] (the list of sessions, the heap of sessions, the users, the
      history, the calls made on connections).  Framing.v, Handlers.v and
      Requests.v have the theorems about it.
    - Loops.v: net/EventLoop.* and net/EventLoopThreadPool.*; Threads.v:
      net/EventLoopThread.* (two threads, a mutex and a condition variable) and
      base/CountDownLatch.*; Timers.v:
      base/Timestamp.*, net/Timer.* and net/TimerQueue.*.
    - Servers.v: net/Acceptor.*, net/TcpServer.* with one queue per loop; each
      connection of its heap is a world of Connections.v.
    - System.v: the store of Chat.v together with a connection of Connections.v for
      each of its clients: events, callbacks, and the calls of the handlers.
    - Log.v: base/AsyncLog.*; Config.v: base/ConfigFileReader.*; Addresses.v:
      net/InetAddress.* and the address functions of net/Sockets.*; SocketCalls.v: the
      rest of net/Sockets.* over the system calls ([SocketApi]), and the socket of
      net/Acceptor.cpp ([Listening]); Client.v:
      net/Connector.*; Clients.v: net/TcpClient.*, a connector of Client.v with its
      connections of Connections.v.
    - Startup.v: base/Singleton.h, chatserversrc/main.cpp and [ChatServer::init], which put the
      databases, the stores and the server together.

    ** What the theorems show

    Data.  [ByteBuffer.buffer_refines_queue]: every sequence of operations on the
    buffer behaves as on an abstract queue of bytes; integers written are read back
    in network order, [findCRLF] finds the first line end.
    [Packet.packet_roundtrip]: a packet of any fields is decoded to the same
    fields; [checksum_verifies] and [length_header_safe] are about arbitrary bytes.

    JSON.  [parse_every_input]: parsing any bytes ends, with a well-formed value or a
    documented exception, and builds it through its pointers without a dangling one.
    [parse_language]: it accepts exactly the texts of the grammar, with their values.
    [dump_reference]: the serializer with its buffers is the reference printer,
    unless the indentation is wider than 512 characters ([wide_indent_overruns]).
    [dump_parse_roundtrip]: what is printed, in any layout, is read back to the same
    value; [float_roundtrip]: no assertion of Grisu2 fails and what it prints is read
    as the same bits; [utf8_automaton]: the three pieces of UTF-8 agree.

    Sessions.  [Framing.onRead_stream]: for any bytes in the buffer [onRead] ends,
    serves exactly the complete packages in order and leaves the rest, so that the
    result does not depend on how the stream was cut into reads;
    [package_roundtrip]: what a session sends is such a package.
    [Handlers.server_invariant]: in every reachable state the list of sessions and
    the heap agree; [disconnect_frees]: what a disconnection frees, and that a
    later event of the connection reaches a freed session.  [Requests]: what each
    request does on each branch ([login_gate], [login_outcomes], [chat_broadcast],
    [history_follows_chat], [userlist_response]).

    The two together.  [System.packages_delivered]: what an open connection has
    written and still holds is the packages the sessions sent on it, whole, each
    once, in the order of each sender; every handler calls only connections that
    exist.  [read_after_error] is the way to a freed session.

    Stores.  Loading users and history ([users_loaded], [history_reloaded]), the
    MySQL handle ([query_handle_safety]), result sets and the bootstrap script.

    Network.  [output_stream]: what a connection wrote, followed by what it holds,
    is what was sent through it, for all partial writes; [output_drains] and
    [connection_lifecycle]: its states and the half-close after the last byte.
    [listening_socket]: what the kernel holds for the acceptor, or why the process
    ended.  [server_connections]: each accepted connection is established and destroyed
    once, on its loop, and owned meanwhile.  The pollers keep their tables in
    agreement with the kernel and the channels; [handleEvent_dispatch] gives the
    order of callbacks.  [tasks_fifo] and [tasks_served]: functors run in order,
    exactly once, whatever the interleaving.  [loop_thread]: starting and stopping
    the thread of a loop, and the one order in which stopping waits for ever.  [doTimer_sweep], [queue_lifecycle]
    and [runAt_forms]: timers.  [connector_safe]: sockets of the connector;
    [client_connections]: what the client does with them.

    The process.  [startup]: from the settings to the server that waits for
    connections, with the users and the history of the database.

    Base.  [address_text]: addresses and their texts.  [log_complete]: no accepted line is lost, doubled or out of place;
    [outputBinary_dumps]: the dump stays in its array and is the reference dump;
    [config_roundtrip]: what a file yields and that a written file is read back.

    ** Fuel

    A loop that is not structural takes a number of iterations, and a theorem shows
    that the number is enough: [ChatSession.read_loop] one iteration per package
    plus one (each takes at least a header off the buffer), [checksum_fold] three
    (the sum of two 16-bit halves fits after two), [load_loop] and [write_loop]
    one per byte plus one, the loops of the dump the length of the data.  In the JSON
    library: the loops of the lexer the bytes left plus two ([Lexer.enough]), the
    parser one more, since each iteration but the last reads a token;
    [dump_escaped] twice the string, since a byte is read again at most once;
    [count_digits] 6 and [pairs_loop] 11 (numbers below 2^64), [normalize] 64 shifts,
    [round_loop] 10 (a digit is decremented at most nine times), [grisu2_digit_gen]
    20 digits after the point (17 are the most).  The fuel
    of [doTimer] is an argument, because callbacks can keep adding timers that are
    due; more than the size of the set is enough when they add none.  Running out
    is an outcome of its own in [onRead], [checksum], [doTimer] and the JSON library
    ([Diverged]); in the others
    the theorem that the whole input is consumed excludes it.

    ** Not modelled

    Data races: the step relations range over all orders of the steps of the threads,
    each step being atomic.  RAIIWrapper.h, which nothing uses, and Callbacks.h, which
    has only names of types.  Windows branches of the preprocessor.  Third-party
    code: the compiled part of redis++ and hiredis, which are not in the repository,
    with the commands of redis++ the program does not send; and of json.hpp
    what the program does not use: callbacks and other SAX users, binary values and
    the binary formats, pointers, patches, iterators, comparison, streams.  The texts
    of JSON errors, which only reach the exception.  Locales other than "C", which
    the program never leaves.  Tests, schema and
    configuration.  Commented code is no code. *)
From Stdlib Require Export ZArith Lia String.
From stdpp Require Export base list gmap strings numbers option pretty.
From coqutil Require Export Word.LittleEndianList Byte.

#[global] Open Scope Z_scope.

Declare Scope chat_scope.
Delimit Scope chat_scope with chat.
#[global] Open Scope chat_scope.

(** ** Outcomes of C++ code

    A call returns a value, throws an exception (which nothing in this program
    but the two redis call sites catches), or executes an operation whose
    behaviour the C++ standard leaves undefined. *)
Inductive exn : Type :=
| LengthError        (* std::length_error, std::string / std::vector growth *)
| OutOfRange         (* std::out_of_range *)
| JsonParseError     (* nlohmann::json::parse_error *)
| JsonTypeError      (* nlohmann::json::type_error *)
| JsonOutOfRange     (* nlohmann::json::out_of_range *)
| RedisError         (* sw::redis::Error *)
| SystemError        (* std::system_error, of std::thread::join *)
| Terminate          (* std::terminate, of a thread that was not joined *)
| AssertFailed.      (* a failed assert() aborts the process *)

Inductive undef : Type :=
| OutOfBounds        (* read or write outside an object *)
| NullPointer        (* dereference of a null pointer *)
| DanglingPointer    (* use of an object whose lifetime has ended *)
| EmptyBack          (* back() of an empty std::string *)
| ShiftCount         (* shift by at least the width of the operand *)
| SignedOverflow     (* result not representable in a signed type *)
| Uninitialised      (* read of an indeterminate value *)
| VarArgs            (* a class object passed through an ellipsis *)
| Diverged.          (* a loop that outlives the fuel of its model *)

Inductive outcome (A : Type) : Type :=
| Ret (a : A)
| Throw (e : exn)
| Undef (u : undef).
Arguments Ret {A} a.
Arguments Throw {A} e.
Arguments Undef {A} u.

#[export] Instance exn_eq_dec : EqDecision exn.
Proof. solve_decision. Defined.
#[export] Instance undef_eq_dec : EqDecision undef.
Proof. solve_decision. Defined.
#[export] Instance outcome_eq_dec `{EqDecision A} : EqDecision (outcome A).
Proof. solve_decision. Defined.

#[export] Instance outcome_ret : MRet outcome := @Ret.
#[export] Instance outcome_bind : MBind outcome := fun A B f m =>
  match m with Ret a => f a | Throw e => Throw e | Undef u => Undef u end.
#[export] Instance outcome_fmap : FMap outcome := fun A B f m =>
  match m with Ret a => Ret (f a) | Throw e => Throw e | Undef u => Undef u end.

Definition is_ret {A} (m : outcome A) : bool :=
  match m with Ret _ => true | _ => false end.

(** [assert(b)]: the build of the server keeps assertions. *)
Definition assert_that (b : bool) : outcome unit := if b then Ret tt else Throw AssertFailed.

(** The state part of a result. *)
Lemma bind_Ret {A B} (f : A -> outcome B) (a : A) : (Ret a ≫= f) = f a.
Proof. reflexivity. Qed.

Lemma bind_Ret_inv {A B} (m : outcome A) (f : A -> outcome B) (b : B) :
  (m ≫= f) = Ret b -> exists a, m = Ret a /\ f a = Ret b.
Proof. destruct m; simpl; intros H; simplify_eq; eauto. Qed.

Lemma bind_assoc {A B C} (m : outcome A) (f : A -> outcome B) (g : B -> outcome C) :
  ((m ≫= f) ≫= g) = (m ≫= fun a => f a ≫= g).
Proof. by destruct m. Qed.

(** Decompose hypotheses [m ≫= f = Ret b] and close contradictory branches. *)
Ltac inv_bind :=
  repeat match goal with
  | H : (_ ≫= _) = Ret _ |- _ => apply bind_Ret_inv in H as (? & ? & H)
  | H : Ret _ = Ret _ |- _ => injection H as H; subst
  | H : Throw _ = Ret _ |- _ => discriminate H
  | H : Undef _ = Ret _ |- _ => discriminate H
  | H : context [let '(_, _) := ?p in _] |- _ => destruct p eqn:?
  end; simplify_eq/=.

(** Linear arithmetic with division and remainder by constants. *)
Ltac zdiv := Z.to_euclidean_division_equations; lia.

(** ** Machine integers: a [w]-bit value is its representative in [Z] *)
Definition uwrap (w z : Z) : Z := z mod 2 ^ w.
Definition swrap (w z : Z) : Z :=
  let u := z mod 2 ^ w in if u <? 2 ^ (w - 1) then u else u - 2 ^ w.

Abbreviation u16 := (uwrap 16).
Abbreviation u32 := (uwrap 32).
Abbreviation u64 := (uwrap 64).
Abbreviation i8 := (swrap 8).
Abbreviation i16 := (swrap 16).
Abbreviation i32 := (swrap 32).
Abbreviation i64 := (swrap 64).

Definition urange (w z : Z) : Prop := 0 <= z < 2 ^ w.
Definition srange (w z : Z) : Prop := - 2 ^ (w - 1) <= z < 2 ^ (w - 1).

Lemma uwrap_small w z : 0 <= z < 2 ^ w -> uwrap w z = z.
Proof. apply Z.mod_small. Qed.

Lemma uwrap_range w z : 0 <= w -> 0 <= uwrap w z < 2 ^ w.
Proof. intros. apply Z.mod_pos_bound. by apply Z.pow_pos_nonneg. Qed.

Lemma pow2_half w : 0 < w -> 2 ^ w = 2 * 2 ^ (w - 1).
Proof.
  intros. rewrite <- Z.pow_succ_r by lia. f_equal. lia.
Qed.

Lemma swrap_range w z : 0 < w -> srange w (swrap w z).
Proof.
  intros Hw. unfold srange, swrap.
  pose proof (Z.mod_pos_bound z (2 ^ w) ltac:(apply Z.pow_pos_nonneg; lia)).
  pose proof (pow2_half w Hw).
  destruct (Z.ltb_spec (z mod 2 ^ w) (2 ^ (w - 1))); lia.
Qed.

Lemma swrap_small w z : 0 < w -> srange w z -> swrap w z = z.
Proof.
  intros Hw [Hl Hu]. unfold swrap.
  pose proof (pow2_half w Hw).
  destruct (Z.leb_spec 0 z).
  - rewrite Z.mod_small by lia. destruct (Z.ltb_spec z (2 ^ (w - 1))); lia.
  - replace (z mod 2 ^ w) with (z + 2 ^ w).
    + destruct (Z.ltb_spec (z + 2 ^ w) (2 ^ (w - 1))); lia.
    + apply (Z.mod_unique_pos _ _ (-1)); lia.
Qed.

Lemma swrap_mod w z : 0 < w -> swrap w z mod 2 ^ w = z mod 2 ^ w.
Proof.
  intros Hw. unfold swrap.
  destruct (Z.ltb_spec (z mod 2 ^ w) (2 ^ (w - 1))).
  - by rewrite Z.mod_mod by (apply Z.pow_nonzero; lia).
  - replace (z mod 2 ^ w - 2 ^ w) with (z mod 2 ^ w + (-1) * 2 ^ w) by lia.
    rewrite Z.mod_add by (apply Z.pow_nonzero; lia).
    by rewrite Z.mod_mod by (apply Z.pow_nonzero; lia).
Qed.

Lemma swrap_congr w y z : y mod 2 ^ w = z mod 2 ^ w -> swrap w y = swrap w z.
Proof. unfold swrap. by intros ->. Qed.

Lemma swrap_uwrap w z : 0 < w -> swrap w (uwrap w z) = swrap w z.
Proof.
  intros. apply swrap_congr. unfold uwrap.
  by rewrite Z.mod_mod by (apply Z.pow_nonzero; lia).
Qed.

Lemma uwrap_swrap w z : 0 < w -> uwrap w (swrap w z) = uwrap w z.
Proof. intros. by apply swrap_mod. Qed.

(** ** Byte strings ([std::string], [std::vector<char>], [char[]]) *)
Abbreviation bytes := (list Byte.byte).

(** A string literal of the source; [lit] turns it into bytes and [quote]
    puts it between double quotes (the JSON text the server builds by hand). *)
Definition lit (s : string) : bytes := String.list_byte_of_string s.
Definition dquote : Byte.byte := Byte.x22.
Definition quote (s : bytes) : bytes := [dquote] ++ s ++ [dquote].

#[export] Instance byte_eq_dec : EqDecision Byte.byte := Byte.byte_eq_dec.
#[export] Program Instance byte_countable : Countable Byte.byte :=
  inj_countable Byte.to_N Byte.of_N _.
Next Obligation. apply Byte.of_to_N. Qed.

Definition zlen {A} (l : list A) : Z := Z.of_nat (length l).

Lemma zlen_nonneg {A} (l : list A) : 0 <= zlen l.
Proof. unfold zlen. lia. Qed.
Lemma zlen_app {A} (k l : list A) : zlen (k ++ l) = zlen k + zlen l.
Proof. unfold zlen. rewrite length_app. lia. Qed.
Lemma zlen_cons {A} (x : A) (l : list A) : zlen (x :: l) = 1 + zlen l.
Proof. unfold zlen. simpl. lia. Qed.
Lemma zlen_nil {A} : zlen (@nil A) = 0.
Proof. reflexivity. Qed.

(** *** Windows of a memory block

    [window off n l] is the [n] bytes of [l] from offset [off]; [load] and
    [store] are the checked read and write of such a window. *)
Definition window {A} (off n : Z) (l : list A) : list A :=
  take (Z.to_nat n) (drop (Z.to_nat off) l).

Definition in_block {A} (off n : Z) (l : list A) : bool :=
  (0 <=? off) && (0 <=? n) && (off + n <=? zlen l).

Definition load {A} (off n : Z) (l : list A) : outcome (list A) :=
  if in_block off n l then Ret (window off n l) else Undef OutOfBounds.

Definition splice {A} (off : Z) (d l : list A) : list A :=
  take (Z.to_nat off) l ++ d ++ drop (Z.to_nat (off + zlen d)) l.

Definition store {A} (off : Z) (d l : list A) : outcome (list A) :=
  if in_block off (zlen d) l then Ret (splice off d l) else Undef OutOfBounds.

Lemma in_block_true {A} off n (l : list A) :
  in_block off n l = true <-> 0 <= off /\ 0 <= n /\ off + n <= zlen l.
Proof. unfold in_block. rewrite !andb_true_iff, !Z.leb_le. tauto. Qed.

Lemma load_ok {A} off n (l : list A) :
  0 <= off -> 0 <= n -> off + n <= zlen l -> load off n l = Ret (window off n l).
Proof.
  intros. unfold load. by rewrite (proj2 (in_block_true off n l)).
Qed.

Lemma store_ok {A} off (d l : list A) :
  0 <= off -> off + zlen d <= zlen l -> store off d l = Ret (splice off d l).
Proof.
  intros. unfold store. rewrite (proj2 (in_block_true off (zlen d) l)); [done|].
  pose proof (zlen_nonneg d). lia.
Qed.

Lemma zlen_window {A} off n (l : list A) :
  0 <= off -> 0 <= n -> off + n <= zlen l -> zlen (window off n l) = n.
Proof.
  unfold zlen, window. intros. rewrite length_take, length_drop. lia.
Qed.

Lemma zlen_splice {A} off (d l : list A) :
  0 <= off -> off + zlen d <= zlen l -> zlen (splice off d l) = zlen l.
Proof.
  unfold zlen, splice. intros. rewrite !length_app, length_take, length_drop.
  unfold zlen in *. lia.
Qed.

Lemma window_all {A} (l : list A) n : n = zlen l -> window 0 n l = l.
Proof. intros ->. unfold window, zlen. rewrite drop_0, Nat2Z.id. by apply take_ge. Qed.

Lemma window_0 {A} off (l : list A) : window off 0 l = [].
Proof. done. Qed.

Lemma window_app {A} off n m (l : list A) :
  0 <= off -> 0 <= n -> 0 <= m ->
  window off n l ++ window (off + n) m l = window off (n + m) l.
Proof.
  intros. unfold window. rewrite !Z2Nat.inj_add by lia.
  rewrite <- drop_drop, take_take_drop. done.
Qed.

Lemma take_window {A} off n m (l : list A) :
  0 <= m <= n -> take (Z.to_nat m) (window off n l) = window off m l.
Proof. intros. unfold window. rewrite take_take. f_equal. lia. Qed.

Lemma drop_window {A} off n m (l : list A) :
  0 <= off -> 0 <= m <= n -> drop (Z.to_nat m) (window off n l) = window (off + m) (n - m) l.
Proof.
  intros. unfold window. rewrite Z2Nat.inj_sub, Z2Nat.inj_add by lia.
  rewrite skipn_firstn_comm, drop_drop. done.
Qed.

Lemma window_window {A} off n i m (l : list A) :
  0 <= off -> 0 <= i -> 0 <= m -> i + m <= n ->
  window i m (window off n l) = window (off + i) m l.
Proof.
  intros. unfold window at 1. rewrite drop_window by lia. apply take_window. lia.
Qed.

Lemma window_splice_same {A} off (d l : list A) :
  0 <= off -> off + zlen d <= zlen l -> window off (zlen d) (splice off d l) = d.
Proof.
  unfold zlen. intros. unfold window, splice.
  rewrite drop_app_le, drop_ge by (rewrite ?length_take; lia).
  simpl. rewrite take_app_le, take_ge by lia. done.
Qed.

Lemma window_splice_before {A} off i n (d l : list A) :
  0 <= i -> 0 <= n -> i + n <= off -> off + zlen d <= zlen l ->
  window i n (splice off d l) = window i n l.
Proof.
  unfold zlen. intros. unfold window, splice.
  rewrite drop_app_le, take_app_le by (rewrite ?length_drop, ?length_take; lia).
  rewrite <- (take_drop (Z.to_nat off) l) at 2.
  rewrite drop_app_le, take_app_le by (rewrite ?length_drop, ?length_take; lia). done.
Qed.

Lemma window_splice_after {A} off i n (d l : list A) :
  0 <= off -> off + zlen d <= i -> 0 <= n -> off + zlen d <= zlen l ->
  window i n (splice off d l) = window i n l.
Proof.
  unfold zlen. intros. unfold window, splice. f_equal.
  rewrite drop_app_ge by (rewrite length_take; lia).
  rewrite drop_app_ge by (rewrite length_take; lia).
  rewrite drop_drop. f_equal. rewrite length_take. unfold zlen. lia.
Qed.

Lemma window_splice_prefix {A} off n (d l : list A) :
  0 <= n <= off -> off + zlen d <= zlen l ->
  window n (off - n + zlen d) (splice off d l) = window n (off - n) l ++ d.
Proof.
  intros. pose proof (zlen_nonneg d).
  rewrite <- (window_app n (off - n) (zlen d)) by lia.
  rewrite window_splice_before by lia.
  replace (n + (off - n)) with off by lia.
  by rewrite window_splice_same by lia.
Qed.

Lemma window_app_l {A} off n (k l : list A) :
  0 <= off -> 0 <= n -> off + n <= zlen k -> window off n (k ++ l) = window off n k.
Proof.
  unfold zlen. intros. unfold window.
  rewrite drop_app_le, take_app_le by (rewrite ?length_drop; lia). done.
Qed.

Lemma window_app_r {A} n (k l : list A) :
  window (zlen k) n (k ++ l) = take (Z.to_nat n) l.
Proof. unfold window, zlen. by rewrite Nat2Z.id, drop_app_length. Qed.

Lemma load_mid {A} (pre d rest : list A) off n :
  off = zlen pre -> n = zlen d -> load off n (pre ++ d ++ rest) = Ret d.
Proof.
  intros -> ->. pose proof (zlen_nonneg pre). pose proof (zlen_nonneg d).
  pose proof (zlen_nonneg rest).
  rewrite load_ok by (rewrite ?zlen_app; lia). rewrite window_app_r. f_equal.
  unfold zlen. rewrite Nat2Z.id. by apply take_app_length.
Qed.

(** One byte of a block. *)
Definition load1 {A} (off : Z) (l : list A) : outcome A :=
  match (if off <? 0 then None else l !! Z.to_nat off) with
  | Some b => Ret b
  | None => Undef OutOfBounds
  end.

Lemma load1_ok {A} off (l : list A) :
  0 <= off < zlen l -> exists b, l !! Z.to_nat off = Some b /\ load1 off l = Ret b.
Proof.
  intros [H1 H2]. unfold zlen in H2.
  destruct (lookup_lt_is_Some_2 l (Z.to_nat off)) as [b Hb]; [lia|].
  exists b. split; [done|]. unfold load1.
  destruct (Z.ltb_spec off 0); [lia|]. by rewrite Hb.
Qed.

Lemma load1_mid {A} (pre : list A) x rest off :
  off = zlen pre -> load1 off (pre ++ x :: rest) = Ret x.
Proof.
  intros ->. unfold load1. destruct (Z.ltb_spec (zlen pre) 0) as [H|_].
  - pose proof (zlen_nonneg pre). lia.
  - unfold zlen. by rewrite Nat2Z.id, list_lookup_middle.
Qed.

(** The value of a byte as [unsigned char] and as [char] (signed on the targets
    of the build). *)
Definition uchar (b : Byte.byte) : Z := byte.unsigned b.
Definition schar (b : Byte.byte) : Z := i8 (byte.unsigned b).

Lemma uchar_range b : 0 <= uchar b < 256.
Proof. apply byte.unsigned_range. Qed.
Lemma uchar_of_Z z : uchar (byte.of_Z z) = z mod 256.
Proof. apply byte.unsigned_of_Z. Qed.
Lemma of_Z_uchar b : byte.of_Z (uchar b) = b.
Proof. apply byte.of_Z_unsigned. Qed.

(** Memory representation of a [n]-byte integer on the little-endian hosts of
    the build (x86-64). *)
Definition int_bytes (n : nat) (z : Z) : bytes := le_split n z.
Definition bytes_int (l : bytes) : Z := le_combine l.

Lemma zlen_int_bytes n z : zlen (int_bytes n z) = Z.of_nat n.
Proof. unfold zlen, int_bytes. by rewrite length_le_split. Qed.

Lemma bytes_int_bytes n z : bytes_int (int_bytes n z) = z mod 2 ^ (Z.of_nat n * 8).
Proof. apply le_combine_split. Qed.

Lemma int_bytes_int n l : length l = n -> int_bytes n (bytes_int l) = l.
Proof. intros <-. apply split_le_combine. Qed.

Lemma bytes_int_range l : 0 <= bytes_int l < 2 ^ (8 * zlen l).
Proof. apply le_combine_bound. Qed.

Lemma int_bytes_congr n y z :
  y mod 2 ^ (Z.of_nat n * 8) = z mod 2 ^ (Z.of_nat n * 8) -> int_bytes n y = int_bytes n z.
Proof.
  intros H. rewrite <- (int_bytes_int n (int_bytes n y)), <- (int_bytes_int n (int_bytes n z)).
  - by rewrite !bytes_int_bytes, H.
  - apply length_le_split.
  - apply length_le_split.
Qed.

(** The bytes of a [std::string] a C function sees through [c_str()]. *)
Fixpoint c_str (s : bytes) : bytes :=
  match s with
  | [] => []
  | c :: s' => if bool_decide (c = Byte.x00) then [] else c :: c_str s'
  end.

Lemma c_str_id s : Byte.x00 ∉ s -> c_str s = s.
Proof.
  induction s as [|c s IH]; [done|]. rewrite not_elem_of_cons. intros [Hc Hs]. simpl.
  rewrite bool_decide_eq_false_2 by congruence. by rewrite IH.
Qed.

(** *** Searching: [std::search] and [memchr]

    Both are used on a range and report an offset in it; [search] gives the
    length of the range when there is no occurrence, as [std::search] gives
    its end. *)
Fixpoint is_prefix (needle hay : bytes) : bool :=
  match needle, hay with
  | [], _ => true
  | _ :: _, [] => false
  | x :: needle', y :: hay' => bool_decide (x = y) && is_prefix needle' hay'
  end.

Fixpoint search (needle hay : bytes) : nat :=
  if is_prefix needle hay then 0%nat
  else match hay with [] => 0%nat | _ :: hay' => S (search needle hay') end.

Fixpoint memchr (c : Byte.byte) (l : bytes) : option nat :=
  match l with
  | [] => None
  | x :: l' => if bool_decide (x = c) then Some 0%nat else S <$> memchr c l'
  end.

Lemma is_prefix_spec needle hay :
  is_prefix needle hay = true <-> exists rest, hay = needle ++ rest.
Proof.
  revert hay. induction needle as [|x needle IH]; intros hay; simpl.
  - split; [by eexists|done].
  - destruct hay as [|y hay]; simpl.
    + split; [done|]. by intros [? ?].
    + rewrite andb_true_iff, bool_decide_eq_true, IH. split.
      * intros [-> [rest ->]]. by exists rest.
      * intros [rest Heq]. simplify_eq. eauto.
Qed.

Lemma search_le needle hay : (search needle hay <= length hay)%nat.
Proof.
  induction hay as [|y hay IH]; simpl; [by case_match|].
  case_match; lia.
Qed.

(** [search] finds the first occurrence. *)
Lemma search_spec needle hay :
  needle <> [] ->
  (search needle hay < length hay)%nat ->
  is_prefix needle (drop (search needle hay) hay) = true /\
  forall i, (i < search needle hay)%nat -> is_prefix needle (drop i hay) = false.
Proof.
  intros Hne. induction hay as [|y hay IH]; [simpl; case_match; simpl; lia|].
  cbn [search]. destruct (is_prefix needle (y :: hay)) eqn:E.
  - intros _. split; [done|]. intros; lia.
  - simpl. intros Hlt. destruct IH as [H1 H2]; [lia|].
    split; [done|]. intros [|i] Hi; [done|]. simpl. apply H2. lia.
Qed.

Lemma search_none needle hay :
  needle <> [] ->
  search needle hay = length hay -> forall i, is_prefix needle (drop i hay) = false.
Proof.
  intros Hne. induction hay as [|y hay IH]; cbn [search].
  - intros _ i. rewrite drop_nil. by destruct needle.
  - destruct (is_prefix needle (y :: hay)) eqn:E; simpl; [done|].
    intros ? [|i]; [done|]. simpl. apply IH. lia.
Qed.

Lemma memchr_spec c l n :
  memchr c l = Some n -> l !! n = Some c /\ forall i, (i < n)%nat -> l !! i <> Some c.
Proof.
  revert n. induction l as [|x l IH]; intros n; simpl; [done|].
  case_bool_decide; [intros ?; simplify_eq; split; [done|lia]|].
  destruct (memchr c l) as [k|] eqn:E; simpl; [|done].
  intros ?; simplify_eq. destruct (IH k) as [H1 H2]; [done|].
  split; [done|]. intros [|i] Hi; simpl; [congruence|]. apply H2. lia.
Qed.

Lemma memchr_none c l : memchr c l = None <-> ~ In c l.
Proof.
  induction l as [|x l IH]; simpl; [tauto|].
  case_bool_decide; [split; [done|tauto]|].
  destruct (memchr c l); simpl; [|tauto].
  split; [done|]. intros Hn. exfalso. destruct IH as [_ IH].
  discriminate IH. tauto.
Qed.

Create Rewrite HintDb zlen.
#[export] Hint Rewrite @zlen_app @zlen_cons @zlen_nil zlen_int_bytes : zlen.
Ltac zsimpl := autorewrite with zlen in *.

(** ** Stateful code: computations over a store [S] that may throw

    An uncaught exception ends the process, so the store of a [Throw] is gone. *)
Definition M (S A : Type) : Type := S -> outcome (A * S).

Definition ret {S A} (a : A) : M S A := fun s => Ret (a, s).
Definition bindM {S A B} (m : M S A) (f : A -> M S B) : M S B := fun s =>
  match m s with Ret (a, s') => f a s' | Throw e => Throw e | Undef u => Undef u end.
Notation "'let!' x := m 'in' k" := (bindM m (fun x => k))
  (at level 10, x name, m at level 100, k at level 200) : chat_scope.
Notation "'do!' m 'in' k" := (bindM m (fun _ : unit => k))
  (at level 10, m at level 100, k at level 200) : chat_scope.

Definition get {S} : M S S := fun s => Ret (s, s).
Definition gets {S A} (f : S -> A) : M S A := fun s => Ret (f s, s).
Definition modify {S} (f : S -> S) : M S unit := fun s => Ret (tt, f s).
Definition lift {S A} (o : outcome A) : M S A := fun s => a ← o; Ret (a, s).
Definition throw {S A} (e : exn) : M S A := fun _ => Throw e.
Definition undefined {S A} (u : undef) : M S A := fun _ => Undef u.
Definition when {S} (b : bool) (m : M S unit) : M S unit := if b then m else ret tt.

(** A computation on a part of the store. *)
Definition zoom {S T A} (view : S -> T) (update : T -> S -> S) (m : M T A) : M S A :=
  fun s => p ← m (view s); Ret (fst p, update (snd p) s).

(** A total-correctness triple: from [s], [m] ends in a state of [Q], or throws
    one of the exceptions [E]; it never reaches undefined behaviour. *)
Definition wp {S A} (E : exn -> Prop) (m : M S A) (Q : A -> S -> Prop) (s : S) : Prop :=
  match m s with Ret (a, s') => Q a s' | Throw e => E e | Undef _ => False end.

Lemma wp_bind {S A B} E (m : M S A) (f : A -> M S B) Q s :
  wp E (bindM m f) Q s <-> wp E m (fun a s' => wp E (f a) Q s') s.
Proof. unfold wp, bindM. by destruct (m s) as [[a s']| |]. Qed.

Lemma wp_mono {S A} E (m : M S A) (Q R : A -> S -> Prop) s :
  wp E m Q s -> (forall a s', Q a s' -> R a s') -> wp E m R s.
Proof. unfold wp. destruct (m s) as [[a s']| |]; auto. Qed.

Lemma wp_lift {S A} E (o : outcome A) (Q : A -> S -> Prop) s :
  wp E (lift o) Q s <-> match o with Ret a => Q a s | Throw e => E e | Undef _ => False end.
Proof. unfold wp, lift. by destruct o. Qed.

Lemma wp_when {S} E (b : bool) (m : M S unit) (Q : unit -> S -> Prop) s :
  (b = true -> wp E m Q s) -> (b = false -> Q tt s) -> wp E (when b m) Q s.
Proof. destruct b; intros H1 H2; [by apply H1|by apply H2]. Qed.

Lemma wp_run {S A} E (m : M S A) Q s a s' : m s = Ret (a, s') -> wp E m Q s -> Q a s'.
Proof. unfold wp. by intros ->. Qed.

(** A range-based [for] over a container the body does not change. *)
Fixpoint for_each {S A} (l : list A) (body : A -> M S unit) : M S unit :=
  match l with
  | [] => ret tt
  | x :: l' => do! body x in for_each l' body
  end.

Lemma M_bind_eq {S A B} (m : M S A) (f : A -> M S B) s :
  bindM m f s =
  match m s with Ret (a, s') => f a s' | Throw e => Throw e | Undef u => Undef u end.
Proof. reflexivity. Qed.

Lemma M_bind_Ret {S A B} (m : M S A) (f : A -> M S B) s a s' :
  m s = Ret (a, s') -> bindM m f s = f a s'.
Proof. intros H. by rewrite M_bind_eq, H. Qed.

Lemma M_bind_inv {S A B} (m : M S A) (f : A -> M S B) s b s2 :
  bindM m f s = Ret (b, s2) -> exists a s1, m s = Ret (a, s1) /\ f a s1 = Ret (b, s2).
Proof. rewrite M_bind_eq. destruct (m s) as [[a s1]| |]; [eauto|done..]. Qed.

(** An invariant of the body is an invariant of the loop. *)
Lemma for_each_inv {S A} (I : S -> Prop) (l : list A) (body : A -> M S unit) s s' :
  (forall x s1 s2, x ∈ l -> I s1 -> body x s1 = Ret (tt, s2) -> I s2) ->
  I s -> for_each l body s = Ret (tt, s') -> I s'.
Proof.
  revert s. induction l as [|x l IH]; intros s Hb HI Hrun; simpl in Hrun.
  - unfold ret in Hrun. by simplify_eq/=.
  - apply M_bind_inv in Hrun as ([] & s1 & H1 & H2).
    apply (IH s1); [|eapply Hb; [apply list_elem_of_here|..]; eauto|done].
    intros y t1 t2 Hy. apply Hb. by apply list_elem_of_further.
Qed.

(** *** Relations every run of a computation respects

    [respects R m]: whatever [m] returns, the stores before and after are
    related.  The lemmas reduce a composed computation to its primitives;
    [auto with respects] applies them. *)
Definition respects {S A} (R : S -> S -> Prop) (m : M S A) : Prop :=
  forall s a s', m s = Ret (a, s') -> R s s'.

Section Respects.
Context {S : Type} (R : S -> S -> Prop) `{!PreOrder R}.

Lemma respects_ret {A} (a : A) : respects R (ret a).
Proof. intros s b s' H. unfold ret in H. by simplify_eq. Qed.
Lemma respects_get : respects R get.
Proof. intros s b s' H. unfold get in H. by simplify_eq. Qed.
Lemma respects_gets {A} (f : S -> A) : respects R (gets f).
Proof. intros s b s' H. unfold gets in H. by simplify_eq. Qed.
Lemma respects_lift {A} (o : outcome A) : respects R (lift o).
Proof. intros s b s' H. unfold lift in H. by inv_bind. Qed.
Lemma respects_throw {A} e : respects R (@throw S A e).
Proof. done. Qed.
Lemma respects_undefined {A} u : respects R (@undefined S A u).
Proof. done. Qed.
Lemma respects_modify f : (forall s, R s (f s)) -> respects R (modify f).
Proof. intros Hf s b s' H. unfold modify in H. by simplify_eq. Qed.
Lemma respects_bind {A B} (m : M S A) (f : A -> M S B) :
  respects R m -> (forall a, respects R (f a)) -> respects R (bindM m f).
Proof.
  intros Hm Hf s b s' (a & s1 & H1 & H2)%M_bind_inv. etrans; [by eapply Hm|by eapply Hf].
Qed.
Lemma respects_when (b : bool) (m : M S unit) : respects R m -> respects R (when b m).
Proof. intros Hm. destruct b; [done|]. apply respects_ret. Qed.
Lemma respects_for_each {A} (l : list A) (body : A -> M S unit) :
  (forall x, respects R (body x)) -> respects R (for_each l body).
Proof.
  intros Hb. induction l as [|x l IH]; [apply respects_ret|].
  apply respects_bind; [apply Hb|done].
Qed.
End Respects.

Create HintDb respects.
#[export] Hint Resolve respects_ret respects_get respects_gets respects_lift respects_throw
  respects_undefined : respects.
#[export] Hint Extern 0 (PreOrder _) => typeclasses eauto : respects.
(** Follow the structure of a computation down to its primitives. *)
Ltac respects :=
  repeat first
    [ progress intros
    | solve [auto with respects]
    | simple apply respects_bind | simple apply respects_when | simple apply respects_for_each
    | match goal with |- respects _ (if ?b then _ else _) => destruct b
      | |- respects _ (match ?x with _ => _ end) => destruct x end ].

(** Run the known prefix of a computation. *)
Arguments ret {S A} a s /.
Arguments bindM {S A B} m f s /.
Arguments get {S} s /.
Arguments gets {S A} f s /.
Arguments modify {S} f s /.
Arguments lift {S A} o s /.
Arguments throw {S A} e s /.
Arguments undefined {S A} u s /.
Arguments when {S} b m s /.
Arguments zoom {S T A} view update m s /.
Ltac run := cbn [ret bindM get gets modify lift throw undefined when zoom fst snd
                 mbind outcome_bind negb].
