(* ===== verification/Buffers.v ===== *)
(** * Byte order and the growing byte buffer

    [Endian] is net/Endian.h; [ByteBuffer] is the class of net/ByteBuffer.h and
    net/ByteBuffer.cpp, with its vector and its two indices.  Pointers into the
    vector are offsets from [begin()]; [size_t] arithmetic wraps at 64 bits;
    the checked accesses of the prelude make every access outside the vector
    an [Undef] outcome. *)
From S2P Require Import Prelude.

Module Endian.

(** [htobe*] and [be*toh] of the little-endian hosts of the build: the bytes of
    the argument in reverse order. *)
Definition bswap (n : nat) (z : Z) : Z := bytes_int (rev (int_bytes n z)).

Definition hostToNetwork64 (host64 : Z) : Z := bswap 8 host64.
Definition hostToNetwork32 (host32 : Z) : Z := bswap 4 host32.
Definition hostToNetwork16 (host16 : Z) : Z := bswap 2 host16.
Definition networkToHost64 (net64 : Z) : Z := bswap 8 net64.
Definition networkToHost32 (net32 : Z) : Z := bswap 4 net32.
Definition networkToHost16 (net16 : Z) : Z := bswap 2 net16.

(** The bytes of a [n]-byte integer in network order. *)
Definition be_bytes (n : nat) (z : Z) : bytes := rev (int_bytes n z).

Lemma int_bytes_bswap n z : int_bytes n (bswap n z) = be_bytes n z.
Proof.
  apply int_bytes_int. unfold be_bytes, int_bytes. by rewrite length_rev, length_le_split.
Qed.

Lemma bswap_bswap n z : bswap n (bswap n z) = z mod 2 ^ (Z.of_nat n * 8).
Proof.
  unfold bswap at 1. rewrite int_bytes_bswap. unfold be_bytes.
  by rewrite rev_involutive, bytes_int_bytes.
Qed.

Lemma bswap_congr n y z :
  y mod 2 ^ (Z.of_nat n * 8) = z mod 2 ^ (Z.of_nat n * 8) -> bswap n y = bswap n z.
Proof. intros H. unfold bswap. by rewrite (int_bytes_congr _ _ _ H). Qed.

Lemma be_bytes_congr n y z :
  y mod 2 ^ (Z.of_nat n * 8) = z mod 2 ^ (Z.of_nat n * 8) -> be_bytes n y = be_bytes n z.
Proof. intros H. unfold be_bytes. by rewrite (int_bytes_congr _ _ _ H). Qed.

Lemma length_be_bytes n z : length (be_bytes n z) = n.
Proof. unfold be_bytes, int_bytes. by rewrite length_rev, length_le_split. Qed.

Lemma zlen_be_bytes n z : zlen (be_bytes n z) = Z.of_nat n.
Proof. unfold zlen. by rewrite length_be_bytes. Qed.

(** Reading back in host order the bytes written in network order. *)
Lemma bswap_be_bytes n z : bswap n (bytes_int (be_bytes n z)) = z mod 2 ^ (Z.of_nat n * 8).
Proof.
  change (bytes_int (be_bytes n z)) with (bswap n z). apply bswap_bswap.
Qed.

End Endian.
#[export] Hint Rewrite Endian.zlen_be_bytes : zlen.

Module ByteBuffer.

Definition kCheapPrepend : Z := 8.
Definition kInitialSize : Z := 1024.
Definition kCRLF : bytes := [Byte.x0d; Byte.x0a].

Record ByteBuffer : Type := mkByteBuffer {
  m_buffer : bytes;
  m_readerIndex : Z;
  m_writerIndex : Z
}.

(** [std::vector<char>::resize] and the limits of the library containers. *)
Definition vector_max_size : Z := 2 ^ 63 - 1.
Definition string_max_size : Z := 2 ^ 62 - 1.
Definition resize (n : Z) (l : bytes) : outcome bytes :=
  if vector_max_size <? n then Throw LengthError
  else Ret (take (Z.to_nat n) l ++ replicate (Z.to_nat (n - zlen l)) Byte.x00).

(** [explicit ByteBuffer(size_t initialSize = kInitialSize)] *)
Definition make (initialSize : Z) : outcome ByteBuffer :=
  buf ← resize (u64 (kCheapPrepend + initialSize)) [];
  Ret (mkByteBuffer buf kCheapPrepend kCheapPrepend).

Definition swap (this rhs : ByteBuffer) : ByteBuffer * ByteBuffer :=
  (mkByteBuffer (m_buffer rhs) (m_readerIndex rhs) (m_writerIndex rhs),
   mkByteBuffer (m_buffer this) (m_readerIndex this) (m_writerIndex this)).

Definition readableBytes (b : ByteBuffer) : Z := u64 (m_writerIndex b - m_readerIndex b).
Definition writableBytes (b : ByteBuffer) : Z := u64 (zlen (m_buffer b) - m_writerIndex b).
Definition prependableBytes (b : ByteBuffer) : Z := m_readerIndex b.
Definition peek (b : ByteBuffer) : Z := m_readerIndex b.
Definition beginWrite (b : ByteBuffer) : Z := m_writerIndex b.

(** The range [[first, last)] of the buffer, as the algorithms below read it. *)
Definition range (first last : Z) (b : ByteBuffer) : outcome bytes :=
  load first (last - first) (m_buffer b).

Definition findString (targetStr : bytes) (b : ByteBuffer) : outcome (option Z) :=
  hay ← range (peek b) (beginWrite b) b;
  let found := peek b + Z.of_nat (search targetStr hay) in
  Ret (if found =? beginWrite b then None else Some found).

Definition findCRLF (b : ByteBuffer) : outcome (option Z) :=
  hay ← range (peek b) (beginWrite b) b;
  let crlf := peek b + Z.of_nat (search kCRLF hay) in
  Ret (if crlf =? beginWrite b then None else Some crlf).

Definition findCRLF_from (start : Z) (b : ByteBuffer) : outcome (option Z) :=
  if start <? peek b then Ret None
  else if beginWrite b <? start then Ret None
  else
    hay ← range start (beginWrite b) b;
    let crlf := start + Z.of_nat (search kCRLF hay) in
    Ret (if crlf =? beginWrite b then None else Some crlf).

Definition findEOL (b : ByteBuffer) : outcome (option Z) :=
  hay ← load (peek b) (readableBytes b) (m_buffer b);
  Ret ((fun k => peek b + Z.of_nat k) <$> memchr Byte.x0a hay).

Definition findEOL_from (start : Z) (b : ByteBuffer) : outcome (option Z) :=
  if start <? peek b then Ret None
  else if beginWrite b <? start then Ret None
  else
    hay ← range start (beginWrite b) b;
    Ret ((fun k => start + Z.of_nat k) <$> memchr Byte.x0a hay).

Definition retrieveAll (b : ByteBuffer) : ByteBuffer :=
  mkByteBuffer (m_buffer b) kCheapPrepend kCheapPrepend.

Definition retrieve (len : Z) (b : ByteBuffer) : bool * ByteBuffer :=
  if readableBytes b <? len then (false, b)
  else if len <? readableBytes b then
    (true, mkByteBuffer (m_buffer b) (u64 (m_readerIndex b + len)) (m_writerIndex b))
  else (true, retrieveAll b).

Definition retrieveUntil (end_ : Z) (b : ByteBuffer) : bool * ByteBuffer :=
  if end_ <? peek b then (false, b)
  else if beginWrite b <? end_ then (false, b)
  else (true, snd (retrieve (end_ - peek b) b)).

Definition retrieveInt64 (b : ByteBuffer) : ByteBuffer := snd (retrieve 8 b).
Definition retrieveInt32 (b : ByteBuffer) : ByteBuffer := snd (retrieve 4 b).
Definition retrieveInt16 (b : ByteBuffer) : ByteBuffer := snd (retrieve 2 b).
Definition retrieveInt8 (b : ByteBuffer) : ByteBuffer := snd (retrieve 1 b).

(** [std::string(ptr, n)]: a count above the limit of [std::string] throws. *)
Definition make_string (ptr n : Z) (b : ByteBuffer) : outcome bytes :=
  if string_max_size <? n then Throw LengthError else load ptr n (m_buffer b).

Definition retrieveAsString (len : Z) (b : ByteBuffer) : outcome (bytes * ByteBuffer) :=
  if readableBytes b <? len then Ret ([], b)
  else
    result ← make_string (peek b) len b;
    Ret (result, snd (retrieve len b)).

Definition retrieveAllAsString (b : ByteBuffer) : outcome (bytes * ByteBuffer) :=
  retrieveAsString (readableBytes b) b.

Definition toStringPiece (b : ByteBuffer) : outcome bytes :=
  make_string (peek b) (u64 (i32 (readableBytes b))) b.

Definition makeSpace (len : Z) (b : ByteBuffer) : outcome ByteBuffer :=
  if u64 (writableBytes b + prependableBytes b) <? u64 (len + kCheapPrepend) then
    buf ← resize (u64 (m_writerIndex b + len)) (m_buffer b);
    Ret (mkByteBuffer buf (m_readerIndex b) (m_writerIndex b))
  else if m_readerIndex b <=? kCheapPrepend then Ret b
  else
    let readable := readableBytes b in
    d ← range (m_readerIndex b) (m_writerIndex b) b;
    buf ← store kCheapPrepend d (m_buffer b);
    Ret (mkByteBuffer buf kCheapPrepend (u64 (kCheapPrepend + readable))).

Definition ensureWritableBytes (len : Z) (b : ByteBuffer) : outcome (bool * ByteBuffer) :=
  b' ← (if writableBytes b <? len then makeSpace len b else Ret b);
  Ret (true, b').

Definition hasWritten (len : Z) (b : ByteBuffer) : bool * ByteBuffer :=
  if writableBytes b <? len then (false, b)
  else (true, mkByteBuffer (m_buffer b) (m_readerIndex b) (u64 (m_writerIndex b + len))).

Definition unwrite (len : Z) (b : ByteBuffer) : bool * ByteBuffer :=
  if readableBytes b <? len then (false, b)
  else (true, mkByteBuffer (m_buffer b) (m_readerIndex b) (u64 (m_writerIndex b - len))).

(** [append(const char* data, size_t len)], which the overloads for
    [std::string] and [const void*] call. *)
Definition append (data : bytes) (b : ByteBuffer) : outcome ByteBuffer :=
  p ← ensureWritableBytes (zlen data) b;
  buf ← store (beginWrite (snd p)) data (m_buffer (snd p));
  Ret (snd (hasWritten (zlen data)
              (mkByteBuffer buf (m_readerIndex (snd p)) (m_writerIndex (snd p))))).

Definition appendInt64 (x : Z) (b : ByteBuffer) : outcome ByteBuffer :=
  let be64 := i64 (Endian.hostToNetwork64 (u64 x)) in append (int_bytes 8 be64) b.
Definition appendInt32 (x : Z) (b : ByteBuffer) : outcome ByteBuffer :=
  let be32 := i32 (Endian.hostToNetwork32 (u32 x)) in append (int_bytes 4 be32) b.
Definition appendInt16 (x : Z) (b : ByteBuffer) : outcome ByteBuffer :=
  let be16 := i16 (Endian.hostToNetwork16 (u16 x)) in append (int_bytes 2 be16) b.
Definition appendInt8 (x : Z) (b : ByteBuffer) : outcome ByteBuffer :=
  append (int_bytes 1 x) b.

Definition peekInt64 (b : ByteBuffer) : outcome Z :=
  if readableBytes b <? 8 then Ret (-1)
  else
    mem ← load (peek b) 8 (m_buffer b);
    let be64 := i64 (bytes_int mem) in
    Ret (i64 (Endian.networkToHost64 (u64 be64))).
Definition peekInt32 (b : ByteBuffer) : outcome Z :=
  if readableBytes b <? 4 then Ret (-1)
  else
    mem ← load (peek b) 4 (m_buffer b);
    let be32 := i32 (bytes_int mem) in
    Ret (i32 (Endian.networkToHost32 (u32 be32))).
Definition peekInt16 (b : ByteBuffer) : outcome Z :=
  if readableBytes b <? 2 then Ret (-1)
  else
    mem ← load (peek b) 2 (m_buffer b);
    let be16 := i16 (bytes_int mem) in
    Ret (i16 (Endian.networkToHost16 (u16 be16))).
Definition peekInt8 (b : ByteBuffer) : outcome Z :=
  if readableBytes b <? 1 then Ret (-1)
  else
    x ← load1 (peek b) (m_buffer b);
    Ret (schar x).

Definition readInt64 (b : ByteBuffer) : outcome (Z * ByteBuffer) :=
  result ← peekInt64 b; Ret (result, retrieveInt64 b).
Definition readInt32 (b : ByteBuffer) : outcome (Z * ByteBuffer) :=
  result ← peekInt32 b; Ret (result, retrieveInt32 b).
Definition readInt16 (b : ByteBuffer) : outcome (Z * ByteBuffer) :=
  result ← peekInt16 b; Ret (result, retrieveInt16 b).
Definition readInt8 (b : ByteBuffer) : outcome (Z * ByteBuffer) :=
  result ← peekInt8 b; Ret (result, retrieveInt8 b).

Definition prepend (data : bytes) (b : ByteBuffer) : outcome (bool * ByteBuffer) :=
  if prependableBytes b <? zlen data then Ret (false, b)
  else
    let r := u64 (m_readerIndex b - zlen data) in
    buf ← store r data (m_buffer b);
    Ret (true, mkByteBuffer buf r (m_writerIndex b)).

Definition prependInt64 (x : Z) (b : ByteBuffer) : outcome ByteBuffer :=
  let be64 := i64 (Endian.hostToNetwork64 (u64 x)) in snd <$> prepend (int_bytes 8 be64) b.
Definition prependInt32 (x : Z) (b : ByteBuffer) : outcome ByteBuffer :=
  let be32 := i32 (Endian.hostToNetwork32 (u32 x)) in snd <$> prepend (int_bytes 4 be32) b.
Definition prependInt16 (x : Z) (b : ByteBuffer) : outcome ByteBuffer :=
  let be16 := i16 (Endian.hostToNetwork16 (u16 x)) in snd <$> prepend (int_bytes 2 be16) b.
Definition prependInt8 (x : Z) (b : ByteBuffer) : outcome ByteBuffer :=
  snd <$> prepend (int_bytes 1 x) b.

Definition shrink (reserve : Z) (b : ByteBuffer) : outcome ByteBuffer :=
  other ← make kInitialSize;
  p ← ensureWritableBytes (u64 (readableBytes b + reserve)) other;
  s ← toStringPiece b;
  other' ← append s (snd p);
  Ret (fst (swap b other')).

(** [readFd]: [readv] into the writable part of the buffer and, when that part
    is smaller than 64 KiB, into a 64 KiB array on the stack.  The kernel's
    answer is an argument: the bytes it delivered (none of them at end of file) or an errno. *)
Inductive read_result : Type :=
| ReadBytes (d : bytes)
| ReadError (err : Z).

Definition extrabuf_size : Z := 65536.

(** What [readv] may deliver: at most the total length of the vectors. *)
Definition iov_capacity (b : ByteBuffer) : Z :=
  let writable := writableBytes b in
  if writable <? extrabuf_size then writable + extrabuf_size else writable.

(** Result, value stored through [savedErrno] (if stored), buffer; [errno] is
    the value of errno when [readv] returned 0. *)
Definition readFd (res : read_result) (errno : Z) (b : ByteBuffer)
    : outcome (Z * option Z * ByteBuffer) :=
  let writable := writableBytes b in
  match res with
  | ReadError err => Ret (-1, Some err, b)
  | ReadBytes d =>
      (* the kernel fills vec[0] first, then vec[1] *)
      let vec0 := take (Z.to_nat writable) d in
      let extrabuf := drop (Z.to_nat writable) d in
      let n := zlen d in
      buf ← store (m_writerIndex b) vec0 (m_buffer b);
      if n <=? 0 then Ret (i32 n, Some errno, b)
      else if n <=? writable then
        Ret (i32 n, None,
             mkByteBuffer buf (m_readerIndex b) (u64 (m_writerIndex b + n)))
      else
        b' ← append extrabuf (mkByteBuffer buf (m_readerIndex b) (zlen buf));
        Ret (i32 n, None, b')
  end.

(** ** The representation invariant and the abstract contents *)
Record wf (b : ByteBuffer) : Prop := {
  wf_reader : 0 <= m_readerIndex b;
  wf_writer : m_readerIndex b <= m_writerIndex b;
  wf_size : m_writerIndex b <= zlen (m_buffer b);
  wf_min : kCheapPrepend <= zlen (m_buffer b);
  wf_max : zlen (m_buffer b) <= vector_max_size
}.

(** The abstract value of a buffer: the bytes between its indices. *)
Definition contents (b : ByteBuffer) : bytes :=
  window (m_readerIndex b) (m_writerIndex b - m_readerIndex b) (m_buffer b).

Ltac wf_facts :=
  repeat match goal with
  | H : wf ?b |- _ =>
      lazymatch goal with
      | _ : m_readerIndex b <= m_writerIndex b |- _ => fail
      | _ => pose proof (wf_reader b H); pose proof (wf_writer b H);
             pose proof (wf_size b H); pose proof (wf_min b H); pose proof (wf_max b H)
      end
  end;
  unfold kCheapPrepend, vector_max_size in *.

Lemma readable_wf b : wf b -> readableBytes b = m_writerIndex b - m_readerIndex b.
Proof. intros. wf_facts. apply uwrap_small. lia. Qed.

Lemma writable_wf b : wf b -> writableBytes b = zlen (m_buffer b) - m_writerIndex b.
Proof. intros. wf_facts. apply uwrap_small. lia. Qed.

Lemma zlen_contents b : wf b -> zlen (contents b) = m_writerIndex b - m_readerIndex b.
Proof. intros. wf_facts. apply zlen_window; lia. Qed.

Lemma readable_contents b : wf b -> readableBytes b = zlen (contents b).
Proof. intros. by rewrite readable_wf, zlen_contents. Qed.

Lemma resize_grow n l :
  zlen l <= n <= vector_max_size ->
  resize n l = Ret (l ++ replicate (Z.to_nat (n - zlen l)) Byte.x00).
Proof.
  intros. unfold resize. destruct (Z.ltb_spec vector_max_size n); [lia|].
  rewrite take_ge; [done|]. unfold zlen in *. lia.
Qed.

Lemma zlen_grow n l :
  zlen l <= n -> zlen (l ++ replicate (Z.to_nat (n - zlen l)) Byte.x00) = n.
Proof. intros. zsimpl. unfold zlen in *. rewrite length_replicate. lia. Qed.

Lemma make_wf initialSize :
  0 <= initialSize <= vector_max_size - kCheapPrepend ->
  exists b, make initialSize = Ret b /\ wf b /\ contents b = [].
Proof.
  unfold kCheapPrepend, vector_max_size. intros.
  unfold make, kCheapPrepend. rewrite uwrap_small by lia.
  rewrite resize_grow by (unfold vector_max_size; zsimpl; lia).
  eexists. split; [reflexivity|]. split.
  - split; cbn [m_readerIndex m_writerIndex m_buffer];
      rewrite ?zlen_grow by (zsimpl; lia); unfold kCheapPrepend, vector_max_size; lia.
  - unfold contents. simpl. apply window_0.
Qed.

(** [makeSpace] makes room for [len] bytes without touching the contents, or
    throws because the grown vector would exceed [max_size]. *)
Lemma makeSpace_cases len b :
  wf b -> writableBytes b < len <= vector_max_size ->
  (exists b', makeSpace len b = Ret b' /\ wf b' /\ contents b' = contents b /\
    len <= zlen (m_buffer b') - m_writerIndex b') \/
  (makeSpace len b = Throw LengthError /\ vector_max_size < m_writerIndex b + len).
Proof.
  intros Hwf [Hlt Hle]. pose proof (writable_wf b Hwf) as Hw. rewrite Hw in Hlt.
  unfold makeSpace, prependableBytes. rewrite Hw, readable_wf by done.
  wf_facts. rewrite !uwrap_small by lia.
  destruct (Z.ltb_spec (zlen (m_buffer b) - m_writerIndex b + m_readerIndex b) (len + 8)).
  - destruct (Z.leb_spec (m_writerIndex b + len) vector_max_size) as [Hm|Hm];
      unfold vector_max_size in Hm.
    2:{ right. unfold resize, vector_max_size.
        destruct (Z.ltb_spec (2 ^ 63 - 1) (m_writerIndex b + len)); [done|lia]. }
    left. rewrite resize_grow by (unfold vector_max_size; lia).
    eexists. split; [reflexivity|].
    split; [|split]; cbn [m_readerIndex m_writerIndex m_buffer].
    + split; cbn [m_readerIndex m_writerIndex m_buffer];
        rewrite ?zlen_grow by lia; unfold kCheapPrepend, vector_max_size; lia.
    + unfold contents; simpl. by rewrite window_app_l by lia.
    + rewrite zlen_grow by lia. lia.
  - left. destruct (Z.leb_spec (m_readerIndex b) 8); [lia|].
    unfold range. rewrite load_ok by lia. cbn [mbind outcome_bind].
    change (window _ _ _) with (contents b).
    pose proof (zlen_contents b Hwf) as Hc.
    rewrite store_ok by (unfold kCheapPrepend; lia). cbn [mbind outcome_bind].
    eexists. split; [reflexivity|].
    split; [|split]; cbn [m_readerIndex m_writerIndex m_buffer].
    + split; cbn [m_readerIndex m_writerIndex m_buffer];
        rewrite ?zlen_splice by (unfold kCheapPrepend; lia);
        unfold kCheapPrepend, vector_max_size; lia.
    + unfold contents at 1; cbn [m_readerIndex m_writerIndex m_buffer].
      replace (8 + (m_writerIndex b - m_readerIndex b) - 8) with (zlen (contents b)) by lia.
      apply window_splice_same; unfold kCheapPrepend; lia.
    + rewrite zlen_splice by (unfold kCheapPrepend; lia). lia.
Qed.

Lemma ensureWritableBytes_cases len b :
  wf b -> len <= vector_max_size ->
  (exists b', ensureWritableBytes len b = Ret (true, b') /\ wf b' /\
    contents b' = contents b /\ len <= zlen (m_buffer b') - m_writerIndex b') \/
  (ensureWritableBytes len b = Throw LengthError /\
    vector_max_size < m_writerIndex b + len).
Proof.
  intros Hwf Hmax. unfold ensureWritableBytes.
  destruct (Z.ltb_spec (writableBytes b) len).
  - destruct (makeSpace_cases len b) as [(b' & -> & ?)|[-> ?]]; [done..| |by right].
    left. by exists b'.
  - left. exists b. rewrite writable_wf in * by done. simpl. done.
Qed.

(** ** [append], [retrieve], [prepend]: the buffer is a queue of bytes *)
Lemma append_cases d b :
  wf b -> zlen d <= vector_max_size ->
  (exists b', append d b = Ret b' /\ wf b' /\ contents b' = contents b ++ d) \/
  (append d b = Throw LengthError /\ vector_max_size < m_writerIndex b + zlen d).
Proof.
  intros Hwf Hmax. unfold append.
  destruct (ensureWritableBytes_cases (zlen d) b)
    as [(b1 & -> & Hwf1 & Hc1 & Hroom)|[-> ?]]; [done..| |by right].
  left. cbn [mbind outcome_bind snd]. unfold beginWrite.
  pose proof (zlen_nonneg d). wf_facts.
  rewrite store_ok by lia. cbn [mbind outcome_bind].
  unfold hasWritten. unfold writableBytes. cbn [m_readerIndex m_writerIndex m_buffer].
  rewrite zlen_splice, !uwrap_small by lia.
  destruct (Z.ltb_spec (zlen (m_buffer b1) - m_writerIndex b1) (zlen d)); [lia|].
  cbn [snd]. eexists. split; [reflexivity|]. split.
  - split; cbn [m_readerIndex m_writerIndex m_buffer]; rewrite ?zlen_splice by lia;
      unfold kCheapPrepend, vector_max_size; lia.
  - rewrite <- Hc1. unfold contents. cbn [m_readerIndex m_writerIndex m_buffer].
    rewrite <- window_splice_prefix by lia. f_equal. lia.
Qed.

Lemma append_ok d b :
  wf b -> m_writerIndex b + zlen d <= vector_max_size ->
  exists b', append d b = Ret b' /\ wf b' /\ contents b' = contents b ++ d.
Proof.
  intros Hwf Hmax.
  assert (0 <= m_writerIndex b) by (wf_facts; lia).
  destruct (append_cases d b) as [?|[? ?]]; [done|lia|done|lia].
Qed.

Lemma retrieve_ok len b :
  wf b -> 0 <= len <= zlen (contents b) ->
  exists b', retrieve len b = (true, b') /\ wf b' /\
    contents b' = drop (Z.to_nat len) (contents b).
Proof.
  intros Hwf Hlen. pose proof (zlen_contents b Hwf) as Hc.
  unfold retrieve. rewrite readable_wf by done. wf_facts.
  destruct (Z.ltb_spec (m_writerIndex b - m_readerIndex b) len); [lia|].
  destruct (Z.ltb_spec len (m_writerIndex b - m_readerIndex b)).
  - eexists. split; [reflexivity|]. rewrite uwrap_small by lia. split.
    + split; cbn [m_readerIndex m_writerIndex m_buffer];
        unfold kCheapPrepend, vector_max_size; lia.
    + unfold contents. cbn [m_readerIndex m_writerIndex m_buffer].
      rewrite drop_window by lia. f_equal. lia.
  - eexists. split; [reflexivity|]. split.
    + split; cbn [retrieveAll m_readerIndex m_writerIndex m_buffer];
        unfold kCheapPrepend, vector_max_size; lia.
    + rewrite drop_ge by (unfold zlen in *; lia). apply window_0.
Qed.

Lemma retrieve_refused len b :
  wf b -> zlen (contents b) < len -> retrieve len b = (false, b).
Proof.
  intros Hwf Hlen. unfold retrieve. rewrite readable_contents by done.
  by destruct (Z.ltb_spec (zlen (contents b)) len); [|lia].
Qed.

Lemma retrieveAll_ok b : wf b -> wf (retrieveAll b) /\ contents (retrieveAll b) = [].
Proof.
  intros. wf_facts. split; [|apply window_0].
  split; cbn [retrieveAll m_readerIndex m_writerIndex m_buffer];
    unfold kCheapPrepend, vector_max_size; lia.
Qed.

Lemma prepend_ok d b :
  wf b -> zlen d <= m_readerIndex b ->
  exists b', prepend d b = Ret (true, b') /\ wf b' /\ contents b' = d ++ contents b.
Proof.
  intros Hwf Hd. unfold prepend, prependableBytes. wf_facts.
  pose proof (zlen_nonneg d).
  destruct (Z.ltb_spec (m_readerIndex b) (zlen d)); [lia|].
  rewrite uwrap_small by lia. rewrite store_ok by lia. cbn [mbind outcome_bind].
  eexists. split; [reflexivity|]. split.
  - split; cbn [m_readerIndex m_writerIndex m_buffer]; rewrite ?zlen_splice by lia;
      unfold kCheapPrepend, vector_max_size; lia.
  - unfold contents. cbn [m_readerIndex m_writerIndex m_buffer].
    replace (m_writerIndex b - (m_readerIndex b - zlen d)) with
      (zlen d + (m_writerIndex b - m_readerIndex b)) by lia.
    rewrite <- window_app by lia. rewrite window_splice_same by lia.
    rewrite window_splice_after by lia. f_equal. f_equal. lia.
Qed.

Lemma unwrite_ok len b :
  wf b -> 0 <= len <= zlen (contents b) ->
  exists b', unwrite len b = (true, b') /\ wf b' /\
    contents b' = take (Z.to_nat (zlen (contents b) - len)) (contents b).
Proof.
  intros Hwf Hlen. pose proof (zlen_contents b Hwf) as Hc.
  unfold unwrite. rewrite readable_wf by done. wf_facts.
  destruct (Z.ltb_spec (m_writerIndex b - m_readerIndex b) len); [lia|].
  rewrite uwrap_small by lia. eexists. split; [reflexivity|]. split.
  - split; cbn [m_readerIndex m_writerIndex m_buffer];
      unfold kCheapPrepend, vector_max_size; lia.
  - rewrite Hc. unfold contents. cbn [m_readerIndex m_writerIndex m_buffer].
    rewrite take_window by lia. f_equal. lia.
Qed.

Lemma load_contents n b :
  wf b -> 0 <= n <= zlen (contents b) ->
  load (peek b) n (m_buffer b) = Ret (take (Z.to_nat n) (contents b)).
Proof.
  intros Hwf Hn. pose proof (zlen_contents b Hwf). wf_facts. unfold peek, contents.
  rewrite load_ok by lia. by rewrite take_window by lia.
Qed.

Lemma retrieveAsString_ok len b :
  wf b -> 0 <= len <= zlen (contents b) -> len <= string_max_size ->
  exists b', retrieveAsString len b = Ret (take (Z.to_nat len) (contents b), b') /\
    wf b' /\ contents b' = drop (Z.to_nat len) (contents b).
Proof.
  intros Hwf Hlen Hmax. unfold retrieveAsString, make_string.
  rewrite readable_contents by done.
  destruct (Z.ltb_spec (zlen (contents b)) len); [lia|].
  destruct (Z.ltb_spec string_max_size len); [lia|].
  rewrite load_contents by done. cbn [mbind outcome_bind].
  destruct (retrieve_ok len b) as (b' & -> & ?); [done..|]. by exists b'.
Qed.

Lemma toStringPiece_ok b :
  wf b -> zlen (contents b) < 2 ^ 31 -> toStringPiece b = Ret (contents b).
Proof.
  intros Hwf Hlt. pose proof (zlen_nonneg (contents b)).
  unfold toStringPiece, make_string. rewrite readable_contents by done.
  rewrite swrap_small by (unfold srange; lia). rewrite uwrap_small by lia.
  destruct (Z.ltb_spec string_max_size (zlen (contents b))).
  { unfold string_max_size in *. lia. }
  rewrite load_contents by (done || lia). unfold zlen. rewrite Nat2Z.id.
  by rewrite take_ge by lia.
Qed.

Lemma iov_capacity_nonneg b : 0 <= iov_capacity b.
Proof.
  assert (0 <= writableBytes b) by (apply uwrap_range; lia).
  unfold iov_capacity, extrabuf_size. case_match; lia.
Qed.

(** [readFd] appends exactly what the kernel delivered. *)
Lemma readFd_cases d errno b :
  wf b -> zlen d <= iov_capacity b ->
  (exists so b', readFd (ReadBytes d) errno b = Ret (i32 (zlen d), so, b') /\ wf b' /\
     contents b' = contents b ++ d) \/
  (readFd (ReadBytes d) errno b = Throw LengthError /\
     vector_max_size < zlen (m_buffer b) + zlen d).
Proof.
  intros Hwf Hcap. unfold readFd. rewrite writable_wf by done.
  pose proof (zlen_nonneg d) as Hd0.
  pose proof (take_drop (Z.to_nat (zlen (m_buffer b) - m_writerIndex b)) d) as Htd.
  set (v0 := take _ d) in *. set (v1 := drop _ d) in *.
  assert (zlen v0 <= zlen (m_buffer b) - m_writerIndex b) as H0.
  { unfold v0, zlen. rewrite length_take. unfold zlen. wf_facts. unfold zlen in *. lia. }
  pose proof (zlen_nonneg v0). wf_facts.
  assert (zlen (splice (m_writerIndex b) v0 (m_buffer b)) = zlen (m_buffer b)) as Hsp
    by (rewrite zlen_splice by lia; done).
  rewrite store_ok by lia. cbn [mbind outcome_bind].
  destruct (Z.leb_spec (zlen d) 0).
  { left. do 2 eexists. split; [reflexivity|]. split; [done|].
    rewrite (nil_length_inv d) by (unfold zlen in *; lia). by rewrite app_nil_r. }
  destruct (Z.leb_spec (zlen d) (zlen (m_buffer b) - m_writerIndex b)) as [Hle|Hgt].
  - left. do 2 eexists. split; [reflexivity|]. rewrite uwrap_small by lia.
    assert (v0 = d) as Hv0 by (apply take_ge; unfold zlen in *; lia).
    rewrite Hv0 in *. split.
    + split; cbn [m_readerIndex m_writerIndex m_buffer]; rewrite ?Hsp;
        unfold kCheapPrepend, vector_max_size; lia.
    + unfold contents. cbn [m_readerIndex m_writerIndex m_buffer].
      rewrite <- window_splice_prefix by lia. f_equal. lia.
  - assert (zlen v0 = zlen (m_buffer b) - m_writerIndex b) as Hv0.
    { unfold v0, zlen. rewrite length_take. unfold zlen in *. lia. }
    set (b1 := mkByteBuffer _ _ _).
    assert (wf b1) as Hwf1.
    { split; cbn [b1 m_readerIndex m_writerIndex m_buffer]; rewrite ?Hsp;
        unfold kCheapPrepend, vector_max_size; lia. }
    assert (contents b1 = contents b ++ v0) as Hc1.
    { unfold contents. cbn [b1 m_readerIndex m_writerIndex m_buffer].
      rewrite <- window_splice_prefix by lia. f_equal. lia. }
    assert (zlen d = zlen v0 + zlen v1) as Hsum by (rewrite <- Htd; by zsimpl).
    assert (zlen v1 <= extrabuf_size) as Hv1.
    { revert Hcap. unfold iov_capacity. rewrite writable_wf by done. case_match; lia. }
    destruct (append_cases v1 b1) as [(b' & -> & ? & Hc)|[-> Hm]];
      [done|unfold extrabuf_size, vector_max_size in *; lia| |].
    + left. cbn [mbind outcome_bind]. do 2 eexists. split; [reflexivity|].
      split; [done|]. rewrite Hc, Hc1, <- app_assoc. by rewrite Htd.
    + right. split; [done|]. revert Hm. cbn [b1 m_writerIndex]. rewrite Hsp. unfold vector_max_size. lia.
Qed.

(** ** Integers *)
Lemma peekInt_wire n x b rest :
  wf b -> contents b = Endian.be_bytes n x ++ rest ->
  load (peek b) (Z.of_nat n) (m_buffer b) = Ret (Endian.be_bytes n x) /\
  (readableBytes b <? Z.of_nat n) = false.
Proof.
  intros Hwf Hc. pose proof (zlen_nonneg rest).
  rewrite load_contents, readable_contents; [|done..|].
  - rewrite Hc. zsimpl. split.
    + f_equal. rewrite take_app_le, take_ge; [done|..];
        rewrite Endian.length_be_bytes; lia.
    + apply Z.ltb_ge. lia.
  - rewrite Hc. zsimpl. lia.
Qed.

(** The value an integer of [8 * n] bits has after a trip through its
    network representation. *)
Lemma wire_int (n : nat) (w x : Z) :
  w = Z.of_nat n * 8 -> 0 < w -> srange w x ->
  swrap w (Endian.bswap n (uwrap w (swrap w (bytes_int (Endian.be_bytes n x))))) = x.
Proof.
  intros -> Hw Hx. rewrite uwrap_swrap by done.
  rewrite (Endian.bswap_congr n _ (bytes_int (Endian.be_bytes n x))).
  - rewrite Endian.bswap_be_bytes. change (?z mod 2 ^ ?w) with (uwrap w z).
    rewrite swrap_uwrap by done. by apply swrap_small.
  - unfold uwrap. by rewrite Z.mod_mod by (apply Z.pow_nonzero; lia).
Qed.

(** The bytes an [appendInt] or [prependInt] puts in the buffer. *)
Lemma wire_bytes (n : nat) (w x : Z) :
  w = Z.of_nat n * 8 -> 0 < w ->
  int_bytes n (swrap w (Endian.bswap n (uwrap w x))) = Endian.be_bytes n x.
Proof.
  intros -> Hw. rewrite (int_bytes_congr n _ (Endian.bswap n (uwrap (Z.of_nat n * 8) x))).
  - rewrite Endian.int_bytes_bswap. apply Endian.be_bytes_congr.
    unfold uwrap. by rewrite Z.mod_mod by (apply Z.pow_nonzero; lia).
  - apply swrap_mod. lia.
Qed.

Lemma peekInt64_ok x b rest :
  wf b -> srange 64 x -> contents b = Endian.be_bytes 8 x ++ rest -> peekInt64 b = Ret x.
Proof.
  intros Hwf Hx Hc. destruct (peekInt_wire 8 x b rest) as [Hl Hr]; [done..|].
  unfold peekInt64. change 8 with (Z.of_nat 8) at 1 2. rewrite Hr, Hl.
  cbn [mbind outcome_bind]. f_equal. by apply (wire_int 8 64).
Qed.

Lemma peekInt32_ok x b rest :
  wf b -> srange 32 x -> contents b = Endian.be_bytes 4 x ++ rest -> peekInt32 b = Ret x.
Proof.
  intros Hwf Hx Hc. destruct (peekInt_wire 4 x b rest) as [Hl Hr]; [done..|].
  unfold peekInt32. change 4 with (Z.of_nat 4) at 1 2. rewrite Hr, Hl.
  cbn [mbind outcome_bind]. f_equal. by apply (wire_int 4 32).
Qed.

Lemma peekInt16_ok x b rest :
  wf b -> srange 16 x -> contents b = Endian.be_bytes 2 x ++ rest -> peekInt16 b = Ret x.
Proof.
  intros Hwf Hx Hc. destruct (peekInt_wire 2 x b rest) as [Hl Hr]; [done..|].
  unfold peekInt16. change 2 with (Z.of_nat 2) at 1 2. rewrite Hr, Hl.
  cbn [mbind outcome_bind]. f_equal. by apply (wire_int 2 16).
Qed.

Lemma peekInt8_ok x b rest :
  wf b -> srange 8 x -> contents b = int_bytes 1 x ++ rest -> peekInt8 b = Ret x.
Proof.
  intros Hwf Hx Hc. pose proof (zlen_nonneg rest).
  assert (zlen (contents b) = 1 + zlen rest) as Hlen by (rewrite Hc; by zsimpl).
  unfold peekInt8. rewrite readable_contents by done.
  destruct (Z.ltb_spec (zlen (contents b)) 1); [lia|].
  assert (load1 (peek b) (m_buffer b) = Ret (byte.of_Z x)) as ->.
  { rewrite zlen_contents in Hlen by done. wf_facts.
    destruct (load1_ok (peek b) (m_buffer b)) as (c & Hc1 & ->); [unfold peek; lia|].
    f_equal. revert Hc Hc1. unfold contents, window, peek.
    replace (Z.to_nat (m_writerIndex b - m_readerIndex b)) with
      (S (Z.to_nat (m_writerIndex b - m_readerIndex b - 1))) by lia.
    intros Hc Hl. erewrite drop_S in Hc by exact Hl. by inversion Hc. }
  cbn [mbind outcome_bind]. unfold schar. rewrite byte.unsigned_of_Z.
  change (byte.wrap x) with (uwrap 8 x). rewrite swrap_uwrap by lia.
  by rewrite swrap_small by (done || lia).
Qed.

Lemma be_bytes_app_drop n x rest :
  drop (Z.to_nat (Z.of_nat n)) (Endian.be_bytes n x ++ rest) = rest.
Proof.
  rewrite Nat2Z.id, drop_app_le, drop_ge; [done|..]; rewrite Endian.length_be_bytes; lia.
Qed.

(** A write of an integer of any width at the back of an empty buffer, or at
    the front of any buffer, followed by the read of that width. *)
Definition reads_back (x : Z) (b b1 : ByteBuffer)
    (read : ByteBuffer -> outcome (Z * ByteBuffer)) : Prop :=
  exists b2, read b1 = Ret (x, b2) /\ wf b2 /\ contents b2 = contents b.

Lemma reads_back_intro (n : nat) (x : Z) (b b1 : ByteBuffer) (wire : bytes) peekN retrieveN :
  wf b1 -> zlen wire = Z.of_nat n -> contents b1 = wire ++ contents b ->
  peekN b1 = Ret x -> (forall b, retrieveN b = snd (retrieve (Z.of_nat n) b)) ->
  reads_back x b b1 (fun b => result ← peekN b; Ret (result, retrieveN b)).
Proof.
  intros Hwf Hlen Hc Hp Hr. unfold reads_back. rewrite Hp. cbn [mbind outcome_bind].
  pose proof (zlen_nonneg (contents b)).
  destruct (retrieve_ok (Z.of_nat n) b1) as (b2 & Hr2 & Hwf2 & Hc2); [done| |].
  { rewrite Hc. zsimpl. lia. }
  exists b2. rewrite Hr, Hr2. split; [done|]. split; [done|].
  rewrite Hc2, Hc, <- Hlen. unfold zlen. rewrite Nat2Z.id. apply drop_app_length.
Qed.

Definition write_read_ok (w n : Z) (x : Z) (b : ByteBuffer)
    (appendN prependN : Z -> ByteBuffer -> outcome ByteBuffer)
    (readN : ByteBuffer -> outcome (Z * ByteBuffer)) : Prop :=
  srange w x ->
  (contents b = [] -> m_writerIndex b + n <= vector_max_size ->
   exists b1, appendN x b = Ret b1 /\ reads_back x b b1 readN) /\
  (n <= m_readerIndex b ->
   exists b1, prependN x b = Ret b1 /\ reads_back x b b1 readN).

Lemma write_read_intro (n : nat) w x b appendN prependN peekN retrieveN wire :
  wf b -> zlen wire = Z.of_nat n ->
  appendN x b = append wire b -> prependN x b = snd <$> prepend wire b ->
  (forall b', wf b' -> srange w x -> forall rest, contents b' = wire ++ rest -> peekN b' = Ret x) ->
  (forall b, retrieveN b = snd (retrieve (Z.of_nat n) b)) ->
  write_read_ok w (Z.of_nat n) x b appendN prependN
    (fun b => result ← peekN b; Ret (result, retrieveN b)).
Proof.
  intros Hwf Hlen Ha Hp Hpeek Hret Hx. rewrite Ha, Hp. split.
  - intros He Hmax. destruct (append_ok wire b) as (b1 & Hb1 & Hwf1 & Hc1); [done|lia|].
    exists b1. split; [done|]. rewrite He in Hc1.
    apply (reads_back_intro n x b b1 wire); rewrite ?He, ?app_nil_r; eauto.
    apply (Hpeek b1 Hwf1 Hx []). by rewrite app_nil_r.
  - intros Hroom. destruct (prepend_ok wire b) as (b1 & -> & Hwf1 & Hc1); [done|lia|].
    exists b1. split; [done|]. by apply (reads_back_intro n x b b1 wire); eauto.
Qed.

(** The integer codec of the buffer.  For each width (64, 32, 16, 8 bits)
    and every value [x] of that width, an [appendInt] of [x] on an empty buffer
    and a [prependInt] of [x] on any buffer with room in front succeed, and the
    matching [readInt] then returns [x] and leaves the buffer with the contents
    it had before. *)
Theorem integers_roundtrip (x : Z) (b : ByteBuffer) :
  wf b ->
  write_read_ok 64 8 x b appendInt64 prependInt64 readInt64 /\
  write_read_ok 32 4 x b appendInt32 prependInt32 readInt32 /\
  write_read_ok 16 2 x b appendInt16 prependInt16 readInt16 /\
  write_read_ok 8 1 x b appendInt8 prependInt8 readInt8.
Proof.
  intros Hwf. split; [|split; [|split]].
  - apply (write_read_intro 8 64 x b appendInt64 prependInt64 peekInt64 retrieveInt64
      (Endian.be_bytes 8 x)); [done|by zsimpl|..]; try done.
    + unfold appendInt64, Endian.hostToNetwork64. by rewrite (wire_bytes 8 64) by lia.
    + unfold prependInt64, Endian.hostToNetwork64. by rewrite (wire_bytes 8 64) by lia.
    + intros; by eapply peekInt64_ok.
  - apply (write_read_intro 4 32 x b appendInt32 prependInt32 peekInt32 retrieveInt32
      (Endian.be_bytes 4 x)); [done|by zsimpl|..]; try done.
    + unfold appendInt32, Endian.hostToNetwork32. by rewrite (wire_bytes 4 32) by lia.
    + unfold prependInt32, Endian.hostToNetwork32. by rewrite (wire_bytes 4 32) by lia.
    + intros; by eapply peekInt32_ok.
  - apply (write_read_intro 2 16 x b appendInt16 prependInt16 peekInt16 retrieveInt16
      (Endian.be_bytes 2 x)); [done|by zsimpl|..]; try done.
    + unfold appendInt16, Endian.hostToNetwork16. by rewrite (wire_bytes 2 16) by lia.
    + unfold prependInt16, Endian.hostToNetwork16. by rewrite (wire_bytes 2 16) by lia.
    + intros; by eapply peekInt16_ok.
  - apply (write_read_intro 1 8 x b appendInt8 prependInt8 peekInt8 retrieveInt8
      (int_bytes 1 x)); [done|by zsimpl|..]; try done.
    intros; by eapply peekInt8_ok.
Qed.

Definition sample : ByteBuffer := mkByteBuffer (replicate 64 Byte.x00) 8 8.
Lemma sample_wf : wf sample.
Proof. by split; vm_compute. Qed.

Lemma integers_roundtrip_witness :
  wf sample /\ write_read_ok 32 4 (-2) sample appendInt32 prependInt32 readInt32.
Proof.
  split; [apply sample_wf|]. apply (integers_roundtrip (-2) sample), sample_wf.
Defined.

(** ** The buffer as an abstract queue of bytes

    An operation of a client, what it observes, and what the operation may do
    to a plain list of bytes.  Only [prepend] is underspecified: whether there
    is room in front of the data depends on the history. *)
Inductive op : Type :=
| OpAppend (d : bytes)
| OpPrepend (d : bytes)
| OpRetrieve (len : Z)
| OpRetrieveAll
| OpRetrieveAsString (len : Z)
| OpUnwrite (len : Z)
| OpReadFd (kernel : Z -> bytes).

Inductive obs : Type :=
| ObsUnit
| ObsBool (ok : bool)
| ObsBytes (d : bytes).

Definition step (o : op) (b : ByteBuffer) : outcome (obs * ByteBuffer) :=
  match o with
  | OpAppend d => b' ← append d b; Ret (ObsUnit, b')
  | OpPrepend d => p ← prepend d b; Ret (ObsBool (fst p), snd p)
  | OpRetrieve len => let p := retrieve len b in Ret (ObsBool (fst p), snd p)
  | OpRetrieveAll => Ret (ObsUnit, retrieveAll b)
  | OpRetrieveAsString len => p ← retrieveAsString len b; Ret (ObsBytes (fst p), snd p)
  | OpUnwrite len => let p := unwrite len b in Ret (ObsBool (fst p), snd p)
  | OpReadFd kernel =>
      p ← readFd (ReadBytes (kernel (iov_capacity b))) 0 b;
      Ret (ObsUnit, snd p)
  end.

Fixpoint run (os : list op) (b : ByteBuffer) : outcome (list obs * ByteBuffer) :=
  match os with
  | [] => Ret ([], b)
  | o :: os' =>
      p ← step o b;
      q ← run os' (snd p);
      Ret (fst p :: fst q, snd q)
  end.

Inductive queue_step : op -> obs -> bytes -> bytes -> Prop :=
| QAppend d q : queue_step (OpAppend d) ObsUnit q (q ++ d)
| QPrepend d q : queue_step (OpPrepend d) (ObsBool true) q (d ++ q)
| QPrependFull d q : queue_step (OpPrepend d) (ObsBool false) q q
| QRetrieve len q : len <= zlen q ->
    queue_step (OpRetrieve len) (ObsBool true) q (drop (Z.to_nat len) q)
| QRetrieveShort len q : zlen q < len ->
    queue_step (OpRetrieve len) (ObsBool false) q q
| QRetrieveAll q : queue_step OpRetrieveAll ObsUnit q []
| QString len q : len <= zlen q ->
    queue_step (OpRetrieveAsString len) (ObsBytes (take (Z.to_nat len) q)) q
      (drop (Z.to_nat len) q)
| QStringShort len q : zlen q < len ->
    queue_step (OpRetrieveAsString len) (ObsBytes []) q q
| QUnwrite len q : len <= zlen q ->
    queue_step (OpUnwrite len) (ObsBool true) q (take (Z.to_nat (zlen q - len)) q)
| QUnwriteShort len q : zlen q < len ->
    queue_step (OpUnwrite len) (ObsBool false) q q
| QReadFd kernel cap q : queue_step (OpReadFd kernel) ObsUnit q (q ++ kernel cap).

Inductive queue_run : list op -> list obs -> bytes -> bytes -> Prop :=
| QDone q : queue_run [] [] q q
| QMore o os ob obs q q1 q2 :
    queue_step o ob q q1 -> queue_run os obs q1 q2 -> queue_run (o :: os) (ob :: obs) q q2.

(** Arguments a C++ caller can pass: counts are [size_t]s, data are objects in
    memory, and [readv] delivers at most what it was asked for. *)
Definition op_ok (o : op) : Prop :=
  match o with
  | OpAppend d | OpPrepend d => zlen d <= vector_max_size
  | OpRetrieve len | OpRetrieveAsString len | OpUnwrite len => 0 <= len < 2 ^ 64
  | OpRetrieveAll => True
  | OpReadFd kernel => forall cap, 0 <= cap -> zlen (kernel cap) <= cap
  end.

Lemma step_refines o b :
  wf b -> op_ok o ->
  match step o b with
  | Ret (ob, b') => wf b' /\ queue_step o ob (contents b) (contents b')
  | Throw e => e = LengthError
  | Undef _ => False
  end.
Proof.
  intros Hwf Hok. destruct o as [d|d|len| |len|len|kernel]; cbn [step op_ok] in *.
  - destruct (append_cases d b) as [(b' & -> & ? & Hc)|[-> ?]]; [done..| |done].
    cbn. split; [done|]. rewrite Hc. constructor.
  - destruct (Z.leb_spec (zlen d) (m_readerIndex b)).
    + destruct (prepend_ok d b) as (b' & -> & ? & Hc); [done..|].
      cbn. split; [done|]. rewrite Hc. constructor.
    + unfold prepend, prependableBytes.
      destruct (Z.ltb_spec (m_readerIndex b) (zlen d)); [|lia].
      cbn. split; [done|]. constructor.
  - destruct (Z.leb_spec len (zlen (contents b))).
    + destruct (retrieve_ok len b) as (b' & -> & ? & Hc); [done|lia|].
      cbn. split; [done|]. rewrite Hc. by constructor.
    + rewrite retrieve_refused by done. cbn. split; [done|]. by constructor.
  - destruct (retrieveAll_ok b Hwf) as [? Hc]. split; [done|]. rewrite Hc. constructor.
  - destruct (Z.leb_spec len (zlen (contents b))).
    + destruct (Z.leb_spec len string_max_size).
      * destruct (retrieveAsString_ok len b) as (b' & -> & ? & Hc); [done|lia|done|].
        cbn. split; [done|]. rewrite Hc. by constructor.
      * unfold retrieveAsString, make_string. rewrite readable_contents by done.
        destruct (Z.ltb_spec (zlen (contents b)) len); [lia|].
        by destruct (Z.ltb_spec string_max_size len); [|lia].
    + unfold retrieveAsString. rewrite readable_contents by done.
      destruct (Z.ltb_spec (zlen (contents b)) len); [|lia].
      cbn. split; [done|]. by constructor.
  - destruct (Z.leb_spec len (zlen (contents b))).
    + destruct (unwrite_ok len b) as (b' & -> & ? & Hc); [done|lia|].
      cbn. split; [done|]. rewrite Hc. by constructor.
    + unfold unwrite. rewrite readable_contents by done.
      destruct (Z.ltb_spec (zlen (contents b)) len); [|lia].
      cbn. split; [done|]. by constructor.
  - destruct (readFd_cases (kernel (iov_capacity b)) 0 b)
      as [(so & b' & -> & ? & Hc)|[-> ?]]; [done|apply Hok, iov_capacity_nonneg| |done].
    cbn. split; [done|]. rewrite Hc. constructor.
Qed.

Lemma run_refines os b :
  wf b -> Forall op_ok os ->
  match run os b with
  | Ret (obs, b') => wf b' /\ queue_run os obs (contents b) (contents b')
  | Throw e => e = LengthError
  | Undef _ => False
  end.
Proof.
  revert b. induction os as [|o os IH]; intros b Hwf Hok; cbn [run].
  { split; [done|constructor]. }
  inversion_clear Hok as [|? ? Ho Hos].
  pose proof (step_refines o b Hwf Ho) as Hs.
  destruct (step o b) as [[ob b1]|e|u]; [|done..].
  destruct Hs as [Hwf1 Hq]. cbn [mbind outcome_bind fst snd].
  specialize (IH b1 Hwf1 Hos).
  destruct (run os b1) as [[obs b2]|e|u]; [|done..].
  destruct IH as [Hwf2 Hr]. cbn. split; [done|]. by econstructor.
Qed.

(** C17: the byte buffer refines a queue of bytes.  Starting from a freshly
    constructed buffer of any initial size, every sequence of appends,
    prepends, retrieves, unwrites and kernel reads either throws
    [std::length_error], or returns with what a plain byte queue would have let
    the client observe, its readable bytes equal to the queue, and its indices
    well formed; it never accesses memory outside the vector. *)
Theorem buffer_refines_queue (initialSize : Z) (os : list op) :
  0 <= initialSize <= vector_max_size - kCheapPrepend -> Forall op_ok os ->
  exists b0, make initialSize = Ret b0 /\
  match run os b0 with
  | Ret (obs, b) => wf b /\ queue_run os obs [] (contents b)
  | Throw e => e = LengthError
  | Undef _ => False
  end.
Proof.
  intros Hsz Hok. destruct (make_wf initialSize Hsz) as (b0 & Hb0 & Hwf & Hc).
  exists b0. split; [done|]. rewrite <- Hc. by apply run_refines.
Qed.

Definition sample_ops : list op :=
  [OpAppend (lit "hello"); OpRetrieve 2; OpPrepend (lit "je"); OpUnwrite 1;
   OpReadFd (fun cap => take (Z.to_nat cap) (lit " world")); OpRetrieveAsString 3].

Lemma buffer_refines_queue_witness :
  (exists b0, make 4 = Ret b0 /\
     match run sample_ops b0 with
     | Ret (obs, b) => wf b /\ queue_run sample_ops obs [] (contents b)
     | Throw e => e = LengthError
     | Undef _ => False
     end) /\
  (b0 ← make 4; p ← run sample_ops b0; Ret (fst p, contents (snd p))) =
    Ret ([ObsUnit; ObsBool true; ObsBool true; ObsBool true; ObsUnit; ObsBytes (lit "jel")],
         lit "l world").
Proof.
  split; [|vm_compute; reflexivity].
  apply (buffer_refines_queue 4 sample_ops).
  - unfold vector_max_size, kCheapPrepend. lia.
  - unfold sample_ops. repeat constructor; try (by vm_compute); try lia.
    intros cap ?. unfold zlen. rewrite length_take. lia.
Defined.

(** ** Searching and shrinking *)
Lemma range_contents b :
  wf b -> range (peek b) (beginWrite b) b = Ret (contents b).
Proof.
  intros Hwf. unfold range, peek, beginWrite. wf_facts. by rewrite load_ok by lia.
Qed.

Lemma retrieveUntil_ok p b :
  wf b -> m_readerIndex b <= p <= m_writerIndex b ->
  exists b', retrieveUntil p b = (true, b') /\ wf b' /\
    contents b' = drop (Z.to_nat (p - m_readerIndex b)) (contents b).
Proof.
  intros Hwf Hp. unfold retrieveUntil, peek, beginWrite.
  destruct (Z.ltb_spec p (m_readerIndex b)); [lia|].
  destruct (Z.ltb_spec (m_writerIndex b) p); [lia|].
  destruct (retrieve_ok (p - m_readerIndex b) b) as (b' & -> & ?); [done| |by exists b'].
  rewrite zlen_contents by done. lia.
Qed.

(** line extraction.  On a well-formed buffer [findCRLF] returns the
    position of the first "\r\n" of the readable bytes, and nullptr exactly when
    there is none; [retrieveUntil] the end of that line then succeeds and leaves
    what follows the line. *)
Theorem findCRLF_first_line (b : ByteBuffer) :
  wf b ->
  exists r, findCRLF b = Ret r /\
  match r with
  | None => forall i, is_prefix kCRLF (drop i (contents b)) = false
  | Some p =>
      exists line rest b', contents b = line ++ kCRLF ++ rest /\
        p = m_readerIndex b + zlen line /\
        (forall i, (i < length line)%nat -> is_prefix kCRLF (drop i (contents b)) = false) /\
        retrieveUntil (p + 2) b = (true, b') /\ wf b' /\ contents b' = rest
  end.
Proof.
  intros Hwf. unfold findCRLF. rewrite range_contents by done. cbn [mbind outcome_bind].
  eexists. split; [reflexivity|]. pose proof (zlen_contents b Hwf) as Hlen.
  pose proof (search_le kCRLF (contents b)) as Hle.
  unfold peek, beginWrite, zlen in *.
  destruct (Z.eqb_spec (m_readerIndex b + Z.of_nat (search kCRLF (contents b)))
    (m_writerIndex b)) as [He|Hne].
  - apply search_none; [done|]. lia.
  - destruct (search_spec kCRLF (contents b)) as [Hp Hfirst]; [done|lia|].
    set (k := search kCRLF (contents b)) in *.
    apply is_prefix_spec in Hp as [rest Hrest].
    assert (length (contents b) = k + 2 + length rest)%nat as Hl.
    { pose proof (f_equal length Hrest) as Hd. rewrite length_drop, length_app in Hd.
      simpl in Hd. lia. }
    wf_facts.
    destruct (retrieveUntil_ok (m_readerIndex b + Z.of_nat k + 2) b)
      as (b' & Hb' & Hwf' & Hc'); [done|lia|].
    exists (take k (contents b)), rest, b'. split_and!; try done.
    + rewrite <- Hrest. by rewrite take_drop.
    + rewrite length_take. lia.
    + intros i Hi. apply Hfirst. rewrite length_take in Hi. lia.
    + rewrite Hc'. replace (Z.to_nat _) with (k + 2)%nat by lia.
      rewrite <- drop_drop, Hrest. done.
Qed.

Lemma findCRLF_first_line_witness :
  exists b, append (lit "ab" ++ kCRLF ++ lit "c") sample = Ret b /\ wf b /\
    exists r, findCRLF b = Ret r /\ r = Some 10 /\
  match r with
  | None => forall i, is_prefix kCRLF (drop i (contents b)) = false
  | Some p =>
      exists line rest b', contents b = line ++ kCRLF ++ rest /\
        p = m_readerIndex b + zlen line /\
        (forall i, (i < length line)%nat -> is_prefix kCRLF (drop i (contents b)) = false) /\
        retrieveUntil (p + 2) b = (true, b') /\ wf b' /\ contents b' = rest
  end.
Proof.
  destruct (append_ok (lit "ab" ++ kCRLF ++ lit "c") sample sample_wf) as (b & Hb & Hwf & _).
  { by vm_compute. }
  exists b. split; [done|]. split; [done|].
  destruct (findCRLF_first_line b Hwf) as (r & Hr & Hspec).
  exists r. split; [done|]. split; [|done].
  vm_compute in Hb. injection Hb as <-. vm_compute in Hr. by injection Hr as <-.
Defined.

(** [shrink] keeps the contents of a buffer with less than 2 GiB to read (the
    cast to [int] in [toStringPiece] is why there is a bound). *)
Lemma shrink_ok reserve b :
  wf b -> zlen (contents b) < 2 ^ 31 -> 0 <= reserve < 2 ^ 62 ->
  exists b', shrink reserve b = Ret b' /\ wf b' /\ contents b' = contents b.
Proof.
  intros Hwf Hlen Hres. pose proof (zlen_nonneg (contents b)).
  unfold shrink, make, kInitialSize, kCheapPrepend.
  rewrite (uwrap_small 64 (8 + 1024)) by lia.
  rewrite resize_grow by (unfold vector_max_size; zsimpl; lia). cbn [mbind outcome_bind].
  set (o := mkByteBuffer _ 8 8).
  assert (wf o) as Hwfo by (by split; vm_compute).
  rewrite readable_contents, uwrap_small by (done || lia).
  destruct (ensureWritableBytes_cases (zlen (contents b) + reserve) o)
    as [(o1 & -> & Hwf1 & Hc1 & Hroom)|[_ Hbad]]; [done|..].
  { unfold vector_max_size. lia. }
  2:{ unfold vector_max_size in Hbad. cbn [o m_writerIndex] in Hbad. lia. }
  cbn [mbind outcome_bind snd]. rewrite toStringPiece_ok by done. cbn [mbind outcome_bind].
  destruct (append_ok (contents b) o1) as (o2 & -> & Hwf2 & Hc2); [done|wf_facts; lia|].
  cbn. eexists. split; [reflexivity|].
  destruct o2; cbn in *. split; [done|].
  change (contents _ = contents b) with
    (contents {| m_buffer := m_buffer0; m_readerIndex := m_readerIndex0;
                 m_writerIndex := m_writerIndex0 |} = contents b).
  rewrite Hc2, Hc1. done.
Qed.
End ByteBuffer.
