(* ===== verification/Protocol.v ===== *)
(** * The packet format: net/ProtocolStream.h and net/ProtocolStream.cpp

    [Codec] has the checksum and the 7-bit variable-length integers;
    [BinaryStreamReader] and [BinaryStreamWriter] are the two classes.  A reader
    works on the memory its pointer leads to: in the server that is the
    [c_str()] of a [std::string], so the bytes of the packet and a final NUL. *)
From S2P Require Import Prelude Buffers.

Definition BINARY_PACKLEN_LEN_2 : Z := 4.
Definition CHECKSUM_LEN : Z := 2.

Module Codec.

(** ** [checksum(const unsigned short* buffer, int size)] *)

(** The two accumulation steps: whole 16-bit words, then a last byte. *)
Fixpoint checksum_sum (mem : bytes) (size cksum : Z) : outcome Z :=
  if 1 <? size then
    match mem with
    | x :: y :: mem' => checksum_sum mem' (size - 2) (u32 (cksum + bytes_int [x; y]))
    | _ => Undef OutOfBounds
    end
  else if size =? 0 then Ret cksum
  else match mem with
       | x :: _ => Ret (u32 (cksum + uchar x))
       | [] => Undef OutOfBounds
       end.

(** [while (cksum >> 16) cksum = (cksum >> 16) + (cksum & 0xffff);] with fuel:
    [None] when the loop has not ended after [fuel] tests. *)
Fixpoint checksum_fold (fuel : nat) (cksum : Z) : option Z :=
  match fuel with
  | O => None
  | S fuel' =>
      if Z.shiftr cksum 16 =? 0 then Some cksum
      else checksum_fold fuel' (u32 (Z.shiftr cksum 16 + Z.land cksum 65535))
  end.

Definition checksum_fuel : nat := 3.

Definition checksum (buffer : bytes) (size : Z) : outcome (option Z) :=
  cksum ← checksum_sum buffer size 0;
  Ret ((fun c => u16 (u32 (Z.lnot c))) <$> checksum_fold checksum_fuel cksum).

(** ** 7-bit groups, least significant first; the top bit says another follows *)

(** The do-while loop of the two [write7BitEncoded], for a [value] that fits in
    [7 * groups] bits. *)
Fixpoint write7_loop (groups : nat) (value : Z) (buf : bytes) : bytes :=
  match groups with
  | O => buf
  | S groups' =>
      let c := Z.land value 127 in
      let value' := Z.shiftr value 7 in
      let c' := if value' =? 0 then c else Z.lor c 128 in
      let buf' := buf ++ [byte.of_Z c'] in
      if value' =? 0 then buf' else write7_loop groups' value' buf'
  end.

Definition write7BitEncoded_u32 (value : Z) (buf : bytes) : bytes := write7_loop 5 value buf.
Definition write7BitEncoded_u64 (value : Z) (buf : bytes) : bytes := write7_loop 10 value buf.

(** The loop of the two [read7BitEncoded] on a [w]-bit value: it reads [buf]
    until a byte without the top bit, whatever [len] says. *)
Fixpoint read7_loop (w : Z) (buf : bytes) (bitCount value : Z) : outcome Z :=
  match buf with
  | [] => Undef OutOfBounds
  | c :: buf' =>
      if w <=? bitCount then Undef ShiftCount
      else
        let x := uwrap w (Z.shiftl (Z.land (schar c) 127) bitCount) in
        let value' := uwrap w (value + x) in
        if Z.testbit (schar c) 7 then read7_loop w buf' (bitCount + 7) value'
        else Ret value'
  end.

Definition read7BitEncoded_u32 (buf : bytes) (len : Z) : outcome Z := read7_loop 32 buf 0 0.
Definition read7BitEncoded_u64 (buf : bytes) (len : Z) : outcome Z := read7_loop 64 buf 0 0.

(** *** Lemmas *)
Lemma land_127 z : Z.land z 127 = z mod 128.
Proof. change 127 with (Z.ones 7). by rewrite Z.land_ones. Qed.

Lemma shiftr_7 z : Z.shiftr z 7 = z / 128.
Proof. by rewrite Z.shiftr_div_pow2. Qed.

Lemma lor_128 z : 0 <= z < 128 -> Z.lor z 128 = z + 128.
Proof.
  intros Hz. change 128 with (Z.shiftl 1 7). rewrite <- Z.add_nocarry_lor; [done|].
  apply Z.bits_inj'. intros i Hi. rewrite Z.land_spec, Z.bits_0.
  destruct (Z.eq_dec i 7) as [->|Hne].
  - rewrite <- (Z.mod_small z (2 ^ 7)) by lia. by rewrite Z.mod_pow2_bits_high by lia.
  - rewrite Z.shiftl_spec by lia. destruct (Z.ltb_spec i 7).
    + rewrite (Z.testbit_neg_r 1) by lia. by rewrite andb_false_r.
    + change 1 with (2 ^ 0). rewrite (Z.pow2_bits_false 0) by lia. by rewrite andb_false_r.
Qed.

Lemma schar_low z : 0 <= z < 128 -> schar (byte.of_Z z) = z.
Proof.
  intros. unfold schar. rewrite byte.unsigned_of_Z. unfold byte.wrap.
  rewrite Z.mod_small by lia. apply swrap_small; [lia|]. unfold srange. lia.
Qed.

Lemma schar_high z : 0 <= z < 128 -> schar (byte.of_Z (z + 128)) = z - 128.
Proof.
  intros. unfold schar. rewrite byte.unsigned_of_Z. unfold byte.wrap.
  rewrite Z.mod_small by lia. unfold swrap. rewrite Z.mod_small by lia.
  destruct (Z.ltb_spec (z + 128) (2 ^ (8 - 1))); lia.
Qed.

Lemma testbit7_low z : 0 <= z < 128 -> Z.testbit z 7 = false.
Proof.
  intros. rewrite <- (Z.mod_small z (2 ^ 7)) by lia. by apply Z.mod_pow2_bits_high.
Qed.

Lemma testbit7_high z : 0 <= z < 128 -> Z.testbit (z - 128) 7 = true.
Proof.
  intros. apply Z.testbit_true; [lia|]. change (2 ^ 7) with 128.
  replace ((z - 128) / 128) with (-1); [done|].
  apply (Z.div_unique _ _ _ z); lia.
Qed.

(** One step of the reader undoes one step of the writer. *)
Lemma read7_last w c rest bc acc :
  0 <= bc < w -> 0 <= c < 128 ->
  read7_loop w (byte.of_Z c :: rest) bc acc = Ret (uwrap w (acc + uwrap w (c * 2 ^ bc))).
Proof.
  intros Hbc Hc. cbn [read7_loop]. destruct (Z.leb_spec w bc); [lia|].
  rewrite schar_low, testbit7_low by done. rewrite land_127, Z.mod_small by done.
  by rewrite Z.shiftl_mul_pow2 by lia.
Qed.

Lemma read7_more w c rest bc acc :
  0 <= bc < w -> 0 <= c < 128 ->
  read7_loop w (byte.of_Z (Z.lor c 128) :: rest) bc acc =
  read7_loop w rest (bc + 7) (uwrap w (acc + uwrap w (c * 2 ^ bc))).
Proof.
  intros Hbc Hc. cbn [read7_loop]. destruct (Z.leb_spec w bc); [lia|].
  rewrite lor_128, schar_high, testbit7_high by done. rewrite land_127.
  replace (c - 128) with (c + (-1) * 128) by lia.
  rewrite Z.mod_add, Z.mod_small by lia. by rewrite Z.shiftl_mul_pow2 by lia.
Qed.

(** Adding one group to an accumulator that holds the groups below it. *)
Lemma uwrap_add_group w bc acc c v :
  0 <= bc -> 0 <= acc < 2 ^ bc -> 0 <= c <= v -> acc + v * 2 ^ bc < 2 ^ w ->
  uwrap w (acc + uwrap w (c * 2 ^ bc)) = acc + c * 2 ^ bc.
Proof.
  intros. assert (0 < 2 ^ bc) by (apply Z.pow_pos_nonneg; lia).
  assert (0 <= c * 2 ^ bc <= v * 2 ^ bc) by nia.
  rewrite (uwrap_small w (c * 2 ^ bc)) by lia. apply uwrap_small. lia.
Qed.

Lemma write7_loop_app groups v buf : write7_loop groups v buf = buf ++ write7_loop groups v [].
Proof.
  revert v buf. induction groups as [|g IH]; intros v buf; simpl; [by rewrite app_nil_r|].
  case_match; [done|]. rewrite (IH _ (buf ++ _)), (IH _ [_]). by rewrite <- app_assoc.
Qed.

Lemma read7_write7 w groups v rest bc acc :
  0 <= bc -> bc + 7 * (Z.of_nat groups - 1) < w ->
  0 <= v < 2 ^ (7 * Z.of_nat groups) -> (0 < groups)%nat ->
  0 <= acc < 2 ^ bc -> acc + v * 2 ^ bc < 2 ^ w ->
  read7_loop w (write7_loop groups v [] ++ rest) bc acc = Ret (acc + v * 2 ^ bc).
Proof.
  revert v bc acc. induction groups as [|g IH]; intros v bc acc Hbc Hw Hv Hg Hacc Hsum; [lia|].
  assert (0 < 2 ^ bc) by (apply Z.pow_pos_nonneg; lia).
  cbn [write7_loop]. rewrite land_127, shiftr_7.
  pose proof (Z.mod_pos_bound v 128 ltac:(lia)). pose proof (Z.div_mod v 128 ltac:(lia)).
  assert (0 <= v / 128) by (apply Z.div_pos; lia).
  destruct (Z.eqb_spec (v / 128) 0) as [Hz|Hnz].
  - cbn [app]. rewrite read7_last by lia. rewrite (uwrap_add_group w bc acc _ v) by lia.
    do 2 f_equal. lia.
  - rewrite write7_loop_app. cbn [app]. rewrite read7_more by lia.
    rewrite (uwrap_add_group w bc acc _ v) by lia.
    assert (2 ^ (bc + 7) = 2 ^ bc * 128) as Hp by (rewrite Z.pow_add_r by lia; done).
    assert (2 ^ (7 * Z.of_nat (S g)) = 128 * 2 ^ (7 * Z.of_nat g)) as Hp2.
    { replace (7 * Z.of_nat (S g)) with (7 + 7 * Z.of_nat g) by lia.
      by rewrite Z.pow_add_r by lia. }
    assert (0 < g)%nat.
    { destruct g; [|lia]. exfalso. change (2 ^ (7 * Z.of_nat 0)) with 1 in Hp2. lia. }
    rewrite IH.
    + f_equal. rewrite Hp. nia.
    + lia.
    + lia.
    + split; [done|]. apply Z.div_lt_upper_bound; lia.
    + done.
    + rewrite Hp. nia.
    + rewrite Hp. nia.
Qed.

Lemma read7_write7_u32 v rest len :
  0 <= v < 2 ^ 32 -> read7BitEncoded_u32 (write7BitEncoded_u32 v [] ++ rest) len = Ret v.
Proof.
  intros. unfold read7BitEncoded_u32, write7BitEncoded_u32.
  rewrite read7_write7 by lia. f_equal. lia.
Qed.

Lemma read7_write7_u64 v rest len :
  0 <= v < 2 ^ 64 -> read7BitEncoded_u64 (write7BitEncoded_u64 v [] ++ rest) len = Ret v.
Proof.
  intros. unfold read7BitEncoded_u64, write7BitEncoded_u64.
  rewrite read7_write7 by lia. f_equal. lia.
Qed.

(** *** The shape of an encoding: continuation bytes, then a last byte *)
Definition continues (c : Byte.byte) : bool := Z.testbit (schar c) 7.

Lemma continues_low z : 0 <= z < 128 -> continues (byte.of_Z z) = false.
Proof. intros. unfold continues. by rewrite schar_low, testbit7_low by done. Qed.

Lemma continues_high z : 0 <= z < 128 -> continues (byte.of_Z (Z.lor z 128)) = true.
Proof. intros. unfold continues. by rewrite lor_128, schar_high, testbit7_high by done. Qed.

Lemma write7_shape groups v :
  (0 < groups)%nat -> 0 <= v < 2 ^ (7 * Z.of_nat groups) ->
  exists hs t, write7_loop groups v [] = hs ++ [t] /\
    Forall (fun c => continues c = true) hs /\ continues t = false /\
    (length hs < groups)%nat.
Proof.
  revert v. induction groups as [|g IH]; intros v Hg Hv; [lia|].
  cbn [write7_loop]. rewrite land_127, shiftr_7.
  pose proof (Z.mod_pos_bound v 128 ltac:(lia)). pose proof (Z.div_mod v 128 ltac:(lia)).
  assert (0 <= v / 128) by (apply Z.div_pos; lia).
  destruct (Z.eqb_spec (v / 128) 0) as [Hz|Hnz].
  - exists [], (byte.of_Z (v mod 128)). split_and!; [done|constructor|by apply continues_low|].
    simpl. lia.
  - destruct g as [|g'].
    { exfalso. change (2 ^ (7 * Z.of_nat 1)) with 128 in Hv. lia. }
    assert (2 ^ (7 * Z.of_nat (S (S g'))) = 128 * 2 ^ (7 * Z.of_nat (S g'))) as Hp.
    { replace (7 * Z.of_nat (S (S g'))) with (7 + 7 * Z.of_nat (S g')) by lia.
      by rewrite Z.pow_add_r by lia. }
    destruct (IH (v / 128)) as (hs & t & Heq & Hhs & Ht & Hlen); [lia| |].
    { split; [done|]. apply Z.div_lt_upper_bound; lia. }
    rewrite write7_loop_app, Heq.
    exists (byte.of_Z (Z.lor (v mod 128) 128) :: hs), t. split_and!; [done|..|done|].
    + constructor; [by apply continues_high|done].
    + simpl. lia.
Qed.

(** *** The checksum as a sum of 16-bit words *)
Fixpoint word_sum (mem : bytes) : Z :=
  match mem with
  | x :: y :: mem' => bytes_int [x; y] + word_sum mem'
  | [x] => uchar x
  | [] => 0
  end.

(** End-around-carry reduction to 16 bits. *)
Definition fold16 (s : Z) : Z := if s =? 0 then 0 else 1 + (s - 1) mod 65535.

Lemma bytes_ind2 (P : bytes -> Prop) :
  P [] -> (forall x, P [x]) -> (forall x y l, P l -> P (x :: y :: l)) -> forall l, P l.
Proof.
  intros H0 H1 H2 l. enough (P l /\ forall x, P (x :: l)) by tauto.
  induction l as [|y l [IH1 IH2]]; [split; eauto|]. split; eauto.
Qed.

Lemma bytes_int_2 x y : 0 <= bytes_int [x; y] < 65536.
Proof. apply (bytes_int_range [x; y]). Qed.

Lemma word_sum_bound mem : 0 <= word_sum mem <= 65535 * ((zlen mem + 1) / 2).
Proof.
  induction mem as [|x|x y l IH] using bytes_ind2.
  - done.
  - pose proof (uchar_range x). change ((zlen [x] + 1) / 2) with 1.
    change (word_sum [x]) with (uchar x). lia.
  - cbn [word_sum]. pose proof (bytes_int_2 x y). zsimpl.
    replace (1 + (1 + zlen l) + 1) with (zlen l + 1 + 1 * 2) by lia.
    rewrite Z.div_add by lia. lia.
Qed.

Lemma checksum_sum_ok mem c :
  0 <= c -> c + word_sum mem < 2 ^ 32 ->
  checksum_sum mem (zlen mem) c = Ret (c + word_sum mem).
Proof.
  revert c. induction mem as [|x|x y l IH] using bytes_ind2; intros c Hc Hs.
  - cbn. f_equal. lia.
  - pose proof (uchar_range x). change (word_sum [x]) with (uchar x) in *.
    change (checksum_sum [x] (zlen [x]) c) with (Ret (u32 (c + uchar x)) : outcome Z).
    by rewrite uwrap_small by lia.
  - cbn [word_sum] in *. pose proof (bytes_int_2 x y).
    pose proof (word_sum_bound l) as [? _]. pose proof (zlen_nonneg l).
    cbn [checksum_sum]. zsimpl. destruct (Z.ltb_spec 1 (1 + (1 + zlen l))); [|lia].
    replace (1 + (1 + zlen l) - 2) with (zlen l) by lia.
    rewrite uwrap_small, IH by lia. f_equal. lia.
Qed.

Lemma fold16_range s : 0 <= fold16 s <= 65535.
Proof.
  unfold fold16. destruct (Z.eqb_spec s 0); [lia|].
  pose proof (Z.mod_pos_bound (s - 1) 65535). lia.
Qed.

Lemma fold16_small s : 0 <= s < 65536 -> fold16 s = s.
Proof.
  intros. unfold fold16. destruct (Z.eqb_spec s 0); [lia|]. rewrite Z.mod_small; lia.
Qed.

Lemma fold16_step s :
  65536 <= s -> fold16 (s / 65536 + s mod 65536) = fold16 s.
Proof.
  intros. pose proof (Z.div_mod s 65536 ltac:(lia)).
  pose proof (Z.mod_pos_bound s 65536 ltac:(lia)).
  assert (1 <= s / 65536) by (apply Z.div_le_lower_bound; lia).
  unfold fold16. destruct (Z.eqb_spec (s / 65536 + s mod 65536) 0); [lia|].
  destruct (Z.eqb_spec s 0); [lia|]. f_equal.
  replace (s - 1) with (s / 65536 + s mod 65536 - 1 + (s / 65536) * 65535) by lia.
  by rewrite Z.mod_add by lia.
Qed.

(** Three tests of the loop are enough for every 32-bit accumulator. *)
Lemma checksum_fold_ok c :
  0 <= c < 2 ^ 32 -> checksum_fold checksum_fuel c = Some (fold16 c).
Proof.
  intros Hc. unfold checksum_fuel.
  assert (forall c f, 0 <= c < 65536 -> checksum_fold (S f) c = Some (fold16 c)) as Hdone.
  { intros d f Hd. cbn [checksum_fold]. rewrite Z.shiftr_div_pow2 by lia.
    change (2 ^ 16) with 65536. rewrite (Z.div_small d) by lia. simpl.
    by rewrite fold16_small. }
  assert (forall c f, 65536 <= c < 2 ^ 32 -> checksum_fold (S f) c =
    checksum_fold f (c / 65536 + c mod 65536)) as Hstep.
  { intros d f Hd. cbn [checksum_fold]. rewrite Z.shiftr_div_pow2 by lia.
    change (2 ^ 16) with 65536. change 65535 with (Z.ones 16) at 1.
    rewrite Z.land_ones by lia. change (2 ^ 16) with 65536.
    assert (1 <= d / 65536 < 65536) by
      (split; [apply Z.div_le_lower_bound|apply Z.div_lt_upper_bound]; lia).
    pose proof (Z.mod_pos_bound d 65536 ltac:(lia)).
    destruct (Z.eqb_spec (d / 65536) 0); [lia|]. by rewrite uwrap_small by lia. }
  destruct (Z.ltb_spec c 65536); [apply Hdone; lia|].
  assert (1 <= c / 65536 < 65536) by
    (split; [apply Z.div_le_lower_bound|apply Z.div_lt_upper_bound]; lia).
  pose proof (Z.mod_pos_bound c 65536 ltac:(lia)).
  rewrite Hstep, <- (fold16_step c) by lia. set (d := c / 65536 + c mod 65536) in *.
  destruct (Z.ltb_spec d 65536); [apply Hdone; lia|].
  assert (d / 65536 = 1) as Hd1 by (symmetry; apply (Z.div_unique _ _ _ (d - 65536)); lia).
  pose proof (Z.div_mod d 65536 ltac:(lia)).
  rewrite Hstep, <- (fold16_step d) by lia. apply Hdone. lia.
Qed.

Lemma checksum_ok mem :
  zlen mem <= 2 ^ 17 - 2 ->
  checksum mem (zlen mem) = Ret (Some (65535 - fold16 (word_sum mem))).
Proof.
  intros Hlen. pose proof (word_sum_bound mem) as [H1 H2].
  assert ((zlen mem + 1) / 2 < 65536) by (apply Z.div_lt_upper_bound; lia).
  unfold checksum. rewrite checksum_sum_ok by lia. cbn [mbind outcome_bind].
  rewrite Z.add_0_l, checksum_fold_ok by lia. cbn. do 2 f_equal.
  pose proof (fold16_range (word_sum mem)) as Hf. set (f := fold16 (word_sum mem)) in *.
  unfold Z.lnot. unfold uwrap.
  replace (Z.pred (- f) mod 2 ^ 32) with (2 ^ 32 - 1 - f)
    by (apply (Z.mod_unique_pos _ _ (-1)); lia).
  symmetry. apply (Z.mod_unique_pos _ _ 65535); lia.
Qed.

Lemma word_sum_app mem mem' :
  Nat.Even (length mem) -> word_sum (mem ++ mem') = word_sum mem + word_sum mem'.
Proof.
  induction mem as [|x|x y l IH] using bytes_ind2.
  - done.
  - intros [k Hk]. simpl in Hk. lia.
  - intros [k Hk]. cbn [app word_sum]. rewrite IH; [lia|]. exists (k - 1)%nat. simpl in Hk. lia.
Qed.

(** The checksum detects corruption the Internet-checksum way.  For every
    even-length message of at most 131068 bytes, [checksum] terminates with the
    ones' complement of the end-around-carry sum of its little-endian words,
    and appending that value to the message makes the checksum of the whole 0. *)
Theorem checksum_verifies (mem : bytes) :
  Nat.Even (length mem) -> zlen mem <= 2 ^ 17 - 4 ->
  exists c, checksum mem (zlen mem) = Ret (Some c) /\
    c = 65535 - fold16 (word_sum mem) /\
    checksum (mem ++ int_bytes 2 c) (zlen mem + 2) = Ret (Some 0).
Proof.
  intros Hev Hlen. eexists. split; [apply checksum_ok; lia|]. split; [done|].
  set (f := fold16 (word_sum mem)).
  replace (zlen mem + 2) with (zlen (mem ++ int_bytes 2 (65535 - f))) by (by zsimpl).
  rewrite checksum_ok by (zsimpl; lia). do 2 f_equal.
  rewrite word_sum_app by done.
  pose proof (fold16_range (word_sum mem)) as Hf. fold f in Hf.
  assert (word_sum (int_bytes 2 (65535 - f)) = 65535 - f) as ->.
  { change (word_sum (int_bytes 2 (65535 - f))) with (bytes_int (int_bytes 2 (65535 - f)) + 0).
    rewrite bytes_int_bytes. rewrite Z.mod_small by (simpl; lia). lia. }
  pose proof (word_sum_bound mem) as [Hs _]. unfold f, fold16 in *.
  destruct (Z.eqb_spec (word_sum mem) 0) as [->|Hne]; [done|].
  pose proof (Z.div_mod (word_sum mem - 1) 65535 ltac:(lia)).
  pose proof (Z.mod_pos_bound (word_sum mem - 1) 65535 ltac:(lia)).
  set (r := (word_sum mem - 1) mod 65535) in *. set (q := (word_sum mem - 1) / 65535) in *.
  destruct (Z.eqb_spec (word_sum mem + (65535 - (1 + r))) 0); [lia|].
  replace (word_sum mem + (65535 - (1 + r)) - 1) with (65534 + q * 65535) by lia.
  by rewrite Z.mod_add by lia.
Qed.

Lemma checksum_verifies_witness :
  exists c, checksum (lit "chat") (zlen (lit "chat")) = Ret (Some c) /\
    c = 65535 - fold16 (word_sum (lit "chat")) /\
    checksum (lit "chat" ++ int_bytes 2 c) (zlen (lit "chat") + 2) = Ret (Some 0).
Proof.
  apply (checksum_verifies (lit "chat")); [by exists 2%nat|by vm_compute].
Defined.

End Codec.

(** ** [atoll] of the C library, on memory that may lack a terminator *)
Module Decimal.

Definition is_space (c : Byte.byte) : bool :=
  let z := uchar c in (z =? 32) || ((9 <=? z) && (z <=? 13)).
Definition is_digit (c : Byte.byte) : bool :=
  let z := uchar c in (48 <=? z) && (z <=? 57).
Definition digit (c : Byte.byte) : Z := uchar c - 48.

(** Digits up to the first other byte, which must exist. *)
Fixpoint digits (mem : bytes) (acc : Z) : outcome Z :=
  match mem with
  | [] => Undef OutOfBounds
  | c :: mem' => if is_digit c then digits mem' (10 * acc + digit c) else Ret acc
  end.

Definition signed (mem : bytes) : outcome Z :=
  match mem with
  | [] => Undef OutOfBounds
  | c :: mem' =>
      if bool_decide (c = Byte.x2d) then Z.opp <$> digits mem' 0
      else if bool_decide (c = Byte.x2b) then digits mem' 0
      else digits mem 0
  end.

Fixpoint skip_space (mem : bytes) : bytes :=
  match mem with
  | c :: mem' => if is_space c then skip_space mem' else mem
  | [] => []
  end.

Definition atoll (mem : bytes) : outcome Z :=
  v ← signed (skip_space mem);
  if (- 2 ^ 63 <=? v) && (v <? 2 ^ 63) then Ret v else Undef SignedOverflow.

(** [sprintf("%d", z)] and [sprintf("%ld", z)] *)
Definition format_d (z : Z) : bytes := lit (pretty z).

End Decimal.

Module BinaryStreamReader.

Record BinaryStreamReader : Type := mkReader {
  ptr : bytes;   (* the memory from the pointer [ptr] on *)
  len : Z;
  cur : Z        (* [cur - ptr] *)
}.

(** [BinaryStreamReader(const char* ptr_, size_t len_)] *)
Definition make (ptr_ : bytes) (len_ : Z) : BinaryStreamReader :=
  mkReader ptr_ len_ (0 + (BINARY_PACKLEN_LEN_2 + CHECKSUM_LEN)).

Definition advance (n : Z) (s : BinaryStreamReader) : BinaryStreamReader :=
  mkReader (ptr s) (len s) (cur s + n).

Definition IsEmpty (s : BinaryStreamReader) : bool := len s <=? BINARY_PACKLEN_LEN_2.
Definition GetSize (s : BinaryStreamReader) : Z := len s.
Definition GetData (s : BinaryStreamReader) : bytes := ptr s.
Definition GetCurrent (s : BinaryStreamReader) : Z := cur s.
Definition IsEnd (s : BinaryStreamReader) : outcome bool :=
  if cur s <=? len s then Ret (cur s =? len s) else Throw AssertFailed.
Definition ReadAll (iLen : Z) (s : BinaryStreamReader) : outcome bytes :=
  load 0 (Z.min iLen (len s)) (ptr s).

(** The [for] loop of [ReadLengthWithoutOffset]: copies bytes from [temp] into
    [buf] until one has no continuation bit or [room] are copied. *)
Fixpoint header_loop (room : nat) (mem : bytes) (temp : Z) (buf : bytes) : outcome bytes :=
  match room with
  | O => Ret buf
  | S room' =>
      c ← load1 temp mem;
      let buf' := buf ++ [c] in
      if Codec.continues c then header_loop room' mem (temp + 1) buf' else Ret buf'
  end.

(** [headlen] and [outlen] on success, [None] when the header runs past the
    packet. *)
Definition ReadLengthWithoutOffset (s : BinaryStreamReader) : outcome (option (Z * Z)) :=
  buf ← header_loop 5 (ptr s) (cur s) [];
  let headlen := zlen buf in
  if len s <? cur s + headlen then Ret None
  else
    value ← Codec.read7BitEncoded_u32 buf headlen;
    Ret (Some (headlen, value)).

Definition ReadLength (s : BinaryStreamReader) : outcome (option Z * BinaryStreamReader) :=
  r ← ReadLengthWithoutOffset s;
  match r with
  | None => Ret (None, s)
  | Some (headlen, outlen) => Ret (Some outlen, advance headlen s)
  end.

(** What a call stored in its output parameters: the bytes and their length, 0
    in [outlen] only, or nothing. *)
Inductive field : Type :=
| FieldOk (data : bytes)
| FieldTruncated
| FieldRefused.

(** The common body of [ReadString] and [ReadCCString] ([limited] is
    [maxlen != 0 && fieldlen > maxlen]) and of [ReadCString] ([fieldlen > strlen]). *)
Definition read_field (limited : Z -> bool) (s : BinaryStreamReader)
    : outcome (field * BinaryStreamReader) :=
  r ← ReadLengthWithoutOffset s;
  match r with
  | None => Ret (FieldRefused, s)
  | Some (headlen, fieldlen) =>
      if limited fieldlen then Ret (FieldRefused, s)
      else
        let s1 := advance headlen s in
        if len s1 <? cur s1 + fieldlen then Ret (FieldTruncated, s1)
        else
          d ← load (cur s1) fieldlen (ptr s1);
          Ret (FieldOk d, advance fieldlen s1)
  end.

Definition ReadCString (strlen : Z) (s : BinaryStreamReader) :=
  read_field (fun fieldlen => strlen <? fieldlen) s.
Definition ReadString (maxlen : Z) (s : BinaryStreamReader) :=
  read_field (fun fieldlen => negb (maxlen =? 0) && (maxlen <? fieldlen)) s.
Definition ReadCCString (maxlen : Z) (s : BinaryStreamReader) :=
  read_field (fun fieldlen => negb (maxlen =? 0) && (maxlen <? fieldlen)) s.

(** Fixed-size fields: the memory of the value, or [None]. *)
Definition read_fixed (VALUE_SIZE : Z) (s : BinaryStreamReader)
    : outcome (option bytes * BinaryStreamReader) :=
  if len s <? cur s + VALUE_SIZE then Ret (None, s)
  else
    mem ← load (cur s) VALUE_SIZE (ptr s);
    Ret (Some mem, advance VALUE_SIZE s).

Definition ntohl (z : Z) : Z := Endian.bswap 4 (u32 z).
Definition ntohs (z : Z) : Z := Endian.bswap 2 (u16 z).

Definition ReadInt32 (s : BinaryStreamReader) : outcome (option Z * BinaryStreamReader) :=
  p ← read_fixed 4 s;
  Ret (option_map (fun mem : bytes => i32 (ntohl (i32 (bytes_int mem)))) (fst p), snd p).
Definition ReadShort (s : BinaryStreamReader) : outcome (option Z * BinaryStreamReader) :=
  p ← read_fixed 2 s;
  Ret (option_map (fun mem : bytes => i16 (ntohs (i16 (bytes_int mem)))) (fst p), snd p).
Definition ReadChar (s : BinaryStreamReader) : outcome (option Z * BinaryStreamReader) :=
  p ← read_fixed 1 s;
  Ret (option_map (fun mem : bytes => i8 (bytes_int mem)) (fst p), snd p).

(** [ReadInt64]: the decimal text is copied to the front of a 128-byte array
    whose other bytes, [garbage], are whatever the stack held. *)
Definition ReadInt64 (garbage : bytes) (s : BinaryStreamReader)
    : outcome (option Z * BinaryStreamReader) :=
  p ← ReadCString 128 s;
  match fst p with
  | FieldOk d =>
      int64str ← store 0 d garbage;
      i ← Decimal.atoll int64str;
      Ret (Some i, snd p)
  | _ => Ret (None, snd p)
  end.

End BinaryStreamReader.

Module BinaryStreamWriter.

(** The state of a writer is the [std::string] behind [m_data]. *)

Definition htonl (z : Z) : Z := Endian.bswap 4 (u32 z).
Definition htons (z : Z) : Z := Endian.bswap 2 (u16 z).

(** [BinaryStreamWriter(string* data)] and [Clear]: six bytes of an
    uninitialised array, [str], become the header. *)
Definition make (str : bytes) : bytes := [] ++ str.
Definition Clear (str : bytes) (m_data : bytes) : bytes := [] ++ str.

Definition GetData (m_data : bytes) : bytes := m_data.
Definition GetSize (m_data : bytes) : Z := zlen m_data.
Definition GetCurrentPos (m_data : bytes) : Z := zlen m_data.

(** [WriteCString(str, len)]: [len] is a [size_t], so the 64-bit overload of
    [write7BitEncoded] is called; [str] points to at least [len] bytes. *)
Definition WriteCString (str : bytes) (len : Z) (m_data : bytes) : outcome bytes :=
  let buf := Codec.write7BitEncoded_u64 len [] in
  d ← load 0 len str;
  Ret ((m_data ++ buf) ++ d).

Definition WriteString (str : bytes) (m_data : bytes) : outcome bytes :=
  WriteCString str (zlen str) m_data.

Definition WriteInt32 (i : Z) (isNULL : bool) (m_data : bytes) : bytes :=
  let i2 := if isNULL then 999999999 else i32 (htonl i) in
  m_data ++ int_bytes 4 i2.
Definition WriteShort (i : Z) (isNULL : bool) (m_data : bytes) : bytes :=
  let i2 := if isNULL then 0 else i16 (htons i) in
  m_data ++ int_bytes 2 i2.
Definition WriteChar (c : Z) (isNULL : bool) (m_data : bytes) : bytes :=
  let c2 := if isNULL then 0 else c in
  m_data ++ int_bytes 1 c2.

(** [sprintf] into [char[128]]: the text and its NUL must fit. *)
Definition sprintf128 (text : bytes) : outcome bytes :=
  if zlen text + 1 <=? 128 then Ret text else Undef OutOfBounds.

Definition WriteInt64 (value : Z) (isNULL : bool) (m_data : bytes) : outcome bytes :=
  if isNULL then WriteCString [] 0 m_data
  else
    int64str ← sprintf128 (Decimal.format_d value);
    WriteCString int64str (zlen int64str) m_data.

(** [doublestr] is the text [printf] gives the value under ["%f"]. *)
Definition WriteDouble (text : bytes) (isNULL : bool) (m_data : bytes) : outcome bytes :=
  if isNULL then WriteCString [] 0 m_data
  else
    doublestr ← sprintf128 text;
    WriteCString doublestr (zlen doublestr) m_data.

Definition Flush (m_data : bytes) : outcome bytes :=
  let ulen := htonl (zlen m_data) in
  store 0 (int_bytes 4 ulen) m_data.

End BinaryStreamWriter.

(** ** Packets: what the writer produces, the reader reads back *)
Module Packet.

Import BinaryStreamReader.

(** One field of a packet, written and read by the matching pair of methods. *)
Inductive pfield : Type :=
| FInt32 (i : Z)
| FShort (i : Z)
| FChar (c : Z)
| FString (s : bytes).

Definition field_ok (f : pfield) : Prop :=
  match f with
  | FInt32 i => srange 32 i
  | FShort i => srange 16 i
  | FChar c => srange 8 c
  | FString s => zlen s < 2 ^ 32
  end.

Definition write_field (f : pfield) (m_data : bytes) : outcome bytes :=
  match f with
  | FInt32 i => Ret (BinaryStreamWriter.WriteInt32 i false m_data)
  | FShort i => Ret (BinaryStreamWriter.WriteShort i false m_data)
  | FChar c => Ret (BinaryStreamWriter.WriteChar c false m_data)
  | FString s => BinaryStreamWriter.WriteString s m_data
  end.

Fixpoint write_fields (fs : list pfield) (m_data : bytes) : outcome bytes :=
  match fs with
  | [] => Ret m_data
  | f :: fs' => m ← write_field f m_data; write_fields fs' m
  end.

(** A whole packet: construction, the fields, [Flush]. *)
Definition write_packet (str : bytes) (fs : list pfield) : outcome bytes :=
  m ← write_fields fs (BinaryStreamWriter.make str);
  BinaryStreamWriter.Flush m.

(** Reading a field of the same kind as [f], whatever its value. *)
Definition read_field_like (f : pfield) (s : BinaryStreamReader)
    : outcome (option pfield * BinaryStreamReader) :=
  match f with
  | FInt32 _ => p ← ReadInt32 s; Ret (option_map FInt32 (fst p), snd p)
  | FShort _ => p ← ReadShort s; Ret (option_map FShort (fst p), snd p)
  | FChar _ => p ← ReadChar s; Ret (option_map FChar (fst p), snd p)
  | FString _ =>
      p ← ReadString 0 s;
      Ret (match fst p with FieldOk d => Some (FString d) | _ => None end, snd p)
  end.

Fixpoint read_fields_like (fs : list pfield) (s : BinaryStreamReader)
    : outcome (list (option pfield) * BinaryStreamReader) :=
  match fs with
  | [] => Ret ([], s)
  | f :: fs' =>
      p ← read_field_like f s;
      q ← read_fields_like fs' (snd p);
      Ret (fst p :: fst q, snd q)
  end.

(** *** Lemmas *)
Definition encode (f : pfield) : bytes :=
  match f with
  | FInt32 i => Endian.be_bytes 4 i
  | FShort i => Endian.be_bytes 2 i
  | FChar c => int_bytes 1 c
  | FString s => Codec.write7BitEncoded_u32 (zlen s) [] ++ s
  end.

Lemma write7_groups g g' v :
  (0 < g <= g')%nat -> 0 <= v < 2 ^ (7 * Z.of_nat g) ->
  Codec.write7_loop g' v [] = Codec.write7_loop g v [].
Proof.
  revert g' v. induction g as [|g IH]; intros g' v Hg Hv; [lia|].
  destruct g' as [|g']; [lia|]. cbn [Codec.write7_loop].
  rewrite Codec.shiftr_7. destruct (Z.eqb_spec (v / 128) 0) as [|Hnz]; [done|].
  rewrite (Codec.write7_loop_app g'), (Codec.write7_loop_app g). f_equal.
  assert (0 <= v / 128) by (apply Z.div_pos; lia).
  pose proof (Z.div_mod v 128 ltac:(lia)). pose proof (Z.mod_pos_bound v 128 ltac:(lia)).
  assert (2 ^ (7 * Z.of_nat (S g)) = 128 * 2 ^ (7 * Z.of_nat g)) as Hp.
  { replace (7 * Z.of_nat (S g)) with (7 + 7 * Z.of_nat g) by lia.
    by rewrite Z.pow_add_r by lia. }
  apply IH.
  - destruct g; [|lia]. exfalso. change (2 ^ (7 * Z.of_nat 0)) with 1 in Hp. lia.
  - split; [done|]. apply Z.div_lt_upper_bound; lia.
Qed.

Lemma int_bytes_swrap n w z :
  0 < w -> w = Z.of_nat n * 8 -> int_bytes n (swrap w z) = int_bytes n z.
Proof. intros Hw ->. apply int_bytes_congr. by apply swrap_mod. Qed.

Lemma int_bytes_swapped n w z :
  0 < w -> w = Z.of_nat n * 8 ->
  int_bytes n (swrap w (Endian.bswap n (uwrap w z))) = Endian.be_bytes n z.
Proof.
  intros Hw Hn. rewrite int_bytes_swrap, Endian.int_bytes_bswap by done.
  apply Endian.be_bytes_congr. rewrite <- Hn. unfold uwrap.
  by rewrite Z.mod_mod by (apply Z.pow_nonzero; lia).
Qed.

Lemma write_field_ok f m : field_ok f -> write_field f m = Ret (m ++ encode f).
Proof.
  destruct f as [i|i|c|s]; intros Hok; simpl.
  - unfold BinaryStreamWriter.WriteInt32, BinaryStreamWriter.htonl.
    by rewrite (int_bytes_swapped 4 32).
  - unfold BinaryStreamWriter.WriteShort, BinaryStreamWriter.htons.
    by rewrite (int_bytes_swapped 2 16).
  - done.
  - unfold BinaryStreamWriter.WriteString, BinaryStreamWriter.WriteCString.
    pose proof (zlen_nonneg s).
    rewrite load_ok, window_all by lia. cbn [mbind outcome_bind].
    unfold Codec.write7BitEncoded_u64, Codec.write7BitEncoded_u32.
    rewrite (write7_groups 5 10) by (simpl in Hok; lia). by rewrite <- app_assoc.
Qed.

Lemma write_fields_ok fs m :
  Forall field_ok fs -> write_fields fs m = Ret (m ++ concat (encode <$> fs)).
Proof.
  intros Hok. revert m. induction Hok as [|f fs Hf _ IH]; intros m; simpl.
  - by rewrite app_nil_r.
  - rewrite write_field_ok by done. cbn [mbind outcome_bind]. by rewrite IH, <- app_assoc.
Qed.

(** The bytes of a packet: length, four header bytes' worth of it in network
    order, two bytes of the uninitialised array, the fields. *)
Lemma write_packet_ok str fs :
  zlen str = 6 -> Forall field_ok fs ->
  write_packet str fs =
  Ret (Endian.be_bytes 4 (6 + zlen (concat (encode <$> fs))) ++
       drop 4 str ++ concat (encode <$> fs)).
Proof.
  intros Hs Hok. unfold write_packet. rewrite write_fields_ok by done.
  cbn [mbind outcome_bind]. unfold BinaryStreamWriter.Flush, BinaryStreamWriter.make.
  pose proof (zlen_nonneg (concat (encode <$> fs))).
  cbn [app]. zsimpl. rewrite store_ok by (zsimpl; lia). f_equal.
  unfold splice. zsimpl. change (take (Z.to_nat 0) _) with (@nil Byte.byte).
  rewrite app_nil_l. f_equal.
  - unfold BinaryStreamWriter.htonl. rewrite Endian.int_bytes_bswap.
    apply Endian.be_bytes_congr. unfold uwrap. rewrite Hs.
    change (Z.of_nat 4 * 8) with 32. by rewrite Z.mod_mod by lia.
  - change (Z.to_nat (0 + Z.of_nat 4)) with 4%nat.
    apply drop_app_le. unfold zlen in Hs. lia.
Qed.

Lemma header_loop_stop room pre hs t rest buf :
  (length hs < room)%nat -> Forall (fun c => Codec.continues c = true) hs ->
  Codec.continues t = false ->
  header_loop room (pre ++ hs ++ t :: rest) (zlen pre) buf = Ret (buf ++ hs ++ [t]).
Proof.
  revert room pre buf. induction hs as [|h hs IH]; intros room pre buf Hlen Hhs Ht;
    (destruct room as [|room]; [simpl in Hlen; lia|]); cbn [header_loop app].
  - rewrite load1_mid by done. cbn [mbind outcome_bind]. by rewrite Ht.
  - rewrite load1_mid by done. cbn [mbind outcome_bind].
    inversion_clear Hhs as [|? ? Hh Hhs']. rewrite Hh.
    replace (zlen pre + 1) with (zlen (pre ++ [h])) by (zsimpl; lia).
    replace (pre ++ h :: hs ++ t :: rest) with ((pre ++ [h]) ++ hs ++ t :: rest)
      by by rewrite <- app_assoc.
    rewrite IH by (simpl in Hlen; auto; lia). by rewrite <- app_assoc.
Qed.

Lemma ReadLength_ok pre v rest n :
  0 <= v < 2 ^ 32 -> zlen pre + zlen (Codec.write7BitEncoded_u32 v []) <= n ->
  ReadLengthWithoutOffset
    (mkReader (pre ++ Codec.write7BitEncoded_u32 v [] ++ rest) n (zlen pre)) =
  Ret (Some (zlen (Codec.write7BitEncoded_u32 v []), v)).
Proof.
  intros Hv Hn. unfold ReadLengthWithoutOffset. cbn [ptr len cur].
  pose proof (Codec.read7_write7_u32 v [] (zlen (Codec.write7BitEncoded_u32 v [])) Hv) as Hr.
  rewrite app_nil_r in Hr.
  destruct (Codec.write7_shape 5 v) as (hs & t & Heq & Hhs & Ht & Hlen); [lia|lia|].
  unfold Codec.write7BitEncoded_u32 in *. rewrite Heq in *.
  rewrite <- app_assoc. change ([t] ++ rest) with (t :: rest).
  rewrite (header_loop_stop 5 pre hs t rest []) by done.
  cbn [mbind outcome_bind app]. destruct (Z.ltb_spec n (zlen pre + zlen (hs ++ [t]))); [lia|].
  by rewrite Hr.
Qed.

Lemma read_fixed_ok pre d rest n k :
  k = zlen d -> zlen pre + zlen d <= n ->
  read_fixed k (mkReader (pre ++ d ++ rest) n (zlen pre)) =
  Ret (Some d, mkReader (pre ++ d ++ rest) n (zlen pre + zlen d)).
Proof.
  intros -> Hn. unfold read_fixed, advance. cbn [ptr len cur].
  destruct (Z.ltb_spec n (zlen pre + zlen d)); [lia|]. by rewrite load_mid.
Qed.

Lemma swapped_back w n z :
  w = Z.of_nat n * 8 -> 0 < w -> srange w z ->
  swrap w (Endian.bswap n (uwrap w (swrap w (bytes_int (Endian.be_bytes n z))))) = z.
Proof.
  intros Hw Hpos Hz. rewrite uwrap_swrap by done. unfold uwrap.
  rewrite (Endian.bswap_congr n (bytes_int (Endian.be_bytes n z) mod 2 ^ w)
             (bytes_int (Endian.be_bytes n z)))
    by (rewrite <- Hw; by rewrite Z.mod_mod by (apply Z.pow_nonzero; lia)).
  rewrite Endian.bswap_be_bytes, <- Hw. rewrite (swrap_congr w _ z); [by apply swrap_small|].
  by rewrite Z.mod_mod by (apply Z.pow_nonzero; lia).
Qed.

Lemma read_field_like_ok f pre rest n :
  field_ok f -> zlen pre + zlen (encode f) <= n ->
  read_field_like f (mkReader (pre ++ encode f ++ rest) n (zlen pre)) =
  Ret (Some f, mkReader (pre ++ encode f ++ rest) n (zlen pre + zlen (encode f))).
Proof.
  intros Hok Hn. destruct f as [i|i|c|s]; cbn [read_field_like encode field_ok] in *.
  - unfold ReadInt32, ntohl. rewrite read_fixed_ok by (zsimpl; lia).
    cbn [mbind outcome_bind fst snd option_map]. by rewrite (swapped_back 32 4).
  - unfold ReadShort, ntohs. rewrite read_fixed_ok by (zsimpl; lia).
    cbn [mbind outcome_bind fst snd option_map]. by rewrite (swapped_back 16 2).
  - unfold ReadChar. rewrite read_fixed_ok by (zsimpl; lia).
    cbn [mbind outcome_bind fst snd option_map]. rewrite bytes_int_bytes.
    rewrite (swrap_congr 8 _ c) by (by rewrite Z.mod_mod by lia).
    by rewrite swrap_small.
  - unfold ReadString, read_field. rewrite zlen_app in Hn.
    pose proof (zlen_nonneg s).
    rewrite <- app_assoc, ReadLength_ok by lia. cbn [mbind outcome_bind].
    change (negb (0 =? 0)) with false. cbn [andb]. unfold advance. cbn [ptr len cur].
    destruct (Z.ltb_spec n (zlen pre + zlen (Codec.write7BitEncoded_u32 (zlen s) []) + zlen s));
      [lia|].
    rewrite app_assoc, load_mid by (zsimpl; lia). cbn [mbind outcome_bind fst snd].
    rewrite <- app_assoc. do 2 f_equal. rewrite zlen_app. f_equal. lia.
Qed.

Lemma read_fields_like_ok fs pre rest n :
  Forall field_ok fs -> zlen pre + zlen (concat (encode <$> fs)) <= n ->
  read_fields_like fs (mkReader (pre ++ concat (encode <$> fs) ++ rest) n (zlen pre)) =
  Ret (Some <$> fs, mkReader (pre ++ concat (encode <$> fs) ++ rest) n
                      (zlen pre + zlen (concat (encode <$> fs)))).
Proof.
  intros Hok. revert pre. induction Hok as [|f fs Hf _ IH]; intros pre Hn; csimpl.
  - rewrite zlen_nil, Z.add_0_r. done.
  - csimpl in Hn. rewrite zlen_app in Hn. pose proof (zlen_nonneg (concat (encode <$> fs))).
    rewrite <- app_assoc, read_field_like_ok by (done || lia).
    cbn [mbind outcome_bind snd].
    rewrite <- zlen_app, app_assoc, IH by (rewrite ?zlen_app; lia).
    cbn [mbind outcome_bind fst snd]. rewrite <- app_assoc. do 2 f_equal.
    rewrite !zlen_app. f_equal. lia.
Qed.



(** *** Reading a length header from arbitrary data *)
Definition all_continue (w : bytes) : Prop := Forall (fun c => Codec.continues c = true) w.

Lemma header_loop_cases room pre d buf :
  (length (take room d) = room /\ all_continue (take room d) /\
   header_loop room (pre ++ d ++ [Byte.x00]) (zlen pre) buf = Ret (buf ++ take room d)) \/
  (~ (length (take room d) = room /\ all_continue (take room d)) /\
   exists hs t, header_loop room (pre ++ d ++ [Byte.x00]) (zlen pre) buf = Ret (buf ++ hs ++ [t]) /\
     all_continue hs /\ Codec.continues t = false /\ (length hs < room)%nat /\
     (length hs <= length d)%nat).
Proof.
  revert pre d buf. induction room as [|room IH]; intros pre d buf.
  { left. simpl. rewrite take_0, app_nil_r. by repeat constructor. }
  destruct d as [|c d].
  { right. split; [simpl; lia|]. exists [], Byte.x00. cbn [header_loop app].
    rewrite load1_mid by done. split_and!; [done|constructor|done|simpl; lia..]. }
  cbn [header_loop app take length]. rewrite load1_mid by done. cbn [mbind outcome_bind].
  destruct (Codec.continues c) eqn:Hc.
  - specialize (IH (pre ++ [c]) d (buf ++ [c])).
    rewrite <- !app_assoc in IH. cbn [app] in IH.
    replace (zlen (pre ++ [c])) with (zlen pre + 1) in IH by (zsimpl; lia).
    destruct IH as [(Hl & Hall & ->)|(Hn & hs & t & -> & Hhs & Ht & Hlen & Hd)].
    + left. split_and!; [by rewrite Hl|by constructor|done].
    + right. split.
      * intros [Hl Hall]. apply Hn. split; [by injection Hl|]. by inversion Hall.
      * exists (c :: hs), t.
        split_and!; [by rewrite <- app_assoc|by constructor|done|simpl; lia..].
  - right. split; [intros [_ Hall]; inversion Hall; congruence|].
    exists [], c. split_and!; [done|constructor|done|simpl; lia..].
Qed.

Lemma read7_overrun w bc v :
  all_continue w -> 7 * (zlen w - 1) + bc < 32 -> Codec.read7_loop 32 w bc v = Undef OutOfBounds.
Proof.
  intros Hall. revert bc v. induction Hall as [|c w Hc Hw IH]; intros bc v Hb; [done|].
  rewrite zlen_cons in Hb. pose proof (zlen_nonneg w). cbn [Codec.read7_loop].
  destruct (Z.leb_spec 32 bc); [lia|]. unfold Codec.continues in Hc. rewrite Hc. apply IH. lia.
Qed.

Lemma read7_stops hs t bc v :
  all_continue hs -> Codec.continues t = false -> 7 * zlen hs + bc < 32 ->
  exists r, Codec.read7_loop 32 (hs ++ [t]) bc v = Ret r /\ urange 32 r.
Proof.
  intros Hall Ht. revert bc v. induction Hall as [|c w Hc Hw IH]; intros bc v Hb;
    cbn [Codec.read7_loop app]; unfold Codec.continues in *.
  - destruct (Z.leb_spec 32 bc); [unfold zlen in Hb; simpl in Hb; lia|]. rewrite Ht.
    eexists. split; [done|]. by apply uwrap_range.
  - rewrite zlen_cons in Hb. pose proof (zlen_nonneg w).
    destruct (Z.leb_spec 32 bc); [lia|]. rewrite Hc. apply IH. lia.
Qed.

(** Reading a length header from arbitrary received data (followed by the
    NUL of the [std::string] that holds it) has a defined result, a refusal or
    a header of one to five bytes inside the packet, unless the five bytes at
    the cursor all have the continuation bit; then [read7BitEncoded] reads past
    its five-byte array. *)
Theorem length_header_safe (pre data : bytes) :
  let s := mkReader (pre ++ data ++ [Byte.x00]) (zlen (pre ++ data)) (zlen pre) in
  (length (take 5 data) = 5%nat /\ all_continue (take 5 data) /\
   ReadLengthWithoutOffset s = Undef OutOfBounds) \/
  (~ (length (take 5 data) = 5%nat /\ all_continue (take 5 data)) /\
   exists r, ReadLengthWithoutOffset s = Ret r /\
     match r with
     | Some (headlen, outlen) =>
         1 <= headlen <= 5 /\ cur s + headlen <= len s /\ urange 32 outlen
     | None => zlen data < 5
     end).
Proof.
  cbn zeta. unfold ReadLengthWithoutOffset. cbn [ptr len cur].
  destruct (header_loop_cases 5 pre data [])
    as [(Hl & Hall & ->)|(Hn & hs & t & -> & Hhs & Ht & Hlen & Hd)];
    cbn [mbind outcome_bind app]; [left|right]; (split; [done|]).
  - split; [done|]. zsimpl. assert (zlen (take 5 data) = 5) as -> by (unfold zlen; lia).
    assert (5 <= zlen data) by (rewrite length_take in Hl; unfold zlen; lia).
    destruct (Z.ltb_spec (zlen pre + zlen data) (zlen pre + 5)); [lia|].
    unfold Codec.read7BitEncoded_u32. rewrite read7_overrun; [done..|].
    unfold zlen. rewrite Hl. lia.
  - assert (0 <= zlen hs <= 4) by (unfold zlen; lia).
    assert (zlen hs <= zlen data) by (unfold zlen; lia).
    zsimpl. destruct (Z.ltb_spec (zlen pre + zlen data) (zlen pre + (zlen hs + (1 + 0)))).
    + eexists. split; [done|]. simpl. lia.
    + destruct (read7_stops hs t 0 0) as (r & Hr & Hrange); [done..|lia|].
      unfold Codec.read7BitEncoded_u32. rewrite Hr. cbn [mbind outcome_bind].
      eexists. split; [done|]. split_and!; [lia..|done].
Qed.

(** The five-byte overrun on a concrete packet, and a value of [ReadInt64]
    that depends on the bytes the stack held. *)
Example header_overrun :
  ReadString 0 (make (replicate 6 Byte.x00 ++ replicate 5 Byte.xff ++ [Byte.x00]) 11)
  = Undef OutOfBounds.
Proof. by vm_compute. Qed.

Example ReadInt64_stack_dependent :
  fst <$> ReadInt64 (replicate 128 Byte.x00) (make (replicate 6 Byte.x00 ++ Byte.x02 :: lit "42") 9)
    = Ret (Some 42) /\
  fst <$> ReadInt64 (lit "xx7" ++ replicate 125 Byte.x00)
            (make (replicate 6 Byte.x00 ++ Byte.x02 :: lit "42") 9)
    = Ret (Some 427).
Proof. by vm_compute. Qed.

End Packet.
