(* ===== verification/Mysql.v ===== *)
(** * The MySQL wrapper and the database bootstrap

    [ConvertString] is utils/ConvertStringUtil.h; [Field], [Row], [QueryResult]
    and [CDatabaseMysql] are the classes of mysqlapi/; [CMysqlManager] is
    mysqlmgr/.  The client library and the server behind it are the parameter
    [MysqlApi]; the life of its handles, which the wrapper manages, is modelled. *)
From S2P Require Import Prelude Protocol.

Module ConvertString.

(** The digits at the front of a string. *)
Fixpoint leading_digits (s : bytes) (acc : Z) : Z :=
  match s with
  | c :: s' => if Decimal.is_digit c then leading_digits s' (10 * acc + Decimal.digit c) else acc
  | [] => acc
  end.

Definition clamp32 (z : Z) : Z := Z.max (- 2 ^ 31) (Z.min z (2 ^ 31 - 1)).

(** [convertFromString<int>]: [iss >> value] skips white space; at the end of
    the text it leaves [value] as it was, which is uninitialised; without a
    digit it stores 0, and it clamps to the range of [int]. *)
Definition convertFromString_int (str : bytes) : outcome Z :=
  match Decimal.skip_space str with
  | [] => Undef Uninitialised
  | c :: s' =>
      if bool_decide (c = Byte.x2d) then Ret (clamp32 (- leading_digits s' 0))
      else if bool_decide (c = Byte.x2b) then Ret (clamp32 (leading_digits s' 0))
      else Ret (clamp32 (leading_digits (c :: s') 0))
  end.

Lemma convertFromString_int_range str v :
  convertFromString_int str = Ret v -> srange 32 v.
Proof.
  unfold convertFromString_int, srange, clamp32.
  repeat case_match; intros ?; simplify_eq; lia.
Qed.

End ConvertString.

Module Field.

Inductive DataTypes : Type :=
| DB_TYPE_UNKNOWN | DB_TYPE_STRING | DB_TYPE_INTEGER | DB_TYPE_FLOAT | DB_TYPE_BOOL.

#[export] Instance DataTypes_eq_dec : EqDecision DataTypes.
Proof. solve_decision. Defined.

Definition lower (c : Byte.byte) : Byte.byte :=
  if (65 <=? uchar c) && (uchar c <=? 90) then byte.of_Z (uchar c + 32) else c.
Definition toLowerString (str : bytes) : bytes := map lower str.

Record Field : Type := mkField { m_strFieldName : bytes; m_iType : DataTypes }.

Definition make_default : Field := mkField [] DB_TYPE_UNKNOWN.
Definition make (name : bytes) (type : DataTypes) : Field := mkField (toLowerString name) type.
Definition setType (type : DataTypes) (f : Field) : Field := mkField (m_strFieldName f) type.
Definition setName (strName : bytes) (f : Field) : Field :=
  mkField (toLowerString strName) (m_iType f).

Definition printType (type : DataTypes) : bytes :=
  match type with
  | DB_TYPE_STRING => lit "DB_TYPE_STRING"
  | DB_TYPE_INTEGER => lit "DB_TYPE_INTEGER"
  | DB_TYPE_FLOAT => lit "DB_TYPE_FLOAT"
  | DB_TYPE_BOOL => lit "DB_TYPE_BOOL"
  | DB_TYPE_UNKNOWN => lit "DB_TYPE_UNKNOWN"
  end.

Definition toString (f : Field) : bytes :=
  lit "| " ++ m_strFieldName f ++ lit " ( " ++ printType (m_iType f) ++ lit " ) | ".

Lemma lower_range c : ~ (65 <= uchar (lower c) <= 90).
Proof.
  unfold lower. destruct ((65 <=? uchar c) && (uchar c <=? 90)) eqn:E.
  - rewrite andb_true_iff, !Z.leb_le in E. rewrite uchar_of_Z, Z.mod_small by lia. lia.
  - rewrite andb_false_iff, !Z.leb_gt in E. lia.
Qed.

Lemma toLowerString_idemp s : toLowerString (toLowerString s) = toLowerString s.
Proof.
  unfold toLowerString. rewrite map_map. apply map_ext. intros c.
  pose proof (lower_range c). unfold lower at 1.
  destruct ((65 <=? uchar (lower c)) && (uchar (lower c) <=? 90)) eqn:E; [|done].
  rewrite andb_true_iff, !Z.leb_le in E. lia.
Qed.

End Field.

(** A row as [mysql_fetch_row] and [mysql_fetch_lengths] give it: the value of
    each column, [None] for SQL NULL (a null pointer with length 0). *)
Abbreviation mysql_row := (list (option bytes)).

Module Row.

Record Row : Type := mkRow { m_strValues : list bytes; m_uLens : list Z }.

(** [std::string(nullptr, 0)] is the empty string. *)
Definition column (v : option bytes) : bytes := default [] v.

(** [Row(row, valueLengths, fieldCounts)]: the loop from column [i] on. *)
Fixpoint read_columns (row : mysql_row) (fieldCounts : nat) (this : Row) {struct fieldCounts}
    : outcome Row :=
  match fieldCounts with
  | O => Ret this
  | S n =>
      match row with
      | [] => Undef OutOfBounds
      | v :: row' =>
          read_columns row' n
            (mkRow (m_strValues this ++ [column v]) (m_uLens this ++ [zlen (column v)]))
      end
  end.
Definition make (row : mysql_row) (fieldCounts : nat) : outcome Row :=
  read_columns row fieldCounts (mkRow [] []).

Definition getStrValues (r : Row) : list bytes := m_strValues r.

Fixpoint format_columns (values : list bytes) (lens : list Z) : outcome bytes :=
  match values with
  | [] => Ret []
  | v :: values' =>
      match lens with
      | [] => Undef OutOfBounds
      | n :: lens' =>
          rest ← format_columns values' lens';
          Ret (lit "(" ++ v ++ lit ")(" ++ Decimal.format_d n ++ lit ")" ++ rest)
      end
  end.
Definition toString (r : Row) : outcome bytes :=
  s ← format_columns (m_strValues r) (m_uLens r);
  Ret (lit "|" ++ s ++ lit "|" ++ [Byte.x0a]).

Lemma read_columns_ok row extra this :
  read_columns (row ++ extra) (length row) this =
  Ret (mkRow (m_strValues this ++ (column <$> row))
             (m_uLens this ++ ((fun v => zlen (column v)) <$> row))).
Proof.
  revert this. induction row as [|v row IH]; intros [vs ls]; csimpl.
  - by rewrite !app_nil_r.
  - rewrite IH. cbn [m_strValues m_uLens]. by rewrite <- !app_assoc.
Qed.

Lemma format_columns_ok vs ls :
  length vs = length ls -> exists s, format_columns vs ls = Ret s.
Proof.
  revert ls. induction vs as [|v vs IH]; intros [|n ls]; try discriminate; [by eexists|].
  intros [=Hl]. simpl. destruct (IH ls Hl) as [s ->]. by eexists.
Qed.

Lemma toString_ok r :
  length (m_strValues r) = length (m_uLens r) -> is_ret (toString r) = true.
Proof. intros H. unfold toString. by destruct (format_columns_ok _ _ H) as [s ->]. Qed.

Lemma make_ok row :
  make row (length row) =
  Ret (mkRow (column <$> row) ((fun v => zlen (column v)) <$> row)).
Proof. unfold make. rewrite <- (app_nil_r row) at 1. by rewrite read_columns_ok. Qed.

End Row.

Module QueryResult.

(** The column types of mysql.h; [FIELD_TYPE_OTHER] stands for the ones the
    wrapper does not name. *)
Inductive enum_field_types : Type :=
| FIELD_TYPE_TIMESTAMP | FIELD_TYPE_DATE | FIELD_TYPE_TIME | FIELD_TYPE_DATETIME
| FIELD_TYPE_YEAR | FIELD_TYPE_STRING | FIELD_TYPE_VAR_STRING | FIELD_TYPE_BLOB
| FIELD_TYPE_SET | FIELD_TYPE_NULL | FIELD_TYPE_TINY | FIELD_TYPE_SHORT | FIELD_TYPE_LONG
| FIELD_TYPE_INT24 | FIELD_TYPE_LONGLONG | FIELD_TYPE_ENUM | FIELD_TYPE_DECIMAL
| FIELD_TYPE_FLOAT | FIELD_TYPE_DOUBLE | FIELD_TYPE_OTHER (code : Z).

Definition convertNativeType (mysqlType : enum_field_types) : Field.DataTypes :=
  match mysqlType with
  | FIELD_TYPE_TIMESTAMP | FIELD_TYPE_DATE | FIELD_TYPE_TIME | FIELD_TYPE_DATETIME
  | FIELD_TYPE_YEAR | FIELD_TYPE_STRING | FIELD_TYPE_VAR_STRING | FIELD_TYPE_BLOB
  | FIELD_TYPE_SET | FIELD_TYPE_NULL => Field.DB_TYPE_STRING
  | FIELD_TYPE_TINY | FIELD_TYPE_SHORT | FIELD_TYPE_LONG | FIELD_TYPE_INT24
  | FIELD_TYPE_LONGLONG | FIELD_TYPE_ENUM => Field.DB_TYPE_INTEGER
  | FIELD_TYPE_DECIMAL | FIELD_TYPE_FLOAT | FIELD_TYPE_DOUBLE => Field.DB_TYPE_FLOAT
  | FIELD_TYPE_OTHER _ => Field.DB_TYPE_UNKNOWN
  end.

(** A stored result set ([MYSQL_RES]). *)
Record mysql_res : Type := mkRes {
  fields : list (bytes * enum_field_types);
  rows : list mysql_row
}.
Definition mysql_num_fields (r : mysql_res) : nat := length (fields r).
Definition mysql_num_rows (r : mysql_res) : nat := length (rows r).

Record QueryResult : Type := mkQueryResult {
  m_FieldCount : nat;
  m_Fields : list Field.Field;
  m_RowCount : nat;
  m_Rows : list Row.Row
}.

(** The [while] loop over [mysql_fetch_row]. *)
Fixpoint read_rows (rs : list mysql_row) (fieldCount : nat) (acc : list Row.Row)
    : outcome (list Row.Row) :=
  match rs with
  | [] => Ret acc
  | row :: rs' => r ← Row.make row fieldCount; read_rows rs' fieldCount (acc ++ [r])
  end.

Definition make (result : mysql_res) : outcome QueryResult :=
  let n := mysql_num_fields result in
  let fs := map (fun f => Field.make (fst f) (convertNativeType (snd f))) (fields result) in
  rs ← read_rows (rows result) n [];
  Ret (mkQueryResult n fs (mysql_num_rows result) rs).

Definition getRows (q : QueryResult) : list Row.Row := m_Rows q.

Fixpoint print_rows (n : nat) (rs : list Row.Row) {struct n} : outcome bytes :=
  match n with
  | O => Ret []
  | S n' =>
      match rs with
      | [] => Undef OutOfBounds
      | r :: rs' => s ← Row.toString r; t ← print_rows n' rs'; Ret (s ++ t)
      end
  end.
Definition printResult (q : QueryResult) : outcome bytes :=
  rs ← print_rows (m_RowCount q) (m_Rows q);
  Ret (lit "fields:=============================" ++ [Byte.x0a] ++
       concat (map Field.toString (m_Fields q)) ++
       [Byte.x0a] ++ lit "Rows:===========================" ++ [Byte.x0a] ++ rs).

(** What the server sent: every row has one value per column. *)
Definition rectangular (r : mysql_res) : Prop :=
  Forall (fun row => length row = mysql_num_fields r) (rows r).

Lemma read_rows_ok rs n acc :
  Forall (fun row => length row = n) rs ->
  exists q, read_rows rs n acc = Ret (acc ++ q) /\
    Row.m_strValues <$> q = (fun row => Row.column <$> row) <$> rs /\
    length q = length rs /\ Forall (fun r => is_ret (Row.toString r) = true) q.
Proof.
  intros Hall. revert acc. induction Hall as [|row rs Hrow _ IH]; intros acc.
  - exists []. rewrite app_nil_r. by repeat constructor.
  - subst n. cbn [read_rows]. rewrite Row.make_ok. cbn [mbind outcome_bind].
    edestruct IH as (q & -> & Hv & Hl & Hp). eexists (_ :: q).
    split_and!; [by rewrite <- app_assoc|csimpl; by rewrite Hv|simpl; by rewrite Hl|].
    constructor; [|done]. apply Row.toString_ok. cbn [Row.m_strValues Row.m_uLens].
    by rewrite !length_fmap.
Qed.

(** reading a result set keeps every row, in order, with every value (SQL
    NULL as the empty string), and printing it is defined. *)
Theorem result_keeps_rows (result : mysql_res) :
  rectangular result ->
  exists q, make result = Ret q /\
    Row.getStrValues <$> getRows q = (fun row => Row.column <$> row) <$> rows result /\
    map Field.m_iType (m_Fields q) = map (fun f => convertNativeType (snd f)) (fields result) /\
    is_ret (printResult q) = true.
Proof.
  intros Hr. unfold make. destruct (read_rows_ok _ _ [] Hr) as (q & -> & Hv & Hl & Hp).
  eexists. split; [reflexivity|]. cbn [getRows m_Rows m_Fields]. split_and!; [done|..].
  - by rewrite map_map.
  - unfold printResult. cbn [m_RowCount m_Rows app]. unfold mysql_num_rows. rewrite <- Hl.
    clear - Hp. induction Hp as [|r q Hr _ IH]; [done|]. cbn [length print_rows].
    destruct (Row.toString r); [|done..]. cbn [mbind outcome_bind].
    destruct (print_rows _ q); done.
Qed.

Lemma result_keeps_rows_witness :
  exists q, make (mkRes [(lit "Id", FIELD_TYPE_LONG); (lit "Name", FIELD_TYPE_VAR_STRING)]
                    [[Some (lit "1"); Some (lit "manjie")]; [Some (lit "2"); None]]) = Ret q /\
    Row.getStrValues <$> getRows q = [[lit "1"; lit "manjie"]; [lit "2"; []]] /\
    map Field.m_iType (m_Fields q) = [Field.DB_TYPE_INTEGER; Field.DB_TYPE_STRING] /\
    is_ret (printResult q) = true.
Proof.
  apply (result_keeps_rows
           (mkRes [(lit "Id", FIELD_TYPE_LONG); (lit "Name", FIELD_TYPE_VAR_STRING)]
              [[Some (lit "1"); Some (lit "manjie")]; [Some (lit "2"); None]])).
  by repeat constructor.
Defined.

End QueryResult.

(** ** The client library, as documented, and the server behind it *)
Class MysqlApi : Type := {
  db : Type;
  mysql_real_connect : Z -> bytes -> bytes -> bytes -> bytes -> db -> bool * db;
  mysql_real_query : Z -> bytes -> db -> Z * db;
  mysql_errno : Z -> db -> Z;
  mysql_store_result : Z -> db -> option QueryResult.mysql_res * db;
  mysql_field_count : Z -> db -> Z
}.
Definition CR_SERVER_GONE_ERROR : Z := 2006.

Module CDatabaseMysql.

Section Api.
Context `{api : MysqlApi}.

(** The handles of the client library: [live] ones are allocated and not yet
    closed.  Using any other is use after free. *)
Record Client : Type := mkClient {
  live : gset Z;
  next_handle : Z;
  server : db
}.

Record DatabaseInfo : Type := mkInfo {
  strHost : bytes; strUser : bytes; strPwd : bytes; strDBName : bytes
}.

Record CDatabaseMysql : Type := mkDatabase {
  m_DBInfo : DatabaseInfo;
  m_Mysql : option Z;
  m_bInit : bool
}.

Definition make : CDatabaseMysql := mkDatabase (mkInfo [] [] [] []) None false.

Abbreviation DbM := (M (CDatabaseMysql * Client)).

Definition set_Mysql (h : option Z) : DbM unit :=
  modify (fun s => (mkDatabase (m_DBInfo (fst s)) h (m_bInit (fst s)), snd s)).
Definition set_Info (i : DatabaseInfo) : DbM unit :=
  modify (fun s => (mkDatabase i (m_Mysql (fst s)) (m_bInit (fst s)), snd s)).
Definition set_Init (b : bool) : DbM unit :=
  modify (fun s => (mkDatabase (m_DBInfo (fst s)) (m_Mysql (fst s)) b, snd s)).

(** [mysql_close(NULL)] does nothing. *)
Definition mysql_close (h : option Z) (c : Client) : outcome Client :=
  match h with
  | None => Ret c
  | Some p =>
      if decide (p ∈ live c) then Ret (mkClient (live c ∖ {[p]}) (next_handle c) (server c))
      else Undef DanglingPointer
  end.

(** [mysql_init(NULL)] allocates a handle; otherwise the object is reused. *)
Definition mysql_init (h : option Z) (c : Client) : outcome (Z * Client) :=
  match h with
  | None =>
      Ret (next_handle c, mkClient ({[next_handle c]} ∪ live c) (next_handle c + 1) (server c))
  | Some p => if decide (p ∈ live c) then Ret (p, c) else Undef DanglingPointer
  end.

Definition close (h : option Z) : DbM unit := fun s =>
  c ← mysql_close h (snd s); Ret (tt, (fst s, c)).
Definition init (h : option Z) : DbM Z := fun s =>
  p ← mysql_init h (snd s); Ret (fst p, (fst s, snd p)).

(** A call of the library on the handle [m_Mysql]. *)
Definition with_handle {A} (f : Z -> db -> A * db) : DbM A := fun s =>
  match m_Mysql (fst s) with
  | None => Undef NullPointer
  | Some p =>
      if decide (p ∈ live (snd s)) then
        let r := f p (server (snd s)) in
        Ret (fst r, (fst s, mkClient (live (snd s)) (next_handle (snd s)) (snd r)))
      else Undef DanglingPointer
  end.
Definition real_query (sql : bytes) : DbM Z := with_handle (fun p => mysql_real_query p (c_str sql)).
Definition errno : DbM Z := with_handle (fun p d => (mysql_errno p d, d)).
Definition store_result : DbM (option QueryResult.mysql_res) := with_handle mysql_store_result.
Definition field_count : DbM Z := with_handle (fun p d => (mysql_field_count p d, d)).

Definition real_connect (h : Z) (i : DatabaseInfo) : DbM bool := fun s =>
  let r := mysql_real_connect h (c_str (strHost i)) (c_str (strUser i)) (c_str (strPwd i))
             (c_str (strDBName i)) (server (snd s)) in
  Ret (fst r, (fst s, mkClient (live (snd s)) (next_handle (snd s)) (snd r))).

(** [~CDatabaseMysql()] *)
Definition destroy (s : CDatabaseMysql * Client) : outcome Client :=
  match m_Mysql (fst s) with
  | None => Ret (snd s)
  | Some p => if m_bInit (fst s) then mysql_close (Some p) (snd s) else Ret (snd s)
  end.

Definition initialize (i : DatabaseInfo) : DbM bool :=
  let! s := get in
  do! when (m_bInit (fst s)) (close (m_Mysql (fst s))) in
  let! h := init (m_Mysql (fst s)) in
  do! set_Mysql (Some h) in
  let! ok := real_connect h i in
  do! set_Mysql (if ok : bool then Some h else None) in
  do! set_Info i in
  if ok : bool then
    let! _ := real_query (lit "set names utf8") in
    do! set_Init true in
    ret true
  else
    do! close None in
    ret false.

Definition reconnect : DbM bool := let! s := get in initialize (m_DBInfo (fst s)).

(** The guarded block of [query], with [m_Mysql] not null. *)
Definition query_stored (sql : bytes) : DbM (option QueryResult.QueryResult) :=
  let! result := store_result in
  match result with
  | None => ret None
  | Some r =>
      let! fieldCount := field_count in
      if fieldCount =? 0 then ret None
      else let! q := lift (QueryResult.make r) in ret (Some q)
  end.

Definition query_connected (sql : bytes) : DbM (option QueryResult.QueryResult) :=
  let! iTempRet := real_query sql in
  if negb (iTempRet =? 0) then
    let! uErrno := errno in
    if CR_SERVER_GONE_ERROR =? uErrno then
      let! ok := reconnect in
      if negb ok then ret None
      else let! _ := real_query sql in query_stored sql
    else ret None
  else query_stored sql.

Definition query (sql : bytes) : DbM (option QueryResult.QueryResult) :=
  let! s := get in
  let! ok := (match m_Mysql (fst s) with None => reconnect | Some _ => ret true end) in
  if negb ok then ret None
  else
    let! s' := get in
    match m_Mysql (fst s') with None => ret None | Some _ => query_connected sql end.

(** [execute(sql)]; [execute_errno] is the overload with [int& nErrno], whose
    second result is the value it stored there, if any. *)
Definition execute (sql : bytes) : DbM bool :=
  let! s := get in
  match m_Mysql (fst s) with
  | None => ret false
  | Some _ =>
      let! iTempRet := real_query sql in
      if negb (iTempRet =? 0) then
        let! uErrno := errno in
        if CR_SERVER_GONE_ERROR =? uErrno then
          let! ok := reconnect in
          if negb ok then ret false
          else let! _ := real_query sql in ret false
        else ret false
      else ret true
  end.

Definition execute_errno (sql : bytes) : DbM (bool * option Z) :=
  let! s := get in
  match m_Mysql (fst s) with
  | None => ret (false, None)
  | Some _ =>
      let! iTempRet := real_query sql in
      if negb (iTempRet =? 0) then
        let! uErrno := errno in
        if CR_SERVER_GONE_ERROR =? uErrno then
          let! ok := reconnect in
          if negb ok then ret (false, None)
          else let! r := real_query sql in ret (false, Some r)
        else ret (false, None)
      else ret (true, None)
  end.

(** *** The handle discipline *)

(** A handle the object holds is allocated and initialised. *)
Definition holds (s : CDatabaseMysql * Client) : Prop :=
  (forall h, h ∈ live (snd s) -> h < next_handle (snd s)) /\
  match m_Mysql (fst s) with
  | Some p => p ∈ live (snd s) /\ m_bInit (fst s) = true
  | None => True
  end.

Definition connected (s : CDatabaseMysql * Client) : Prop := is_Some (m_Mysql (fst s)).

Lemma with_handle_ok {A} (f : Z -> db -> A * db) s p :
  p ∈ live (snd s) -> m_Mysql (fst s) = Some p ->
  with_handle f s = Ret (fst (f p (server (snd s))),
    (fst s, mkClient (live (snd s)) (next_handle (snd s)) (snd (f p (server (snd s)))))).
Proof.
  intros Hl Hp. unfold with_handle. rewrite Hp. by rewrite decide_True.
Qed.

Lemma holds_server s d :
  holds s -> holds (fst s, mkClient (live (snd s)) (next_handle (snd s)) d).
Proof. done. Qed.

(** Connecting an object that holds no handle: the answer of the server decides,
    and the object ends up holding a fresh handle or none. *)
Lemma initialize_fresh i s :
  holds s -> m_Mysql (fst s) = None ->
  exists ok s', initialize i s = Ret (ok, s') /\ holds s' /\
    (ok = true <-> connected s') /\ m_DBInfo (fst s') = i.
Proof.
  destruct s as [[info h b] [lv nx sv]]. intros [Hnext _] Heq. cbn in Heq, Hnext. subst h.
  assert (forall x, x ∈ {[nx]} ∪ lv -> x < nx + 1) as Hnext'.
  { intros x [->%elem_of_singleton|Hx%Hnext]%elem_of_union; lia. }
  assert (exists s', initialize i (mkDatabase info None b, mkClient lv nx sv) =
    Ret (fst (mysql_real_connect nx (c_str (strHost i)) (c_str (strUser i)) (c_str (strPwd i))
            (c_str (strDBName i)) sv), s') /\
    m_DBInfo (fst s') = i /\ live (snd s') = {[nx]} ∪ lv /\ next_handle (snd s') = nx + 1 /\
    if fst (mysql_real_connect nx (c_str (strHost i)) (c_str (strUser i)) (c_str (strPwd i))
            (c_str (strDBName i)) sv)
    then m_Mysql (fst s') = Some nx /\ m_bInit (fst s') = true
    else m_Mysql (fst s') = None) as (s' & -> & Hi & Hl & Hn & Hm).
  { unfold initialize, real_connect, init, close, set_Mysql, set_Info, set_Init.
    destruct b; cbn -[real_query c_str lit];
      (destruct (mysql_real_connect _ _ _ _ _ _) as [[] d];
        run; [unfold real_query; rewrite (with_handle_ok _ _ nx) by (done || set_solver)|];
        by eexists). }
  eexists _, s'. split; [reflexivity|]. unfold holds, connected. rewrite Hl, Hn, Hi.
  destruct (fst (mysql_real_connect _ _ _ _ _ _)).
  - destruct Hm as [-> ->]. split_and!; [done|set_solver|done|by split; eauto|done].
  - rewrite Hm. split_and!; [done..|by split; [done|intros [? ?]]|done].
Qed.

(** Connecting again while connected: the handle was just closed. *)
Lemma initialize_again i s :
  holds s -> connected s -> initialize i s = Undef DanglingPointer.
Proof.
  destruct s as [[info h b] [lv nx sv]]. intros [_ Hp] [p Heq].
  cbn in Heq, Hp. subst h. destruct Hp as [Hp ->].
  unfold initialize, init, close. run. cbn [m_bInit m_Mysql when].
  unfold mysql_close. cbn [snd live]. rewrite decide_True by done.
  cbn [mbind outcome_bind fst snd m_Mysql]. unfold mysql_init. cbn [live].
  by rewrite decide_False by set_solver.
Qed.

(** What the server answers to a statement, and whether it says that the
    connection is gone. *)
Definition answer (sql : bytes) (p : Z) (s : CDatabaseMysql * Client) : Z * db :=
  mysql_real_query p (c_str sql) (server (snd s)).
Definition gone (sql : bytes) (p : Z) (s : CDatabaseMysql * Client) : bool :=
  negb (fst (answer sql p s) =? 0) &&
  (CR_SERVER_GONE_ERROR =? mysql_errno p (snd (answer sql p s))).

Definition with_server (d : db) (s : CDatabaseMysql * Client) : CDatabaseMysql * Client :=
  (fst s, mkClient (live (snd s)) (next_handle (snd s)) d).

Lemma real_query_ok sql s p :
  p ∈ live (snd s) -> m_Mysql (fst s) = Some p ->
  real_query sql s = Ret (fst (answer sql p s), with_server (snd (answer sql p s)) s).
Proof. apply with_handle_ok. Qed.

Lemma errno_ok s p :
  p ∈ live (snd s) -> m_Mysql (fst s) = Some p ->
  errno s = Ret (mysql_errno p (server (snd s)), with_server (server (snd s)) s).
Proof. apply with_handle_ok. Qed.

Lemma holds_live s p : holds s -> m_Mysql (fst s) = Some p -> p ∈ live (snd s).
Proof. intros [_ H] Hp. rewrite Hp in H. tauto. Qed.

Lemma holds_with_server d s : holds s -> holds (with_server d s).
Proof. done. Qed.

Lemma query_stored_ok sql s p :
  (forall h d r d', mysql_store_result h d = (Some r, d') -> QueryResult.rectangular r) ->
  p ∈ live (snd s) -> m_Mysql (fst s) = Some p ->
  exists q d, query_stored sql s = Ret (q, with_server d s).
Proof.
  intros Hrect Hl Hp. unfold query_stored, store_result, field_count. run.
  rewrite (with_handle_ok _ _ p) by done.
  destruct (mysql_store_result p (server (snd s))) as [[r|] d] eqn:Hs; run.
  - rewrite (with_handle_ok _ _ p) by done. run.
    case_match; [by eexists _, _|].
    unfold QueryResult.make.
    destruct (QueryResult.read_rows_ok (QueryResult.rows r) (QueryResult.mysql_num_fields r) [])
      as (q & Hq & _); [by eapply Hrect|]. rewrite Hq. by eexists _, _.
  - by eexists _, _.
Qed.

(** A server that stays: statements keep the handle. *)
Section Steady.
Hypothesis stays : forall h d, mysql_errno h d <> CR_SERVER_GONE_ERROR.
Hypothesis rectangular : forall h d r d', mysql_store_result h d = (Some r, d') -> QueryResult.rectangular r.

Lemma not_gone h d : (CR_SERVER_GONE_ERROR =? mysql_errno h d) = false.
Proof. apply Z.eqb_neq. intros E. by apply (stays h d). Qed.

Lemma execute_steady sql s p :
  holds s -> m_Mysql (fst s) = Some p ->
  exists d, execute sql s = Ret (fst (answer sql p s) =? 0, with_server d s) /\
    execute_errno sql s = Ret ((fst (answer sql p s) =? 0, None), with_server d s).
Proof.
  intros Hh Hp. pose proof (holds_live s p Hh Hp) as Hl. unfold execute, execute_errno. run. rewrite Hp. run.
  rewrite (real_query_ok _ _ p) by done. run. destruct (fst (answer sql p s) =? 0); cbn [negb]; [by eexists|].
  run. rewrite (errno_ok _ p) by done. run. rewrite not_gone. by eexists.
Qed.

(** The result of a query is what the server keeps after the statement. *)
Lemma query_steady sql s p :
  holds s -> m_Mysql (fst s) = Some p ->
  exists q d, query sql s = Ret (q, with_server d s) /\
    forall qr, q = Some qr -> exists r d',
      fst (answer sql p s) = 0 /\ mysql_store_result p (snd (answer sql p s)) = (Some r, d') /\
      QueryResult.make r = Ret qr.
Proof.
  intros Hh Hp. pose proof (holds_live s p Hh Hp) as Hl. unfold query. run. rewrite Hp. run. rewrite Hp.
  unfold query_connected. rewrite M_bind_eq, (real_query_ok _ _ p) by done.
  destruct (Z.eqb_spec (fst (answer sql p s)) 0) as [E|_]; cbn [negb].
  - unfold query_stored, store_result, field_count. run. rewrite (with_handle_ok _ _ p) by done. cbn [snd with_server server].
    destruct (mysql_store_result p (snd (answer sql p s))) as [[r|] d1] eqn:Hs; run; [|by eexists None, _].
    rewrite (with_handle_ok _ _ p) by done. run. case_match; [by eexists None, _|]. unfold QueryResult.make.
    destruct (QueryResult.read_rows_ok (QueryResult.rows r) (QueryResult.mysql_num_fields r) [])
      as (q & Hq & _); [by eapply rectangular|]. rewrite Hq. eexists _, _. split; [reflexivity|].
    intros qr [= <-]. exists r, d1. unfold QueryResult.make. by rewrite Hq.
  - rewrite M_bind_eq, (errno_ok _ p) by done. rewrite not_gone. by eexists None, _.
Qed.

(** Results the server has for a statement. *)
Definition served (sql : bytes) (r : QueryResult.mysql_res) : Prop :=
  exists h d d1 d2, mysql_real_query h (c_str sql) d = (0, d1) /\ mysql_store_result h d1 = (Some r, d2).
(** The handles of the library are distinct. *)
Definition clean (c : Client) : Prop := forall h, h ∈ live c -> h < next_handle c.

(** Connecting a new object and asking one statement. *)
Lemma fetch_ok info sql cl :
  clean cl -> exists ok s1, initialize info (make, cl) = Ret (ok, s1) /\ holds s1 /\
    (ok = true -> exists q d, query sql s1 = Ret (q, with_server d s1) /\
       forall qr, q = Some qr -> exists r, served sql r /\
         Row.m_strValues <$> QueryResult.getRows qr = (fun row : mysql_row => Row.column <$> row) <$> QueryResult.rows r).
Proof.
  intros Hc. destruct (initialize_fresh info (make, cl)) as (ok & s1 & E & Hh & Hok & _); [by split|done|].
  exists ok, s1. split_and!; [done|done|]. intros ->. destruct (proj1 Hok eq_refl) as [p Hp].
  destruct (query_steady sql s1 p Hh Hp) as (q & d & Hq & Hr). exists q, d. split; [done|].
  intros qr ->. destruct (Hr qr eq_refl) as (r & d' & E0 & Es & Hm). exists r. split.
  - exists p, (server (snd s1)), (snd (answer sql p s1)), d'. split; [|done].
    unfold answer in E0. unfold answer. rewrite (surjective_pairing (mysql_real_query _ _ _)). by rewrite E0.
  - unfold QueryResult.make in Hm.
    destruct (QueryResult.read_rows_ok _ _ [] (rectangular _ _ _ _ Es)) as (rs & Er & Hrs & _).
    rewrite Er in Hm. by injection Hm as <-.
Qed.

Lemma destroy_ok s : holds s -> exists cl, destroy s = Ret cl /\ clean cl.
Proof.
  intros [Hn Hh]. unfold destroy. destruct (m_Mysql (fst s)) as [p|].
  - destruct Hh as [Hl ->]. cbn. rewrite decide_True by done. eexists. split; [reflexivity|].
    intros h. cbn. rewrite elem_of_difference. intros [? _]. by apply Hn.
  - eexists. split; [reflexivity|]. exact Hn.
Qed.

End Steady.

(** C25: a statement on a connected object keeps the handle allocated and held,
    except that when the server reports [CR_SERVER_GONE_ERROR] the wrapper
    reconnects by reinitialising the handle it has just closed. *)
Theorem query_handle_safety (sql : bytes) (s : CDatabaseMysql * Client) (p : Z) :
  (forall h d r d', mysql_store_result h d = (Some r, d') -> QueryResult.rectangular r) ->
  holds s -> m_Mysql (fst s) = Some p ->
  if gone sql p s then
    query sql s = Undef DanglingPointer /\ execute sql s = Undef DanglingPointer /\
    execute_errno sql s = Undef DanglingPointer
  else
    exists q d1 d2,
      query sql s = Ret (q, with_server d1 s) /\ holds (with_server d1 s) /\
      execute sql s = Ret (fst (answer sql p s) =? 0, with_server d2 s) /\
      execute_errno sql s = Ret ((fst (answer sql p s) =? 0, None), with_server d2 s) /\
      holds (with_server d2 s).
Proof.
  intros Hrect Hh Hp. pose proof (holds_live s p Hh Hp) as Hl.
  assert (query sql s = query_connected sql s) as ->
    by (unfold query; run; rewrite Hp; run; by rewrite Hp).
  unfold gone, execute, execute_errno, query_connected. run. rewrite Hp.
  run. rewrite (real_query_ok _ _ p) by done. run.
  destruct (fst (answer sql p s) =? 0) eqn:E0; cbn [negb andb].
  - destruct (query_stored_ok sql (with_server (snd (answer sql p s)) s) p) as (q & d & Hq); [done..|].
    rewrite Hq. run. eexists q, d, _. split_and!; done.
  - run. rewrite (errno_ok _ p) by done. run. cbn [server snd with_server].
    destruct (CR_SERVER_GONE_ERROR =? _) eqn:E; run.
    + unfold reconnect. run. rewrite initialize_again; [done|done|].
      unfold connected. cbn. by rewrite Hp.
    + by eexists None, _, _.
Qed.

End Api.

(** A concrete server: every statement succeeds and the result is one table; it
    goes away when told so. *)
Definition demo_api (rows : list mysql_row) : MysqlApi := {|
  db := bool;
  mysql_real_connect := fun _ _ _ _ _ d => (true, d);
  mysql_real_query := fun _ sql d => (if d then 0 else 1, d);
  mysql_errno := fun _ d => CR_SERVER_GONE_ERROR;
  mysql_store_result := fun _ d =>
    (Some (QueryResult.mkRes [(lit "c", QueryResult.FIELD_TYPE_STRING)]
             (filter (fun row => length row = 1%nat) rows)), d);
  mysql_field_count := fun _ _ => 1
|}.

Lemma demo_rectangular rows (h : Z) d r d' :
  @mysql_store_result (demo_api rows) h d = (Some r, d') -> QueryResult.rectangular r.
Proof.
  cbn. intros [= <- <-]. unfold QueryResult.rectangular, QueryResult.mysql_num_fields. cbn.
  apply Forall_forall. intros row [Hr _]%list_elem_of_filter. done.
Qed.

Definition demo_state (up : bool) : CDatabaseMysql * @Client (demo_api []) :=
  (mkDatabase (mkInfo [] [] [] []) (Some 1) true, mkClient (api := demo_api []) {[1]} 2 up).

Lemma query_handle_safety_witness :
  execute (api := demo_api []) (lit "x") (demo_state false) = Undef DanglingPointer /\
  exists d2, execute (api := demo_api []) (lit "x") (demo_state true)
             = Ret (true, with_server (api := demo_api []) d2 (demo_state true)).
Proof.
  assert (forall up, holds (api := demo_api []) (demo_state up)) as Hh.
  { intros up. split; cbn; [intros h ->%elem_of_singleton; lia|split; [set_solver|done]]. }
  split.
  - destruct (query_handle_safety (api := demo_api []) (lit "x") (demo_state false) 1
                (demo_rectangular []) (Hh false) eq_refl) as (_ & He & _). exact He.
  - destruct (query_handle_safety (api := demo_api []) (lit "x") (demo_state true) 1
                (demo_rectangular []) (Hh true) eq_refl) as (_ & _ & d2 & _ & _ & He & _).
    exists d2. exact He.
Defined.

End CDatabaseMysql.

Module CMysqlManager.

Section Api.
Context `{api : MysqlApi}.

(** [m_vecTableInfo] and its element types are declared and never used. *)
Record CMysqlManager : Type := mkManager {
  m_poConn : option CDatabaseMysql.CDatabaseMysql;
  m_strHost : bytes;
  m_strUser : bytes;
  m_strPassword : bytes;
  m_strDataBase : bytes;
  m_strCharactSet : bytes
}.
Definition make : CMysqlManager := mkManager None [] [] [] [] [].

Abbreviation State := (CMysqlManager * CDatabaseMysql.Client)%type.

Definition set_conn (c : option CDatabaseMysql.CDatabaseMysql) (m : CMysqlManager) :=
  mkManager c (m_strHost m) (m_strUser m) (m_strPassword m) (m_strDataBase m)
    (m_strCharactSet m).
Definition set_params (host user pwd db : bytes) (m : CMysqlManager) :=
  mkManager (m_poConn m) host user pwd db (m_strCharactSet m).

Definition getHost (m : CMysqlManager) := m_strHost m.
Definition getUser (m : CMysqlManager) := m_strUser m.
Definition getPwd (m : CMysqlManager) := m_strPassword m.
Definition getDBName (m : CMysqlManager) := m_strDataBase m.
Definition getCharSet (m : CMysqlManager) := m_strCharactSet m.

(** A call through [m_poConn]. *)
Definition on_conn {A} (f : M (CDatabaseMysql.CDatabaseMysql * CDatabaseMysql.Client) A)
    : M State A := fun s =>
  match m_poConn (fst s) with
  | None => Undef NullPointer
  | Some c =>
      p ← f (c, snd s);
      Ret (fst p, (set_conn (Some (fst (snd p))) (fst s), snd (snd p)))
  end.

(** [m_poConn.reset(...)]: the old object is destroyed. *)
Definition reset (c : option CDatabaseMysql.CDatabaseMysql) : M State unit := fun s =>
  match m_poConn (fst s) with
  | None => Ret (tt, (set_conn c (fst s), snd s))
  | Some old =>
      cl ← CDatabaseMysql.destroy (old, snd s);
      Ret (tt, (set_conn c (fst s), cl))
  end.

Definition isDBExist : M State bool :=
  let! s := get in
  match m_poConn (fst s) with
  | None => ret false
  | Some _ =>
      let! res_ptr := on_conn (CDatabaseMysql.query (lit "SHOW DATABASES;")) in
      match res_ptr with
      | None => ret false
      | Some q =>
          ret (existsb (existsb (fun str => bool_decide (m_strDataBase (fst s) = str)))
                 (map Row.getStrValues (QueryResult.getRows q)))
      end
  end.

Definition createDB : M State bool :=
  let! s := get in
  match m_poConn (fst s) with
  | None => ret false
  | Some _ =>
      let! r := on_conn (CDatabaseMysql.execute_errno
                           (lit "CREATE DATABASE " ++ m_strDataBase (fst s) ++ lit ";")) in
      if fst r : bool then
        let! exist := isDBExist in
        if exist : bool then ret true else ret false
      else ret false
  end.

(** [std::getline] on the whole stream: the pieces between newlines; a piece
    after the last newline counts when it is not empty. *)
Fixpoint getlines_from (content line : bytes) : list bytes :=
  match content with
  | [] => match line with [] => [] | _ => [line] end
  | c :: content' =>
      if bool_decide (c = Byte.x0a) then line :: getlines_from content' []
      else getlines_from content' (line ++ [c])
  end.
Definition getlines (content : bytes) : list bytes := getlines_from content [].

(** The [while] loop of [initData]; [line.back()] of an empty line is undefined. *)
Fixpoint run_lines (lines : list bytes) (query : bytes) : M State bool :=
  match lines with
  | [] => ret true
  | line :: lines' =>
      let query' := query ++ line in
      match last line with
      | None => undefined EmptyBack
      | Some c =>
          if bool_decide (c = Byte.x3b) then
            let! ok := on_conn (CDatabaseMysql.execute query') in
            if negb ok then ret false else run_lines lines' []
          else run_lines lines' query'
      end
  end.

(** The file is an argument: its contents, or [None] when it cannot be opened. *)
Definition initData (file : option bytes) : M State bool :=
  match file with
  | None => ret false
  | Some content => run_lines (getlines content) []
  end.

(** The [const char*] arguments may be null. *)
Definition init (file : option bytes) (host user pwd dbname : option bytes) : M State bool :=
  match host, user, dbname with
  | Some h, Some u, Some d =>
      do! modify (fun s => (set_params h u (default (m_strPassword (fst s)) pwd) d (fst s), snd s)) in
      do! reset (Some CDatabaseMysql.make) in
      let! s := get in
      let info db := CDatabaseMysql.mkInfo (m_strHost (fst s)) (m_strUser (fst s))
                       (m_strPassword (fst s)) db in
      let! ok := on_conn (CDatabaseMysql.initialize (info [])) in
      if negb ok then ret false
      else
        let! exist := isDBExist in
        let! created := (if exist : bool then ret true else createDB) in
        if negb created then ret false
        else
          do! reset (Some CDatabaseMysql.make) in
          let! ok2 := on_conn (CDatabaseMysql.initialize (info (m_strDataBase (fst s)))) in
          if negb ok2 then ret false
          else
            let! data := initData file in
            if negb data then ret false
            else do! reset None in ret true
  | _, _, _ => undefined NullPointer
  end.

(** *** The script is a sequence of statements *)

(** Reference: a statement is the concatenation of the lines up to one that
    ends in a semicolon; an unfinished last one is dropped. *)
Fixpoint statements (lines : list bytes) (query : bytes) : list bytes :=
  match lines with
  | [] => []
  | line :: lines' =>
      if bool_decide (last line = Some Byte.x3b)
      then (query ++ line) :: statements lines' []
      else statements lines' (query ++ line)
  end.

(** Execute statements in order, up to the first that fails. *)
Fixpoint run_statements (sqls : list bytes) : M State bool :=
  match sqls with
  | [] => ret true
  | sql :: sqls' =>
      let! ok := on_conn (CDatabaseMysql.execute sql) in
      if negb ok then ret false else run_statements sqls'
  end.

Lemma run_lines_prefix ls rest q s :
  Forall (fun line => line <> []) ls ->
  (rest = [] \/ exists rest', rest = [] :: rest') ->
  run_lines (ls ++ rest) q s =
  match run_statements (statements ls q) s with
  | Ret (true, s') => match rest with [] => Ret (true, s') | _ => Undef EmptyBack end
  | r => r
  end.
Proof.
  intros Hls Hrest. revert q s. induction Hls as [|line ls Hline _ IH]; intros q s.
  - cbn [statements run_statements]. destruct Hrest as [->|[rest' ->]]; done.
  - cbn [app run_lines statements].
    destruct (last line) as [c|] eqn:Hlast; [|by apply last_None in Hlast].
    destruct (decide (c = Byte.x3b)) as [->|Hc].
    + rewrite !bool_decide_eq_true_2 by done. cbn [run_statements]. run.
      destruct (on_conn _ s) as [[[] s1]| |]; run; [apply IH|done..].
    + rewrite !bool_decide_eq_false_2 by congruence. apply IH.
Qed.

(** C40: the bootstrap script: without blank lines [initData] executes exactly
    the script's statements, in order, up to the first that fails; a blank line
    reached after successful statements is undefined behaviour. *)
Theorem initData_statements (content : bytes) (ls rest : list bytes) (s : State) :
  getlines content = ls ++ rest ->
  Forall (fun line => line <> []) ls ->
  (rest = [] \/ exists rest', rest = [] :: rest') ->
  initData (Some content) s =
  match run_statements (statements ls []) s with
  | Ret (true, s') => match rest with [] => Ret (true, s') | _ => Undef EmptyBack end
  | r => r
  end.
Proof. intros Heq. cbn [initData]. rewrite Heq. apply run_lines_prefix. Qed.

(** *** The whole of [init] *)

(** There is a connection. *)
Definition linked (s : State) : Prop :=
  exists c p, m_poConn (fst s) = Some c /\ CDatabaseMysql.holds (c, snd s) /\ CDatabaseMysql.m_Mysql c = Some p.
Definition clean (s : State) : Prop := CDatabaseMysql.clean (snd s).
(** The call returns, and then [Q] holds. *)
Definition total {A} (m : M State A) (Q : State -> Prop) (s : State) : Prop := wp (fun _ => False) m (fun _ => Q) s.

Lemma linked_clean s : linked s -> clean s.
Proof. by intros (c & p & _ & [H _] & _). Qed.

Lemma total_bind {A B} (m : M State A) (f : A -> M State B) (I Q : State -> Prop) s :
  total m I s -> (forall a s', I s' -> total (f a) Q s') -> total (bindM m f) Q s.
Proof. intros Hm Hf. apply wp_bind. eapply wp_mono; [exact Hm|]. intros a s'. apply Hf. Qed.

(** A call that leaves the object as it is. *)
Lemma on_conn_same {A} (f : M (CDatabaseMysql.CDatabaseMysql * CDatabaseMysql.Client) A) s :
  linked s ->
  (forall c p, CDatabaseMysql.holds (c, snd s) -> CDatabaseMysql.m_Mysql c = Some p ->
     exists a d, f (c, snd s) = Ret (a, CDatabaseMysql.with_server d (c, snd s))) ->
  total (on_conn f) linked s.
Proof.
  intros (c & p & Hc & Hh & Hp) Hf. destruct (Hf c p Hh Hp) as (a & d & E).
  unfold total, wp, on_conn. rewrite Hc, E. by exists c, p.
Qed.

Section Steady.
Hypothesis stays : forall h d, mysql_errno h d <> CR_SERVER_GONE_ERROR.
Hypothesis rectangular : forall h d r d', mysql_store_result h d = (Some r, d') -> QueryResult.rectangular r.

Lemma query_total sql s : linked s -> total (on_conn (CDatabaseMysql.query sql)) linked s.
Proof.
  intros Hs. apply on_conn_same; [done|]. intros c p Hh Hp.
  destruct (CDatabaseMysql.query_steady stays rectangular sql (c, snd s) p Hh Hp) as (q & d & E & _). by exists q, d.
Qed.
Lemma execute_total sql s :
  linked s -> total (on_conn (CDatabaseMysql.execute sql)) linked s /\
    total (on_conn (CDatabaseMysql.execute_errno sql)) linked s.
Proof.
  intros Hs. split; (apply on_conn_same; [done|]); intros c p Hh Hp;
    destruct (CDatabaseMysql.execute_steady stays sql (c, snd s) p Hh Hp) as (d & E & E'); by eexists _, d.
Qed.

Lemma isDBExist_total s : linked s -> total isDBExist linked s.
Proof.
  intros Hs. pose proof Hs as (c & p & Hc & _). unfold isDBExist, total. apply wp_bind. unfold wp at 1. cbn [get].
  rewrite Hc. eapply total_bind; [by apply query_total|]. by intros [q|] s' Hs'.
Qed.
Lemma createDB_total s : linked s -> total createDB linked s.
Proof.
  intros Hs. pose proof Hs as (c & p & Hc & _). unfold createDB, total. apply wp_bind. unfold wp at 1. cbn [get].
  rewrite Hc. eapply total_bind; [by apply execute_total|]. intros [[] e] s' Hs'; cbn [fst]; [|done].
  eapply total_bind; [by apply isDBExist_total|]. by intros [] s2 Hs2.
Qed.

Lemma run_lines_total lines q s :
  Forall (fun line => line <> []) lines -> linked s -> total (run_lines lines q) linked s.
Proof.
  intros Hl. revert q s. induction Hl as [|line lines Hline _ IH]; intros q s Hs; cbn [run_lines]; [done|].
  destruct (last line) as [c|] eqn:Hlast; [|by apply last_None in Hlast]. case_bool_decide; [|by apply IH].
  eapply total_bind; [by apply execute_total|]. intros [] s' Hs'; cbn [negb]; [by apply IH|done].
Qed.

(** Starting over with a new object. *)
Lemma reset_total c s : clean s -> m_poConn (fst s) = None \/ linked s ->
  total (reset c) (fun s' => clean s' /\ m_poConn (fst s') = c) s.
Proof.
  intros Hcl Hs. unfold total, wp, reset. destruct Hs as [->|(c0 & p & -> & Hh & _)]; [done|].
  destruct (CDatabaseMysql.destroy_ok (c0, snd s) Hh) as (cl & E & Hcl'). by rewrite E.
Qed.
Lemma connect_total info s :
  clean s -> m_poConn (fst s) = Some CDatabaseMysql.make ->
  wp (fun _ => False) (on_conn (CDatabaseMysql.initialize info)) (fun ok s' => clean s' /\ (ok = true -> linked s')) s.
Proof.
  intros Hcl Hc. destruct (CDatabaseMysql.initialize_fresh info (CDatabaseMysql.make, snd s))
    as (ok & [c cl] & E & Hh & Hok & _); [by split|done|].
  unfold wp, on_conn. rewrite Hc, E. cbn. split; [exact (proj1 Hh)|].
  intros ->. destruct (proj1 Hok eq_refl) as [p Hp]. by exists c, p.
Qed.

(** With a server that stays and a script without blank lines, [init] returns. *)
Lemma init_total file host user pwd dbname s :
  m_poConn (fst s) = None -> clean s ->
  (forall content, file = Some content -> Forall (fun line => line <> []) (getlines content)) ->
  total (init file (Some host) (Some user) pwd (Some dbname)) clean s.
Proof.
  intros Hc Hcl Hfile. unfold init, total. apply wp_bind. unfold wp at 1. cbn [modify].
  eapply total_bind; [by apply reset_total; [|left]|]. intros [] s1 [Hcl1 Hc1]. apply wp_bind. unfold wp at 1. cbn [get].
  apply wp_bind. eapply wp_mono; [by apply connect_total|]. intros ok s2 [Hcl2 Hok].
  destruct ok; cbn [negb]; [|done]. specialize (Hok eq_refl).
  eapply total_bind; [by apply isDBExist_total|]. intros exist s3 Hs3.
  apply (total_bind _ _ linked); [destruct exist; [done|by apply createDB_total]|]. intros created s4 Hs4.
  destruct created; cbn [negb]; [|by apply linked_clean].
  eapply total_bind; [by apply reset_total; [apply linked_clean|right]|]. intros [] s5 [Hcl5 Hc5].
  apply wp_bind. eapply wp_mono; [by apply connect_total|]. intros ok2 s6 [Hcl6 Hok2]. destruct ok2; cbn [negb]; [|done].
  specialize (Hok2 eq_refl). apply (total_bind _ _ linked).
  { unfold initData. destruct file as [content|]; [by apply run_lines_total; [apply Hfile|]|done]. }
  intros data s7 Hs7. destruct data; cbn [negb]; [|by apply linked_clean].
  eapply total_bind; [by apply reset_total; [apply linked_clean|right]|]. by intros [] s8 [Hcl8 _].
Qed.

End Steady.

End Api.

(** The start of the shipped script has a blank third line. *)
Definition data_sql_head : bytes :=
  lit "DROP TABLE IF EXISTS t_user;" ++ [Byte.x0a] ++
  lit "DROP TABLE IF EXISTS t_chatmsg;" ++ [Byte.x0a; Byte.x0a] ++ lit "CREATE TABLE t_user (".

Lemma initData_statements_witness :
  initData (api := CDatabaseMysql.demo_api []) (Some data_sql_head)
    (mkManager (Some (fst (CDatabaseMysql.demo_state true))) [] [] [] [] [],
     snd (CDatabaseMysql.demo_state true))
  = Undef EmptyBack.
Proof.
  rewrite (initData_statements (api := CDatabaseMysql.demo_api []) data_sql_head
             [lit "DROP TABLE IF EXISTS t_user;"; lit "DROP TABLE IF EXISTS t_chatmsg;"]
             [[]; lit "CREATE TABLE t_user ("]).
  - vm_compute. reflexivity.
  - vm_compute. reflexivity.
  - by repeat constructor.
  - right. by eexists.
Defined.

End CMysqlManager.
