(* ===== verification/Channels.v ===== *)
(** * Channels

    [Channel] is net/Channel.h and net/Channel.cpp: a descriptor with the events
    it waits for, those that were reported and the callbacks they lead to.  The
    operations that tell the poller of a change are in Pollers.v. *)
From S2P Require Import Prelude Protocol.

(** ** Event bits of poll(2), as base/Platform.h renames them *)
Definition XPOLLIN : Z := 1.
Definition XPOLLPRI : Z := 2.
Definition XPOLLOUT : Z := 4.
Definition XPOLLERR : Z := 8.
Definition XPOLLHUP : Z := 16.
Definition XPOLLNVAL : Z := 32.
Definition XPOLLRDHUP : Z := 8192.

Definition XEPOLL_CTL_ADD : Z := 1.
Definition XEPOLL_CTL_DEL : Z := 2.
Definition XEPOLL_CTL_MOD : Z := 3.

(** [m & bits] as a condition *)
Definition has (m bits : Z) : bool := negb (Z.land m bits =? 0).

Module Channel.

Definition kNoneEvent : Z := 0.
Definition kReadEvent : Z := Z.lor XPOLLIN XPOLLPRI.
Definition kWriteEvent : Z := XPOLLOUT.

Inductive callback : Type := CloseCallback | ErrorCallback | ReadCallback | WriteCallback.

#[export] Instance callback_eq_dec : EqDecision callback.
Proof. solve_decision. Defined.

(** [m_callbacks] says which of the four callbacks are set. *)
Record Channel : Type := mkChannel {
  m_loop : Z;
  m_fd : Z;
  m_events : Z;
  m_revents : Z;
  m_index : Z;
  m_callbacks : callback -> bool
}.

Definition make (loop fd : Z) : Channel := mkChannel loop fd 0 0 (-1) (fun _ => false).

Definition with_events (ev : Z) (c : Channel) : Channel :=
  mkChannel (m_loop c) (m_fd c) ev (m_revents c) (m_index c) (m_callbacks c).
Definition set_revents (revt : Z) (c : Channel) : Channel :=
  mkChannel (m_loop c) (m_fd c) (m_events c) revt (m_index c) (m_callbacks c).
Definition add_revents (revt : Z) (c : Channel) : Channel :=
  set_revents (Z.lor (m_revents c) revt) c.
Definition set_index (idx : Z) (c : Channel) : Channel :=
  mkChannel (m_loop c) (m_fd c) (m_events c) (m_revents c) idx (m_callbacks c).
Definition setCallback (cb : callback) (c : Channel) : Channel :=
  mkChannel (m_loop c) (m_fd c) (m_events c) (m_revents c) (m_index c)
    (fun k => bool_decide (k = cb) || m_callbacks c k).

Definition isNoneEvent (c : Channel) : bool := m_events c =? kNoneEvent.
Definition isWriting (c : Channel) : bool := has (m_events c) kWriteEvent.
Definition isReading (c : Channel) : bool := has (m_events c) kReadEvent.

(** The assignments of [enableReading], ..., [disableAll]; each is followed by
    [update()]. *)
Definition enable_read_bits (c : Channel) : Channel :=
  with_events (Z.lor (m_events c) kReadEvent) c.
Definition disable_read_bits (c : Channel) : Channel :=
  with_events (Z.land (m_events c) (Z.lnot kReadEvent)) c.
Definition enable_write_bits (c : Channel) : Channel :=
  with_events (Z.lor (m_events c) kWriteEvent) c.
Definition disable_write_bits (c : Channel) : Channel :=
  with_events (Z.land (m_events c) (Z.lnot kWriteEvent)) c.
Definition disable_all_bits (c : Channel) : Channel := with_events kNoneEvent c.

(** [reventsToString] *)
Definition reventsToString (c : Channel) : bytes :=
  let word b s := if has (m_revents c) b then lit s else [] in
  Decimal.format_d (m_fd c) ++ lit ": " ++
  word XPOLLIN "IN " ++ word XPOLLPRI "PRI " ++ word XPOLLOUT "OUT " ++ word XPOLLHUP "HUP " ++
  word XPOLLRDHUP "RDHUP " ++ word XPOLLERR "ERR " ++ word XPOLLNVAL "NVAL ".

(** *** The write bit *)
Lemma has_testbit m k : 0 <= k -> has m (2 ^ k) = Z.testbit m k.
Proof.
  intros Hk. unfold has. destruct (Z.testbit m k) eqn:Hb.
  - destruct (Z.eqb_spec (Z.land m (2 ^ k)) 0) as [Hz|]; [|done].
    assert (Z.testbit (Z.land m (2 ^ k)) k = true) as Ht
      by (by rewrite Z.land_spec, Hb, Z.pow2_bits_true).
    by rewrite Hz, Z.bits_0 in Ht.
  - assert (Z.land m (2 ^ k) = 0) as ->; [|done].
    apply Z.bits_inj'. intros n Hn. rewrite Z.land_spec, Z.bits_0, Z.pow2_bits_eqb by done.
    destruct (Z.eqb_spec k n) as [<-|]; [by rewrite Hb|by rewrite andb_false_r].
Qed.

Lemma isWriting_testbit c : isWriting c = Z.testbit (m_events c) 2.
Proof. apply (has_testbit _ 2). lia. Qed.

Lemma isWriting_enable c : isWriting (enable_write_bits c) = true.
Proof. rewrite isWriting_testbit. cbn [enable_write_bits with_events m_events]. rewrite Z.lor_spec. apply orb_true_r. Qed.
Lemma isWriting_disable c : isWriting (disable_write_bits c) = false.
Proof. rewrite isWriting_testbit. cbn [disable_write_bits with_events m_events]. rewrite Z.land_spec. apply andb_false_r. Qed.
Lemma isWriting_disable_all c : isWriting (disable_all_bits c) = false.
Proof. done. Qed.
Lemma isWriting_enable_read c : isWriting (enable_read_bits c) = isWriting c.
Proof. rewrite !isWriting_testbit. cbn [enable_read_bits with_events m_events]. rewrite Z.lor_spec. apply orb_false_r. Qed.

(** *** [handleEvent]

    The callbacks run on the store [W] that holds the channel; each test reads
    the channel again, because a callback may have changed or destroyed it. *)
Section HandleEvent.
Context {W : Type} (this : W -> option Channel) (call : callback -> M W unit).

Definition self : M W Channel :=
  let! o := gets this in
  match o with Some c => ret c | None => undefined DanglingPointer end.

Definition fire (cond : Z -> bool) (cb : callback) : M W unit :=
  let! c := self in
  when (cond (m_revents c) && m_callbacks c cb) (call cb).

Definition hangup (r : Z) : bool := has r XPOLLHUP && negb (has r XPOLLIN).
Definition failed (r : Z) : bool := has r (Z.lor XPOLLERR XPOLLNVAL).
Definition readable (r : Z) : bool := has r (Z.lor (Z.lor XPOLLIN XPOLLPRI) XPOLLRDHUP).
Definition writable (r : Z) : bool := has r XPOLLOUT.

Definition handleEvent : M W unit :=
  do! fire hangup CloseCallback in
  do! fire failed ErrorCallback in
  do! fire readable ReadCallback in
  fire writable WriteCallback.

(** The callbacks a channel with revents [r] gets, in order. *)
Definition dispatch (r : Z) (set : callback -> bool) : list callback :=
  (if hangup r && set CloseCallback then [CloseCallback] else []) ++
  (if failed r && set ErrorCallback then [ErrorCallback] else []) ++
  (if readable r && set ReadCallback then [ReadCallback] else []) ++
  (if writable r && set WriteCallback then [WriteCallback] else []).

(** Callbacks that leave the channel's revents and callbacks alone. *)
Definition keeps_channel : Prop :=
  forall cb w w' c, this w = Some c -> call cb w = Ret (tt, w') ->
  exists c', this w' = Some c' /\ m_revents c' = m_revents c /\ m_callbacks c' = m_callbacks c.

Fixpoint call_all (cbs : list callback) : M W unit :=
  match cbs with
  | [] => ret tt
  | cb :: cbs' => do! call cb in call_all cbs'
  end.

Lemma call_all_app l1 l2 w :
  call_all (l1 ++ l2) w = bindM (call_all l1) (fun _ => call_all l2) w.
Proof.
  revert w. induction l1 as [|cb l1 IH]; intros w; [done|]. cbn [app call_all]. run.
  destruct (call cb w) as [[[] w1]| |]; [apply IH|done..].
Qed.

Lemma fire_spec (Hk : keeps_channel) cond cb (k : M W unit) w c :
  this w = Some c ->
  bindM (fire cond cb) (fun _ => k) w =
  bindM (call_all (if cond (m_revents c) && m_callbacks c cb then [cb] else [])) (fun _ => k) w /\
  forall w', fire cond cb w = Ret (tt, w') ->
  exists c', this w' = Some c' /\ m_revents c' = m_revents c /\ m_callbacks c' = m_callbacks c.
Proof.
  intros Hc. unfold fire, self. run. rewrite Hc. run.
  destruct (cond (m_revents c) && m_callbacks c cb); run.
  - split.
    + cbn [call_all]. run. by destruct (call cb w) as [[[] ?]| |].
    + intros w' Hw'. by eapply Hk.
  - split; [done|]. intros w' [= <-]. eauto.
Qed.

(** Event dispatch: the callbacks of a channel run exactly for the reported
    conditions, close before error before read before write, as long as no
    callback touches the reported events. *)
Theorem handleEvent_dispatch (Hk : keeps_channel) (w : W) (c : Channel) :
  this w = Some c ->
  handleEvent w = call_all (dispatch (m_revents c) (m_callbacks c)) w.
Proof.
  intros Hc. unfold handleEvent, dispatch.
  assert (forall r f conds w c', this w = Some c' -> m_revents c' = r -> m_callbacks c' = f ->
    fold_right (fun p k => bindM (fire (fst p) (snd p)) (fun _ => k)) (ret tt) conds w =
    call_all (concat (map (fun p => if fst p r && f (snd p) then [snd p] else []) conds)) w)
    as Hall.
  { clear w c Hc. intros r f conds. induction conds as [|[cond cb] conds IH]; [done|].
    intros w c Hc Hr Hf. subst. cbn [fold_right map concat fst snd].
    rewrite call_all_app.
    destruct (fire_spec Hk cond cb (call_all (concat (map (fun p =>
      if fst p (m_revents c) && m_callbacks c (snd p) then [snd p] else []) conds))) w c Hc)
      as [<- Hnext]. run.
    destruct (fire cond cb w) as [[[] w1]| |] eqn:Hf; [|done..].
    destruct (Hnext w1 eq_refl) as (c1 & H1 & H2 & H3). by eapply IH. }
  specialize (Hall (m_revents c) (m_callbacks c) [(hangup, CloseCallback); (failed, ErrorCallback);
                    (readable, ReadCallback); (writable, WriteCallback)] w c Hc eq_refl eq_refl).
  cbn [fold_right map concat fst snd] in Hall. rewrite app_nil_r in Hall. rewrite <- Hall.
  run. destruct (fire hangup CloseCallback w) as [[[] w1]| |]; [|done..].
  destruct (fire failed ErrorCallback w1) as [[[] w2]| |]; [|done..].
  destruct (fire readable ReadCallback w2) as [[[] w3]| |]; [|done..].
  by destruct (fire writable WriteCallback w3) as [[[] w4]| |].
Qed.

End HandleEvent.

Lemma handleEvent_dispatch_witness :
  let c := setCallback CloseCallback (setCallback ReadCallback
             (set_revents (Z.lor XPOLLHUP XPOLLRDHUP) (make 1 7))) in
  handleEvent (fun w : Channel * list callback => Some (fst w))
    (fun cb => modify (fun w => (fst w, snd w ++ [cb]))) (c, [])
  = Ret (tt, (c, [CloseCallback; ReadCallback])).
Proof.
  intros c.
  rewrite (handleEvent_dispatch (fun w : Channel * list callback => Some (fst w))
             (fun cb => modify (fun w => (fst w, snd w ++ [cb])))) with (c := c).
  - reflexivity.
  - intros cb w w' c' Hc Hw. injection Hw as <-. injection Hc as <-. by eexists.
  - reflexivity.
Defined.

End Channel.
