(* ===== verification/Pollers.v ===== *)
(** * The pollers

    [Poller] is the abstract class of net/Poller.h as an interface with its
    contract, and the channel operations of net/Channel.cpp that go through it;
    [EPollPoller] (net/EpollPoller.cpp), [PollPoller] (net/PollPoller.cpp) and
    [SelectPoller] (net/SelectPoller.cpp) are the implementations.  Channels
    are named by their address in a heap. *)
From stdpp Require Import sorting.
From S2P Require Import Prelude Protocol Channels.
Import Channel.

(** ** The interface *)
Class Poller (P : Type) : Type := {
  heap : P -> gmap Z Channel;
  set_heap : gmap Z Channel -> P -> P;
  poller_updateChannel : Z -> M P bool;
  poller_removeChannel : Z -> M P unit
}.

Section ChannelOps.
Context {P : Type} `{!Poller P}.

(** [*channel] *)
Definition deref (p : Z) : M P Channel :=
  let! h := gets heap in
  match h !! p with Some c => ret c | None => undefined DanglingPointer end.
Definition assign (p : Z) (f : Channel -> Channel) : M P unit :=
  let! c := deref p in
  modify (fun s => set_heap (<[p := f c]> (heap s)) s).

(** [EventLoop::updateChannel] and [EventLoop::removeChannel] for the loop
    [this]. *)
Definition loop_updateChannel (this p : Z) : M P bool :=
  let! c := deref p in
  if m_loop c =? this then poller_updateChannel p else ret false.
Definition loop_removeChannel (this p : Z) : M P unit :=
  let! c := deref p in
  if m_loop c =? this then poller_removeChannel p else ret tt.

Definition update (p : Z) : M P bool := let! c := deref p in loop_updateChannel (m_loop c) p.
Definition enableReading (p : Z) : M P bool := do! assign p enable_read_bits in update p.
Definition disableReading (p : Z) : M P bool := do! assign p disable_read_bits in update p.
Definition enableWriting (p : Z) : M P bool := do! assign p enable_write_bits in update p.
Definition disableWriting (p : Z) : M P bool := do! assign p disable_write_bits in update p.
Definition disableAll (p : Z) : M P bool := do! assign p disable_all_bits in update p.
Definition remove (p : Z) : M P unit :=
  let! c := deref p in
  if negb (isNoneEvent c) then ret tt else loop_removeChannel (m_loop c) p.

End ChannelOps.

(** The contract: a poller keeps every channel, and of a channel it changes
    nothing but the index. *)
Definition same_but_index (h1 h2 : gmap Z Channel) : Prop :=
  forall p, set_index 0 <$> h1 !! p = set_index 0 <$> h2 !! p.

#[export] Instance same_but_index_equiv : Equivalence same_but_index.
Proof.
  split.
  - by intros h p.
  - intros h1 h2 H p. by rewrite (H p).
  - intros h1 h2 h3 H12 H23 p. by rewrite (H12 p), (H23 p).
Qed.

Class PollerSpec (P : Type) `{!Poller P} : Prop := {
  heap_set_heap : forall h (s : P), heap (set_heap h s) = h;
  update_frame : forall p s b s',
    poller_updateChannel p s = Ret (b, s') -> same_but_index (heap s) (heap s');
  remove_frame : forall p s s',
    poller_removeChannel p s = Ret (tt, s') -> same_but_index (heap s) (heap s')
}.

Lemma same_but_index_insert h p c idx :
  h !! p = Some c -> same_but_index h (<[p := set_index idx c]> h).
Proof.
  intros Hc q. destruct (decide (q = p)) as [->|Hne].
  - by rewrite lookup_insert, decide_True, Hc.
  - by rewrite lookup_insert_ne by done.
Qed.

Lemma same_but_index_lookup h1 h2 p c :
  same_but_index h1 h2 -> h1 !! p = Some c -> exists i, h2 !! p = Some (set_index i c).
Proof.
  intros H Hc. specialize (H p). rewrite Hc in H. cbn in H.
  destruct (h2 !! p) as [[l f e r i cb]|]; [|done]. exists i.
  destruct c. cbn in H. by simplify_eq/=.
Qed.

Section ChannelSpec.
Context {P : Type} `{!Poller P, !PollerSpec P}.

(** Whichever poller is behind it, a successful channel operation sets
    exactly the interest bits it names, in its own channel only. *)
Theorem channel_operation (f : Channel -> Channel) (p : Z) (s s' : P) (b : bool) (c : Channel) :
  heap s !! p = Some c ->
  (do! assign p f in update p) s = Ret (b, s') ->
  (exists i, heap s' !! p = Some (set_index i (f c))) /\
  forall q d, q <> p -> heap s !! q = Some d -> exists i, heap s' !! q = Some (set_index i d).
Proof.
  intros Hc Hrun.
  assert (same_but_index (<[p := f c]> (heap s)) (heap s')) as Hs.
  { unfold assign, update, loop_updateChannel, deref in Hrun. run. cbn in Hrun.
    rewrite Hc in Hrun. cbn in Hrun.
    rewrite !heap_set_heap, !lookup_insert, decide_True in Hrun by done. cbn in Hrun.
    rewrite heap_set_heap, lookup_insert, decide_True in Hrun by done. cbn in Hrun.
    rewrite Z.eqb_refl in Hrun. apply update_frame in Hrun.
    by rewrite heap_set_heap in Hrun. }
  split.
  - apply (same_but_index_lookup _ _ _ _ Hs). by rewrite lookup_insert, decide_True.
  - intros q d Hq Hd. apply (same_but_index_lookup _ _ _ _ Hs).
    by rewrite lookup_insert_ne by done.
Qed.

End ChannelSpec.

(** ** Kernel side of epoll: the interest list of an epoll descriptor *)
Class EpollApi (K : Type) : Type := {
  epoll_ctl : Z -> Z -> Z -> Z -> K -> bool * K;   (* op, fd, events, ptr *)
  interest : K -> gmap Z (Z * Z)                   (* fd to events and ptr *)
}.

(** The documented behaviour of [epoll_ctl]: what a success does, that a failure
    changes nothing, and that a registered descriptor can be deleted. *)
Class EpollLaws (K : Type) `{!EpollApi K} : Prop := {
  ctl_add : forall fd ev p k k', epoll_ctl XEPOLL_CTL_ADD fd ev p k = (true, k') ->
    interest k !! fd = None /\ interest k' = <[fd := (ev, p)]> (interest k);
  ctl_mod : forall fd ev p k k', epoll_ctl XEPOLL_CTL_MOD fd ev p k = (true, k') ->
    is_Some (interest k !! fd) /\ interest k' = <[fd := (ev, p)]> (interest k);
  ctl_del : forall fd ev p k k', epoll_ctl XEPOLL_CTL_DEL fd ev p k = (true, k') ->
    interest k' = delete fd (interest k);
  ctl_fail : forall op fd ev p k k', epoll_ctl op fd ev p k = (false, k') ->
    interest k' = interest k;
  ctl_del_present : forall fd ev p k, is_Some (interest k !! fd) ->
    fst (epoll_ctl XEPOLL_CTL_DEL fd ev p k) = true
}.

Module EPollPoller.

Definition kNew : Z := -1.
Definition kAdded : Z := 1.
Definition kDeleted : Z := 2.
Definition kInitEventListSize : Z := 16.

Section Epoll.
Context {K : Type} `{!EpollApi K}.

(** [m_events] is scratch space: only its size matters between calls. *)
Record EPollPoller : Type := mkEPollPoller {
  e_heap : gmap Z Channel;
  m_channels : gmap Z Z;
  m_events_size : Z;
  kernel : K
}.

Definition make (h : gmap Z Channel) (k : K) : EPollPoller :=
  mkEPollPoller h ∅ kInitEventListSize k.

Definition with_heap (h : gmap Z Channel) (s : EPollPoller) : EPollPoller :=
  mkEPollPoller h (m_channels s) (m_events_size s) (kernel s).
Definition with_channels (m : gmap Z Z) (s : EPollPoller) : EPollPoller :=
  mkEPollPoller (e_heap s) m (m_events_size s) (kernel s).

Definition channel (p : Z) : M EPollPoller Channel := fun s =>
  match e_heap s !! p with Some c => Ret (c, s) | None => Undef DanglingPointer end.
Definition put_index (p idx : Z) : M EPollPoller unit := fun s =>
  match e_heap s !! p with
  | Some c => Ret (tt, with_heap (<[p := set_index idx c]> (e_heap s)) s)
  | None => Undef DanglingPointer
  end.

Definition hasChannel (p : Z) : M EPollPoller bool :=
  let! c := channel p in
  gets (fun s => bool_decide (m_channels s !! m_fd c = Some p)).

Definition update (operation p : Z) : M EPollPoller bool :=
  let! c := channel p in
  fun s =>
    let r := epoll_ctl operation (m_fd c) (m_events c) p (kernel s) in
    Ret (fst r, mkEPollPoller (e_heap s) (m_channels s) (m_events_size s) (snd r)).

Definition updateChannel (p : Z) : M EPollPoller bool :=
  let! c := channel p in
  let index := m_index c in
  let fd := m_fd c in
  let! s := get in
  if (index =? kNew) || (index =? kDeleted) then
    if index =? kNew then
      match m_channels s !! fd with
      | Some _ => ret false
      | None =>
          do! modify (fun s => with_channels (<[fd := p]> (m_channels s)) s) in
          do! put_index p kAdded in
          update XEPOLL_CTL_ADD p
      end
    else if bool_decide (m_channels s !! fd = Some p) then
      do! put_index p kAdded in
      update XEPOLL_CTL_ADD p
    else ret false
  else if negb (bool_decide (m_channels s !! fd = Some p)) || negb (index =? kAdded) then ret false
  else if isNoneEvent c then
    let! ok := update XEPOLL_CTL_DEL p in
    if ok : bool then do! put_index p kDeleted in ret true else ret false
  else update XEPOLL_CTL_MOD p.

Definition removeChannel (p : Z) : M EPollPoller unit :=
  let! c := channel p in
  let fd := m_fd c in
  let! s := get in
  if negb (bool_decide (m_channels s !! fd = Some p)) || negb (isNoneEvent c) then ret tt
  else
    let index := m_index c in
    if negb (index =? kAdded) && negb (index =? kDeleted) then ret tt
    else
      do! modify (fun s => with_channels (delete fd (m_channels s)) s) in
      let! _ := (if index =? kAdded then update XEPOLL_CTL_DEL p else ret false) in
      put_index p kNew.

(** [fillActiveChannels]: the events [epoll_wait] stored, in order; it stops at
    one whose channel is not registered. *)
Fixpoint fillActiveChannels (events : list (Z * Z)) (activeChannels : list Z)
    : M EPollPoller (list Z) :=
  match events with
  | [] => ret activeChannels
  | (ev, p) :: events' =>
      let! c := channel p in
      let! s := get in
      if negb (bool_decide (m_channels s !! m_fd c = Some p)) then ret activeChannels
      else
        do! (fun s => Ret (tt, with_heap (<[p := set_revents ev c]> (e_heap s)) s)) in
        fillActiveChannels events' (activeChannels ++ [p])
  end.

(** [poll]: the answer of [epoll_wait] is an argument, [None] for an error. *)
Definition poll (answer : option (list (Z * Z))) (activeChannels : list Z)
    : M EPollPoller (list Z) :=
  match answer with
  | Some ((_ :: _) as events) =>
      let! l := fillActiveChannels events activeChannels in
      do! modify (fun s =>
        if zlen events =? m_events_size s
        then mkEPollPoller (e_heap s) (m_channels s) (u64 (m_events_size s * 2)) (kernel s)
        else s) in
      ret l
  | _ => ret activeChannels
  end.

End Epoll.
Arguments EPollPoller K : clear implicits.

#[export] Instance epoll_is_poller {K} `{!EpollApi K} : Poller (EPollPoller K) := {|
  heap := e_heap;
  set_heap := with_heap;
  poller_updateChannel := updateChannel;
  poller_removeChannel := removeChannel
|}.

(** *** The contract and the invariant *)
Section Spec.
Context {K : Type} `{!EpollApi K}.
Implicit Types (s : EPollPoller K).

(** What the four kinds of successful or failed update do to the state. *)
Inductive updated (p : Z) (c : Channel) (s : EPollPoller K) : bool -> EPollPoller K -> Prop :=
| upd_refused : updated p c s false s
| upd_add b k' :
    (m_index c = kNew /\ m_channels s !! m_fd c = None) \/
    (m_index c = kDeleted /\ m_channels s !! m_fd c = Some p) ->
    epoll_ctl XEPOLL_CTL_ADD (m_fd c) (m_events c) p (kernel s) = (b, k') ->
    updated p c s b (mkEPollPoller (<[p := set_index kAdded c]> (e_heap s))
                       (<[m_fd c := p]> (m_channels s)) (m_events_size s) k')
| upd_del b k' :
    m_index c = kAdded -> m_channels s !! m_fd c = Some p -> isNoneEvent c = true ->
    epoll_ctl XEPOLL_CTL_DEL (m_fd c) (m_events c) p (kernel s) = (b, k') ->
    updated p c s b (mkEPollPoller (if b then <[p := set_index kDeleted c]> (e_heap s) else e_heap s)
                       (m_channels s) (m_events_size s) k')
| upd_mod b k' :
    m_index c = kAdded -> m_channels s !! m_fd c = Some p -> isNoneEvent c = false ->
    epoll_ctl XEPOLL_CTL_MOD (m_fd c) (m_events c) p (kernel s) = (b, k') ->
    updated p c s b (mkEPollPoller (e_heap s) (m_channels s) (m_events_size s) k').

Lemma updateChannel_inv p s b s' :
  updateChannel p s = Ret (b, s') ->
  exists c, e_heap s !! p = Some c /\ updated p c s b s'.
Proof.
  unfold updateChannel, channel, update, put_index, with_heap, with_channels, channel. run.
  destruct (e_heap s !! p) as [c|] eqn:Hc; [|done]. run. intros Hrun. exists c. split; [done|].
  destruct (m_index c =? kNew) eqn:Hn; [|destruct (m_index c =? kDeleted) eqn:Hd]; cbn in Hrun.
  - apply Z.eqb_eq in Hn. destruct (m_channels s !! m_fd c) eqn:Hm; cbn in Hrun.
    + simplify_eq. constructor.
    + rewrite Hc in Hrun. cbn in Hrun.
      rewrite lookup_insert, decide_True in Hrun by done. cbn in Hrun.
      destruct (epoll_ctl _ _ _ _ _) as [b' k'] eqn:Hk; simplify_eq/=. constructor; eauto.
  - apply Z.eqb_eq in Hd. case_bool_decide; cbn in Hrun.
    + rewrite Hc in Hrun. cbn in Hrun.
      rewrite lookup_insert, decide_True in Hrun by done. cbn in Hrun.
      destruct (epoll_ctl _ _ _ _ _) as [b' k'] eqn:Hk; simplify_eq/=.
      rewrite <- (insert_id (m_channels s) (m_fd c) p) by done. constructor; eauto.
    + simplify_eq. constructor.
  - case_bool_decide; cbn in Hrun; [|simplify_eq; constructor].
    destruct (m_index c =? kAdded) eqn:Ha; cbn in Hrun; [|simplify_eq; constructor].
    apply Z.eqb_eq in Ha. destruct (isNoneEvent c) eqn:He; cbn in Hrun; rewrite Hc in Hrun; cbn in Hrun;
      destruct (epoll_ctl _ _ _ _ _) as [[] k'] eqn:Hk; cbn in Hrun; rewrite ?Hc in Hrun;
      simplify_eq/=; first [by eapply (upd_del _ _ _ true)|by eapply (upd_del _ _ _ false)
        |by eapply (upd_mod _ _ _ true)|by eapply (upd_mod _ _ _ false)].
Qed.

Inductive removed (p : Z) (c : Channel) (s : EPollPoller K) : EPollPoller K -> Prop :=
| rem_ignored :
    ~ (m_channels s !! m_fd c = Some p /\ isNoneEvent c = true /\
       (m_index c = kAdded \/ m_index c = kDeleted)) -> removed p c s s
| rem_done k' :
    m_channels s !! m_fd c = Some p -> isNoneEvent c = true ->
    (m_index c = kAdded /\ k' = snd (epoll_ctl XEPOLL_CTL_DEL (m_fd c) (m_events c) p (kernel s))) \/
    (m_index c = kDeleted /\ k' = kernel s) ->
    removed p c s (mkEPollPoller (<[p := set_index kNew c]> (e_heap s))
                     (delete (m_fd c) (m_channels s)) (m_events_size s) k').

Lemma removeChannel_inv p s s' :
  removeChannel p s = Ret (tt, s') -> exists c, e_heap s !! p = Some c /\ removed p c s s'.
Proof.
  unfold removeChannel, channel, update, put_index, with_heap, with_channels, channel. run.
  destruct (e_heap s !! p) as [c|] eqn:Hc; [|done]. run. intros Hrun. exists c. split; [done|].
  case_bool_decide as Hm; cbn in Hrun; [|simplify_eq; apply rem_ignored; tauto].
  destruct (isNoneEvent c) eqn:He; cbn in Hrun;
    [|simplify_eq; apply rem_ignored; rewrite He; by intros (_ & ? & _)].
  destruct (m_index c =? kAdded) eqn:Ha; cbn in Hrun.
  - apply Z.eqb_eq in Ha. rewrite Hc in Hrun. cbn in Hrun. rewrite Hc in Hrun. simplify_eq/=.
    constructor; auto.
  - apply Z.eqb_neq in Ha. destruct (m_index c =? kDeleted) eqn:Hd; cbn in Hrun.
    + apply Z.eqb_eq in Hd. rewrite Hc in Hrun. simplify_eq/=. constructor; auto.
    + apply Z.eqb_neq in Hd. simplify_eq. apply rem_ignored. tauto.
Qed.

#[export] Instance epoll_spec : PollerSpec (EPollPoller K).
Proof.
  split; [done|..].
  - intros p s b s' (c & Hc & Hu)%updateChannel_inv. cbn.
    destruct Hu; cbn; try done; [by apply same_but_index_insert|].
    destruct b; [by apply same_but_index_insert|done].
  - intros p s s' (c & Hc & Hr)%removeChannel_inv. cbn.
    destruct Hr; cbn; [done|by apply same_but_index_insert].
Qed.

(** Every descriptor the kernel watches is a registered channel that is marked
    added, every registered descriptor belongs to a live channel of that
    descriptor, and a channel not marked new is registered. *)
Record inv (s : EPollPoller K) : Prop := {
  inv_kernel : forall fd ev p, interest (kernel s) !! fd = Some (ev, p) ->
    m_channels s !! fd = Some p /\
    exists c, e_heap s !! p = Some c /\ m_index c = kAdded;
  inv_channels : forall fd p, m_channels s !! fd = Some p ->
    exists c, e_heap s !! p = Some c /\ m_fd c = fd /\ m_index c <> kNew;
  inv_heap : forall p c, e_heap s !! p = Some c -> m_index c <> kNew ->
    m_channels s !! m_fd c = Some p /\ (m_index c = kAdded \/ m_index c = kDeleted)
}.

(** The life of a channel: construction, the bit operations of the channel,
    update, removal, and destruction once the poller no longer knows it. *)
Inductive step : EPollPoller K -> EPollPoller K -> Prop :=
| step_new p loop fd s :
    e_heap s !! p = None -> step s (with_heap (<[p := Channel.make loop fd]> (e_heap s)) s)
| step_bits p ev c s :
    e_heap s !! p = Some c -> step s (with_heap (<[p := with_events ev c]> (e_heap s)) s)
| step_update p b s s' : updateChannel p s = Ret (b, s') -> step s s'
| step_remove p s s' : removeChannel p s = Ret (tt, s') -> step s s'
| step_destroy p c s :
    e_heap s !! p = Some c -> m_index c = kNew -> step s (with_heap (delete p (e_heap s)) s)
| step_revents p ev c s :
    e_heap s !! p = Some c -> step s (with_heap (<[p := set_revents ev c]> (e_heap s)) s).

Lemma inv_same_index s p c c' :
  inv s -> e_heap s !! p = Some c -> m_index c' = m_index c -> m_fd c' = m_fd c ->
  inv (with_heap (<[p := c']> (e_heap s)) s).
Proof.
  intros [Hk Hc Hh] Hp Hi Hf. split; cbn.
  - intros fd ev q Hq. destruct (Hk _ _ _ Hq) as [Hm (d & Hd & Hdi)]. split; [done|].
    destruct (decide (q = p)) as [->|].
    + exists c'. rewrite lookup_insert, decide_True by done. naive_solver congruence.
    + exists d. by rewrite lookup_insert_ne.
  - intros fd q Hq. destruct (Hc _ _ Hq) as (d & Hd & Hdf & Hdi).
    destruct (decide (q = p)) as [->|].
    + exists c'. rewrite lookup_insert, decide_True by done. naive_solver congruence.
    + exists d. by rewrite lookup_insert_ne.
  - intros q d. destruct (decide (q = p)) as [->|].
    + rewrite lookup_insert, decide_True by done. intros [= <-]. rewrite Hi, Hf. by apply Hh.
    + rewrite lookup_insert_ne by done. by apply Hh.
Qed.

Lemma inv_unregistered s p o :
  inv s -> (forall c, e_heap s !! p = Some c -> m_index c = kNew) ->
  (forall c, o = Some c -> m_index c = kNew) ->
  inv (with_heap (partial_alter (fun _ => o) p (e_heap s)) s).
Proof.
  intros [Hk Hc Hh] Hp Ho. split; cbn.
  - intros fd ev q Hq. destruct (Hk _ _ _ Hq) as [Hm (d & Hd & Hdi)]. split; [done|].
    exists d. rewrite lookup_partial_alter_ne; [done|]. intros <-.
    apply Hp in Hd. rewrite Hdi in Hd. done.
  - intros fd q Hq. destruct (Hc _ _ Hq) as (d & Hd & Hdf & Hdi).
    exists d. rewrite lookup_partial_alter_ne; [done|]. intros <-. by apply Hp in Hd.
  - intros q d. destruct (decide (q = p)) as [->|].
    + rewrite lookup_partial_alter_eq. intros Hd%Ho. congruence.
    + rewrite lookup_partial_alter_ne by done. by apply Hh.
Qed.

Context `{!EpollLaws K}.

Lemma inv_update p s b s' : inv s -> updateChannel p s = Ret (b, s') -> inv s'.
Proof.
  intros [Hk Hc Hh] (c & Hp & Hu)%updateChannel_inv. destruct Hu as [|b k' Hn Hctl|b k' Hi Hm He Hctl|b k' Hi Hm He Hctl].
  - done.
  - assert (forall fd ev q, interest k' !! fd = Some (ev, q) ->
      (fd = m_fd c /\ q = p) \/ interest (kernel s) !! fd = Some (ev, q)) as Hk'.
    { intros fd ev q. destruct b.
      - apply ctl_add in Hctl as [_ ->]. rewrite lookup_insert. case_decide; naive_solver.
      - apply ctl_fail in Hctl as ->. auto. }
    split; cbn.
    + intros fd ev q [[-> ->]|Hq]%Hk'.
      * rewrite !lookup_insert, !decide_True by done. eauto.
      * destruct (Hk _ _ _ Hq) as [Hmq (d & Hd & Hdi)].
        destruct (Hc _ _ Hmq) as (d' & Hd' & Hdf & _). simplify_eq.
        assert (q <> p) by (intros ->; destruct Hn as [[Hn Hnm]|[Hn _]]; simplify_eq; by rewrite Hdi in Hn).
        assert (m_fd d <> m_fd c) by (intros Heq; destruct Hn as [[_ Hnm]|[_ Hnm]]; congruence).
        rewrite !lookup_insert_ne by congruence. eauto.
    + intros fd q. rewrite lookup_insert. case_decide as Hfd.
      * intros [= <-]. exists (set_index kAdded c). rewrite lookup_insert, decide_True by done. naive_solver.
      * intros Hq. destruct (Hc _ _ Hq) as (d & Hd & Hdf & Hdi).
        assert (q <> p) by (intros ->; simplify_eq).
        exists d. by rewrite lookup_insert_ne by congruence.
    + intros q d. rewrite lookup_insert. case_decide as Hqp.
      * intros [= <-] _. cbn. rewrite lookup_insert, decide_True by done. naive_solver.
      * intros Hd Hdi. destruct (Hh _ _ Hd Hdi) as [Hmq ?]. split; [|done].
        rewrite lookup_insert_ne; [done|]. intros Heq. rewrite <- Heq in Hmq. destruct Hn as [[_ Hnm]|[_ Hnm]]; congruence.
  - destruct b; cbn.
    + apply ctl_del in Hctl. split; cbn.
      * rewrite Hctl. intros fd ev q. rewrite lookup_delete. case_decide as Hfd; [done|]. intros Hq.
        destruct (Hk _ _ _ Hq) as [Hmq (d & Hd & Hdi)]. split; [done|]. exists d. split; [|done].
        rewrite lookup_insert_ne; [done|]. intros ->. destruct (Hc _ _ Hmq) as (? & ? & ? & _). congruence.
      * intros fd q Hq. destruct (Hc _ _ Hq) as (d & Hd & Hdf & Hdi).
        rewrite lookup_insert. case_decide; simplify_eq; eauto.
      * intros q d. rewrite lookup_insert. case_decide; [|by apply Hh].
        intros [= <-] _. simplify_eq. cbn. auto.
    + apply ctl_fail in Hctl. split; cbn; [by rewrite Hctl|done..].
  - destruct b.
    + apply ctl_mod in Hctl as [_ Hctl]. split; cbn; [|done..].
      rewrite Hctl. intros fd ev q. rewrite lookup_insert. case_decide; [|apply Hk].
      intros [= <- <-]. subst. eauto.
    + apply ctl_fail in Hctl. split; cbn; [by rewrite Hctl|done..].
Qed.

Lemma removed_interest p c s s' :
  removed p c s s' -> s' = s \/
  forall fd x, interest (kernel s') !! fd = Some x ->
    interest (kernel s) !! fd = Some x /\ ~ (fd = m_fd c /\ m_index c = kAdded).
Proof.
  intros Hr. destruct Hr as [|k' Hm He [[Hi ->]|[Hi ->]]]; [by left|right|right]; intros fd x; cbn.
  - destruct (epoll_ctl XEPOLL_CTL_DEL (m_fd c) (m_events c) p (kernel s)) as [[] k'] eqn:Hctl; cbn.
    + apply ctl_del in Hctl as ->. intros [Hne Hx]%lookup_delete_Some. naive_solver.
    + pose proof (ctl_del_present (m_fd c) (m_events c) p (kernel s)) as Hp.
      rewrite Hctl in Hp. apply ctl_fail in Hctl as ->. intros Hx. split; [done|].
      intros [-> _]. by discriminate (Hp (mk_is_Some _ _ Hx)).
  - intros Hx. split; [done|]. intros [_ H]. by rewrite Hi in H.
Qed.

Lemma inv_remove p s s' : inv s -> removeChannel p s = Ret (tt, s') -> inv s'.
Proof.
  intros Hinv (c & Hp & Hr)%removeChannel_inv. pose proof Hinv as [Hk Hc Hh].
  pose proof (removed_interest p c s s' Hr) as Hint.
  destruct Hr as [|k' Hm He Hi]; [done|]. destruct Hint as [Heq|Hint]; [by rewrite Heq|].
  cbn in Hint. split; cbn.
  - intros fd ev q [Hq Hd]%Hint.
    destruct (Hk _ _ _ Hq) as [Hmq (d & Hd' & Hdi)].
    destruct (Hc _ _ Hmq) as (d' & Hd'' & Hdf & _). simplify_eq.
    assert (q <> p) by (intros ->; simplify_eq; naive_solver).
    rewrite lookup_delete_ne, lookup_insert_ne by congruence. eauto.
  - intros fd q. rewrite lookup_delete. case_decide; [done|]. intros Hq.
    destruct (Hc _ _ Hq) as (d & Hd & Hdf & Hdi). exists d.
    rewrite lookup_insert_ne by congruence. done.
  - intros q d. rewrite lookup_insert. case_decide as Hqp.
    + by intros [= <-].
    + intros Hd Hdi. destruct (Hh _ _ Hd Hdi) as [Hmq ?]. rewrite lookup_delete_ne by congruence. done.
Qed.

Lemma inv_step s s' : inv s -> step s s' -> inv s'.
Proof.
  intros Hinv Hs. destruct Hs as [p loop fd s Hp|p ev c s Hp|p b s s' Hu|p s s' Hr|p c s Hp Hi|p ev c s Hp].
  - apply (inv_unregistered s p (Some (Channel.make loop fd))); [done| |].
    + intros c Hc. congruence.
    + by intros c [= <-].
  - by eapply inv_same_index.
  - by eapply inv_update.
  - by eapply inv_remove.
  - apply (inv_unregistered s p None); [done| |done]. intros d Hd. congruence.
  - by eapply inv_same_index.
Qed.

Lemma inv_make h k :
  (forall p c, h !! p = Some c -> m_index c = kNew) -> interest k = ∅ -> inv (make h k).
Proof.
  intros Hh Hk. split; cbn.
  - rewrite Hk. intros fd ev p. by rewrite lookup_empty.
  - intros fd p. by rewrite lookup_empty.
  - intros p c Hc%Hh. done.
Qed.


(** Polling dereferences only live channels: events that come from the
    kernel's interest list are all delivered, in order. *)
Theorem epoll_poll_delivers (s : EPollPoller K) (events : list (Z * Z)) (l : list Z) :
  inv s ->
  Forall (fun e => exists fd ev, interest (kernel s) !! fd = Some (ev, snd e)) events ->
  exists s', fillActiveChannels events l s = Ret (l ++ map snd events, s') /\
    inv s' /\ kernel s' = kernel s /\ m_channels s' = m_channels s.
Proof.
  intros Hinv Hev. revert s l Hinv Hev. induction events as [|[ev p] events IH]; intros s l Hinv Hev.
  - exists s. cbn. by rewrite app_nil_r.
  - inversion_clear Hev as [|? ? (fd & ev' & Hint) Hrest]. cbn in Hint.
    destruct (inv_kernel s Hinv _ _ _ Hint) as [Hm (c & Hc & _)].
    destruct (inv_channels s Hinv _ _ Hm) as (c' & Hc' & Hf & _). simplify_eq.
    cbn [fillActiveChannels]. unfold channel. run. rewrite Hc. run.
    rewrite bool_decide_eq_true_2 by done. run.
    destruct (IH (with_heap (<[p:=set_revents ev c]> (e_heap s)) s) (l ++ [p])) as (s' & Hs' & ? & ? & ?).
    + by eapply inv_same_index.
    + done.
    + exists s'. rewrite Hs'. split_and!; [|done..]. by rewrite <- app_assoc.
Qed.

End Spec.
(** A kernel with the documented behaviour that refuses descriptors from 100 on. *)
Definition demo_ctl (op fd ev p : Z) (k : gmap Z (Z * Z)) : bool * gmap Z (Z * Z) :=
  if op =? XEPOLL_CTL_ADD then
    if bool_decide (k !! fd = None) && (fd <? 100) then (true, <[fd := (ev, p)]> k) else (false, k)
  else if bool_decide (k !! fd = None) then (false, k)
  else if op =? XEPOLL_CTL_MOD then (true, <[fd := (ev, p)]> k)
  else (true, delete fd k).

#[export] Instance demo_api : EpollApi (gmap Z (Z * Z)) := {|
  epoll_ctl := demo_ctl; interest := fun k => k
|}.

#[export] Instance demo_laws : EpollLaws (gmap Z (Z * Z)).
Proof.
  split; cbn; unfold demo_ctl; cbn.
  - intros fd ev p k k'. destruct (bool_decide_reflect (k !! fd = None)); cbn; [|done].
    destruct (fd <? 100); [|done]. by intros [= <-].
  - intros fd ev p k k'. destruct (bool_decide_reflect (k !! fd = None)) as [|Hn]; [done|].
    intros [= <-]. split; [|done]. by destruct (k !! fd).
  - intros fd ev p k k'. case_bool_decide; [done|]. by intros [= <-].
  - intros op fd ev p k k'. repeat case_match; naive_solver.
  - intros fd ev p k [x Hx]. rewrite bool_decide_eq_false_2; [done|]. by rewrite Hx.
Qed.

(** Two channels; the kernel would refuse the second. *)
Definition demo_start : EPollPoller (gmap Z (Z * Z)) :=
  make {[10 := Channel.make 1 5; 11 := Channel.make 1 200]} ∅.

Lemma epoll_poll_delivers_witness :
  exists s', fillActiveChannels [(1, 10)] [] (mkEPollPoller
      {[10 := set_index kAdded (Channel.make 1 5)]} {[5 := 10]} kInitEventListSize {[5 := (1, 10)]})
    = Ret ([10], s') /\ inv s'.
Proof.
  destruct (epoll_poll_delivers (mkEPollPoller
    {[10 := set_index kAdded (Channel.make 1 5)]} {[5 := 10]} kInitEventListSize {[5 := (1, 10)]})
    [(1, 10)] []) as (s' & Hs' & Hinv & _).
  - split; cbn.
    + intros fd ev p [<- [= <- <-]]%lookup_singleton_Some. split; [done|]. by eexists.
    + intros fd p [<- <-]%lookup_singleton_Some. by eexists.
    + intros p c [<- <-]%lookup_singleton_Some _. split; [done|by left].
  - constructor; [|constructor]. exists 5, 1. done.
  - by exists s'.
Defined.

Lemma channel_operation_witness :
  exists b s', enableWriting 10 demo_start = Ret (b, s') /\
    exists i, e_heap s' !! 10 = Some (set_index i (enable_write_bits (Channel.make 1 5))).
Proof.
  eexists _, _. split; [vm_compute; reflexivity|].
  destruct (channel_operation enable_write_bits 10 demo_start
    (mkEPollPoller {[10 := set_index kAdded (enable_write_bits (Channel.make 1 5));
                     11 := Channel.make 1 200]}
       {[5 := 10]} kInitEventListSize {[5 := (4, 10)]}) true (Channel.make 1 5)) as [[i Hi] _].
  - reflexivity.
  - reflexivity.
  - exists i. exact Hi.
Defined.

(** Disabling a channel that is already out of the kernel's list registers it
    again, for no event. *)
Example disable_twice_registers :
  (let! _ := enableReading 10 in let! _ := disableAll 10 in let! _ := disableAll 10 in
   gets (fun s => interest (kernel s) !! 5)) demo_start
  ≫= (fun r => Ret (fst r)) = Ret (Some (0, 10)).
Proof. by vm_compute. Qed.

End EPollPoller.

Module PollPoller.

Record pollfd : Type := mkPollfd { pfd_fd : Z; pfd_events : Z; pfd_revents : Z }.

Record PollPoller : Type := mkPollPoller {
  p_heap : gmap Z Channel;
  m_channels : gmap Z Z;
  m_pollfds : list pollfd
}.

Definition make (h : gmap Z Channel) : PollPoller := mkPollPoller h ∅ [].

Definition with_heap (h : gmap Z Channel) (s : PollPoller) : PollPoller :=
  mkPollPoller h (m_channels s) (m_pollfds s).

Definition channel (p : Z) : M PollPoller Channel := fun s =>
  match p_heap s !! p with Some c => Ret (c, s) | None => Undef DanglingPointer end.
Definition put_index (p idx : Z) : M PollPoller unit := fun s =>
  match p_heap s !! p with
  | Some c => Ret (tt, with_heap (<[p := set_index idx c]> (p_heap s)) s)
  | None => Undef DanglingPointer
  end.

(** [vector::operator[]] *)
Definition at_index (idx : Z) (l : list pollfd) : outcome pollfd := load1 idx l.

Definition updateChannel (p : Z) : M PollPoller bool :=
  let! c := channel p in
  let! s := get in
  if m_index c <? 0 then
    match m_channels s !! m_fd c with
    | Some _ => ret false
    | None =>
        let pfd := mkPollfd (m_fd c) (i16 (m_events c)) 0 in
        let fds := m_pollfds s ++ [pfd] in
        do! modify (fun s => mkPollPoller (p_heap s) (m_channels s) fds) in
        do! put_index p (i32 (zlen fds) - 1) in
        do! modify (fun s => mkPollPoller (p_heap s) (<[m_fd c := p]> (m_channels s)) (m_pollfds s)) in
        ret true
    end
  else if negb (bool_decide (m_channels s !! m_fd c = Some p)) then ret false
  else
    let idx := m_index c in
    if (0 >? idx) || (idx >=? i32 (zlen (m_pollfds s))) then ret false
    else
      let! pfd := lift (at_index idx (m_pollfds s)) in
      let fd' := if isNoneEvent c then - m_fd c - 1 else pfd_fd pfd in
      do! modify (fun s => mkPollPoller (p_heap s) (m_channels s)
                    (<[Z.to_nat idx := mkPollfd fd' (i16 (m_events c)) 0]> (m_pollfds s))) in
      ret true.

(** The last element takes the place of the removed one. *)
Definition removeChannel (p : Z) : M PollPoller unit :=
  let! c := channel p in
  let! s := get in
  if negb (bool_decide (m_channels s !! m_fd c = Some p)) || negb (isNoneEvent c) then ret tt
  else
    let idx := m_index c in
    if (0 >? idx) && (idx >=? i32 (zlen (m_pollfds s))) then ret tt
    else
      let! _ := lift (at_index idx (m_pollfds s)) in
      do! modify (fun s => mkPollPoller (p_heap s) (delete (m_fd c) (m_channels s)) (m_pollfds s)) in
      let n := zlen (m_pollfds s) in
      if u64 idx =? n - 1 then
        modify (fun s => mkPollPoller (p_heap s) (m_channels s) (take (Z.to_nat (n - 1)) (m_pollfds s)))
      else
        let! last := lift (at_index (n - 1) (m_pollfds s)) in
        let channelAtEnd := if pfd_fd last <? 0 then - pfd_fd last - 1 else pfd_fd last in
        do! modify (fun s => mkPollPoller (p_heap s) (m_channels s)
                      (<[Z.to_nat idx := last]> (m_pollfds s))) in
        let! s2 := get in
        do! match m_channels s2 !! channelAtEnd with
            | Some q => put_index q idx
            | None => undefined NullPointer
            end in
        modify (fun s => mkPollPoller (p_heap s) (m_channels s) (take (Z.to_nat (n - 1)) (m_pollfds s))).

(** The kernel has stored [revents]; the loop stops after [numEvents] reports. *)
Fixpoint fillActiveChannels (pfds : list pollfd) (numEvents : Z) (activeChannels : list Z)
    : M PollPoller (list Z) :=
  match pfds with
  | [] => ret activeChannels
  | pfd :: pfds' =>
      if negb (0 <? numEvents) then ret activeChannels
      else if 0 <? pfd_revents pfd then
        let! s := get in
        match m_channels s !! pfd_fd pfd with
        | None => fillActiveChannels pfds' (numEvents - 1) activeChannels
        | Some p =>
            let! c := channel p in
            if negb (m_fd c =? pfd_fd pfd) then fillActiveChannels pfds' (numEvents - 1) activeChannels
            else
              do! (fun s => Ret (tt, with_heap (<[p := set_revents (pfd_revents pfd) c]> (p_heap s)) s)) in
              fillActiveChannels pfds' (numEvents - 1) (activeChannels ++ [p])
        end
      else fillActiveChannels pfds' numEvents activeChannels
  end.

(** [poll]: the kernel's answer is its return value and the revents it stored. *)
Definition poll (numEvents : Z) (revents : list Z) (activeChannels : list Z)
    : M PollPoller (list Z) :=
  do! modify (fun s => mkPollPoller (p_heap s) (m_channels s)
        (zip_with (fun pfd r => mkPollfd (pfd_fd pfd) (pfd_events pfd) r) (m_pollfds s) revents)) in
  let! s := get in
  if 0 <? numEvents then fillActiveChannels (m_pollfds s) numEvents activeChannels
  else ret activeChannels.

#[export] Instance poll_is_poller : Poller PollPoller := {|
  heap := p_heap;
  set_heap := with_heap;
  poller_updateChannel := updateChannel;
  poller_removeChannel := removeChannel
|}.

(** The descriptor an entry stands for: a disabled one is stored as [- fd - 1]. *)
Definition real_fd (pfd : pollfd) : Z := if pfd_fd pfd <? 0 then - pfd_fd pfd - 1 else pfd_fd pfd.

(** Entries and registered channels correspond through the index. *)
Record inv (s : PollPoller) : Prop := {
  inv_entries : forall i pfd, m_pollfds s !! i = Some pfd ->
    exists p c, m_channels s !! real_fd pfd = Some p /\ p_heap s !! p = Some c /\
      m_index c = Z.of_nat i;
  inv_channels : forall fd p, m_channels s !! fd = Some p ->
    0 <= fd /\ exists c pfd, p_heap s !! p = Some c /\ m_fd c = fd /\ 0 <= m_index c /\
      m_pollfds s !! Z.to_nat (m_index c) = Some pfd /\ real_fd pfd = fd;
  inv_room : zlen (m_pollfds s) < 2 ^ 31 - 1
}.

(** *** The index discipline of the vector *)
Lemma at_index_ok (l : list pollfd) i pfd :
  0 <= i -> l !! Z.to_nat i = Some pfd -> at_index i l = Ret pfd.
Proof.
  intros Hi Hl. unfold at_index, load1. destruct (Z.ltb_spec i 0); [lia|]. by rewrite Hl.
Qed.

Lemma zlen_lookup {A} (l : list A) (i : nat) x : l !! i = Some x -> Z.of_nat i < zlen l.
Proof. intros H%lookup_lt_Some. unfold zlen. lia. Qed.

Lemma real_fd_disabled fd ev r : 0 <= fd -> real_fd (mkPollfd (- fd - 1) ev r) = fd.
Proof. intros. unfold real_fd. cbn. destruct (Z.ltb_spec (- fd - 1) 0); lia. Qed.

Lemma real_fd_enabled fd ev r : 0 <= fd -> real_fd (mkPollfd fd ev r) = fd.
Proof. intros. unfold real_fd. cbn. destruct (Z.ltb_spec fd 0); lia. Qed.

Lemma poll_inv_make h : inv (make h).
Proof. split; cbn; [done|intros fd p; by rewrite lookup_empty|done]. Qed.

(** A new channel goes to the end of the vector. *)
Lemma inv_append s p c ev :
  inv s -> p_heap s !! p = Some c -> 0 <= m_fd c -> m_index c < 0 ->
  m_channels s !! m_fd c = None -> zlen (m_pollfds s) + 1 < 2 ^ 31 - 1 ->
  inv (mkPollPoller (<[p := set_index (zlen (m_pollfds s)) c]> (p_heap s))
         (<[m_fd c := p]> (m_channels s)) (m_pollfds s ++ [mkPollfd (m_fd c) ev 0])).
Proof.
  intros [He Hc Hr] Hp Hfd Hi Hm Hroom. split; cbn.
  - intros i pfd [Hl|[Hge Hl]]%lookup_app_Some.
    + destruct (He _ _ Hl) as (q & d & Hq & Hd & Hdi). exists q, d.
      assert (q <> p) by (intros ->; simplify_eq; lia).
      rewrite lookup_insert_ne by congruence. by rewrite lookup_insert_ne by congruence.
    + apply list_lookup_singleton_Some in Hl as [Hz <-]. rewrite real_fd_enabled by done.
      exists p, (set_index (zlen (m_pollfds s)) c).
      rewrite !lookup_insert, !decide_True by done. split_and!; [done..|]. cbn. unfold zlen. lia.
  - intros fd q. rewrite lookup_insert. case_decide as Hfdq.
    + intros [= <-]. subst fd. split; [done|].
      exists (set_index (zlen (m_pollfds s)) c), (mkPollfd (m_fd c) ev 0).
      rewrite lookup_insert, decide_True by done. cbn. unfold zlen. rewrite Nat2Z.id.
      rewrite list_lookup_middle by done. rewrite real_fd_enabled by done. split_and!; [done..|lia|done|done].
    + intros Hq. destruct (Hc _ _ Hq) as (Hpos & d & pfd & Hd & Hdf & Hdi & Hl & Hrf).
      split; [done|]. exists d, pfd.
      assert (q <> p) by (intros ->; simplify_eq).
      rewrite lookup_insert_ne by congruence. split_and!; [done..| |done].
      by apply lookup_app_l_Some.
  - rewrite zlen_app. unfold zlen at 2. cbn. lia.
Qed.

(** An entry changes in place, for the same descriptor. *)
Lemma inv_entry s i pfd pfd' :
  inv s -> m_pollfds s !! i = Some pfd -> real_fd pfd' = real_fd pfd ->
  inv (mkPollPoller (p_heap s) (m_channels s) (<[i := pfd']> (m_pollfds s))).
Proof.
  intros [He Hc Hr] Hl Hrf. split; cbn.
  - intros j x [[-> [-> _]]|[Hne Hj]]%list_lookup_insert_Some; [rewrite Hrf|]; by apply He.
  - intros fd p Hp. destruct (Hc _ _ Hp) as (Hpos & d & x & Hd & Hdf & Hdi & Hx & Hxf).
    split; [done|]. exists d.
    destruct (decide (Z.to_nat (m_index d) = i)) as [Heq|Hne].
    + exists pfd'. subst i. rewrite list_lookup_insert_eq by by eapply lookup_lt_Some.
      split_and!; [done..|]. rewrite Hrf. by simplify_eq.
    + exists x. by rewrite list_lookup_insert_ne by congruence.
  - unfold zlen in *. by rewrite length_insert.
Qed.

Lemma poll_inv_update p c s :
  inv s -> p_heap s !! p = Some c -> 0 <= m_fd c -> zlen (m_pollfds s) + 1 < 2 ^ 31 - 1 ->
  exists b s', updateChannel p s = Ret (b, s') /\ inv s'.
Proof.
  intros Hinv Hp Hfd Hroom. unfold updateChannel, channel, put_index, with_heap. run. rewrite Hp. run.
  pose proof (zlen_nonneg (m_pollfds s)).
  destruct (Z.ltb_spec (m_index c) 0).
  - destruct (m_channels s !! m_fd c) eqn:Hm; run; [by eexists _, _|]. cbn. rewrite Hp. cbn.
    eexists _, _. split; [reflexivity|].
    rewrite zlen_app. unfold zlen at 2. cbn.
    rewrite swrap_small by (unfold srange; lia).
    replace (zlen (m_pollfds s) + Z.of_nat 1 - 1) with (zlen (m_pollfds s)) by lia.
    by apply inv_append.
  - case_bool_decide as Hm; cbn; [|by eexists _, _].
    destruct (inv_channels s Hinv _ _ Hm) as (_ & d & pfd & Hd & Hdf & Hdi & Hl & Hrf).
    assert (d = c) as -> by congruence.
    rewrite swrap_small by (unfold srange; lia).
    pose proof (zlen_lookup _ _ _ Hl).
    destruct (Z.gtb_spec 0 (m_index c)); [lia|].
    rewrite Z.geb_leb. destruct (Z.leb_spec (zlen (m_pollfds s)) (m_index c)); [lia|]. cbn.
    rewrite (at_index_ok _ _ pfd) by done. cbn.
    eexists _, _. split; [reflexivity|]. apply (inv_entry _ _ pfd); [done..|].
    destruct (isNoneEvent c); [rewrite real_fd_disabled by done; congruence|].
    unfold real_fd. done.
Qed.

(** What the invariant says of a registered channel and of any other entry. *)
Lemma inv_others s p c q e x :
  m_channels s !! m_fd c = Some p -> p_heap s !! p = Some c ->
  m_channels s !! real_fd x = Some q -> p_heap s !! q = Some e ->
  m_index e <> m_index c -> q <> p /\ real_fd x <> m_fd c.
Proof.
  intros Hm Hp Hq Hqe Hne.
  split; [intros ->; simplify_eq|intros Heq; rewrite Heq in Hq; simplify_eq].
Qed.

(** The last entry leaves with its channel. *)
Lemma inv_drop_last s p c :
  inv s -> m_channels s !! m_fd c = Some p -> p_heap s !! p = Some c ->
  m_index c = zlen (m_pollfds s) - 1 ->
  inv (mkPollPoller (p_heap s) (delete (m_fd c) (m_channels s))
         (take (Z.to_nat (zlen (m_pollfds s) - 1)) (m_pollfds s))).
Proof.
  intros [He Hc Hr] Hm Hp Hlast.
  destruct (Hc _ _ Hm) as (_ & d & pfd & Hd & _ & Hdi & Hl & Hrf).
  assert (d = c) as -> by congruence. split; cbn.
  - intros j x [Hx Hj]%lookup_take_Some. destruct (He _ _ Hx) as (q & e & Hq & Hqe & Hei).
    destruct (inv_others s p c q e x Hm Hp Hq Hqe) as [Hqp Hxf]; [lia|].
    exists q, e. by rewrite lookup_delete_ne by congruence.
  - intros fd q [Hne Hq]%lookup_delete_Some.
    destruct (Hc _ _ Hq) as (Hfd' & e & x & Hqe & Hef & Hei & Hx & Hxf).
    split; [done|]. exists e, x. split_and!; [done..| |done].
    apply lookup_take_Some. split; [done|].
    pose proof (zlen_lookup _ _ _ Hx). assert (Z.to_nat (m_index e) <> Z.to_nat (m_index c)); [|lia].
    intros Heq. rewrite Heq in Hx. congruence.
  - unfold zlen in *. rewrite length_take. lia.
Qed.

(** The last entry takes the place of the one that leaves, and its channel the
    index. *)
Lemma inv_move_last s p c lst q e :
  inv s -> m_channels s !! m_fd c = Some p -> p_heap s !! p = Some c ->
  m_index c <> zlen (m_pollfds s) - 1 ->
  m_pollfds s !! Z.to_nat (zlen (m_pollfds s) - 1) = Some lst ->
  m_channels s !! real_fd lst = Some q -> p_heap s !! q = Some e ->
  inv (mkPollPoller (<[q := set_index (m_index c) e]> (p_heap s)) (delete (m_fd c) (m_channels s))
         (take (Z.to_nat (zlen (m_pollfds s) - 1)) (<[Z.to_nat (m_index c) := lst]> (m_pollfds s)))).
Proof.
  intros [He Hc Hr] Hm Hp Hlast Hlst Hq Hqe.
  destruct (Hc _ _ Hm) as (_ & d & pfd & Hd & _ & Hdi & Hl & Hrf). assert (d = c) as -> by congruence.
  pose proof (zlen_lookup _ _ _ Hl) as Hlt. rewrite Z2Nat.id in Hlt by done.
  destruct (He _ _ Hlst) as (q0 & e0 & Hq0 & Hqe0 & Hei). simplify_eq.
  set (n := zlen (m_pollfds s)) in *. set (i := Z.to_nat (m_index c)) in *.
  destruct (inv_others s p c q e lst Hm Hp Hq Hqe) as [Hqp Hxf]; [lia|].
  assert (forall j x, take (Z.to_nat (n - 1)) (<[i:=lst]> (m_pollfds s)) !! j = Some x <->
    (j < Z.to_nat (n - 1))%nat /\ (j = i /\ x = lst \/ j <> i /\ m_pollfds s !! j = Some x)) as Hnew.
  { intros j x. rewrite lookup_take_Some, list_lookup_insert_Some.
    assert (i < length (m_pollfds s))%nat by (unfold n, zlen in *; lia). naive_solver. }
  split; cbn.
  - intros j x [Hj [[-> ->]|[Hji Hx]]]%Hnew.
    + exists q, (set_index (m_index c) e). rewrite lookup_delete_ne by congruence.
      rewrite lookup_insert, decide_True by done. split_and!; [done..|]. cbn. lia.
    + destruct (He _ _ Hx) as (q' & e' & Hq' & Hqe' & Hei').
      destruct (inv_others s p c q' e' x Hm Hp Hq' Hqe') as [Hqp' Hxf']; [lia|].
      exists q', e'. rewrite lookup_delete_ne by congruence.
      rewrite lookup_insert_ne; [done|]. intros ->. simplify_eq. lia.
  - intros fd q' [Hne Hq']%lookup_delete_Some.
    destruct (Hc _ _ Hq') as (Hfd' & e' & x & Hqe' & Hef & Hei' & Hx & Hxf').
    split; [done|]. pose proof (zlen_lookup _ _ _ Hx) as Hxl.
    assert (Z.to_nat (m_index e') <> i) as Hni by (intros Heq; rewrite Heq in Hx; congruence).
    destruct (decide (q' = q)) as [->|Hqq].
    + simplify_eq. exists (set_index (m_index c) e), lst.
      rewrite lookup_insert, decide_True by done. cbn. split_and!; [done..| |].
      * apply Hnew. fold i. split; [lia|]. by left.
      * rewrite Hei in Hx. rewrite Nat2Z.id in Hx. congruence.
    + exists e', x. rewrite lookup_insert_ne by done. split_and!; [done..| |done].
      apply Hnew. split; [|by right].
      assert (Z.to_nat (m_index e') <> Z.to_nat (n - 1)); [|fold n in Hxl; lia].
      intros Heq. rewrite Heq in Hx. simplify_eq. congruence.
  - unfold zlen. rewrite length_take, length_insert. unfold n, zlen in *. lia.
Qed.

Lemma poll_inv_remove p c s :
  inv s -> p_heap s !! p = Some c ->
  exists s', removeChannel p s = Ret (tt, s') /\ inv s'.
Proof.
  intros Hinv Hp. pose proof Hinv as [He Hc Hr].
  unfold removeChannel, channel, put_index, with_heap. run. rewrite Hp. run.
  case_bool_decide as Hm; cbn; [|by eexists].
  destruct (isNoneEvent c); cbn; [|by eexists].
  destruct (Hc _ _ Hm) as (_ & d & pfd & Hd & _ & Hdi & Hl & _).
  assert (d = c) as -> by congruence. pose proof (zlen_lookup _ _ _ Hl) as Hlt.
  destruct (Z.gtb_spec 0 (m_index c)); [lia|]. cbn.
  rewrite (at_index_ok _ _ pfd) by done. cbn. rewrite uwrap_small by lia.
  destruct (Z.eqb_spec (m_index c) (zlen (m_pollfds s) - 1)) as [Hlast|Hlast].
  { eexists. split; [reflexivity|]. by apply (inv_drop_last s p). }
  assert (exists lst, m_pollfds s !! Z.to_nat (zlen (m_pollfds s) - 1) = Some lst) as [lst Hlst]
    by (apply lookup_lt_is_Some_2; unfold zlen in *; lia).
  rewrite (at_index_ok _ _ lst) by (done || lia). cbn.
  change (if pfd_fd lst <? 0 then - pfd_fd lst - 1 else pfd_fd lst) with (real_fd lst).
  destruct (He _ _ Hlst) as (q & e & Hq & Hqe & Hei).
  destruct (inv_others s p c q e lst Hm Hp Hq Hqe) as [_ Hxf]; [lia|].
  rewrite lookup_delete_ne, Hq by congruence. cbn. rewrite Hqe. cbn.
  eexists. split; [reflexivity|]. by apply (inv_move_last s p c lst q e).
Qed.

(** The vector of the poll poller: every operation on a live channel of a
    valid descriptor is defined (no access outside the vector, no null channel)
    and keeps entries and registered channels in correspondence. *)
Theorem poll_index_discipline (s : PollPoller) (p : Z) (c : Channel) :
  inv s -> p_heap s !! p = Some c -> 0 <= m_fd c -> zlen (m_pollfds s) + 1 < 2 ^ 31 - 1 ->
  (exists b s', updateChannel p s = Ret (b, s') /\ inv s') /\
  (exists s', removeChannel p s = Ret (tt, s') /\ inv s').
Proof. intros. split; [by eapply poll_inv_update|by eapply poll_inv_remove]. Qed.

(** Three new channels. *)
Definition demo : PollPoller :=
  make {[1 := Channel.make 9 3; 2 := Channel.make 9 4; 3 := Channel.make 9 5]}.

Lemma poll_index_discipline_witness :
  let s := mkPollPoller {[1 := set_index 0 (Channel.make 9 3); 2 := set_index 1 (Channel.make 9 4)]}
             {[3 := 1; 4 := 2]} [mkPollfd (-4) 0 0; mkPollfd 4 3 0] in
  exists s', removeChannel 1 s = Ret (tt, s') /\ m_pollfds s' = [mkPollfd 4 3 0] /\ inv s'.
Proof.
  intros s. destruct (poll_index_discipline s 1 (set_index 0 (Channel.make 9 3)))
    as [_ (s' & Hs' & Hinv)]; [|done..|].
  - split; cbn.
    + intros [|[|i]] pfd; cbn; [intros [= <-]|intros [= <-]|by destruct i].
      * exists 1, (set_index 0 (Channel.make 9 3)). done.
      * exists 2, (set_index 1 (Channel.make 9 4)). done.
    + intros fd p. rewrite lookup_insert. case_decide; [intros [= <-]|intros [<- <-]%lookup_singleton_Some].
      * subst fd. split; [done|]. by exists (set_index 0 (Channel.make 9 3)), (mkPollfd (-4) 0 0).
      * split; [done|]. by exists (set_index 1 (Channel.make 9 4)), (mkPollfd 4 3 0).
    + done.
  - exists s'. split; [exact Hs'|]. split; [|exact Hinv].
    vm_compute in Hs'. by injection Hs' as <-.
Defined.

(** A channel disabled and enabled again stays invisible to the kernel: its
    entry keeps the negative descriptor. *)
Example reenable_is_lost :
  (let! _ := enableReading 1 in let! _ := disableAll 1 in let! ok := enableReading 1 in
   gets (fun s => (ok, m_pollfds s))) demo
  ≫= (fun r => Ret (fst r)) = Ret (true, [mkPollfd (-4) 3 0]).
Proof. by vm_compute. Qed.

End PollPoller.

Module SelectPoller.

Definition kNew : Z := -1.
Definition kAdded : Z := 1.
Definition kDeleted : Z := 2.
Definition FD_SETSIZE : Z := 1024.

(** [m_events] holds the events and the pointer (0 for null) of each entry. *)
Record SelectPoller : Type := mkSelectPoller {
  s_heap : gmap Z Channel;
  m_channels : gmap Z Z;
  m_events : list (Z * Z)
}.

Definition make (h : gmap Z Channel) : SelectPoller := mkSelectPoller h ∅ [].

Definition with_heap (h : gmap Z Channel) (s : SelectPoller) : SelectPoller :=
  mkSelectPoller h (m_channels s) (m_events s).
Definition with_entries (l : list (Z * Z)) (s : SelectPoller) : SelectPoller :=
  mkSelectPoller (s_heap s) (m_channels s) l.

Definition channel (p : Z) : M SelectPoller Channel := fun s =>
  match s_heap s !! p with Some c => Ret (c, s) | None => Undef DanglingPointer end.
Definition put (p : Z) (f : Channel -> Channel) : M SelectPoller unit := fun s =>
  match s_heap s !! p with
  | Some c => Ret (tt, with_heap (<[p := f c]> (s_heap s)) s)
  | None => Undef DanglingPointer
  end.

Definition hasChannel (p : Z) : M SelectPoller bool :=
  let! c := channel p in
  gets (fun s => bool_decide (m_channels s !! m_fd c = Some p)).

(** The first entry of the channel is erased, or gets new events. *)
Fixpoint erase_entry (p : Z) (l : list (Z * Z)) : option (list (Z * Z)) :=
  match l with
  | [] => None
  | e :: l' => if snd e =? p then Some l' else cons e <$> erase_entry p l'
  end.
Fixpoint modify_entry (p ev : Z) (l : list (Z * Z)) : option (list (Z * Z)) :=
  match l with
  | [] => None
  | e :: l' => if snd e =? p then Some ((ev, snd e) :: l') else cons e <$> modify_entry p ev l'
  end.

Definition update (operation p : Z) : M SelectPoller bool :=
  let! c := channel p in
  let! s := get in
  if operation =? XEPOLL_CTL_ADD then
    do! modify (with_entries (m_events s ++ [(Channel.m_events c, p)])) in ret true
  else
    let r := if operation =? XEPOLL_CTL_DEL then erase_entry p (m_events s)
             else if operation =? XEPOLL_CTL_MOD
                  then modify_entry p (Channel.m_events c) (m_events s)
                  else None in
    match r with
    | Some l => do! modify (with_entries l) in ret true
    | None => ret false
    end.

Definition updateChannel (p : Z) : M SelectPoller bool :=
  let! c := channel p in
  let index := m_index c in
  let fd := m_fd c in
  let! s := get in
  if (index =? kNew) || (index =? kDeleted) then
    if index =? kNew then
      match m_channels s !! fd with
      | Some _ => ret false
      | None =>
          do! modify (fun s => mkSelectPoller (s_heap s) (<[fd := p]> (m_channels s)) (m_events s)) in
          do! put p (set_index kAdded) in
          update XEPOLL_CTL_ADD p
      end
    else if bool_decide (m_channels s !! fd = Some p) then
      do! put p (set_index kAdded) in
      update XEPOLL_CTL_ADD p
    else ret false
  else if negb (bool_decide (m_channels s !! fd = Some p)) || negb (index =? kAdded) then ret false
  else if isNoneEvent c then
    let! ok := update XEPOLL_CTL_DEL p in
    if ok : bool then do! put p (set_index kDeleted) in ret true else ret false
  else update XEPOLL_CTL_MOD p.

Definition removeChannel (p : Z) : M SelectPoller unit :=
  let! c := channel p in
  let fd := m_fd c in
  let! s := get in
  if negb (bool_decide (m_channels s !! fd = Some p)) then ret tt
  else if negb (isNoneEvent c) then ret tt
  else
    do! modify (fun s => mkSelectPoller (s_heap s) (delete fd (m_channels s)) (m_events s)) in
    put p (set_index kNew).

(** A [std::map] is traversed in the order of its keys. *)
Definition key_le (a b : Z * Z) : Prop := fst a <= fst b.
#[export] Instance key_le_dec : RelDecision key_le.
Proof. intros a b. unfold key_le. apply _. Defined.
Definition traversal (m : gmap Z Z) : list (Z * Z) := merge_sort key_le (map_to_list m).

(** [FD_SET] on the two sets; a descriptor outside them is undefined. *)
Fixpoint fill_sets (l : list (Z * Z)) (maxfd : Z) (readfds writefds : list Z)
    : M SelectPoller (Z * list Z * list Z) :=
  match l with
  | [] => ret (maxfd, readfds, writefds)
  | (tmpfd, p) :: l' =>
      let! c := channel p in
      let r := has (Channel.m_events c) XPOLLIN in
      let w := has (Channel.m_events c) XPOLLOUT in
      if (r || w) && negb ((0 <=? tmpfd) && (tmpfd <? FD_SETSIZE)) then undefined OutOfBounds
      else
        fill_sets l' (if tmpfd >? maxfd then tmpfd else maxfd)
          (if r then readfds ++ [tmpfd] else readfds)
          (if w then writefds ++ [tmpfd] else writefds)
  end.

Fixpoint fillActiveChannels (l : list (Z * Z)) (numEvents : Z) (readfds writefds : list Z)
    (currentCount : Z) (activeChannels : list Z) : M SelectPoller (list Z) :=
  match l with
  | [] => ret activeChannels
  | (fd, p) :: l' =>
      let r := bool_decide (fd ∈ readfds) in
      let w := bool_decide (fd ∈ writefds) in
      do! when r (put p (add_revents XPOLLIN)) in
      do! when w (put p (add_revents XPOLLOUT)) in
      if r || w then
        if currentCount + 1 >=? numEvents then ret (activeChannels ++ [p])
        else fillActiveChannels l' numEvents readfds writefds (currentCount + 1)
               (activeChannels ++ [p])
      else fillActiveChannels l' numEvents readfds writefds currentCount activeChannels
  end.

(** The answer of [select] to the two sets: its value and the sets it leaves. *)
Definition poll (select : Z -> list Z -> list Z -> Z * list Z * list Z) (activeChannels : list Z)
    : M SelectPoller (list Z) :=
  let! s := get in
  let! sets := fill_sets (traversal (m_channels s)) 0 [] [] in
  let '(numEvents, readfds, writefds) := select (fst (fst sets) + 1) (snd (fst sets)) (snd sets) in
  if 0 <? numEvents then
    let! l := fillActiveChannels (traversal (m_channels s)) numEvents readfds writefds 0
                activeChannels in
    do! modify (fun s =>
      if numEvents =? zlen (m_events s)
      then with_entries (m_events s ++ replicate (length (m_events s)) (0, 0)) s else s) in
    ret l
  else ret activeChannels.

#[export] Instance select_is_poller : Poller SelectPoller := {|
  heap := s_heap;
  set_heap := with_heap;
  poller_updateChannel := updateChannel;
  poller_removeChannel := removeChannel
|}.

(** *** Reported events accumulate *)
Definition keeps_revents (h h' : gmap Z Channel) : Prop :=
  forall p c, h !! p = Some c ->
  exists c', h' !! p = Some c' /\ Z.land (m_revents c) (m_revents c') = m_revents c.

#[export] Instance keeps_revents_preorder : PreOrder keeps_revents.
Proof.
  split.
  - intros h p c Hc. exists c. by rewrite Z.land_diag.
  - intros h1 h2 h3 H12 H23 p c Hc. destruct (H12 p c Hc) as (d & Hd & Hcd).
    destruct (H23 p d Hd) as (e & He & Hde). exists e. split; [done|].
    by rewrite <- Hcd, <- Z.land_assoc, Hde.
Qed.

Lemma put_keeps p b s s' :
  put p (add_revents b) s = Ret (tt, s') -> keeps_revents (s_heap s) (s_heap s').
Proof.
  unfold put. destruct (s_heap s !! p) as [c|] eqn:Hc; [|done]. intros [= <-] q d Hd. cbn.
  destruct (decide (q = p)) as [->|].
  - rewrite lookup_insert, decide_True by done. eexists. split; [done|]. simplify_eq. cbn.
    apply Z.bits_inj'. intros n _. rewrite Z.land_spec, Z.lor_spec. by destruct (Z.testbit _ n).
  - exists d. rewrite lookup_insert_ne by done. by rewrite Z.land_diag.
Qed.

Lemma when_put_keeps (b : bool) p m s s' :
  when b (put p (add_revents m)) s = Ret (tt, s') -> keeps_revents (s_heap s) (s_heap s').
Proof. destruct b; [apply put_keeps|]. intros [= <-]. done. Qed.

(** The select poller only ever adds reported events: an event once
    reported to a channel is reported again with every later one. *)
Theorem select_revents_accumulate l n rd wr k a s r s' :
  fillActiveChannels l n rd wr k a s = Ret (r, s') -> keeps_revents (s_heap s) (s_heap s').
Proof.
  revert k a s. induction l as [|[fd p] l IH]; intros k a s; cbn [fillActiveChannels].
  - by intros [= _ <-].
  - unfold bindM.
    destruct (when (bool_decide (fd ∈ rd)) _ s) as [[[] s1]| |] eqn:H1; [|done..].
    destruct (when (bool_decide (fd ∈ wr)) _ s1) as [[[] s2]| |] eqn:H2; [|done..].
    apply when_put_keeps in H1, H2. intros Hrun. etrans; [exact H1|]. etrans; [exact H2|].
    repeat case_match; [by injection Hrun as _ <-|by eapply IH..].
Qed.

(** Readable in one poll, writable in the next: the second report still says
    readable. *)
Lemma select_revents_accumulate_witness :
  let s := mkSelectPoller {[1 := set_revents XPOLLIN (Channel.make 9 3)]} {[3 := 1]} [(5, 1)] in
  exists s', fillActiveChannels [(3, 1)] 1 [] [3] 0 [] s = Ret ([1], s') /\
    keeps_revents (s_heap s) (s_heap s') /\ m_revents <$> s_heap s' !! 1 = Some 5.
Proof.
  intros s. eexists. split; [vm_compute; reflexivity|]. split; [|done].
  by apply (select_revents_accumulate [(3, 1)] 1 [] [3] 0 [] s [1]).
Defined.

End SelectPoller.
