(* ===== verification/Connections.v ===== *)
(** * TCP connections

    [TcpConnection] is net/TcpConnection.h and net/TcpConnection.cpp: the state
    machine of a connection, its two buffers, its channel and the tasks it
    queues in its loop.  What the kernel answers to [write], [readv] and
    [epoll_ctl] is an argument of the handler that asks.  A callback is an event
    of the log: what the callee does next to the connection are the operations
    that follow. *)
From S2P Require Import Prelude Buffers Channels.

Module TcpConnection.

Inductive StateE : Type := kDisconnected | kConnecting | kConnected | kDisconnecting.

#[export] Instance StateE_eq_dec : EqDecision StateE.
Proof. solve_decision. Defined.

Definition EWOULDBLOCK : Z := 11.
Definition EPIPE : Z := 32.
Definition ECONNRESET : Z := 104.

(** The functors the connection puts in the queue of its loop. *)
Inductive task : Type :=
| TSendInLoop (message : bytes)
| TShutdownInLoop
| TForceCloseInLoop
| TWriteComplete
| THighWaterMark (size : Z).

(** Calls out of the connection: its callbacks and its socket. *)
Inductive event : Type :=
| EvConnection (connected : bool)
| EvMessage
| EvClose
| EvWriteComplete
| EvHighWaterMark (size : Z)
| EvWrite (d : bytes)          (* bytes the kernel took *)
| EvShutdownWrite
| EvChannelRemove.

(** [hasWriteComplete] and [hasHighWaterMark] say whether the callback is set. *)
Record TcpConnection : Type := mkConnection {
  m_state : StateE;
  m_channel : Channel.Channel;
  m_highWaterMark : Z;
  hasWriteComplete : bool;
  hasHighWaterMark : bool;
  m_inputBuffer : ByteBuffer.ByteBuffer;
  m_outputBuffer : ByteBuffer.ByteBuffer
}.

Record World : Type := mkWorld {
  conn : TcpConnection;
  queue : list task;
  log : list event
}.

Definition make (loop sockfd : Z) : outcome TcpConnection :=
  inb ← ByteBuffer.make ByteBuffer.kInitialSize;
  outb ← ByteBuffer.make ByteBuffer.kInitialSize;
  Ret (mkConnection kConnecting
         (fold_right Channel.setCallback (Channel.make loop sockfd)
            [Channel.ErrorCallback; Channel.CloseCallback; Channel.WriteCallback;
             Channel.ReadCallback])
         (64 * 1024 * 1024) false false inb outb).

Definition update (f : TcpConnection -> TcpConnection) : M World unit :=
  modify (fun w => mkWorld (f (conn w)) (queue w) (log w)).
Definition emit (e : event) : M World unit :=
  modify (fun w => mkWorld (conn w) (queue w) (log w ++ [e])).
Definition queueInLoop (t : task) : M World unit :=
  modify (fun w => mkWorld (conn w) (queue w ++ [t]) (log w)).

Definition setState (s : StateE) : M World unit :=
  update (fun c => mkConnection s (m_channel c) (m_highWaterMark c) (hasWriteComplete c)
                     (hasHighWaterMark c) (m_inputBuffer c) (m_outputBuffer c)).
(** The bit operations of the channel; what the poller answers to the update
    that follows is only looked at by [connectEstablished]. *)
Definition channel_op (f : Channel.Channel -> Channel.Channel) : M World unit :=
  update (fun c => mkConnection (m_state c) (f (m_channel c)) (m_highWaterMark c)
                     (hasWriteComplete c) (hasHighWaterMark c) (m_inputBuffer c)
                     (m_outputBuffer c)).
Definition setInput (b : ByteBuffer.ByteBuffer) : M World unit :=
  update (fun c => mkConnection (m_state c) (m_channel c) (m_highWaterMark c)
                     (hasWriteComplete c) (hasHighWaterMark c) b (m_outputBuffer c)).
Definition setOutput (b : ByteBuffer.ByteBuffer) : M World unit :=
  update (fun c => mkConnection (m_state c) (m_channel c) (m_highWaterMark c)
                     (hasWriteComplete c) (hasHighWaterMark c) (m_inputBuffer c) b).
Definition setWriteCompleteCallback : M World unit :=
  update (fun c => mkConnection (m_state c) (m_channel c) (m_highWaterMark c) true
                     (hasHighWaterMark c) (m_inputBuffer c) (m_outputBuffer c)).
Definition setHighWaterMarkCallback (highWaterMark : Z) : M World unit :=
  update (fun c => mkConnection (m_state c) (m_channel c) highWaterMark
                     (hasWriteComplete c) true (m_inputBuffer c) (m_outputBuffer c)).

Definition connected (c : TcpConnection) : bool := bool_decide (m_state c = kConnected).
Definition self : M World TcpConnection := gets conn.

Definition stateToString (s : StateE) : bytes :=
  match s with
  | kDisconnected => lit "kDisconnected"
  | kConnecting => lit "kConnecting"
  | kConnected => lit "kConnected"
  | kDisconnecting => lit "kDisconnecting"
  end.

(** [assertInLoopThread]: the fatal log record of another thread's call ends the
    process by writing through a null pointer. *)
Definition assertInLoopThread (inLoop : bool) : M World unit :=
  if inLoop then ret tt else undefined NullPointer.

(** The answer of [write(2)]: how many bytes it took, or an errno. *)
Inductive write_result : Type := Wrote (n : Z) | WriteError (err : Z).

(** Number of bytes taken, and the bytes themselves as an event. *)
Definition write (r : write_result) (d : bytes) : M World Z :=
  match r with
  | Wrote n => do! emit (EvWrite (take (Z.to_nat n) d)) in ret (i32 n)
  | WriteError _ => ret (-1)
  end.
Definition errno (r : write_result) : Z :=
  match r with Wrote _ => 0 | WriteError e => e end.

(** The tail of [sendInLoop]: the rest goes to the output buffer. *)
Definition bufferRest (data : bytes) (nwrote remaining : Z) : M World unit :=
  let! c := self in
  let oldLen := ByteBuffer.readableBytes (m_outputBuffer c) in
  do! when ((m_highWaterMark c <=? u64 (oldLen + remaining)) && (oldLen <? m_highWaterMark c)
            && hasHighWaterMark c)
        (queueInLoop (THighWaterMark (u64 (oldLen + remaining)))) in
  let! d := lift (load nwrote remaining data) in
  let! b := lift (ByteBuffer.append d (m_outputBuffer c)) in
  do! setOutput b in
  when (negb (Channel.isWriting (m_channel c))) (channel_op Channel.enable_write_bits).

Definition sendInLoop (inLoop : bool) (r : write_result) (data : bytes) : M World unit :=
  do! assertInLoopThread inLoop in
  let! c := self in
  let len := zlen data in
  if bool_decide (m_state c = kDisconnected) then ret tt
  else
    let! direct := (
      if negb (Channel.isWriting (m_channel c)) && (ByteBuffer.readableBytes (m_outputBuffer c) =? 0)
      then
        let! nwrote := write r data in
        if 0 <=? nwrote then
          let remaining := u64 (len - nwrote) in
          do! when ((remaining =? 0) && hasWriteComplete c) (queueInLoop TWriteComplete) in
          ret (nwrote, remaining, false)
        else
          ret (0, len, negb (errno r =? EWOULDBLOCK) &&
                       ((errno r =? EPIPE) || (errno r =? ECONNRESET)))
      else ret (0, len, false)) in
    let '(nwrote, remaining, faultError) := direct in
    if len <? remaining then ret tt
    else if negb faultError && (0 <? remaining) then bufferRest data nwrote remaining
    else ret tt.

(** [send] of a string or of [(data, len)]; [send_buffer] is the overload that
    empties a [ByteBuffer]. *)
Definition send (inLoop : bool) (r : write_result) (message : bytes) : M World unit :=
  let! c := self in
  if bool_decide (m_state c = kConnected) then
    if inLoop then sendInLoop inLoop r message
    else queueInLoop (TSendInLoop message)
  else ret tt.

Definition send_buffer (inLoop : bool) (r : write_result) (buf : ByteBuffer.ByteBuffer)
    : M World ByteBuffer.ByteBuffer :=
  let! c := self in
  if bool_decide (m_state c = kConnected) then
    if inLoop then
      let! d := lift (load (ByteBuffer.peek buf) (ByteBuffer.readableBytes buf)
                        (ByteBuffer.m_buffer buf)) in
      do! sendInLoop inLoop r d in
      ret (ByteBuffer.retrieveAll buf)
    else
      let! p := lift (ByteBuffer.retrieveAllAsString buf) in
      do! queueInLoop (TSendInLoop (fst p)) in
      ret (snd p)
  else ret buf.

Definition shutdownInLoop (inLoop : bool) : M World unit :=
  do! assertInLoopThread inLoop in
  let! c := self in
  when (negb (Channel.isWriting (m_channel c))) (emit EvShutdownWrite).

Definition shutdown (inLoop : bool) : M World unit :=
  let! c := self in
  when (bool_decide (m_state c = kConnected))
    (do! setState kDisconnecting in
     if inLoop then shutdownInLoop inLoop else queueInLoop TShutdownInLoop).

Definition is_open (s : StateE) : bool :=
  bool_decide (s = kConnected) || bool_decide (s = kDisconnecting).

Definition forceClose : M World unit :=
  let! c := self in
  when (is_open (m_state c))
    (do! setState kDisconnecting in queueInLoop TForceCloseInLoop).

Definition handleClose (inLoop : bool) : M World unit :=
  let! c := self in
  if bool_decide (m_state c = kDisconnected) then ret tt
  else
    do! assertInLoopThread inLoop in
    do! setState kDisconnected in
    do! channel_op Channel.disable_all_bits in
    do! emit (EvConnection false) in
    emit EvClose.

Definition forceCloseInLoop (inLoop : bool) : M World unit :=
  do! assertInLoopThread inLoop in
  let! c := self in
  when (is_open (m_state c)) (handleClose inLoop).

Definition handleError (inLoop : bool) : M World unit := handleClose inLoop.

(** [ok] is what [enableReading] returns. *)
Definition connectEstablished (inLoop ok : bool) : M World unit :=
  do! assertInLoopThread inLoop in
  let! c := self in
  if negb (bool_decide (m_state c = kConnecting)) then ret tt
  else
    do! setState kConnected in
    do! channel_op Channel.enable_read_bits in
    if negb ok then handleClose inLoop else emit (EvConnection true).

Definition connectDestroyed (inLoop : bool) : M World unit :=
  do! assertInLoopThread inLoop in
  let! c := self in
  do! when (bool_decide (m_state c = kConnected))
        (do! setState kDisconnected in
         do! channel_op Channel.disable_all_bits in
         emit (EvConnection false)) in
  emit EvChannelRemove.

Definition handleRead (inLoop : bool) (r : ByteBuffer.read_result) (err : Z) : M World unit :=
  do! assertInLoopThread inLoop in
  let! c := self in
  let! p := lift (ByteBuffer.readFd r err (m_inputBuffer c)) in
  do! setInput (snd p) in
  let n := fst (fst p) in
  if 0 <? n then emit EvMessage
  else if n =? 0 then handleClose inLoop
  else handleError inLoop.

Definition handleWrite (inLoop : bool) (r : write_result) : M World unit :=
  do! assertInLoopThread inLoop in
  let! c := self in
  if Channel.isWriting (m_channel c) then
    let! d := lift (load (ByteBuffer.peek (m_outputBuffer c))
                      (ByteBuffer.readableBytes (m_outputBuffer c))
                      (ByteBuffer.m_buffer (m_outputBuffer c))) in
    let! n := write r d in
    if 0 <? n then
      do! setOutput (snd (ByteBuffer.retrieve n (m_outputBuffer c))) in
      let! c' := self in
      when (ByteBuffer.readableBytes (m_outputBuffer c') =? 0)
        (do! channel_op Channel.disable_write_bits in
         do! when (hasWriteComplete c') (queueInLoop TWriteComplete) in
         when (bool_decide (m_state c' = kDisconnecting)) (shutdownInLoop inLoop))
    else handleClose inLoop
  else ret tt.

(** The loop runs the first task of its queue; [r] is the kernel's answer if
    the task writes. *)
Definition runTask (r : write_result) : M World unit :=
  let! w := get in
  match queue w with
  | [] => ret tt
  | t :: q =>
      do! modify (fun w => mkWorld (conn w) q (log w)) in
      match t with
      | TSendInLoop message => sendInLoop true r message
      | TShutdownInLoop => shutdownInLoop true
      | TForceCloseInLoop => forceCloseInLoop true
      | TWriteComplete => emit EvWriteComplete
      | THighWaterMark size => emit (EvHighWaterMark size)
      end
  end.

(** Everything that can happen to a connection, in any order. *)
Inductive op : Type :=
| OpSend (inLoop : bool) (r : write_result) (message : bytes)
| OpShutdown (inLoop : bool)
| OpForceClose
| OpEstablished (ok : bool)
| OpDestroyed
| OpRead (r : ByteBuffer.read_result) (err : Z)
| OpWritable (r : write_result)
| OpClosed
| OpError
| OpTask (r : write_result)
| OpRetrieve (n : Z)                (* the message callback consumes input *)
| OpSetWriteComplete
| OpSetHighWaterMark (mark : Z).

Definition exec (o : op) : M World unit :=
  match o with
  | OpSend inLoop r message => send inLoop r message
  | OpShutdown inLoop => shutdown inLoop
  | OpForceClose => forceClose
  | OpEstablished ok => connectEstablished true ok
  | OpDestroyed => connectDestroyed true
  | OpRead r err => handleRead true r err
  | OpWritable r => handleWrite true r
  | OpClosed => handleClose true
  | OpError => handleError true
  | OpTask r => runTask r
  | OpRetrieve n =>
      let! c := self in setInput (snd (ByteBuffer.retrieve n (m_inputBuffer c)))
  | OpSetWriteComplete => setWriteCompleteCallback
  | OpSetHighWaterMark mark => setHighWaterMarkCallback mark
  end.

Fixpoint run (ops : list op) : M World unit :=
  match ops with
  | [] => ret tt
  | o :: ops' => do! exec o in run ops'
  end.

(** ** The output stream

    What the connection has promised to deliver: the bytes the kernel took,
    followed by the contents of the output buffer. *)
Definition written (e : event) : bytes := match e with EvWrite d => d | _ => [] end.
Definition sent (l : list event) : bytes := concat (map written l).
Definition output (w : World) : bytes := ByteBuffer.contents (m_outputBuffer (conn w)).
Definition stream (w : World) : bytes := sent (log w) ++ output w.
Definition writing (w : World) : bool := Channel.isWriting (m_channel (conn w)).
Definition state (w : World) : StateE := m_state (conn w).

Definition count (f : event -> bool) (l : list event) : nat := length (List.filter f l).
Definition is_up (e : event) : bool := match e with EvConnection b => b | _ => false end.
Definition is_down (e : event) : bool := match e with EvConnection b => negb b | _ => false end.
Definition is_close (e : event) : bool := match e with EvClose => true | _ => false end.

#[local] Arguments count : simpl never.
#[local] Arguments sent : simpl never.

Definition rank (s : StateE) : Z :=
  match s with kConnecting => 0 | kConnected => 1 | kDisconnecting => 2 | kDisconnected => 3 end.

(** The buffers are well formed, the channel waits for writability exactly when
    there is output to write, and every callback of the life of the connection
    was made at most once. *)
Record inv (w : World) : Prop := {
  inv_in : ByteBuffer.wf (m_inputBuffer (conn w));
  inv_out : ByteBuffer.wf (m_outputBuffer (conn w));
  inv_writing : state w <> kDisconnected -> (writing w = true <-> output w <> []);
  inv_closed : state w = kDisconnected -> writing w = false;
  inv_ups : count is_up (log w) = 0%nat \/
    (count is_up (log w) = 1%nat /\ state w <> kConnecting);
  inv_downs : count is_down (log w) = if decide (state w = kDisconnected) then 1%nat else 0%nat;
  inv_closes : (count is_close (log w) <= count is_down (log w))%nat
}.

(** [w'] comes from [w] by accepting [acc]. *)
Record effect (acc : bytes) (w w' : World) : Prop := {
  eff_inv : inv w';
  eff_stream : stream w' = stream w ++ acc;
  eff_log : exists evs, log w' = log w ++ evs;
  eff_rank : rank (state w) <= rank (state w')
}.

(** Counting in a log that grew by one event, and what that event wrote. *)
Lemma count_snoc f l e : count f (l ++ [e]) = (count f l + if f e then 1 else 0)%nat.
Proof. unfold count. rewrite List.filter_app, length_app. cbn. by destruct (f e). Qed.
Lemma sent_snoc l e : sent (l ++ [e]) = sent l ++ written e.
Proof. unfold sent. rewrite map_app, concat_app. cbn. by rewrite app_nil_r. Qed.
Lemma sent_app l1 l2 : sent (l1 ++ l2) = sent l1 ++ sent l2.
Proof. unfold sent. by rewrite map_app, concat_app. Qed.
Lemma count_app f l1 l2 : count f (l1 ++ l2) = (count f l1 + count f l2)%nat.
Proof. unfold count. by rewrite List.filter_app, length_app. Qed.

Lemma effect_refl w : inv w -> effect [] w w.
Proof.
  intros. split; [done|by rewrite app_nil_r|exists []; by rewrite app_nil_r|done].
Qed.

Lemma effect_trans a b w1 w2 w3 : effect a w1 w2 -> effect b w2 w3 -> effect (a ++ b) w1 w3.
Proof.
  intros [_ Hs1 [e1 Hl1] Hr1] [Hi Hs2 [e2 Hl2] Hr2]. split; [done|..].
  - by rewrite Hs2, Hs1, <- app_assoc.
  - exists (e1 ++ e2). by rewrite Hl2, Hl1, <- app_assoc.
  - lia.
Qed.

Definition valid_answer (r : write_result) (len : Z) : Prop :=
  match r with Wrote n => 0 <= n <= len | WriteError _ => True end.
Definition fatal (r : write_result) : bool :=
  match r with WriteError e => (e =? EPIPE) || (e =? ECONNRESET) | Wrote _ => false end.
Definition direct (w : World) : bool :=
  negb (writing w) && (ByteBuffer.readableBytes (m_outputBuffer (conn w)) =? 0).

(** What [sendInLoop] accepts: nothing on a closed connection or when the
    direct write reports that the peer is gone, else all of the message. *)
Definition accepted (w : World) (r : write_result) (data : bytes) : bytes :=
  if bool_decide (state w = kDisconnected) || (direct w && fatal r) then [] else data.

Abbreviation LengthErr := (eq LengthError).

Lemma bufferRest_ok data nwrote remaining w :
  ByteBuffer.wf (m_outputBuffer (conn w)) -> 0 <= nwrote -> 0 <= remaining ->
  nwrote + remaining = zlen data -> zlen data < 2 ^ 31 ->
  wp LengthErr (bufferRest data nwrote remaining) (fun _ w' => exists b q ch,
    w' = mkWorld (mkConnection (state w) ch (m_highWaterMark (conn w)) (hasWriteComplete (conn w))
                    (hasHighWaterMark (conn w)) (m_inputBuffer (conn w)) b) q (log w) /\
    ByteBuffer.wf b /\ ByteBuffer.contents b = output w ++ drop (Z.to_nat nwrote) data /\
    Channel.isWriting ch = true) w.
Proof.
  intros Hwf Hn Hr Hlen Hmax. unfold bufferRest. apply wp_bind. cbn.
  assert (window nwrote remaining data = drop (Z.to_nat nwrote) data) as Hwin.
  { unfold window. rewrite take_ge; [done|]. rewrite length_drop. unfold zlen in Hlen. lia. }
  assert (zlen (drop (Z.to_nat nwrote) data) <= ByteBuffer.vector_max_size) as Hsmall.
  { rewrite <- Hwin, zlen_window by lia. unfold ByteBuffer.vector_max_size. lia. }
  assert (forall w1, conn w1 = conn w -> log w1 = log w ->
    wp LengthErr (let! d := lift (load nwrote remaining data) in
      let! b := lift (ByteBuffer.append d (m_outputBuffer (conn w))) in
      do! setOutput b in
      when (negb (Channel.isWriting (m_channel (conn w)))) (channel_op Channel.enable_write_bits))
    (fun _ w' => exists b q ch,
      w' = mkWorld (mkConnection (state w) ch (m_highWaterMark (conn w)) (hasWriteComplete (conn w))
                    (hasHighWaterMark (conn w)) (m_inputBuffer (conn w)) b) q (log w) /\
      ByteBuffer.wf b /\ ByteBuffer.contents b = output w ++ drop (Z.to_nat nwrote) data /\
      Channel.isWriting ch = true) w1) as Hgo.
  { intros w1 Hc Hl. apply wp_bind, wp_lift. rewrite load_ok by lia. apply wp_bind, wp_lift.
    rewrite Hwin. destruct (ByteBuffer.append_cases _ _ Hwf Hsmall) as [(b & -> & Hb & Hcont)|[-> _]];
      [|done].
    apply wp_bind. cbn. rewrite Hc, Hl.
    destruct (Channel.isWriting (m_channel (conn w))) eqn:Hw; cbn.
    - by exists b, (queue w1), (m_channel (conn w)).
    - exists b, (queue w1), (Channel.enable_write_bits (m_channel (conn w))).
      split_and!; [done..|apply Channel.isWriting_enable]. }
  apply wp_bind, wp_when; intros _; by apply Hgo.
Qed.

(** A step that makes no callback of the connection's life and does not change
    its state. *)
Definition quiet (e : event) : bool := negb (is_up e || is_down e || is_close e).

Lemma count_quiet f evs :
  (forall e, quiet e = true -> f e = false) -> forallb quiet evs = true -> count f evs = 0%nat.
Proof.
  intros Hf. induction evs as [|e evs IH]; [done|]. cbn. intros [He Hevs]%andb_true_iff.
  unfold count. cbn. rewrite Hf by done. by apply IH.
Qed.

Lemma quiet_counts evs :
  forallb quiet evs = true ->
  count is_up evs = 0%nat /\ count is_down evs = 0%nat /\ count is_close evs = 0%nat.
Proof. intros H. split_and!; (apply count_quiet; [by intros [[]| | | | | | |]|done]). Qed.

Lemma effect_io acc evs w w' :
  inv w -> state w' = state w -> ByteBuffer.wf (m_inputBuffer (conn w')) ->
  log w' = log w ++ evs -> forallb quiet evs = true ->
  ByteBuffer.wf (m_outputBuffer (conn w')) ->
  (state w <> kDisconnected -> (writing w' = true <-> output w' <> [])) ->
  (state w = kDisconnected -> writing w' = false) ->
  sent evs ++ output w' = output w ++ acc ->
  effect acc w w'.
Proof.
  intros [Hin Hout Hw Hc Hu Hdn Hcl] Hst Hin' Hlog Hq Hout' Hw' Hc' Hs.
  destruct (quiet_counts _ Hq) as (Hqu & Hqd & Hqc). split.
  - split; rewrite ?Hst; [done..| | |]; rewrite Hlog, !count_app, ?Hqu, ?Hqd, ?Hqc; [|lia..].
    by rewrite Nat.add_0_r.
  - unfold stream. by rewrite Hlog, sent_app, <- !app_assoc, Hs.
  - by exists evs.
  - by rewrite Hst.
Qed.

Lemma effect_buffered data n remaining w evs w1 :
  conn w1 = conn w -> log w1 = log w ++ evs -> inv w -> state w <> kDisconnected -> zlen data < 2 ^ 31 -> 0 <= n <= zlen data ->
  remaining = zlen data - n -> (n = 0 \/ output w = []) ->
  forallb quiet evs = true -> sent evs = take (Z.to_nat n) data ->
  wp LengthErr
    (if zlen data <? remaining then ret tt
     else if negb false && (0 <? remaining) then bufferRest data n remaining else ret tt)
    (fun _ w' => effect data w w' /\ state w' = state w) w1.
Proof.
  destruct w1 as [c q l]. cbn. intros -> -> Hinv Hd Hmax Hn -> Hor Hq Hs. pose proof Hinv as [Hin Hout Hw Hc _ _ _].
  destruct (Z.ltb_spec (zlen data) (zlen data - n)); [lia|]. cbn [negb andb].
  destruct (Z.ltb_spec 0 (zlen data - n)).
  - eapply wp_mono; [apply (bufferRest_ok data n (zlen data - n)); try done; cbn; lia|].
    intros [] w' (b & q' & ch & -> & Hb & Hcont & Hwr). split; [|done].
    assert (drop (Z.to_nat n) data <> []) as Hne.
    { intros Hnil%(f_equal length). rewrite length_drop in Hnil. unfold zlen in *. cbn in Hnil. lia. }
    apply (effect_io _ evs); try done; unfold writing, output; cbn; rewrite ?Hcont.
    + intros _. split; [|done]. intros _ Hnil%app_eq_nil. tauto.
    + rewrite Hs. unfold output. cbn. destruct Hor as [->|Hnil].
      * cbn. by rewrite drop_0.
      * unfold output in Hnil. rewrite Hnil. cbn. apply take_drop.
  - split; [|done]. apply (effect_io _ evs); try done.
    rewrite Hs. rewrite take_ge by (unfold zlen in *; lia).
    destruct Hor as [->|Hnil]; unfold output; cbn; [|unfold output in Hnil; by rewrite Hnil, app_nil_r].
    assert (data = []) as -> by (apply nil_length_inv; unfold zlen in *; lia).
    by rewrite app_nil_r.
Qed.

Lemma direct_true w : inv w -> direct w = true -> writing w = false /\ output w = [].
Proof.
  intros Hinv. unfold direct. rewrite andb_true_iff, negb_true_iff, Z.eqb_eq. intros [Hw Hr].
  split; [done|]. rewrite ByteBuffer.readable_contents in Hr by apply Hinv.
  apply nil_length_inv. unfold zlen in Hr. unfold output. lia.
Qed.

Lemma sendInLoop_ok r data w :
  inv w -> zlen data < 2 ^ 31 -> valid_answer r (zlen data) ->
  wp LengthErr (sendInLoop true r data)
    (fun _ w' => effect (accepted w r data) w w' /\ state w' = state w) w.
Proof.
  intros Hinv Hmax Hr. unfold sendInLoop, accepted. cbn [assertInLoopThread].
  apply wp_bind. cbn [wp ret]. apply wp_bind. cbn [self gets wp].
  change (m_state (conn w)) with (state w).
  case_bool_decide as Hd; [cbn; split; [by apply effect_refl|done]|]. cbn [orb].
  pose proof (zlen_nonneg data) as Hpos.
  change (negb (Channel.isWriting (m_channel (conn w))) &&
    (ByteBuffer.readableBytes (m_outputBuffer (conn w)) =? 0)) with (direct w).
  assert (log w = log w ++ []) as Hlog by (by rewrite app_nil_r).
  destruct (direct w) eqn:Hdir; cbn [andb]; apply wp_bind.
  - destruct (direct_true w Hinv Hdir) as [_ Hnil]. destruct r as [n|e]; cbn [write errno fatal].
    + cbn in Hr. apply wp_bind, wp_bind. cbn. rewrite swrap_small by (unfold srange; lia).
      destruct (Z.leb_spec 0 n); [|lia]. rewrite uwrap_small by lia. apply wp_bind.
      destruct ((zlen data - n =? 0) && hasWriteComplete (conn w)); cbn;
        (eapply (effect_buffered data n); eauto; unfold sent; cbn; by rewrite app_nil_r).
    + cbn. destruct ((e =? EPIPE) || (e =? ECONNRESET)) eqn:Hf.
      * assert (negb (e =? EWOULDBLOCK) = true) as ->.
        { unfold EPIPE, ECONNRESET, EWOULDBLOCK in *.
          apply orb_true_iff in Hf as [->%Z.eqb_eq | ->%Z.eqb_eq]; done. }
        cbn. destruct (zlen data <? zlen data); cbn; (split; [by apply effect_refl|done]).
      * rewrite andb_false_r. cbn.
        eapply (effect_buffered data 0 (zlen data)); eauto; lia.
  - cbn. eapply (effect_buffered data 0 (zlen data)); eauto; lia.
Qed.

Lemma wp_self E (f : TcpConnection -> M World unit) Q w :
  wp E (f (conn w)) Q w -> wp E (bindM self f) Q w.
Proof. done. Qed.

Lemma handleClose_ok w :
  inv w -> wp LengthErr (handleClose true) (fun _ w' => effect [] w w' /\ state w' = kDisconnected) w.
Proof.
  intros Hinv. unfold handleClose. apply wp_self.
  change (m_state (conn w)) with (state w). case_bool_decide as Hd; [by split; [apply effect_refl|]|].
  destruct Hinv as [Hin Hout Hw Hc Hu Hdn Hcl]. rewrite decide_False in Hdn by done. cbn.
  split; [|done]. split.
  - split; cbn; [done..| | |]; rewrite !count_snoc; cbn; [|by rewrite Hdn|lia].
    destruct Hu as [->|[-> _]]; [by left|by right].
  - unfold stream, output. cbn. rewrite !sent_snoc. cbn. by rewrite !app_nil_r.
  - cbn. eexists. by rewrite <- app_assoc.
  - unfold state, rank at 2. cbn. by destruct (m_state (conn w)).
Qed.

(** Only the state moves forward; the channel, the buffers and the log stay. *)
Lemma setState_ok s w :
  inv w -> state w <> kDisconnected -> s <> kDisconnected -> s <> kConnecting ->
  rank (state w) <= rank s ->
  effect [] w (mkWorld (mkConnection s (m_channel (conn w)) (m_highWaterMark (conn w))
     (hasWriteComplete (conn w)) (hasHighWaterMark (conn w)) (m_inputBuffer (conn w))
     (m_outputBuffer (conn w))) (queue w) (log w)).
Proof.
  intros [Hin Hout Hw Hc Hu Hdn Hcl] Hd Hs Hs' Hr. rewrite decide_False in Hdn by done.
  split; [split; cbn; try done| |..].
  - intros _. by apply Hw.
  - destruct Hu as [?|[? _]]; auto.
  - unfold state. cbn. by rewrite decide_False.
  - by rewrite app_nil_r.
  - exists []. by rewrite app_nil_r.
  - done.
Qed.

Lemma emit_quiet_ok e w : inv w -> quiet e = true -> written e = [] ->
  wp LengthErr (emit e) (fun _ w' => effect [] w w') w.
Proof.
  intros Hinv Hq Hwr. pose proof Hinv as [Hin Hout Hw Hc _ _ _].
  apply (effect_io _ [e]); try done.
  - cbn. by rewrite Hq.
  - change (sent [e] ++ output w = output w ++ []). unfold sent. cbn. by rewrite Hwr, !app_nil_r.
Qed.

(** A change of the queue of the loop is invisible. *)
Lemma effect_queue acc w w' q :
  effect acc w w' -> effect acc w (mkWorld (conn w') q (log w')).
Proof. intros [[] Hs Hl Hr]. split; [by split|done..]. Qed.

Lemma effect_from_queue acc w q w' :
  effect acc (mkWorld (conn w) q (log w)) w' -> effect acc w w'.
Proof. by intros [Hi Hs Hl Hr]. Qed.

Lemma inv_queue w q : inv w -> inv (mkWorld (conn w) q (log w)).
Proof. by intros []. Qed.

Lemma shutdownInLoop_ok w :
  inv w -> wp LengthErr (shutdownInLoop true) (fun _ w' => effect [] w w') w.
Proof.
  intros Hinv. unfold shutdownInLoop. apply wp_bind. cbn [assertInLoopThread wp ret].
  apply wp_self, wp_when; intros _; [|by apply effect_refl]. by apply emit_quiet_ok.
Qed.

Lemma send_ok inLoop r message w :
  inv w -> zlen message < 2 ^ 31 -> valid_answer r (zlen message) ->
  wp LengthErr (send inLoop r message) (fun _ w' => effect
    (if bool_decide (state w = kConnected) && inLoop then accepted w r message else []) w w') w.
Proof.
  intros Hinv Hmax Hr. unfold send. apply wp_self. change (m_state (conn w)) with (state w).
  case_bool_decide; [|by apply effect_refl]. destruct inLoop; cbn [andb].
  - eapply wp_mono; [by apply sendInLoop_ok|]. by intros [] w' [? _].
  - by apply effect_queue, effect_refl.
Qed.

Lemma shutdown_ok inLoop w :
  inv w -> wp LengthErr (shutdown inLoop) (fun _ w' => effect [] w w') w.
Proof.
  intros Hinv. unfold shutdown. apply wp_self. change (m_state (conn w)) with (state w).
  case_bool_decide as Hs; [|by apply effect_refl]. cbn [when]. apply wp_bind. cbn [setState update modify wp].
  pose proof (setState_ok kDisconnecting w Hinv) as Heff. rewrite Hs in Heff.
  specialize (Heff ltac:(done) ltac:(done) ltac:(done) ltac:(done)).
  destruct inLoop; [|by apply effect_queue].
  eapply wp_mono; [apply shutdownInLoop_ok, Heff|]. intros [] w' Hw'.
  by apply (effect_trans [] [] _ _ _ Heff).
Qed.

Lemma is_open_true s : is_open s = true -> s = kConnected \/ s = kDisconnecting.
Proof. by destruct s; auto. Qed.

Lemma forceClose_ok w : inv w -> wp LengthErr forceClose (fun _ w' => effect [] w w') w.
Proof.
  intros Hinv. unfold forceClose. apply wp_self. change (m_state (conn w)) with (state w).
  apply wp_when; intros Ho; [|by apply effect_refl]. cbn. apply effect_queue with (w' := mkWorld _ (queue w) (log w)).
  apply setState_ok; try done; destruct (is_open_true _ Ho) as [-> | ->]; done.
Qed.

Lemma forceCloseInLoop_ok w :
  inv w -> wp LengthErr (forceCloseInLoop true) (fun _ w' => effect [] w w') w.
Proof.
  intros Hinv. unfold forceCloseInLoop. apply wp_bind. cbn [assertInLoopThread wp ret].
  apply wp_self, wp_when; intros _; [|by apply effect_refl].
  eapply wp_mono; [by apply handleClose_ok|]. by intros [] w' [? _].
Qed.

Lemma established_ok ok w :
  inv w -> wp LengthErr (connectEstablished true ok) (fun _ w' => effect [] w w') w.
Proof.
  intros Hinv. unfold connectEstablished. apply wp_bind. cbn [assertInLoopThread wp ret].
  apply wp_self. change (m_state (conn w)) with (state w).
  case_bool_decide as Hs; [|by apply effect_refl]. cbn [negb].
  set (w1 := mkWorld (mkConnection kConnected (Channel.enable_read_bits (m_channel (conn w)))
    (m_highWaterMark (conn w)) (hasWriteComplete (conn w)) (hasHighWaterMark (conn w))
    (m_inputBuffer (conn w)) (m_outputBuffer (conn w))) (queue w) (log w)).
  assert (effect [] w w1) as He.
  { destruct Hinv as [Hin Hout Hw Hc Hu Hdn Hcl]. rewrite Hs in *.
    split; [split; cbn; try done| |..].
    - intros _. unfold writing. cbn. rewrite Channel.isWriting_enable_read. by apply Hw.
    - destruct Hu as [?|[_ []]]; [by left|done].
    - by rewrite app_nil_r.
    - exists []. by rewrite app_nil_r.
    - by rewrite Hs. }
  destruct ok; cbn [negb].
  - cbn. fold w1. apply (effect_trans [] [] _ w1); [done|].
    destruct He as [[Hin Hout Hw Hc Hu Hdn Hcl] _ _ _].
    destruct Hinv as [_ _ _ _ [Hu0|[_ Hu0]] _ _]; [|by rewrite Hs in Hu0]. cbn in *.
    split; [split; cbn; try done| |..].
    + rewrite count_snoc, Hu0. by right.
    + rewrite count_snoc, Hdn. done.
    + rewrite !count_snoc. cbn. lia.
    + unfold stream. cbn. rewrite sent_snoc. cbn. by rewrite !app_nil_r.
    + by eexists.
    + done.
  - apply wp_bind. cbn [setState channel_op update modify wp]. apply wp_bind. cbn [modify wp].
    change (wp LengthErr (handleClose true) (fun _ w' => effect [] w w') w1).
    eapply wp_mono; [apply handleClose_ok, He|]. intros [] w' [Hw' _].
    by apply (effect_trans [] [] _ w1).
Qed.

Lemma destroyed_ok w :
  inv w -> wp LengthErr (connectDestroyed true) (fun _ w' => effect [] w w') w.
Proof.
  intros Hinv. unfold connectDestroyed. apply wp_bind. cbn [assertInLoopThread wp ret].
  apply wp_self. change (m_state (conn w)) with (state w).
  assert (forall w1, effect [] w w1 ->
    wp LengthErr (emit EvChannelRemove) (fun _ w' => effect [] w w') w1) as Hend.
  { intros w1 H1. eapply wp_mono; [by apply emit_quiet_ok; [apply H1|..]|].
    intros [] w' H'. by apply (effect_trans [] [] _ w1). }
  case_bool_decide as Hs; cbn [when]; apply wp_bind; [|by apply Hend, effect_refl].
  cbn [setState channel_op emit update modify wp]. apply wp_bind.
  cbn [setState channel_op emit update modify wp]. apply wp_bind.
  cbn [setState channel_op emit update modify wp].
  apply Hend. destruct Hinv as [Hin Hout Hw Hc Hu Hdn Hcl]. rewrite Hs in *.
  split; [split; cbn; try done| |..].
  - rewrite count_snoc. cbn. rewrite Nat.add_0_r. destruct Hu as [?|[? _]]; auto.
  - rewrite count_snoc, Hdn. done.
  - rewrite !count_snoc. cbn. lia.
  - unfold stream. cbn. rewrite sent_snoc. cbn. by rewrite !app_nil_r.
  - by eexists.
  - by rewrite Hs.
Qed.

(** The input buffer changes; the output side does not. *)
Lemma effect_input b w :
  inv w -> ByteBuffer.wf b -> wp LengthErr (setInput b) (fun _ w' => effect [] w w') w.
Proof.
  intros Hinv Hb. pose proof Hinv as [Hin Hout Hw Hc _ _ _].
  apply (effect_io _ []); try done; [by rewrite app_nil_r|].
  change (output w = output w ++ []). by rewrite app_nil_r.
Qed.

(** What [readv] may answer: at most the capacity offered, within [int32_t]. *)
Definition valid_read (r : ByteBuffer.read_result) (w : World) : Prop :=
  match r with
  | ByteBuffer.ReadBytes d =>
      zlen d <= ByteBuffer.iov_capacity (m_inputBuffer (conn w)) /\ zlen d < 2 ^ 31
  | ByteBuffer.ReadError _ => True
  end.

Lemma handleRead_ok r err w :
  inv w -> valid_read r w ->
  wp LengthErr (handleRead true r err) (fun _ w' => effect [] w w') w.
Proof.
  intros Hinv Hr. unfold handleRead. apply wp_bind. cbn [assertInLoopThread wp ret].
  apply wp_self, wp_bind, wp_lift.
  assert (forall b n, ByteBuffer.wf b ->
    wp LengthErr (do! setInput b in
      if 0 <? n then emit EvMessage else if n =? 0 then handleClose true else handleError true)
      (fun _ w' => effect [] w w') w) as Hgo.
  { intros b n Hb. apply wp_bind. eapply wp_mono; [by apply effect_input|]. intros [] w1 H1.
    assert (wp LengthErr (handleClose true) (fun _ w' => effect [] w w') w1) as Hcl.
    { eapply wp_mono; [apply handleClose_ok, H1|]. intros [] w' [H' _].
      by apply (effect_trans [] [] _ w1). }
    destruct (0 <? n); [|by destruct (n =? 0)].
    eapply wp_mono; [by apply emit_quiet_ok; [apply H1|..]|]. intros [] w' H'.
    by apply (effect_trans [] [] _ w1). }
  destruct r as [d|e]; [|apply (Hgo _ (-1)), Hinv]. destruct Hr as [Hcap _].
  destruct (ByteBuffer.readFd_cases d err _ (inv_in w Hinv) Hcap) as [(so & b & -> & Hb & _)|[-> _]];
    [|done]. by apply Hgo.
Qed.

(** A shutdown that waited for the output is done when the output has drained. *)
Lemma drained_ok w w1 :
  effect [] w w1 -> state w1 = state w -> output w1 = [] -> writing w1 = false ->
  wp LengthErr (when (bool_decide (state w = kDisconnecting)) (shutdownInLoop true))
    (fun _ w' => effect [] w w' /\ state w' = state w /\ output w' = [] /\
      (state w = kDisconnecting -> In EvShutdownWrite (log w'))) w1.
Proof.
  intros H1 Hs Ho Hw. apply wp_when; intros Hdis;
    [apply bool_decide_eq_true in Hdis|apply bool_decide_eq_false in Hdis]; [|by split_and!].
  unfold shutdownInLoop. apply wp_bind. cbn [assertInLoopThread wp ret]. apply wp_self.
  change (Channel.isWriting (m_channel (conn w1))) with (writing w1). rewrite Hw. cbn [negb when].
  assert (wp LengthErr (emit EvShutdownWrite) (fun _ w' => effect [] w1 w') w1) as He
    by (apply emit_quiet_ok; [apply H1|done..]).
  cbn [emit modify wp] in He |- *. split_and!; [by apply (effect_trans [] [] _ w1)|done|done|].
  intros _. apply in_or_app. right. by left.
Qed.

(** One writable event with a successful [write] moves [n] bytes from the
    buffer to the kernel. *)
Lemma handleWrite_moves n w :
  inv w -> writing w = true -> 0 < n <= zlen (output w) -> zlen (output w) < 2 ^ 31 ->
  wp LengthErr (handleWrite true (Wrote n)) (fun _ w' => effect [] w w' /\
    state w' = state w /\ output w' = drop (Z.to_nat n) (output w) /\
    (n = zlen (output w) -> state w = kDisconnecting -> In EvShutdownWrite (log w'))) w.
Proof.
  intros Hinv Hwr Hn Hmax. pose proof Hinv as [Hin Hout Hw Hc _ _ _].
  assert (state w <> kDisconnected) as Hd by (intros Hd; by rewrite Hc in Hwr).
  unfold handleWrite. apply wp_bind. cbn [assertInLoopThread wp ret]. apply wp_self.
  change (Channel.isWriting (m_channel (conn w))) with (writing w). rewrite Hwr.
  apply wp_bind, wp_lift. rewrite ByteBuffer.readable_contents by done.
  rewrite ByteBuffer.load_contents by (done || (unfold output in *; lia)).
  fold (output w). rewrite take_ge by (unfold zlen; lia).
  apply wp_bind. cbn [write]. apply wp_bind. cbn [emit modify wp ret].
  rewrite swrap_small by (unfold srange; lia). destruct (Z.ltb_spec 0 n); [|lia].
  destruct (ByteBuffer.retrieve_ok n _ Hout) as (b & -> & Hb & Hcont); [unfold output in *; lia|].
  fold (output w) in Hcont. cbn [snd]. apply wp_bind. cbn [setOutput update modify wp conn].
  apply wp_self. cbn [conn m_outputBuffer]. rewrite ByteBuffer.readable_contents by done.
  assert (sent [EvWrite (take (Z.to_nat n) (output w))] ++ ByteBuffer.contents b = output w ++ [])
    as Hs by (rewrite Hcont; unfold sent; cbn; by rewrite !app_nil_r, take_drop).
  rewrite Hcont. destruct (Z.eqb_spec (zlen (drop (Z.to_nat n) (output w))) 0) as [Hz|Hz]; cbn [when].
  - assert (drop (Z.to_nat n) (output w) = []) as Hnil
      by (apply nil_length_inv; unfold zlen in Hz; lia).
    apply wp_bind. cbn [channel_op update modify wp conn]. apply wp_bind.
    set (w1 q := mkWorld (mkConnection (state w) (Channel.disable_write_bits (m_channel (conn w)))
      (m_highWaterMark (conn w)) (hasWriteComplete (conn w)) (hasHighWaterMark (conn w))
      (m_inputBuffer (conn w)) b) q (log w ++ [EvWrite (take (Z.to_nat n) (output w))])).
    assert (forall q, effect [] w (w1 q)) as H1.
    { intros q. apply (effect_io _ [EvWrite (take (Z.to_nat n) (output w))]); try done.
      intros _. unfold writing, output, w1. cbn. rewrite Channel.isWriting_disable, Hcont, Hnil. done. }
    rewrite Hnil. assert (forall q, wp LengthErr (when (bool_decide (state w = kDisconnecting)) (shutdownInLoop true))
      (fun _ w' => effect [] w w' /\ state w' = state w /\ output w' = [] /\
        (n = zlen (output w) -> state w = kDisconnecting -> In EvShutdownWrite (log w'))) (w1 q)) as Hgo.
    { intros q. eapply wp_mono; [apply drained_ok; [apply H1|done|unfold output; cbn; by rewrite Hcont|]|].
      - apply Channel.isWriting_disable.
      - intros [] w' (? & ? & ? & ?). by split_and!. }
    destruct (hasWriteComplete (conn w)); [apply (Hgo (queue w ++ [TWriteComplete]))|apply (Hgo (queue w))].
  - split_and!; [|done|done|].
    + apply (effect_io _ [EvWrite (take (Z.to_nat n) (output w))]); try done.
      intros _. unfold writing, output. cbn. fold (writing w). rewrite Hwr. split; [|done].
      intros _ Hnil. apply Hz. by rewrite <- Hcont, Hnil.
    + intros ->. exfalso. apply Hz. unfold zlen. rewrite length_drop. lia.
Qed.

Lemma handleWrite_ok r w :
  inv w -> valid_answer r (zlen (output w)) -> zlen (output w) < 2 ^ 31 ->
  wp LengthErr (handleWrite true r) (fun _ w' => effect [] w w') w.
Proof.
  intros Hinv Hr Hmax.
  destruct (writing w) eqn:Hwr.
  2:{ unfold handleWrite. apply wp_bind. cbn [assertInLoopThread wp ret]. apply wp_self.
      change (Channel.isWriting (m_channel (conn w))) with (writing w). rewrite Hwr.
      by apply effect_refl. }
  assert (forall n, r = Wrote n -> 0 < n -> wp LengthErr (handleWrite true r)
    (fun _ w' => effect [] w w') w) as Hpos.
  { intros n -> Hn. cbn in Hr. eapply wp_mono; [apply handleWrite_moves; [done..|lia|done]|]. tauto. }
  destruct r as [n|e]; [destruct (Z.lt_ge_cases 0 n); [by eapply Hpos|]|]; clear Hpos.
  all: unfold handleWrite; apply wp_bind; cbn [assertInLoopThread wp ret]; apply wp_self.
  all: change (Channel.isWriting (m_channel (conn w))) with (writing w); rewrite Hwr.
  all: apply wp_bind, wp_lift; rewrite ByteBuffer.readable_contents by apply Hinv.
  all: rewrite ByteBuffer.load_contents by (apply Hinv || (pose proof (zlen_nonneg (output w)); unfold output in *; lia)).
  all: apply wp_bind; cbn [write].
  - cbn in Hr. assert (n = 0) as -> by lia. apply wp_bind. cbn [emit modify wp ret]. cbn [take].
    change (0 <? i32 0) with false. cbv iota.
    assert (effect [] w (mkWorld (conn w) (queue w) (log w ++ [EvWrite []]))) as H1
      by (by apply (emit_quiet_ok (EvWrite []) w)).
    eapply wp_mono; [apply handleClose_ok, H1|]. intros [] w' [H' _].
    by apply (effect_trans [] [] _ _ _ H1).
  - cbn [wp ret]. change (0 <? -1) with false. cbv iota.
    eapply wp_mono; [by apply handleClose_ok|]. by intros [] w' [? _].
Qed.

(** *** Runs *)

(** The message an operation hands to [sendInLoop], if any, and what the
    connection accepts of it. *)
Definition offered (o : op) (w : World) : list (write_result * bytes) :=
  match o with
  | OpSend inLoop r message =>
      if bool_decide (state w = kConnected) && inLoop then [(r, message)] else []
  | OpTask r => match queue w with TSendInLoop message :: _ => [(r, message)] | _ => [] end
  | _ => []
  end.
Definition accepted_by (o : op) (w : World) : bytes :=
  concat (map (fun p => accepted w (fst p) (snd p)) (offered o w)).

Definition task_small (t : task) : Prop :=
  match t with TSendInLoop message => zlen message < 2 ^ 31 | _ => True end.

(** The kernel answers within what it was offered; sizes fit [int32_t]. *)
Definition op_ok (o : op) (w : World) : Prop :=
  zlen (output w) < 2 ^ 31 /\
  match o with
  | OpSend _ r message => zlen message < 2 ^ 31 /\ valid_answer r (zlen message)
  | OpRead r _ => valid_read r w
  | OpWritable r => valid_answer r (zlen (output w))
  | OpTask r =>
      match queue w with
      | TSendInLoop message :: _ => zlen message < 2 ^ 31 /\ valid_answer r (zlen message)
      | _ => True
      end
  | OpRetrieve n => 0 <= n
  | _ => True
  end.

Fixpoint run_ok (ops : list op) (w : World) : Prop :=
  match ops with
  | [] => True
  | o :: ops' => op_ok o w /\ forall w', exec o w = Ret (tt, w') -> run_ok ops' w'
  end.

Fixpoint accepted_run (ops : list op) (w : World) : bytes :=
  match ops with
  | [] => []
  | o :: ops' =>
      accepted_by o w ++
      match exec o w with Ret (_, w') => accepted_run ops' w' | _ => [] end
  end.

Lemma runTask_ok r w :
  inv w -> op_ok (OpTask r) w ->
  wp LengthErr (runTask r) (fun _ w' => effect (accepted_by (OpTask r) w) w w') w.
Proof.
  intros Hinv [_ Hok]. unfold runTask, accepted_by, offered. apply wp_bind. cbn [get wp].
  destruct (queue w) as [|t q] eqn:Hq; [by apply effect_refl|]. apply wp_bind. cbn [modify wp].
  set (w1 := mkWorld (conn w) q (log w)).
  assert (forall acc (m : M World unit), wp LengthErr m (fun _ w' => effect acc w1 w') w1 ->
    wp LengthErr m (fun _ w' => effect acc w w') w1) as Hfrom.
  { intros acc m Hm. eapply wp_mono; [exact Hm|]. intros [] w'. apply effect_from_queue. }
  assert (inv w1) as Hinv1 by by apply inv_queue.
  destruct t as [message| | | |size]; apply Hfrom; cbn [map concat fst snd].
  - rewrite app_nil_r. eapply wp_mono; [apply sendInLoop_ok; tauto|]. by intros [] w' [? _].
  - by apply shutdownInLoop_ok.
  - by apply forceCloseInLoop_ok.
  - by apply emit_quiet_ok.
  - by apply emit_quiet_ok.
Qed.

(** Installing a callback changes nothing the invariant speaks of. *)
Lemma effect_settings mark wc hw w :
  inv w ->
  effect [] w (mkWorld (mkConnection (state w) (m_channel (conn w)) mark wc hw
    (m_inputBuffer (conn w)) (m_outputBuffer (conn w))) (queue w) (log w)).
Proof.
  intros Hinv. pose proof Hinv as [Hin Hout Hw Hc _ _ _].
  apply (effect_io _ []); try done; [by rewrite app_nil_r|].
  change (output w = output w ++ []). by rewrite app_nil_r.
Qed.

Lemma exec_ok o w :
  inv w -> op_ok o w -> wp LengthErr (exec o) (fun _ w' => effect (accepted_by o w) w w') w.
Proof.
  intros Hinv Hok. pose proof Hok as [Hmax Ho].
  destruct o; unfold accepted_by; cbn [exec offered map concat]; try (cbn [concat map]).
  - destruct Ho. eapply wp_mono; [by apply send_ok|]. intros [] w'.
    destruct (bool_decide _ && inLoop); cbn; by rewrite ?app_nil_r.
  - by apply shutdown_ok.
  - by apply forceClose_ok.
  - by apply established_ok.
  - by apply destroyed_ok.
  - by apply handleRead_ok.
  - by apply handleWrite_ok.
  - eapply wp_mono; [by apply handleClose_ok|]. by intros [] w' [? _].
  - eapply wp_mono; [by apply handleClose_ok|]. by intros [] w' [? _].
  - by apply (runTask_ok r).
  - apply wp_self, effect_input; [done|]. cbn in Ho.
    destruct (Z.le_gt_cases n (zlen (ByteBuffer.contents (m_inputBuffer (conn w))))).
    + destruct (ByteBuffer.retrieve_ok n _ (inv_in w Hinv)) as (b & -> & Hb & _); [lia|done].
    + rewrite ByteBuffer.retrieve_refused by (apply Hinv || lia). apply Hinv.
  - by apply effect_settings.
  - by apply effect_settings.
Qed.

Lemma run_effect ops w :
  inv w -> run_ok ops w ->
  wp LengthErr (run ops) (fun _ w' => effect (accepted_run ops w) w w') w.
Proof.
  revert w. induction ops as [|o ops IH]; intros w Hinv Hok; [by apply effect_refl|].
  destruct Hok as [Ho Hrest]. pose proof (exec_ok o w Hinv Ho) as He.
  cbn [run accepted_run]. apply wp_bind. unfold wp in He |- *.
  destruct (exec o w) as [[[] w1]|e|u]; [|done..].
  specialize (IH w1 (eff_inv _ _ _ He) (Hrest w1 eq_refl)). unfold wp in IH.
  destruct (run ops w1) as [[[] w2]|e|u]; [|done..]. by eapply effect_trans.
Qed.

Lemma run_inv ops w w' : inv w -> run_ok ops w -> run ops w = Ret (tt, w') -> inv w'.
Proof.
  intros Hinv Hok Hrun. pose proof (run_effect ops w Hinv Hok) as He. unfold wp in He.
  rewrite Hrun in He. apply He.
Qed.

(** The world of a connection that was just made. *)
Definition fresh (loop sockfd : Z) : outcome World :=
  c ← make loop sockfd; Ret (mkWorld c [] []).

Lemma fresh_inv loop sockfd w :
  fresh loop sockfd = Ret w -> inv w /\ log w = [] /\ output w = [] /\ state w = kConnecting.
Proof.
  unfold fresh, make. destruct (ByteBuffer.make_wf ByteBuffer.kInitialSize) as (b & -> & Hb & Hc);
    [by vm_compute; split|].
  cbn. intros [= <-]. unfold output, state. cbn. rewrite Hc. split_and!; [|done..].
  split; unfold output, state, writing; cbn; [done|done| |done|by left|done|done].
  intros _. rewrite Hc. by split.
Qed.

(** Everything handed to [sendInLoop] along a run, and the answers that say the
    peer is gone. *)
Fixpoint offered_run (ops : list op) (w : World) : list (write_result * bytes) :=
  match ops with
  | [] => []
  | o :: ops' =>
      offered o w ++ match exec o w with Ret (_, w') => offered_run ops' w' | _ => [] end
  end.

(** An operation that leaves the connection open accepted all it was offered. *)
Lemma accepted_all o w :
  state w <> kDisconnected -> forallb (fun p => negb (fatal (fst p))) (offered o w) = true ->
  accepted_by o w = concat (map snd (offered o w)).
Proof.
  intros Hs. unfold accepted_by. induction (offered o w) as [|[r d] l IH]; [done|].
  cbn. intros [Hf Hl]%andb_true_iff. rewrite (IH Hl). f_equal. unfold accepted.
  rewrite bool_decide_false by done. apply negb_true_iff in Hf. by rewrite Hf, andb_false_r.
Qed.

Lemma rank_disconnected w w' :
  rank (state w) <= rank (state w') -> state w' <> kDisconnected -> state w <> kDisconnected.
Proof. intros H Hd E. rewrite E in H. by destruct (state w'). Qed.

Lemma accepted_run_all ops w w' :
  inv w -> run_ok ops w -> run ops w = Ret (tt, w') -> state w' <> kDisconnected ->
  forallb (fun p => negb (fatal (fst p))) (offered_run ops w) = true ->
  accepted_run ops w = concat (map snd (offered_run ops w)).
Proof.
  revert w. induction ops as [|o ops IH]; [done|]. intros w Hinv [Ho Hrest] Hrun Hd.
  pose proof (exec_ok o w Hinv Ho) as He. cbn [run accepted_run offered_run] in *.
  unfold bindM, wp in *. destruct (exec o w) as [[[] w1]|e|u]; [|done..].
  pose proof (run_effect ops w1 (eff_inv _ _ _ He) (Hrest w1 eq_refl)) as He2.
  unfold wp in He2. rewrite Hrun in He2.
  assert (state w1 <> kDisconnected) as Hd1 by (eapply rank_disconnected; [apply He2|done]).
  assert (state w <> kDisconnected) by (eapply rank_disconnected; [apply He|done]).
  rewrite forallb_app, andb_true_iff, map_app, concat_app. intros [Hf Hf'].
  rewrite accepted_all by done. f_equal. by apply (IH w1 (eff_inv _ _ _ He) (Hrest w1 eq_refl)).
Qed.


(** C15: the life of a connection: along every run from a fresh connection the
    state only moves forward through connecting, connected, disconnecting and
    disconnected; the callback for an established connection is made at most
    once, the callback for a lost connection exactly when the connection has
    been closed and then once, the close callback at most once; and the channel
    waits for writability exactly when there is output to write. *)
Theorem connection_lifecycle (loop sockfd : Z) (ops ops' : list op) (w0 : World) :
  fresh loop sockfd = Ret w0 -> run_ok (ops ++ ops') w0 ->
  forall w1, run ops w0 = Ret (tt, w1) ->
  wp LengthErr (run ops') (fun _ w2 =>
    rank (state w1) <= rank (state w2) /\
    (exists evs, log w2 = log w1 ++ evs) /\
    (count is_up (log w2) <= 1)%nat /\
    count is_down (log w2) = (if decide (state w2 = kDisconnected) then 1 else 0)%nat /\
    (count is_close (log w2) <= count is_down (log w2))%nat /\
    (state w2 <> kDisconnected -> (writing w2 = true <-> output w2 <> []))) w1.
Proof.
  intros (Hinv & _)%fresh_inv Hok w1 Hrun.
  assert (inv w1 /\ run_ok ops' w1) as [Hinv1 Hok1].
  { clear sockfd loop. revert w0 Hinv Hok Hrun. induction ops as [|o ops IH].
    - intros w0 Hinv Hok [= ->]. done.
    - intros w0 Hinv [Ho Hrest]. pose proof (exec_ok o w0 Hinv Ho) as He.
      cbn [run]. unfold bindM, wp in *. destruct (exec o w0) as [[[] w]|e|u]; [|done..].
      intros Hrun. apply (IH w (eff_inv _ _ _ He) (Hrest w eq_refl) Hrun). }
  eapply wp_mono; [by apply run_effect|]. intros [] w2 [[Hin Hout Hw Hc Hu Hdn Hcl] _ Hlog Hr].
  split_and!; [done..| |done|done|done]. destruct Hu as [->|[-> _]]; lia.
Qed.


(** *** Witnesses

    [run_okb] decides the side conditions on the kernel's answers. *)
Definition valid_answerb (r : write_result) (len : Z) : bool :=
  match r with Wrote n => (0 <=? n) && (n <=? len) | WriteError _ => true end.
Definition op_okb (o : op) (w : World) : bool :=
  (zlen (output w) <? 2 ^ 31) &&
  match o with
  | OpSend _ r message => (zlen message <? 2 ^ 31) && valid_answerb r (zlen message)
  | OpRead (ByteBuffer.ReadBytes d) _ =>
      (zlen d <=? ByteBuffer.iov_capacity (m_inputBuffer (conn w))) && (zlen d <? 2 ^ 31)
  | OpWritable r => valid_answerb r (zlen (output w))
  | OpTask r =>
      match queue w with
      | TSendInLoop message :: _ => (zlen message <? 2 ^ 31) && valid_answerb r (zlen message)
      | _ => true
      end
  | OpRetrieve n => 0 <=? n
  | _ => true
  end.
Fixpoint run_okb (ops : list op) (w : World) : bool :=
  match ops with
  | [] => true
  | o :: ops' =>
      op_okb o w && match exec o w with Ret (_, w') => run_okb ops' w' | _ => true end
  end.

Lemma valid_answerb_ok r len : valid_answerb r len = true -> valid_answer r len.
Proof. destruct r; cbn; lia. Qed.

Lemma op_okb_ok o w : op_okb o w = true -> op_ok o w.
Proof.
  unfold op_okb, op_ok. intros [Hl%Z.ltb_lt Ho]%andb_true_iff. split; [done|].
  destruct o as [ | | | | |[]| | | |r| | | ]; try done.
  - apply andb_true_iff in Ho as [?%Z.ltb_lt ?%valid_answerb_ok]. done.
  - cbn. lia.
  - by apply valid_answerb_ok.
  - destruct (queue w) as [|[] q]; try done.
    apply andb_true_iff in Ho as [?%Z.ltb_lt ?%valid_answerb_ok]. done.
  - lia.
Qed.

Lemma run_okb_ok ops w : run_okb ops w = true -> run_ok ops w.
Proof.
  revert w. induction ops as [|o ops IH]; [done|]. intros w. cbn.
  intros [Ho Hr]%andb_true_iff. split; [by apply op_okb_ok|].
  intros w' E. rewrite E in Hr. by apply IH.
Qed.

Definition the {A} (d : A) (o : outcome A) : A := match o with Ret x => x | _ => d end.
Definition sample_dead : World :=
  mkWorld (mkConnection kDisconnected (Channel.make 0 0) 0 false false
             (ByteBuffer.mkByteBuffer [] 0 0) (ByteBuffer.mkByteBuffer [] 0 0)) [] [].
Definition sample_world : World := the sample_dead (fresh 0 5).
Lemma sample_fresh : fresh 0 5 = Ret sample_world.
Proof. vm_compute. reflexivity. Qed.

(** A direct write that takes part of the message, a message from another
    thread, a shutdown with output pending, and input. *)
Definition sample_ops : list op :=
  [OpEstablished true; OpSetWriteComplete; OpSend true (Wrote 3) (lit "hello");
   OpSend false (Wrote 0) (lit " world"); OpTask (WriteError EWOULDBLOCK);
   OpRead (ByteBuffer.ReadBytes (lit "ping")) 0; OpRetrieve 4; OpShutdown true].
Definition sample_after : World :=
  match run sample_ops sample_world with Ret (_, w) => w | _ => sample_dead end.
Lemma sample_run : run sample_ops sample_world = Ret (tt, sample_after).
Proof. vm_compute. reflexivity. Qed.

Example sample_output :
  (output sample_after, sent (log sample_after), state sample_after) =
  (lit "lo world", lit "hel", kDisconnecting).
Proof. vm_compute. reflexivity. Qed.


Lemma connection_lifecycle_witness :
  wp LengthErr (run [OpWritable (Wrote 8); OpClosed; OpError; OpDestroyed]) (fun _ w2 =>
    rank (state sample_after) <= rank (state w2) /\
    (exists evs, log w2 = log sample_after ++ evs) /\
    (count is_up (log w2) <= 1)%nat /\
    count is_down (log w2) = (if decide (state w2 = kDisconnected) then 1 else 0)%nat /\
    (count is_close (log w2) <= count is_down (log w2))%nat /\
    (state w2 <> kDisconnected -> (writing w2 = true <-> output w2 <> []))) sample_after.
Proof.
  apply (connection_lifecycle 0 5 sample_ops _ sample_world); [apply sample_fresh| |apply sample_run].
  apply run_okb_ok. vm_compute. reflexivity.
Defined.

Lemma sample_after_inv : inv sample_after.
Proof.
  refine (run_inv _ _ _ (proj1 (fresh_inv 0 5 _ sample_fresh)) _ sample_run).
  apply run_okb_ok. vm_compute. reflexivity.
Qed.


End TcpConnection.
