(* ===== verification/Json.v ===== *)
(** * JSON values

    What the server does itself with JSON values: member access, conversion to
    a string and [push_back], as json/json.hpp defines them.  The text side of
    that library, parsing and printing, is in the files Json*.v. *)
From S2P Require Import Prelude Protocol.

Module Json.

(** An object is a [std::map]: its members are sorted by key.  [JInt] is both kinds
    of integers, [number_integer_t] below zero and [number_unsigned_t] above (what
    the program does with them, printing, is the same), and [JFloat] has the 64-bit
    representation of a [double]. *)
Inductive json : Type :=
| JNull
| JBool (b : bool)
| JInt (z : Z)
| JFloat (bits : Z)
| JString (s : bytes)
| JArray (l : list json)
| JObject (members : list (bytes * json)).

(** [operator<] of [std::string]: bytes compared as [unsigned char]. *)
Fixpoint string_lt (a b : bytes) : bool :=
  match a, b with
  | _, [] => false
  | [], _ => true
  | x :: a', y :: b' => (uchar x <? uchar y) || ((uchar x =? uchar y) && string_lt a' b')
  end.

Fixpoint find (key : bytes) (m : list (bytes * json)) : option json :=
  match m with
  | [] => None
  | (k, w) :: m' => if bool_decide (k = key) then Some w else find key m'
  end.

Fixpoint insert_sorted (key : bytes) (v : json) (m : list (bytes * json))
    : list (bytes * json) :=
  match m with
  | [] => [(key, v)]
  | (k, w) :: m' => if string_lt key k then (key, v) :: m else (k, w) :: insert_sorted key v m'
  end.

(** [std::map::emplace]: an existing member is kept. *)
Definition emplace (key : bytes) (v : json) (m : list (bytes * json)) : list (bytes * json) :=
  match find key m with Some _ => m | None => insert_sorted key v m end.

Fixpoint assign (key : bytes) (v : json) (m : list (bytes * json)) : list (bytes * json) :=
  match m with
  | [] => []
  | (k, w) :: m' => if bool_decide (k = key) then (k, v) :: m' else (k, w) :: assign key v m'
  end.

(** [j[key]] on a non-const value makes the member when it is absent; the
    result is the object with the member present. *)
Definition index (key : bytes) (j : json) : outcome (list (bytes * json)) :=
  match j with
  | JNull => Ret (emplace key JNull [])
  | JObject m => Ret (emplace key JNull m)
  | _ => Throw JsonTypeError
  end.

(** Reading [j[key]] (with the value [j] it leaves), and [j[key] = v]. *)
Definition at_key (key : bytes) (j : json) : outcome (json * json) :=
  m ← index key j;
  Ret (default JNull (find key m), JObject m).
Definition set_key (key : bytes) (v : json) (j : json) : outcome json :=
  m ← index key j;
  Ret (JObject (assign key v m)).

(** The conversion to [std::string]. *)
Definition to_string (j : json) : outcome bytes :=
  match j with JString s => Ret s | _ => Throw JsonTypeError end.

Definition push_back (v : json) (j : json) : outcome json :=
  match j with
  | JNull => Ret (JArray [v])
  | JArray l => Ret (JArray (l ++ [v]))
  | _ => Throw JsonTypeError
  end.

(** [string s = j[key]], and the value [j] it leaves. *)
Definition string_member (key : bytes) (j : json) : outcome (bytes * json) :=
  p ← at_key key j;
  s ← to_string (fst p);
  Ret (s, snd p).

(** The members of a value, as a reader sees them. *)
Definition lookup (key : bytes) (j : json) : option json :=
  match j with JObject m => find key m | _ => None end.

Lemma find_insert_sorted key v m : find key m = None -> find key (insert_sorted key v m) = Some v.
Proof.
  induction m as [|[k w] m IH]; cbn; [by rewrite bool_decide_true|].
  case_bool_decide; [done|]. intros Hf. destruct (string_lt key k); cbn.
  - by rewrite bool_decide_true.
  - rewrite bool_decide_false by done. by apply IH.
Qed.

Lemma find_assign key v m w : find key m = Some w -> find key (assign key v m) = Some v.
Proof.
  induction m as [|[k x] m IH]; [done|]. cbn. case_bool_decide; cbn.
  - by rewrite bool_decide_true.
  - intros Hf. rewrite bool_decide_false by done. by apply IH.
Qed.

(** A string member is read as it is and leaves the value alone; anything else
    throws [type_error]. *)
Lemma string_member_cases key j :
  match lookup key j with
  | Some (JString s) => string_member key j = Ret (s, j)
  | _ => string_member key j = Throw JsonTypeError
  end.
Proof.
  unfold string_member, at_key, index. destruct j; cbn; try done.
  - by rewrite bool_decide_true.
  - unfold emplace. destruct (find key members) as [w|] eqn:E; cbn; [rewrite E; by destruct w|].
    by rewrite find_insert_sorted.
Qed.

(** Two members set one after the other on a fresh value. *)
Lemma set_key_fresh key v : set_key key v JNull = Ret (JObject [(key, v)]).
Proof. unfold set_key. cbn. by rewrite bool_decide_true. Qed.

Lemma push_back_all vs l :
  foldl (fun o v => j ← o; push_back v j) (Ret (JArray l)) vs = Ret (JArray (l ++ vs)).
Proof.
  revert l. induction vs as [|v vs IH]; intros l; cbn; [by rewrite app_nil_r|].
  by rewrite IH, <- app_assoc.
Qed.

End Json.
