(* ===== verification/JsonUtf8.v ===== *)
(** * UTF-8 in json.hpp

    The library knows UTF-8 in three places: the decoder of the serializer (a
    table-driven automaton), the byte ranges in the string scanner of the lexer,
    and the encoder of the escapes [\uXXXX] there.  The theorems show that all
    three are the encoding of Unicode scalar values. *)
From S2P Require Import Prelude.

Module Utf8.

(** The table of [serializer::decode]: the class of each byte, then a row of 16
    successors for each of the nine states. *)
Definition utf8d : list Z :=
  [0; 0; 0; 0; 0; 0; 0; 0; 0; 0; 0; 0; 0; 0; 0; 0;
   0; 0; 0; 0; 0; 0; 0; 0; 0; 0; 0; 0; 0; 0; 0; 0;
   0; 0; 0; 0; 0; 0; 0; 0; 0; 0; 0; 0; 0; 0; 0; 0;
   0; 0; 0; 0; 0; 0; 0; 0; 0; 0; 0; 0; 0; 0; 0; 0;
   0; 0; 0; 0; 0; 0; 0; 0; 0; 0; 0; 0; 0; 0; 0; 0;
   0; 0; 0; 0; 0; 0; 0; 0; 0; 0; 0; 0; 0; 0; 0; 0;
   0; 0; 0; 0; 0; 0; 0; 0; 0; 0; 0; 0; 0; 0; 0; 0;
   0; 0; 0; 0; 0; 0; 0; 0; 0; 0; 0; 0; 0; 0; 0; 0;
   1; 1; 1; 1; 1; 1; 1; 1; 1; 1; 1; 1; 1; 1; 1; 1;
   9; 9; 9; 9; 9; 9; 9; 9; 9; 9; 9; 9; 9; 9; 9; 9;
   7; 7; 7; 7; 7; 7; 7; 7; 7; 7; 7; 7; 7; 7; 7; 7;
   7; 7; 7; 7; 7; 7; 7; 7; 7; 7; 7; 7; 7; 7; 7; 7;
   8; 8; 2; 2; 2; 2; 2; 2; 2; 2; 2; 2; 2; 2; 2; 2;
   2; 2; 2; 2; 2; 2; 2; 2; 2; 2; 2; 2; 2; 2; 2; 2;
   10; 3; 3; 3; 3; 3; 3; 3; 3; 3; 3; 3; 3; 4; 3; 3;
   11; 6; 6; 6; 5; 8; 8; 8; 8; 8; 8; 8; 8; 8; 8; 8;
   0; 1; 2; 3; 5; 8; 7; 1; 1; 1; 4; 6; 1; 1; 1; 1;
   1; 1; 1; 1; 1; 1; 1; 1; 1; 1; 1; 1; 1; 1; 1; 1;
   1; 0; 1; 1; 1; 1; 1; 0; 1; 0; 1; 1; 1; 1; 1; 1;
   1; 2; 1; 1; 1; 1; 1; 2; 1; 2; 1; 1; 1; 1; 1; 1;
   1; 1; 1; 1; 1; 1; 1; 2; 1; 1; 1; 1; 1; 1; 1; 1;
   1; 2; 1; 1; 1; 1; 1; 1; 1; 2; 1; 1; 1; 1; 1; 1;
   1; 1; 1; 1; 1; 1; 1; 3; 1; 3; 1; 1; 1; 1; 1; 1;
   1; 3; 1; 1; 1; 1; 1; 3; 1; 3; 1; 1; 1; 1; 1; 1;
   1; 3; 1; 1; 1; 1; 1; 1; 1; 1; 1; 1; 1; 1; 1; 1].

Definition UTF8_ACCEPT : Z := 0.
Definition UTF8_REJECT : Z := 1.

(** [decode(state, codep, byte)]: the new state and code point. *)
Definition decode (state codep byte : Z) : outcome (Z * Z) :=
  _ ← assert_that (byte <? zlen utf8d);
  type ← load1 byte utf8d;
  let codep' := if negb (state =? UTF8_ACCEPT)
                then Z.lor (Z.land byte 0x3f) (u32 (Z.shiftl codep 6))
                else Z.land (Z.shiftr 0xFF type) byte in
  let index := 256 + state * 16 + type in
  _ ← assert_that (index <? zlen utf8d);
  state' ← load1 index utf8d;
  Ret (state', codep').

(** The bytes [scan_string] adds for a code point. *)
Definition encode (codepoint : Z) : list Z :=
  if codepoint <? 0x80 then [codepoint]
  else if codepoint <=? 0x7FF then
    [Z.lor 0xC0 (Z.shiftr codepoint 6); Z.lor 0x80 (Z.land codepoint 0x3F)]
  else if codepoint <=? 0xFFFF then
    [Z.lor 0xE0 (Z.shiftr codepoint 12); Z.lor 0x80 (Z.land (Z.shiftr codepoint 6) 0x3F);
     Z.lor 0x80 (Z.land codepoint 0x3F)]
  else
    [Z.lor 0xF0 (Z.shiftr codepoint 18); Z.lor 0x80 (Z.land (Z.shiftr codepoint 12) 0x3F);
     Z.lor 0x80 (Z.land (Z.shiftr codepoint 6) 0x3F); Z.lor 0x80 (Z.land codepoint 0x3F)].

(** The cases of [scan_string] for a byte that is no quote, backslash or control
    character: the ranges of the bytes that must follow it. *)
Definition ranges (c : Z) : option (list (Z * Z)) :=
  if (0x20 <=? c) && (c <=? 0x7F) then Some []
  else if (0xC2 <=? c) && (c <=? 0xDF) then Some [(0x80, 0xBF)]
  else if c =? 0xE0 then Some [(0xA0, 0xBF); (0x80, 0xBF)]
  else if ((0xE1 <=? c) && (c <=? 0xEC)) || (c =? 0xEE) || (c =? 0xEF) then
    Some [(0x80, 0xBF); (0x80, 0xBF)]
  else if c =? 0xED then Some [(0x80, 0x9F); (0x80, 0xBF)]
  else if c =? 0xF0 then Some [(0x90, 0xBF); (0x80, 0xBF); (0x80, 0xBF)]
  else if (0xF1 <=? c) && (c <=? 0xF3) then Some [(0x80, 0xBF); (0x80, 0xBF); (0x80, 0xBF)]
  else if c =? 0xF4 then Some [(0x80, 0x8F); (0x80, 0xBF); (0x80, 0xBF)]
  else None.

(** ** The specification *)

(** A Unicode scalar value: a code point that is no surrogate. *)
Definition scalar (cp : Z) : Prop := 0 <= cp <= 0xD7FF \/ 0xE000 <= cp <= 0x10FFFF.

#[export] Instance scalar_dec cp : Decision (scalar cp).
Proof. unfold scalar. apply _. Defined.

Definition encode_all (cps : list Z) : bytes := byte.of_Z <$> concat (encode <$> cps).

(** Feeding bytes to the decoder. *)
Fixpoint decodes (state codep : Z) (s : bytes) : outcome (Z * Z) :=
  match s with
  | [] => Ret (state, codep)
  | b :: s' => p ← decode state codep (uchar b); decodes (fst p) (snd p) s'
  end.

(** The decoder accepts the whole string. *)
Definition valid (s : bytes) : bool :=
  match decodes UTF8_ACCEPT 0 s with
  | Ret (state, _) => state =? UTF8_ACCEPT
  | _ => false
  end.

(** ** The table as ranges *)

(** The ranges still to come in a state of the decoder. *)
Definition pending (state : Z) : option (list (Z * Z)) :=
  match state with
  | 0 => Some []
  | 2 => Some [(0x80, 0xBF)]
  | 3 => Some [(0x80, 0xBF); (0x80, 0xBF)]
  | 4 => Some [(0xA0, 0xBF); (0x80, 0xBF)]
  | 5 => Some [(0x80, 0x9F); (0x80, 0xBF)]
  | 6 => Some [(0x90, 0xBF); (0x80, 0xBF); (0x80, 0xBF)]
  | 7 => Some [(0x80, 0xBF); (0x80, 0xBF); (0x80, 0xBF)]
  | 8 => Some [(0x80, 0x8F); (0x80, 0xBF); (0x80, 0xBF)]
  | _ => None
  end.

(** A lead byte, control characters included. *)
Definition lead (c : Z) : option (list (Z * Z)) := if c <? 0x20 then Some [] else ranges c.

Definition after (state c : Z) : option (list (Z * Z)) :=
  match pending state with
  | Some [] => lead c
  | Some ((lo, hi) :: rs) => if (lo <=? c) && (c <=? hi) then Some rs else None
  | None => None
  end.

Definition code (state codep c : Z) : Z :=
  if state =? UTF8_ACCEPT then Z.land (Z.shiftr 0xFF (default 0 (utf8d !! Z.to_nat c))) c
  else Z.lor (Z.land c 0x3f) (u32 (Z.shiftl codep 6)).

Definition state_ok (state c : Z) : bool :=
  match utf8d !! Z.to_nat c with
  | None => false
  | Some ty =>
      (0 <=? ty) && (ty <=? 11) &&
      match utf8d !! Z.to_nat (256 + state * 16 + ty) with
      | None => false
      | Some st' => bool_decide (0 <= st' <= 8) && bool_decide (pending st' = after state c) &&
                    bool_decide (st' = 1 <-> pending st' = None)
      end
  end.

Lemma table_ok :
  forallb (fun st => forallb (fun c => state_ok st c) (seqZ 0 256)) (seqZ 0 9) = true.
Proof. vm_compute. reflexivity. Qed.

Lemma state_ok_all state c : 0 <= state <= 8 -> 0 <= c < 256 -> state_ok state c = true.
Proof.
  intros Hs Hc. pose proof table_ok as H. rewrite forallb_forall in H.
  specialize (H state). rewrite forallb_forall in H.
  apply H; apply list_elem_of_In, elem_of_seqZ; lia.
Qed.

(** One step of the decoder: no assertion fails, no read leaves the table, and
    the next state stands for the ranges that are left. *)
Lemma decode_spec state codep c :
  0 <= state <= 8 -> 0 <= c < 256 ->
  exists st', decode state codep c = Ret (st', code state codep c) /\
    0 <= st' <= 8 /\ pending st' = after state c /\ (st' = UTF8_REJECT <-> after state c = None).
Proof.
  intros Hs Hc. pose proof (state_ok_all state c Hs Hc) as H. unfold state_ok in H.
  destruct (utf8d !! Z.to_nat c) as [ty|] eqn:Ety; [|done].
  apply andb_true_iff in H as [Hty H].
  destruct (utf8d !! Z.to_nat (256 + state * 16 + ty)) as [st'|] eqn:Est; [|done].
  rewrite !andb_true_iff, !bool_decide_eq_true in H. destruct H as [[H1 H2] H3].
  exists st'. rewrite H2 in H3. split; [|done]. unfold decode.
  change (zlen utf8d) with 400. apply andb_true_iff in Hty as [?%Z.leb_le ?%Z.leb_le].
  destruct (Z.ltb_spec c 400); [|lia]. cbn. unfold load1.
  destruct (Z.ltb_spec c 0); [lia|]. rewrite Ety. cbn.
  destruct (Z.ltb_spec (256 + state * 16 + ty) 400); [|lia]. cbn.
  destruct (Z.ltb_spec (256 + state * 16 + ty) 0); [lia|]. rewrite Est. cbn.
  unfold code. rewrite Ety. by destruct (state =? UTF8_ACCEPT).
Qed.

(** ** Code points *)

Lemma lor_plus k n x : 0 <= n -> 0 <= x < 2 ^ n -> Z.lor (k * 2 ^ n) x = k * 2 ^ n + x.
Proof.
  intros Hn Hx. symmetry. apply Z.add_nocarry_lor.
  rewrite <- Z.shiftl_mul_pow2 by done. apply Z.bits_inj'. intros i Hi.
  rewrite Z.land_spec, Z.bits_0. destruct (Z.ltb_spec i n).
  - by rewrite Z.shiftl_spec_low.
  - destruct (Z.eq_dec x 0) as [->|]; [by rewrite Z.bits_0, andb_false_r|].
    rewrite (Z.bits_above_log2 x), andb_false_r; [done|lia|]. apply Z.log2_lt_pow2; [lia|].
    apply Z.lt_le_trans with (2 ^ n); [lia|]. apply Z.pow_le_mono_r; lia.
Qed.

(** The bytes of a code point, as arithmetic. *)
Definition encode_arith (cp : Z) : list Z :=
  if cp <? 0x80 then [cp]
  else if cp <=? 0x7FF then [192 + cp / 64; 128 + cp mod 64]
  else if cp <=? 0xFFFF then [224 + cp / 4096; 128 + (cp / 64) mod 64; 128 + cp mod 64]
  else [240 + cp / 262144; 128 + (cp / 4096) mod 64; 128 + (cp / 64) mod 64; 128 + cp mod 64].

Lemma encode_eq cp : 0 <= cp <= 0x10FFFF -> encode cp = encode_arith cp.
Proof.
  intros H. unfold encode, encode_arith.
  rewrite !Z.shiftr_div_pow2 by lia. change 0x3F with (Z.ones 6). rewrite !Z.land_ones by lia.
  assert (Hl : forall x, Z.lor 128 (x mod 2 ^ 6) = 128 + x mod 64).
  { intros x. change 128 with (2 * 2 ^ 6) at 1. rewrite lor_plus; [done|lia|].
    apply Z.mod_pos_bound. lia. }
  rewrite !Hl. change (2 ^ 6) with 64. change (2 ^ 12) with 4096. change (2 ^ 18) with 262144.
  destruct (Z.ltb_spec cp 128); [done|].
  destruct (Z.leb_spec cp 2047); [f_equal; change 192 with (3 * 2 ^ 6); apply lor_plus; zdiv|].
  destruct (Z.leb_spec cp 65535).
  - f_equal. change 224 with (7 * 2 ^ 5). apply lor_plus; [lia|]. change (2 ^ 5) with 32. zdiv.
  - f_equal. change 240 with (15 * 2 ^ 4). apply lor_plus; [lia|]. change (2 ^ 4) with 16. zdiv.
Qed.

Definition base (rs : list (Z * Z)) : Z :=
  match length rs with 0%nat => 0 | 1%nat => 192 | 2%nat => 224 | _ => 240 end.

Lemma lead_code_ok :
  forallb (fun c => match lead c with
                    | Some rs => code UTF8_ACCEPT 0 c =? c - base rs
                    | None => true end) (seqZ 0 256) = true.
Proof. vm_compute. reflexivity. Qed.

(** The code point a lead byte starts. *)
Lemma lead_code codep c rs :
  0 <= c < 256 -> lead c = Some rs -> code UTF8_ACCEPT codep c = c - base rs.
Proof.
  intros Hc Hl. pose proof lead_code_ok as H. rewrite forallb_forall in H.
  specialize (H c ltac:(apply list_elem_of_In, elem_of_seqZ; lia)). cbn beta in H.
  rewrite Hl in H. by apply Z.eqb_eq in H.
Qed.

Lemma next_code state codep c :
  state <> UTF8_ACCEPT -> 128 <= c <= 191 -> 0 <= codep < 2 ^ 26 ->
  code state codep c = codep * 64 + (c - 128).
Proof.
  intros Hs Hc Hp. unfold code. destruct (Z.eqb_spec state UTF8_ACCEPT); [done|].
  rewrite Z.shiftl_mul_pow2 by lia. change (2 ^ 26) with 67108864 in Hp. change (2 ^ 6) with 64.
  rewrite uwrap_small by (change (2 ^ 32) with 4294967296; lia).
  change 0x3f with (Z.ones 6). rewrite Z.land_ones by lia. rewrite Z.lor_comm.
  change (codep * 64) with (codep * 2 ^ 6).
  rewrite lor_plus; [|lia|apply Z.mod_pos_bound; lia]. change (2 ^ 6) with 64. zdiv.
Qed.

(** Bytes in their ranges, and the code point they add up to. *)
Definition fits (rs : list (Z * Z)) (cs : list Z) : Prop :=
  Forall2 (fun r c => fst r <= c <= snd r) rs cs.
Definition extend (cp : Z) (cs : list Z) : Z := foldl (fun a c => a * 64 + (c - 128)) cp cs.

(** The rows of the table of the Unicode standard. *)
Inductive row : Z -> list (Z * Z) -> Prop :=
| row1 c : 0 <= c <= 0x7F -> row c []
| row2 c : 0xC2 <= c <= 0xDF -> row c [(0x80, 0xBF)]
| row3_E0 : row 0xE0 [(0xA0, 0xBF); (0x80, 0xBF)]
| row3 c : 0xE1 <= c <= 0xEF -> c <> 0xED -> row c [(0x80, 0xBF); (0x80, 0xBF)]
| row3_ED : row 0xED [(0x80, 0x9F); (0x80, 0xBF)]
| row4_F0 : row 0xF0 [(0x90, 0xBF); (0x80, 0xBF); (0x80, 0xBF)]
| row4 c : 0xF1 <= c <= 0xF3 -> row c [(0x80, 0xBF); (0x80, 0xBF); (0x80, 0xBF)]
| row4_F4 : row 0xF4 [(0x80, 0x8F); (0x80, 0xBF); (0x80, 0xBF)].

Ltac decide_comparisons :=
  repeat match goal with
  | |- context [?a <? ?b] => destruct (Z.ltb_spec a b); try lia
  | |- context [?a <=? ?b] => destruct (Z.leb_spec a b); try lia
  | |- context [?a =? ?b] => destruct (Z.eqb_spec a b); try lia
  end; cbn [andb orb].

Lemma lead_row c rs : 0 <= c -> lead c = Some rs <-> row c rs.
Proof.
  intros Hc. split.
  - unfold lead, ranges. decide_comparisons; intros ?; simplify_eq; constructor; lia.
  - intros H. destruct H; unfold lead, ranges; decide_comparisons; done.
Qed.

Ltac fits :=
  repeat match goal with
  | H : fits _ _ |- _ => inversion H; clear H; subst
  | H : Forall2 _ _ _ |- _ => inversion H; clear H; subst
  end; cbn [fst snd] in *.

(** A lead byte with bytes in the ranges after it is the encoding of a scalar
    value, and every scalar value is encoded so. *)
Lemma chunk_scalar c0 rs cs :
  row c0 rs -> fits rs cs ->
  scalar (extend (c0 - base rs) cs) /\ encode (extend (c0 - base rs) cs) = c0 :: cs.
Proof.
  intros Hr Hf.
  assert (Hsc : scalar (extend (c0 - base rs) cs)).
  { destruct Hr; fits; unfold scalar, extend; cbn [base length foldl]; lia. }
  split; [done|]. rewrite encode_eq by (unfold scalar in Hsc; lia). clear Hsc.
  destruct Hr; fits; unfold encode_arith, extend; cbn [base length foldl];
    decide_comparisons; repeat (f_equal; try zdiv).
Qed.

Lemma scalar_chunk cp :
  scalar cp -> exists c0 rs cs,
    encode cp = c0 :: cs /\ row c0 rs /\ fits rs cs /\ extend (c0 - base rs) cs = cp.
Proof.
  intros H. rewrite encode_eq by (unfold scalar in H; lia). unfold scalar in H.
  unfold encode_arith.
  destruct (Z.ltb_spec cp 128); [|destruct (Z.leb_spec cp 0x7FF); [|destruct (Z.leb_spec cp 0xFFFF)]].
  - exists cp, [], []. split; [done|]. split; [constructor; lia|]. split; [constructor|].
    unfold extend. cbn. lia.
  - eexists _, _, _. split; [done|]. split; [apply row2; zdiv|].
    split; [repeat constructor; cbn; zdiv|]. unfold extend; cbn; zdiv.
  - destruct (decide (cp < 4096)); [|destruct (decide (0xD000 <= cp < 0xE000))];
      eexists _, _, _; (split; [done|]).
    + replace (cp / 4096) with 0 by zdiv. split; [apply row3_E0|].
      split; [repeat constructor; cbn; zdiv|]. unfold extend; cbn; zdiv.
    + replace (cp / 4096) with 13 by zdiv. split; [apply row3_ED|].
      split; [repeat constructor; cbn; zdiv|]. unfold extend; cbn; zdiv.
    + split; [apply row3; zdiv|].
      split; [repeat constructor; cbn; zdiv|]. unfold extend; cbn; zdiv.
  - destruct (decide (cp < 0x40000)); [|destruct (decide (0x100000 <= cp))];
      eexists _, _, _; (split; [done|]).
    + replace (cp / 262144) with 0 by zdiv. split; [apply row4_F0|].
      split; [repeat constructor; cbn; zdiv|]. unfold extend; cbn; zdiv.
    + replace (cp / 262144) with 4 by zdiv. split; [apply row4_F4|].
      split; [repeat constructor; cbn; zdiv|]. unfold extend; cbn; zdiv.
    + split; [apply row4; zdiv|].
      split; [repeat constructor; cbn; zdiv|]. unfold extend; cbn; zdiv.
Qed.

(** ** Runs of the decoder *)

Lemma pending_nil st : 0 <= st <= 8 -> pending st = Some [] <-> st = UTF8_ACCEPT.
Proof.
  intros H. split; [|by intros ->].
  assert (st = 0 \/ st = 1 \/ st = 2 \/ st = 3 \/ st = 4 \/ st = 5 \/ st = 6 \/ st = 7 \/ st = 8)
    as Hs by lia.
  by repeat destruct Hs as [->|Hs]; try subst st.
Qed.

Definition continuation (r : Z * Z) : Prop := 128 <= fst r /\ snd r <= 191.

Lemma row_bounds c rs :
  row c rs -> 0 <= c < 256 /\ Forall continuation rs /\ (length rs <= 3)%nat /\ 0 <= c - base rs < 128.
Proof.
  intros H. unfold base. destruct H; cbn [length]; repeat split; try lia;
    repeat constructor; cbn; lia.
Qed.

Lemma decodes_cons st cp c s :
  0 <= c < 256 -> decodes st cp (byte.of_Z c :: s) = p ← decode st cp c; decodes (fst p) (snd p) s.
Proof. intros H. cbn [decodes]. by rewrite uchar_of_Z, Z.mod_small. Qed.

(** Bytes in the pending ranges bring the decoder to acceptance. *)
Lemma decodes_fits rs cs st cp s :
  fits rs cs -> Forall continuation rs -> 0 <= st <= 8 -> pending st = Some rs ->
  0 <= cp -> (cp + 1) * 64 ^ zlen cs <= 2 ^ 32 ->
  decodes st cp ((byte.of_Z <$> cs) ++ s) = decodes UTF8_ACCEPT (extend cp cs) s.
Proof.
  intros Hf. revert st cp. induction Hf as [|[lo hi] c rs cs Hc Hf IH]; intros st cp Hr Hst Hp Hcp Hb.
  - by apply pending_nil in Hp as ->.
  - apply Forall_cons in Hr as [[H1 H2] Hr]. cbn in H1, H2, Hc.
    rewrite zlen_cons, Z.pow_add_r in Hb by (pose proof (zlen_nonneg cs); lia).
    assert (0 < 64 ^ zlen cs) by (apply Z.pow_pos_nonneg; pose proof (zlen_nonneg cs); lia).
    assert (Hne : st <> UTF8_ACCEPT) by (intros ->; discriminate Hp).
    cbn [fmap list_fmap app]. rewrite decodes_cons by lia.
    destruct (decode_spec st cp c) as (st' & -> & Hst' & Hp' & _); [done|lia|].
    cbn [mbind outcome_bind fst snd]. rewrite next_code by (try done; nia).
    unfold after in Hp'. rewrite Hp in Hp'.
    destruct (Z.leb_spec lo c), (Z.leb_spec c hi); try lia. cbn in Hp'.
    rewrite IH; [done|done|done|done|lia|nia].
Qed.

(** The decoder reads the encoding of a scalar value and yields the value. *)
Lemma decodes_encode cp x s :
  scalar cp ->
  decodes UTF8_ACCEPT x ((byte.of_Z <$> encode cp) ++ s) = decodes UTF8_ACCEPT cp s.
Proof.
  intros (c0 & rs & cs & -> & Hr & Hf & He)%scalar_chunk.
  destruct (row_bounds _ _ Hr) as (Hc0 & Hcont & Hlen & Hb).
  cbn [fmap list_fmap app]. rewrite decodes_cons by lia.
  destruct (decode_spec UTF8_ACCEPT x c0) as (st' & -> & Hst' & Hp' & _); [done|lia|].
  cbn in Hp'. rewrite (proj2 (lead_row c0 rs ltac:(lia)) Hr) in Hp'.
  cbn [mbind outcome_bind fst snd].
  rewrite (lead_code x c0 rs) by (try apply lead_row; first [done | lia]).
  rewrite (decodes_fits rs); [by rewrite He|done..|lia|].
  apply Forall2_length in Hf. unfold zlen.
  assert (64 ^ Z.of_nat (length cs) <= 64 ^ 3) by (apply Z.pow_le_mono_r; lia). nia.
Qed.

Lemma decodes_app st cp s t :
  decodes st cp (s ++ t) = p ← decodes st cp s; decodes (fst p) (snd p) t.
Proof.
  revert st cp. induction s as [|b s IH]; intros st cp; [done|]. cbn [app decodes].
  destruct (decode st cp (uchar b)) as [[st' cp']| |]; cbn; [apply IH|done..].
Qed.

Lemma decodes_all cps x s :
  Forall scalar cps ->
  decodes UTF8_ACCEPT x (encode_all cps ++ s) = decodes UTF8_ACCEPT (default x (last cps)) s.
Proof.
  intros H. revert x. induction H as [|cp cps Hcp _ IH]; intros x; [done|].
  unfold encode_all in *. cbn [fmap list_fmap concat]. rewrite fmap_app, <- app_assoc.
  rewrite decodes_encode by done. rewrite IH, last_cons.
  by destruct (last cps).
Qed.

(** Whatever the bytes, no assertion of the decoder fails and no read leaves its
    table; once it has rejected it never accepts. *)
Lemma decodes_total st cp s :
  0 <= st <= 8 -> exists st' cp', decodes st cp s = Ret (st', cp') /\ 0 <= st' <= 8.
Proof.
  revert st cp. induction s as [|b s IH]; intros st cp Hst; [by eexists _, _|].
  cbn [decodes]. destruct (decode_spec st cp (uchar b)) as (st' & -> & Hst' & _); [done|apply uchar_range|].
  by apply IH.
Qed.

Lemma decodes_reject s cp : exists cp', decodes UTF8_REJECT cp s = Ret (UTF8_REJECT, cp').
Proof.
  revert cp. induction s as [|b s IH]; intros cp; [by eexists|]. cbn [decodes].
  destruct (decode_spec UTF8_REJECT cp (uchar b)) as (st' & -> & _ & _ & H);
    [done|apply uchar_range|].
  rewrite (proj2 H) by done. cbn. apply IH.
Qed.

(** What is accepted from a state starts with bytes in the pending ranges. *)
Lemma decodes_accept st rs cp s cp' :
  0 <= st <= 8 -> pending st = Some rs -> decodes st cp s = Ret (UTF8_ACCEPT, cp') ->
  exists cs cps, fits rs cs /\ Forall scalar cps /\ s = (byte.of_Z <$> cs) ++ encode_all cps.
Proof.
  revert st rs cp. induction s as [|b s IH]; intros st rs cp Hst Hp Hd.
  - cbn in Hd. simplify_eq. cbn in Hp. simplify_eq. exists [], []. by repeat constructor.
  - cbn [decodes] in Hd. pose proof (uchar_range b) as Hb.
    destruct (decode_spec st cp (uchar b)) as (st' & E & Hst' & Hp' & Hrej); [done|done|].
    rewrite E in Hd. cbn [mbind outcome_bind fst snd] in Hd.
    destruct (after st (uchar b)) as [rs'|] eqn:Ea.
    + destruct (IH st' rs' _ Hst' Hp' Hd) as (cs & cps & Hf & Hs & ->).
      unfold after in Ea. rewrite Hp in Ea. destruct rs as [|[lo hi] rs].
      * apply lead_row in Ea; [|lia]. destruct (chunk_scalar _ _ _ Ea Hf) as [H1 H2].
        exists [], (extend (uchar b - base rs') cs :: cps). repeat split; [constructor|by constructor|].
        unfold encode_all. cbn [fmap list_fmap concat app]. rewrite H2, fmap_app. cbn.
        by rewrite of_Z_uchar.
      * destruct (Z.leb_spec lo (uchar b)), (Z.leb_spec (uchar b) hi); try done. cbn in Ea.
        simplify_eq. exists (uchar b :: cs), cps. repeat split; [by constructor|done|].
        cbn. by rewrite of_Z_uchar.
    + rewrite (proj2 Hrej) in Hd by done. destruct (decodes_reject s (code st cp (uchar b))) as [c H].
      by rewrite H in Hd.
Qed.

(** The automaton of the serializer accepts exactly the encodings of sequences of
    Unicode scalar values, by the encoder of the lexer. *)
Lemma valid_iff_encoded s : valid s = true <-> exists cps, Forall scalar cps /\ s = encode_all cps.
Proof.
  unfold valid. split.
  - destruct (decodes_total UTF8_ACCEPT 0 s) as (st & cp & E & Hst); [done|]. rewrite E.
    intros ->%Z.eqb_eq. destruct (decodes_accept UTF8_ACCEPT [] 0 s cp) as (cs & cps & Hf & Hs & ->);
      [done..|]. inversion Hf; subst. eauto.
  - intros (cps & Hs & ->). rewrite <- (app_nil_r (encode_all cps)). by rewrite decodes_all.
Qed.

Lemma encode_all_app cps cps' : encode_all (cps ++ cps') = encode_all cps ++ encode_all cps'.
Proof. unfold encode_all. by rewrite fmap_app, concat_app, fmap_app. Qed.

Lemma valid_nil : valid [] = true.
Proof. done. Qed.

Lemma valid_app s t : valid s = true -> valid t = true -> valid (s ++ t) = true.
Proof.
  rewrite !valid_iff_encoded. intros (cps & H1 & ->) (cps' & H2 & ->).
  exists (cps ++ cps'). by rewrite encode_all_app, Forall_app.
Qed.

Lemma valid_chunk c0 rs cs : row c0 rs -> fits rs cs -> valid (byte.of_Z <$> (c0 :: cs)) = true.
Proof.
  intros Hr Hf. destruct (chunk_scalar _ _ _ Hr Hf) as [H1 H2]. apply valid_iff_encoded.
  exists [extend (c0 - base rs) cs]. split; [by constructor|].
  unfold encode_all. cbn. by rewrite H2, app_nil_r.
Qed.

Lemma valid_encode cp : scalar cp -> valid (byte.of_Z <$> encode cp) = true.
Proof.
  intros H. apply valid_iff_encoded. exists [cp]. split; [by constructor|].
  unfold encode_all. cbn. by rewrite app_nil_r.
Qed.

(** The second half of a string whose first half is valid. *)
Lemma valid_app_inv s t : valid s = true -> valid (s ++ t) = valid t.
Proof.
  intros (cps & Hs & ->)%valid_iff_encoded. unfold valid. rewrite decodes_all by done.
  assert (H : forall st x y, match decodes st x t, decodes st y t with
    | Ret (a, _), Ret (b, _) => a = b | Throw e, Throw e' => e = e' | Undef _, Undef _ => True
    | _, _ => False end).
  { clear. induction t as [|b t IH]; intros st x y; [done|]. cbn [decodes]. unfold decode.
    destruct (assert_that _); [|done..]. cbn. destruct (load1 (uchar b) utf8d); [|done..]. cbn.
    destruct (assert_that _); [|done..]. cbn. destruct (load1 _ utf8d); [|done..]. cbn. apply IH. }
  specialize (H UTF8_ACCEPT (default 0 (last cps)) 0).
  destruct (decodes _ (default _ _) t) as [[a ?]| |], (decodes UTF8_ACCEPT 0 t) as [[b ?]| |]; by subst.
Qed.

(** The ranges of the string scanner are the rows of the standard, without the
    control characters. *)
Lemma ranges_row_iff c rs : ranges c = Some rs <-> 0x20 <= c /\ row c rs.
Proof.
  split.
  - intros H. assert (Hc : 0x20 <= c) by (revert H; unfold ranges; decide_comparisons; done).
    split; [done|]. apply lead_row; [lia|]. unfold lead. by destruct (Z.ltb_spec c 0x20); [lia|].
  - intros [Hc Hr]. apply lead_row in Hr; [|lia]. unfold lead in Hr. by destruct (Z.ltb_spec c 0x20); [lia|].
Qed.

(** C13: the three pieces of UTF-8 in the library agree.  On any bytes the automaton of
    the serializer stays in its table and fails no assertion; it accepts exactly the
    concatenations of what the lexer's encoder writes for Unicode scalar values;
    and the byte ranges of the lexer's string scanner are the rows of the table of
    the Unicode standard. *)
Theorem utf8_automaton (s : bytes) :
  (exists state cp, decodes UTF8_ACCEPT 0 s = Ret (state, cp) /\ 0 <= state <= 8) /\
  (valid s = true <-> exists cps, Forall scalar cps /\ s = encode_all cps) /\
  (forall c rs, ranges c = Some rs <-> 0x20 <= c /\ row c rs).
Proof.
  split; [by apply decodes_total|]. split; [apply valid_iff_encoded|apply ranges_row_iff].
Qed.

End Utf8.
