(* ===== verification/JsonFloat.v ===== *)
(** * Floating-point numbers in json.hpp: definitions

    A [double] is its 64-bit representation.  [Float.strtod] is the C function the
    lexer calls (decimal texts, correctly rounded, as the C library of the build
    does it); [dtoa_impl] is the printer of the library, the algorithm Grisu2 with
    its table of cached powers.  The files JsonRounding.v,
    JsonDiyfp.v, JsonGrisu.v and JsonFloats.v have the theorems. *)
From S2P Require Import Prelude.

Module Float.

(** [std::isfinite], [std::signbit] and [-value] on the representation. *)
Definition isfinite (bits : Z) : bool := negb (Z.land (Z.shiftr bits 52) 0x7FF =? 0x7FF).
Definition signbit (bits : Z) : bool := Z.testbit bits 63.
Definition neg (bits : Z) : Z := Z.lxor bits (2 ^ 63).
Definition infinity : Z := Z.shiftl 0x7FF 52.

(** The magnitude [N / D] as the nearest double, ties to even: the quantum is
    [2 ^ q], the smallest that leaves at most 53 bits, and no smaller than the
    one of the subnormal numbers. *)
Definition quantum (N D : Z) : Z :=
  let e := Z.log2 N - Z.log2 D - 53 in
  let q := if N * 2 ^ Z.max 0 (- e) <? D * 2 ^ 53 * 2 ^ Z.max 0 e then e else e + 1 in
  Z.max q (-1074).

Definition round_half_even (N D : Z) : Z :=
  let m := N / D in
  let r := 2 * (N mod D) in
  if r <? D then m else if D <? r then m + 1 else if Z.even m then m else m + 1.

Definition nearest (N D : Z) : Z :=
  if N =? 0 then 0 else
  let q := quantum N D in
  let m := round_half_even (N * 2 ^ Z.max 0 (- q)) (D * 2 ^ Z.max 0 q) in
  Z.min ((q + 1074) * 2 ^ 52 + m) infinity.

(** The magnitude [m * 10 ^ e]. *)
Definition of_decimal (m e : Z) : Z := nearest (m * 10 ^ Z.max 0 e) (10 ^ Z.max 0 (- e)).

Definition is_digit (b : Byte.byte) : bool := (48 <=? uchar b) && (uchar b <=? 57).

(** The digits at the front of a text: their number, their value, the rest. *)
Fixpoint span_digits (acc : Z) (s : bytes) : Z * Z * bytes :=
  match s with
  | b :: s' =>
      if is_digit b then
        let '(n, v, r) := span_digits (acc * 10 + (uchar b - 48)) s' in (n + 1, v, r)
      else (0, acc, s)
  | [] => (0, acc, [])
  end.

(** An exponent is taken only when digits follow. *)
Definition span_exponent (s : bytes) : Z * bytes :=
  match s with
  | b :: s' =>
      if (uchar b =? 101) || (uchar b =? 69) then
        let '(sign, s'') :=
          match s' with
          | c :: t => if uchar c =? 45 then (-1, t) else if uchar c =? 43 then (1, t) else (1, s')
          | [] => (1, s')
          end in
        let '(n, v, r) := span_digits 0 s'' in
        if n =? 0 then (0, s) else (sign * v, r)
      else (0, s)
  | [] => (0, s)
  end.

(** [strtod] on a decimal text: the value, and the text after it ([endptr]). *)
Definition strtod (s : bytes) : Z * bytes :=
  let '(negative, s1) :=
    match s with b :: t => if uchar b =? 45 then (true, t) else (false, s) | [] => (false, s) end in
  let '(n, v, s2) := span_digits 0 s1 in
  let '(k, w, s3) :=
    match s2 with
    | b :: t => if uchar b =? 46 then span_digits v t else (0, v, s2)
    | [] => (0, v, s2)
    end in
  if n + k =? 0 then (0, s)
  else
    let '(x, s4) := span_exponent s3 in
    let magnitude := of_decimal w (x - k) in
    (if negative then neg magnitude else magnitude, s4).

End Float.

Module dtoa_impl.
Import Float.

Record diyfp := mkDiyfp { f : Z; e : Z }.

Definition kPrecision : Z := 64.

Definition sub (x y : diyfp) : outcome diyfp :=
  _ ← assert_that (e x =? e y);
  _ ← assert_that (f y <=? f x);
  Ret (mkDiyfp (u64 (f x - f y)) (e x)).

Definition mul (x y : diyfp) : diyfp :=
  let u_lo := Z.land (f x) 0xFFFFFFFF in
  let u_hi := Z.shiftr (f x) 32 in
  let v_lo := Z.land (f y) 0xFFFFFFFF in
  let v_hi := Z.shiftr (f y) 32 in
  let p0 := u64 (u_lo * v_lo) in
  let p1 := u64 (u_lo * v_hi) in
  let p2 := u64 (u_hi * v_lo) in
  let p3 := u64 (u_hi * v_hi) in
  let p0_hi := Z.shiftr p0 32 in
  let p1_lo := Z.land p1 0xFFFFFFFF in
  let p1_hi := Z.shiftr p1 32 in
  let p2_lo := Z.land p2 0xFFFFFFFF in
  let p2_hi := Z.shiftr p2 32 in
  let Q := u64 (p0_hi + p1_lo + p2_lo) in
  let Q := u64 (Q + Z.shiftl 1 (64 - 32 - 1)) in
  let h := u64 (p3 + p2_hi + p1_hi + Z.shiftr Q 32) in
  mkDiyfp h (e x + e y + 64).

(** The loop ends after at most 63 shifts. *)
Fixpoint normalize_loop (fuel : nat) (x : diyfp) : outcome diyfp :=
  match fuel with
  | O => Undef Diverged
  | S fuel' =>
      if Z.shiftr (f x) 63 =? 0
      then normalize_loop fuel' (mkDiyfp (u64 (Z.shiftl (f x) 1)) (e x - 1))
      else Ret x
  end.

Definition normalize (x : diyfp) : outcome diyfp :=
  _ ← assert_that (negb (f x =? 0));
  normalize_loop 64 x.

Definition normalize_to (x : diyfp) (target_exponent : Z) : outcome diyfp :=
  let delta := e x - target_exponent in
  _ ← assert_that (0 <=? delta);
  if 64 <=? delta then Undef ShiftCount else
  _ ← assert_that (Z.shiftr (u64 (Z.shiftl (f x) delta)) delta =? f x);
  Ret (mkDiyfp (u64 (Z.shiftl (f x) delta)) target_exponent).

Record boundaries := mkBoundaries { w : diyfp; minus : diyfp; plus : diyfp }.

(** The instance at [double]: a precision of 53 bits, a bias of 1075. *)
Definition kBias : Z := 1024 - 1 + (53 - 1).
Definition kMinExp : Z := 1 - kBias.
Definition kHiddenBit : Z := Z.shiftl 1 (53 - 1).

Definition compute_boundaries (value : Z) : outcome boundaries :=
  _ ← assert_that (isfinite value);
  _ ← assert_that (negb (signbit value) && negb (value =? 0));
  let E := Z.shiftr value (53 - 1) in
  let F := Z.land value (kHiddenBit - 1) in
  let is_denormal := E =? 0 in
  let v := if is_denormal then mkDiyfp F kMinExp else mkDiyfp (u64 (F + kHiddenBit)) (E - kBias) in
  let lower_boundary_is_closer := (F =? 0) && (1 <? E) in
  let m_plus := mkDiyfp (u64 (2 * f v + 1)) (e v - 1) in
  let m_minus := if lower_boundary_is_closer
                 then mkDiyfp (u64 (4 * f v - 1)) (e v - 2)
                 else mkDiyfp (u64 (2 * f v - 1)) (e v - 1) in
  w_plus ← normalize m_plus;
  w_minus ← normalize_to m_minus (e w_plus);
  w ← normalize v;
  Ret (mkBoundaries w w_minus w_plus).

Definition kAlpha : Z := -60.
Definition kGamma : Z := -32.

Record cached_power := mkCached { cf : Z; ce : Z; ck : Z }.

Definition kCachedPowersMinDecExp : Z := -300.
Definition kCachedPowersDecStep : Z := 8.

Definition kCachedPowers : list cached_power :=
  [mkCached 0xAB70FE17C79AC6CA (-1060) (-300); mkCached 0xFF77B1FCBEBCDC4F (-1034) (-292);
   mkCached 0xBE5691EF416BD60C (-1007) (-284); mkCached 0x8DD01FAD907FFC3C (-980) (-276);
   mkCached 0xD3515C2831559A83 (-954) (-268); mkCached 0x9D71AC8FADA6C9B5 (-927) (-260);
   mkCached 0xEA9C227723EE8BCB (-901) (-252); mkCached 0xAECC49914078536D (-874) (-244);
   mkCached 0x823C12795DB6CE57 (-847) (-236); mkCached 0xC21094364DFB5637 (-821) (-228);
   mkCached 0x9096EA6F3848984F (-794) (-220); mkCached 0xD77485CB25823AC7 (-768) (-212);
   mkCached 0xA086CFCD97BF97F4 (-741) (-204); mkCached 0xEF340A98172AACE5 (-715) (-196);
   mkCached 0xB23867FB2A35B28E (-688) (-188); mkCached 0x84C8D4DFD2C63F3B (-661) (-180);
   mkCached 0xC5DD44271AD3CDBA (-635) (-172); mkCached 0x936B9FCEBB25C996 (-608) (-164);
   mkCached 0xDBAC6C247D62A584 (-582) (-156); mkCached 0xA3AB66580D5FDAF6 (-555) (-148);
   mkCached 0xF3E2F893DEC3F126 (-529) (-140); mkCached 0xB5B5ADA8AAFF80B8 (-502) (-132);
   mkCached 0x87625F056C7C4A8B (-475) (-124); mkCached 0xC9BCFF6034C13053 (-449) (-116);
   mkCached 0x964E858C91BA2655 (-422) (-108); mkCached 0xDFF9772470297EBD (-396) (-100);
   mkCached 0xA6DFBD9FB8E5B88F (-369) (-92); mkCached 0xF8A95FCF88747D94 (-343) (-84);
   mkCached 0xB94470938FA89BCF (-316) (-76); mkCached 0x8A08F0F8BF0F156B (-289) (-68);
   mkCached 0xCDB02555653131B6 (-263) (-60); mkCached 0x993FE2C6D07B7FAC (-236) (-52);
   mkCached 0xE45C10C42A2B3B06 (-210) (-44); mkCached 0xAA242499697392D3 (-183) (-36);
   mkCached 0xFD87B5F28300CA0E (-157) (-28); mkCached 0xBCE5086492111AEB (-130) (-20);
   mkCached 0x8CBCCC096F5088CC (-103) (-12); mkCached 0xD1B71758E219652C (-77) (-4);
   mkCached 0x9C40000000000000 (-50) 4; mkCached 0xE8D4A51000000000 (-24) 12;
   mkCached 0xAD78EBC5AC620000 3 20; mkCached 0x813F3978F8940984 30 28;
   mkCached 0xC097CE7BC90715B3 56 36; mkCached 0x8F7E32CE7BEA5C70 83 44;
   mkCached 0xD5D238A4ABE98068 109 52; mkCached 0x9F4F2726179A2245 136 60;
   mkCached 0xED63A231D4C4FB27 162 68; mkCached 0xB0DE65388CC8ADA8 189 76;
   mkCached 0x83C7088E1AAB65DB 216 84; mkCached 0xC45D1DF942711D9A 242 92;
   mkCached 0x924D692CA61BE758 269 100; mkCached 0xDA01EE641A708DEA 295 108;
   mkCached 0xA26DA3999AEF774A 322 116; mkCached 0xF209787BB47D6B85 348 124;
   mkCached 0xB454E4A179DD1877 375 132; mkCached 0x865B86925B9BC5C2 402 140;
   mkCached 0xC83553C5C8965D3D 428 148; mkCached 0x952AB45CFA97A0B3 455 156;
   mkCached 0xDE469FBD99A05FE3 481 164; mkCached 0xA59BC234DB398C25 508 172;
   mkCached 0xF6C69A72A3989F5C 534 180; mkCached 0xB7DCBF5354E9BECE 561 188;
   mkCached 0x88FCF317F22241E2 588 196; mkCached 0xCC20CE9BD35C78A5 614 204;
   mkCached 0x98165AF37B2153DF 641 212; mkCached 0xE2A0B5DC971F303A 667 220;
   mkCached 0xA8D9D1535CE3B396 694 228; mkCached 0xFB9B7CD9A4A7443C 720 236;
   mkCached 0xBB764C4CA7A44410 747 244; mkCached 0x8BAB8EEFB6409C1A 774 252;
   mkCached 0xD01FEF10A657842C 800 260; mkCached 0x9B10A4E5E9913129 827 268;
   mkCached 0xE7109BFBA19C0C9D 853 276; mkCached 0xAC2820D9623BF429 880 284;
   mkCached 0x80444B5E7AA7CF85 907 292; mkCached 0xBF21E44003ACDD2D 933 300;
   mkCached 0x8E679C2F5E44FF8F 960 308; mkCached 0xD433179D9C8CB841 986 316;
   mkCached 0x9E19DB92B4E31BA9 1013 324].

Definition get_cached_power_for_binary_exponent (e : Z) : outcome cached_power :=
  _ ← assert_that (-1500 <=? e);
  _ ← assert_that (e <=? 1500);
  let f := kAlpha - e - 1 in
  let k := Z.quot (f * 78913) (Z.shiftl 1 18) + (if 0 <? f then 1 else 0) in
  let index := Z.quot (- kCachedPowersMinDecExp + k + (kCachedPowersDecStep - 1))
                      kCachedPowersDecStep in
  _ ← assert_that (0 <=? index);
  _ ← assert_that (index <? zlen kCachedPowers);
  cached ← load1 index kCachedPowers;
  _ ← assert_that (kAlpha <=? ce cached + e + 64);
  _ ← assert_that (ce cached + e + 64 <=? kGamma);
  Ret cached.

(** The result, and [pow10]. *)
Definition find_largest_pow10 (n : Z) : Z * Z :=
  if 1000000000 <=? n then (10, 1000000000)
  else if 100000000 <=? n then (9, 100000000)
  else if 10000000 <=? n then (8, 10000000)
  else if 1000000 <=? n then (7, 1000000)
  else if 100000 <=? n then (6, 100000)
  else if 10000 <=? n then (5, 10000)
  else if 1000 <=? n then (4, 1000)
  else if 100 <=? n then (3, 100)
  else if 10 <=? n then (2, 10)
  else (1, 1).

(** A [char*] into the number buffer is an offset in the block. *)
Definition put (p c : Z) (buf : bytes) : outcome bytes := store p [byte.of_Z c] buf.

(** The loop of [grisu2_round] takes the last digit down by one each time, so at
    most nine times. *)
Fixpoint round_loop (fuel : nat) (last : Z) (buf : bytes) (dist delta rest ten_k : Z)
    : outcome bytes :=
  match fuel with
  | O => Undef Diverged
  | S fuel' =>
      if (rest <? dist) && (ten_k <=? u64 (delta - rest)) &&
         ((u64 (rest + ten_k) <? dist) || (u64 (u64 (rest + ten_k) - dist) <? u64 (dist - rest)))
      then
        c ← load1 last buf;
        _ ← assert_that (negb (uchar c =? 48));
        buf' ← put last (uchar c - 1) buf;
        round_loop fuel' last buf' dist delta (u64 (rest + ten_k)) ten_k
      else Ret buf
  end.

Definition grisu2_round (p : Z) (buf : bytes) (len dist delta rest ten_k : Z) : outcome bytes :=
  _ ← assert_that (1 <=? len);
  _ ← assert_that (dist <=? delta);
  _ ← assert_that (rest <=? delta);
  _ ← assert_that (0 <? ten_k);
  round_loop 10 (p + len - 1) buf dist delta rest ten_k.

(** The buffer, [length] and [decimal_exponent]. *)
Record digits := mkDigits { buffer : bytes; length : Z; decimal_exponent : Z }.

(** One iteration writes a digit. *)
Definition put_digit (p d : Z) (s : digits) : outcome digits :=
  _ ← assert_that (d <=? 9);
  b ← put (p + length s) (48 + d) (buffer s);
  Ret (mkDigits b (length s + 1) (decimal_exponent s)).

(** The loop over the digits of the integral part, [n] counting down; it returns
    ([inl]) or leaves [p2] for the fractional part ([inr]). *)
Fixpoint integral_loop (n : nat) (p one_e delta dist p1 p2 pow10 : Z) (s : digits)
    : outcome (digits + digits) :=
  match n with
  | O => Ret (inr s)
  | S n' =>
      let d := p1 / pow10 in
      let r := p1 mod pow10 in
      s ← put_digit p d s;
      let rest := u64 (u64 (Z.shiftl r (- one_e)) + p2) in
      if rest <=? delta then
        let ten_n := u64 (Z.shiftl pow10 (- one_e)) in
        b ← grisu2_round p (buffer s) (length s) dist delta rest ten_n;
        Ret (inl (mkDigits b (length s) (decimal_exponent s + Z.of_nat n')))
      else integral_loop n' p one_e delta dist r p2 (pow10 / 10) s
  end.

(** The loop over the digits of the fractional part; [m] digits so far.  Its
    result is the digits, [m], [delta], [dist] and [p2]. *)
Fixpoint fractional_loop (fuel : nat) (p : Z) (one : diyfp) (delta dist p2 m : Z) (s : digits)
    : outcome (digits * Z * Z * Z * Z) :=
  match fuel with
  | O => Undef Diverged
  | S fuel' =>
      _ ← assert_that (p2 <=? (2 ^ 64 - 1) / 10);
      let p2 := u64 (p2 * 10) in
      let d := Z.shiftr p2 (- e one) in
      let r := Z.land p2 (f one - 1) in
      s ← put_digit p d s;
      let delta := u64 (delta * 10) in
      let dist := u64 (dist * 10) in
      if r <=? delta then Ret (s, m + 1, delta, dist, r)
      else fractional_loop fuel' p one delta dist r (m + 1) s
  end.

Definition grisu2_digit_gen (p : Z) (buf : bytes) (decimal_exponent : Z) (M_minus w M_plus : diyfp)
    : outcome digits :=
  _ ← assert_that (kAlpha <=? e M_plus);
  _ ← assert_that (e M_plus <=? kGamma);
  d ← sub M_plus M_minus;
  t ← sub M_plus w;
  let delta := f d in
  let dist := f t in
  let one := mkDiyfp (u64 (Z.shiftl 1 (- e M_plus))) (e M_plus) in
  let p1 := u32 (Z.shiftr (f M_plus) (- e one)) in
  let p2 := Z.land (f M_plus) (f one - 1) in
  _ ← assert_that (0 <? p1);
  let '(k, pow10) := find_largest_pow10 p1 in
  r ← integral_loop (Z.to_nat k) p (e one) delta dist p1 p2 pow10
        (mkDigits buf 0 decimal_exponent);
  match r with
  | inl s => Ret s
  | inr s =>
      _ ← assert_that (delta <? p2);
      r ← fractional_loop 20 p one delta dist p2 0 s;
      let '(s, m, delta, dist, p2) := r in
      b ← grisu2_round p (buffer s) (length s) dist delta p2 (f one);
      Ret (mkDigits b (length s) (dtoa_impl.decimal_exponent s - m))
  end.

Definition grisu2_scaled (p : Z) (buf : bytes) (m_minus v m_plus : diyfp) : outcome digits :=
  _ ← assert_that (e m_plus =? e m_minus);
  _ ← assert_that (e m_plus =? e v);
  cached ← get_cached_power_for_binary_exponent (e m_plus);
  let c_minus_k := mkDiyfp (cf cached) (ce cached) in
  let w := mul v c_minus_k in
  let w_minus := mul m_minus c_minus_k in
  let w_plus := mul m_plus c_minus_k in
  let M_minus := mkDiyfp (u64 (f w_minus + 1)) (e w_minus) in
  let M_plus := mkDiyfp (u64 (f w_plus - 1)) (e w_plus) in
  grisu2_digit_gen p buf (- ck cached) M_minus w M_plus.

Definition grisu2 (p : Z) (buf : bytes) (value : Z) : outcome digits :=
  _ ← assert_that (isfinite value);
  _ ← assert_that (negb (signbit value) && negb (value =? 0));
  b ← compute_boundaries value;
  grisu2_scaled p buf (minus b) (w b) (plus b).

(** The pointer after the exponent, and the buffer. *)
Definition append_exponent (p : Z) (buf : bytes) (e : Z) : outcome (Z * bytes) :=
  _ ← assert_that (-1000 <? e);
  _ ← assert_that (e <? 1000);
  buf ← put p (if e <? 0 then 45 else 43) buf;
  let k := Z.abs e in
  let p := p + 1 in
  if k <? 10 then
    buf ← put p 48 buf;
    buf ← put (p + 1) (48 + k) buf;
    Ret (p + 2, buf)
  else if k <? 100 then
    buf ← put p (48 + k / 10) buf;
    buf ← put (p + 1) (48 + k mod 10) buf;
    Ret (p + 2, buf)
  else
    buf ← put p (48 + k / 100) buf;
    buf ← put (p + 1) (48 + (k mod 100) / 10) buf;
    buf ← put (p + 2) (48 + (k mod 100) mod 10) buf;
    Ret (p + 3, buf).

(** [std::memmove] and [std::memset] inside the buffer. *)
Definition memmove (dst src n : Z) (buf : bytes) : outcome bytes :=
  d ← load src n buf; store dst d buf.
Definition memset (dst c n : Z) (buf : bytes) : outcome bytes :=
  store dst (replicate (Z.to_nat n) (byte.of_Z c)) buf.

Definition format_buffer (p : Z) (buf : bytes) (len decimal_exponent min_exp max_exp : Z)
    : outcome (Z * bytes) :=
  _ ← assert_that (min_exp <? 0);
  _ ← assert_that (0 <? max_exp);
  let k := len in
  let n := len + decimal_exponent in
  if (k <=? n) && (n <=? max_exp) then
    buf ← memset (p + k) 48 (n - k) buf;
    buf ← put (p + n + 0) 46 buf;
    buf ← put (p + n + 1) 48 buf;
    Ret (p + (n + 2), buf)
  else if (0 <? n) && (n <=? max_exp) then
    _ ← assert_that (n <? k);
    buf ← memmove (p + (n + 1)) (p + n) (k - n) buf;
    buf ← put (p + n) 46 buf;
    Ret (p + (k + 1), buf)
  else if (min_exp <? n) && (n <=? 0) then
    buf ← memmove (p + (2 + - n)) p k buf;
    buf ← put p 48 buf;
    buf ← put (p + 1) 46 buf;
    buf ← memset (p + 2) 48 (- n) buf;
    Ret (p + (2 + - n + k), buf)
  else
    r ← (if k =? 1 then Ret (p + 1, buf)
         else
           buf ← memmove (p + 2) (p + 1) (k - 1) buf;
           buf ← put (p + 1) 46 buf;
           Ret (p + (1 + k), buf));
    let '(q, buf) := r in
    buf ← put q 101 buf;
    append_exponent (q + 1) buf (n - 1).

End dtoa_impl.

(** [to_chars(first, last, value)] on the block [buf]: the end of the text in it,
    and the block. *)
Definition to_chars (first last : Z) (buf : bytes) (value : Z) : outcome (Z * bytes) :=
  _ ← assert_that (Float.isfinite value);
  r ← (if Float.signbit value
       then buf ← dtoa_impl.put first 45 buf; Ret (Float.neg value, first + 1, buf)
       else Ret (value, first, buf));
  let '(value, first, buf) := r in
  if value =? 0 then
    buf ← dtoa_impl.put first 48 buf;
    buf ← dtoa_impl.put (first + 1) 46 buf;
    buf ← dtoa_impl.put (first + 2) 48 buf;
    Ret (first + 3, buf)
  else
    _ ← assert_that (17 <=? last - first);
    d ← dtoa_impl.grisu2 first buf value;
    let len := dtoa_impl.length d in
    _ ← assert_that (len <=? 17);
    let kMinExp := -4 in
    let kMaxExp := 15 in
    _ ← assert_that (kMaxExp + 2 <=? last - first);
    _ ← assert_that (2 + (- kMinExp - 1) + 17 <=? last - first);
    _ ← assert_that (17 + 6 <=? last - first);
    dtoa_impl.format_buffer first (dtoa_impl.buffer d) len (dtoa_impl.decimal_exponent d)
      kMinExp kMaxExp.
