(* ===== verification/JsonLexer.v ===== *)
(** * The lexer of json.hpp: definitions

    [detail::lexer] over a string adapter.  Its state is the record [lexer]; a
    member function is a computation over it.  Error messages are left out
    (nothing reads them but the text of the exception), and the locale is the
    "C" locale, which the server never leaves, so the decimal point is ['.'].
    The counters of [position_t] are not wrapped: no input has [2^64] bytes. *)
From S2P Require Import Prelude JsonUtf8 JsonFloat.

Module Lexer.

Inductive token_type : Type :=
| uninitialized | literal_true | literal_false | literal_null | value_string
| value_unsigned | value_integer | value_float | begin_array | begin_object
| end_array | end_object | name_separator | value_separator | parse_error
| end_of_input | literal_or_value.

#[export] Instance token_type_eq_dec : EqDecision token_type.
Proof. solve_decision. Defined.

Record position_t := mkPosition {
  chars_read_total : Z; chars_read_current_line : Z; lines_read : Z }.

Record lexer := mkLexer {
  ia : bytes;                  (* what the adapter has left *)
  ignore_comments : bool;
  current : Z;
  next_unget : bool;
  position : position_t;
  token_string : bytes;
  token_buffer : bytes;
  number_integer : Z;          (* value_integer *)
  number_unsigned : Z;         (* value_unsigned *)
  number_float : Z             (* value_float *)
}.

(** [char_traits<char>::eof()] *)
Definition eof : Z := -1.

Definition make (adapter : bytes) (ignore_comments_ : bool) : lexer :=
  mkLexer adapter ignore_comments_ eof false (mkPosition 0 0 0) [] [] 0 0 0.

Definition with_buffer (b : bytes) (L : lexer) : lexer :=
  mkLexer (ia L) (ignore_comments L) (current L) (next_unget L) (position L) (token_string L) b
    (number_integer L) (number_unsigned L) (number_float L).
Definition with_numbers (i u f : Z) (L : lexer) : lexer :=
  mkLexer (ia L) (ignore_comments L) (current L) (next_unget L) (position L) (token_string L)
    (token_buffer L) i u f.

(** ** Input *)

(** [iterator_input_adapter::get_character] *)
Definition get_character (s : bytes) : Z * bytes :=
  match s with [] => (eof, []) | b :: s' => (uchar b, s') end.

Definition get : M lexer Z := fun L =>
  let '(c, ia') := if next_unget L then (current L, ia L) else get_character (ia L) in
  let p := position L in
  let p' := if c =? 10
            then mkPosition (chars_read_total p + 1) 0 (lines_read p + 1)
            else mkPosition (chars_read_total p + 1) (chars_read_current_line p + 1) (lines_read p) in
  let text := if c =? eof then token_string L else token_string L ++ [byte.of_Z c] in
  Ret (c, mkLexer ia' (ignore_comments L) c false p' text (token_buffer L)
            (number_integer L) (number_unsigned L) (number_float L)).

Definition unget : M lexer unit := fun L =>
  let p := position L in
  let p' := if chars_read_current_line p =? 0
            then mkPosition (chars_read_total p - 1) 0
                   (if 0 <? lines_read p then lines_read p - 1 else lines_read p)
            else mkPosition (chars_read_total p - 1) (chars_read_current_line p - 1) (lines_read p) in
  _ ← assert_that ((current L =? eof) || negb (bool_decide (token_string L = [])));
  let text := if current L =? eof then token_string L
              else take (length (token_string L) - 1) (token_string L) in
  Ret (tt, mkLexer (ia L) (ignore_comments L) (current L) true p' text (token_buffer L)
             (number_integer L) (number_unsigned L) (number_float L)).

Definition add (c : Z) : M lexer unit := modify (fun L =>
  with_buffer (token_buffer L ++ [byte.of_Z c]) L).

Definition reset : M lexer unit := modify (fun L =>
  mkLexer (ia L) (ignore_comments L) (current L) (next_unget L) (position L)
    [byte.of_Z (current L)] [] (number_integer L) (number_unsigned L) (number_float L)).

Definition read_current : M lexer Z := gets current.

(** A loop that reads a character in each round ends at the end of the input. *)
Definition enough (L : lexer) : nat := S (S (length (ia L))).

(** ** Strings *)

(** The digits [get_codepoint] reads, one per factor. *)
Fixpoint hex_digits (factors : list Z) (codepoint : Z) : M lexer Z :=
  match factors with
  | [] =>
      do! lift (assert_that ((0x0000 <=? codepoint) && (codepoint <=? 0xFFFF))) in
      ret codepoint
  | factor :: factors' =>
      let! c := get in
      if (48 <=? c) && (c <=? 57) then
        hex_digits factors' (codepoint + i32 (u32 (Z.shiftl (u32 (c - 0x30)) factor)))
      else if (65 <=? c) && (c <=? 70) then
        hex_digits factors' (codepoint + i32 (u32 (Z.shiftl (u32 (c - 0x37)) factor)))
      else if (97 <=? c) && (c <=? 102) then
        hex_digits factors' (codepoint + i32 (u32 (Z.shiftl (u32 (c - 0x57)) factor)))
      else ret (-1)
  end.

Definition get_codepoint : M lexer Z :=
  let! c := read_current in
  do! lift (assert_that (c =? 117)) in
  hex_digits [12; 8; 4; 0] 0.

(** [next_byte_in_range]: the current byte, then a byte per range. *)
Fixpoint bytes_in_ranges (ranges : list (Z * Z)) : M lexer bool :=
  match ranges with
  | [] => ret true
  | (lo, hi) :: ranges' =>
      let! c := get in
      if (lo <=? c) && (c <=? hi) then do! add c in bytes_in_ranges ranges'
      else ret false
  end.

Definition next_byte_in_range (ranges : list (Z * Z)) : M lexer bool :=
  do! lift (assert_that ((length ranges =? 1)%nat || (length ranges =? 2)%nat ||
                         (length ranges =? 3)%nat)) in
  let! c := read_current in
  do! add c in
  bytes_in_ranges ranges.

(** A loop body of [scan_string] goes on ([None]) or returns. *)
Fixpoint add_all (cs : list Z) : M lexer unit :=
  match cs with [] => ret tt | c :: cs' => do! add c in add_all cs' end.

Definition add_codepoint (codepoint : Z) : M lexer (option token_type) :=
  do! lift (assert_that ((0x00 <=? codepoint) && (codepoint <=? 0x10FFFF))) in
  do! add_all (Utf8.encode codepoint) in
  ret None.

(** The second half of a surrogate pair. *)
Definition low_surrogate (codepoint1 : Z) : M lexer (option token_type) :=
  let! c := get in
  let! both := (if c =? 92 then let! c := get in ret (c =? 117) else ret false) in
  if both then
    let! codepoint2 := get_codepoint in
    if codepoint2 =? -1 then ret (Some parse_error)
    else if (0xDC00 <=? codepoint2) && (codepoint2 <=? 0xDFFF) then
      add_codepoint (i32 (u32 (u32 (u32 (Z.shiftl (u32 codepoint1) 10) + u32 codepoint2) - 0x35FDC00)))
    else ret (Some parse_error)
  else ret (Some parse_error).

Definition scan_unicode : M lexer (option token_type) :=
  let! codepoint1 := get_codepoint in
  if codepoint1 =? -1 then ret (Some parse_error)
  else if (0xD800 <=? codepoint1) && (codepoint1 <=? 0xDBFF) then low_surrogate codepoint1
  else if (0xDC00 <=? codepoint1) && (codepoint1 <=? 0xDFFF) then ret (Some parse_error)
  else add_codepoint codepoint1.

Definition scan_escape : M lexer (option token_type) :=
  let! c := get in
  if c =? 34 then do! add 34 in ret None
  else if c =? 92 then do! add 92 in ret None
  else if c =? 47 then do! add 47 in ret None
  else if c =? 98 then do! add 8 in ret None
  else if c =? 102 then do! add 12 in ret None
  else if c =? 110 then do! add 10 in ret None
  else if c =? 114 then do! add 13 in ret None
  else if c =? 116 then do! add 9 in ret None
  else if c =? 117 then scan_unicode
  else ret (Some parse_error).

Definition scan_char : M lexer (option token_type) :=
  let! c := get in
  if c =? eof then ret (Some parse_error)
  else if c =? 34 then ret (Some value_string)
  else if c =? 92 then scan_escape
  else if (0 <=? c) && (c <=? 0x1F) then ret (Some parse_error)
  else
    match Utf8.ranges c with
    | Some [] => do! add c in ret None
    | Some rs => let! ok := next_byte_in_range rs in ret (if ok : bool then None else Some parse_error)
    | None => ret (Some parse_error)
    end.

Fixpoint scan_string_loop (fuel : nat) : M lexer token_type :=
  match fuel with
  | O => undefined Diverged
  | S fuel' =>
      let! r := scan_char in
      match r with Some t => ret t | None => scan_string_loop fuel' end
  end.

Definition scan_string : M lexer token_type :=
  do! reset in
  let! c := read_current in
  do! lift (assert_that (c =? 34)) in
  let! n := gets enough in
  scan_string_loop n.

(** ** Comments *)

Fixpoint line_comment (fuel : nat) : M lexer bool :=
  match fuel with
  | O => undefined Diverged
  | S fuel' =>
      let! c := get in
      if (c =? 10) || (c =? 13) || (c =? eof) || (c =? 0) then ret true else line_comment fuel'
  end.

Fixpoint block_comment (fuel : nat) : M lexer bool :=
  match fuel with
  | O => undefined Diverged
  | S fuel' =>
      let! c := get in
      if (c =? eof) || (c =? 0) then ret false
      else if c =? 42 then
        let! c := get in
        if c =? 47 then ret true else do! unget in block_comment fuel'
      else block_comment fuel'
  end.

Definition scan_comment : M lexer bool :=
  let! c := get in
  let! n := gets enough in
  if c =? 47 then line_comment n
  else if c =? 42 then block_comment n
  else ret false.

(** ** Numbers *)

(** The labels of [scan_number]. *)
Inductive number_state : Type :=
| minus | zero | any1 | decimal1 | decimal2 | exponent | sign | any2.

Definition digit (c : Z) : bool := (48 <=? c) && (c <=? 57).
Definition nonzero_digit (c : Z) : bool := (49 <=? c) && (c <=? 57).
Definition is_e (c : Z) : bool := (c =? 101) || (c =? 69).

(** Where a label goes on the character it reads: to another label, to
    [scan_number_done], or to the error. *)
Inductive jump : Type := Goto (s : number_state) | Done | Error.

Definition number_jump (s : number_state) (c : Z) : jump :=
  match s with
  | minus => if c =? 48 then Goto zero else if nonzero_digit c then Goto any1 else Error
  | zero => if c =? 46 then Goto decimal1 else if is_e c then Goto exponent else Done
  | any1 => if digit c then Goto any1 else if c =? 46 then Goto decimal1
            else if is_e c then Goto exponent else Done
  | decimal1 => if digit c then Goto decimal2 else Error
  | decimal2 => if digit c then Goto decimal2 else if is_e c then Goto exponent else Done
  | exponent => if (c =? 43) || (c =? 45) then Goto sign else if digit c then Goto any2 else Error
  | sign => if digit c then Goto any2 else Error
  | any2 => if digit c then Goto any2 else Done
  end.

(** The assignments to [number_type] at the labels. *)
Definition number_type_at (s : number_state) (number_type : token_type) : token_type :=
  match s with
  | minus => value_integer
  | decimal1 | exponent => value_float
  | _ => number_type
  end.

(** The result is the type of the number, or nothing on an error. *)
Fixpoint number_loop (fuel : nat) (s : number_state) (number_type : token_type)
    : M lexer (option token_type) :=
  match fuel with
  | O => undefined Diverged
  | S fuel' =>
      let number_type := number_type_at s number_type in
      let! c := get in
      match number_jump s c with
      | Goto s' => do! add c in number_loop fuel' s' number_type
      | Done => ret (Some number_type)
      | Error => ret None
      end
  end.

(** [strtoull] and [strtoll] on a decimal text: the value, whether [errno] is
    [ERANGE], and the text after it. *)
Definition strtoull (s : bytes) : Z * bool * bytes :=
  let '(n, v, r) := Float.span_digits 0 s in
  if n =? 0 then (0, false, s) else (Z.min v (2 ^ 64 - 1), 2 ^ 64 <=? v, r).

Definition strtoll (s : bytes) : Z * bool * bytes :=
  let '(negative, t) :=
    match s with b :: t => if uchar b =? 45 then (true, t) else (false, s) | [] => (false, s) end in
  let '(n, v, r) := Float.span_digits 0 t in
  if n =? 0 then (0, false, s)
  else if negative then (Z.max (- v) (- 2 ^ 63), 2 ^ 63 <? v, r)
  else (Z.min v (2 ^ 63 - 1), 2 ^ 63 <=? v, r).

Definition at_end (r : bytes) : outcome unit := assert_that (bool_decide (r = [])).

(** The conversion to [double], where the code falls through to. *)
Definition float_token : M lexer token_type :=
  let! text := gets token_buffer in
  let '(x, r) := Float.strtod text in
  do! modify (fun L => with_numbers (number_integer L) (number_unsigned L) x L) in
  do! lift (at_end r) in
  ret value_float.

Definition scan_number_done (number_type : token_type) : M lexer token_type :=
  do! unget in
  let! text := gets token_buffer in
  match number_type with
  | value_unsigned =>
      let '(x, erange, r) := strtoull text in
      do! lift (at_end r) in
      if erange then float_token
      else
        do! modify (fun L => with_numbers (number_integer L) x (number_float L) L) in
        ret value_unsigned
  | value_integer =>
      let '(x, erange, r) := strtoll text in
      do! lift (at_end r) in
      if erange then float_token
      else
        do! modify (fun L => with_numbers x (number_unsigned L) (number_float L) L) in
        ret value_integer
  | _ => float_token
  end.

Definition scan_number : M lexer token_type :=
  do! reset in
  let! c := read_current in
  let! n := gets enough in
  let! r :=
    (if c =? 45 then do! add c in number_loop n minus value_unsigned
     else if c =? 48 then do! add c in number_loop n zero value_unsigned
     else if nonzero_digit c then do! add c in number_loop n any1 value_unsigned
     else throw AssertFailed) in
  match r with Some number_type => scan_number_done number_type | None => ret parse_error end.

(** ** Tokens *)

(** The characters of a literal after the first. *)
Fixpoint literal_loop (literal_text : bytes) (return_type : token_type) : M lexer token_type :=
  match literal_text with
  | [] => ret return_type
  | b :: literal_text' =>
      let! c := get in
      if bool_decide (byte.of_Z c = b) then literal_loop literal_text' return_type
      else ret parse_error
  end.

Definition scan_literal (literal_text : bytes) (return_type : token_type) : M lexer token_type :=
  let! c := read_current in
  do! lift (b ← load1 0 literal_text; assert_that (bool_decide (byte.of_Z c = b))) in
  literal_loop (drop 1 literal_text) return_type.

Definition skip_bom : M lexer bool :=
  let! c := get in
  if c =? 0xEF then
    let! c := get in
    if c =? 0xBB then let! c := get in ret (c =? 0xBF) else ret false
  else do! unget in ret true.

Definition is_space (c : Z) : bool := (c =? 32) || (c =? 9) || (c =? 10) || (c =? 13).

Fixpoint whitespace_loop (fuel : nat) : M lexer unit :=
  match fuel with
  | O => undefined Diverged
  | S fuel' => let! c := get in if is_space c then whitespace_loop fuel' else ret tt
  end.

Definition skip_whitespace : M lexer unit := let! n := gets enough in whitespace_loop n.

(** [while (ignore_comments && current == '/')]; false when a comment is not
    closed. *)
Fixpoint comments_loop (fuel : nat) : M lexer bool :=
  match fuel with
  | O => undefined Diverged
  | S fuel' =>
      let! ignore := gets ignore_comments in
      let! c := read_current in
      if ignore && (c =? 47) then
        let! ok := scan_comment in
        if ok : bool then do! skip_whitespace in comments_loop fuel' else ret false
      else ret true
  end.

Definition scan_token : M lexer token_type :=
  let! c := read_current in
  if c =? 91 then ret begin_array
  else if c =? 93 then ret end_array
  else if c =? 123 then ret begin_object
  else if c =? 125 then ret end_object
  else if c =? 58 then ret name_separator
  else if c =? 44 then ret value_separator
  else if c =? 116 then scan_literal (lit "true") literal_true
  else if c =? 102 then scan_literal (lit "false") literal_false
  else if c =? 110 then scan_literal (lit "null") literal_null
  else if c =? 34 then scan_string
  else if (c =? 45) || digit c then scan_number
  else if (c =? 0) || (c =? eof) then ret end_of_input
  else ret parse_error.

Definition scan : M lexer token_type :=
  let! p := gets position in
  let! bom := (if chars_read_total p =? 0 then skip_bom else ret true) in
  if negb bom then ret parse_error
  else
    do! skip_whitespace in
    let! n := gets enough in
    let! ok := comments_loop n in
    if ok : bool then scan_token else ret parse_error.

End Lexer.
