(* ===== verification/JsonParser.v ===== *)
(** * The parser of json.hpp: definitions

    [detail::parser] drives the lexer and reports to a [json_sax_dom_parser],
    which builds the value through pointers into it.  [Dom] is that class, over
    paths; [Parser] is the parser, a machine with a stack of open containers. *)
From S2P Require Import Prelude Json JsonFloat JsonLexer.

(** ** Building the value *)
Module Dom.
Import Json.

(** A [BasicJsonType*] into the value under construction, as the way to it from
    the root. *)
Inductive step : Type := AtIndex (i : nat) | AtKey (k : bytes).
Definition pointer : Type := list step.

Definition child (s : step) (j : json) : option json :=
  match s, j with
  | AtIndex i, JArray l => l !! i
  | AtKey k, JObject m => find k m
  | _, _ => None
  end.
Definition set_child (s : step) (v j : json) : option json :=
  match s, j with
  | AtIndex i, JArray l => Some (JArray (<[i:=v]> l))
  | AtKey k, JObject m => Some (JObject (assign k v m))
  | _, _ => None
  end.

Fixpoint read (p : pointer) (j : json) : option json :=
  match p with [] => Some j | s :: p' => c ← child s j; read p' c end.
Fixpoint update (p : pointer) (f : json -> option json) (j : json) : option json :=
  match p with
  | [] => f j
  | s :: p' => c ← child s j; c' ← update p' f c; set_child s c' j
  end.

Record dom := mkDom {
  root : json;
  ref_stack : list pointer;            (* the back is the head *)
  object_element : option pointer;     (* [None] is the null pointer *)
  errored : bool;
  allow_exceptions : bool
}.

Definition make (r : json) (allow : bool) : dom := mkDom r [] None false allow.

Definition is_array (j : json) : bool := match j with JArray _ => true | _ => false end.
Definition is_object (j : json) : bool := match j with JObject _ => true | _ => false end.

Definition dangling {A} (o : option A) : outcome A :=
  match o with Some a => Ret a | None => Undef DanglingPointer end.

Definition set_root (r : json) : M dom unit := modify (fun d =>
  mkDom r (ref_stack d) (object_element d) (errored d) (allow_exceptions d)).
Definition set_stack (l : list pointer) : M dom unit := modify (fun d =>
  mkDom (root d) l (object_element d) (errored d) (allow_exceptions d)).
Definition set_element (p : pointer) : M dom unit := modify (fun d =>
  mkDom (root d) (ref_stack d) (Some p) (errored d) (allow_exceptions d)).

(** [ref_stack.back()], which the code has checked not to be empty, and what it
    points to. *)
Definition back : M dom pointer :=
  let! l := gets ref_stack in
  match l with p :: _ => ret p | [] => undefined OutOfBounds end.
Definition deref (p : pointer) : M dom json :=
  let! r := gets root in lift (dangling (read p r)).
Definition modify_at (p : pointer) (f : json -> option json) : M dom unit :=
  let! r := gets root in
  let! r' := lift (dangling (update p f r)) in
  set_root r'.

Definition nonempty (l : list pointer) : bool := match l with [] => false | _ => true end.

(** [emplace_back] on an array, [operator[]] on an object. *)
Definition append (v : json) (j : json) : option json :=
  match j with JArray l => Some (JArray (l ++ [v])) | _ => None end.
Definition add_key (k : bytes) (j : json) : option json :=
  match j with JObject m => Some (JObject (emplace k JNull m)) | _ => None end.

Definition handle_value (v : json) : M dom pointer :=
  let! l := gets ref_stack in
  if negb (nonempty l) then do! set_root v in ret []
  else
    let! p := back in
    let! c := deref p in
    do! lift (assert_that (is_array c || is_object c)) in
    match c with
    | JArray es =>
        do! modify_at p (append v) in
        ret (p ++ [AtIndex (length es)])
    | _ =>
        do! lift (assert_that (is_object c)) in
        let! e := gets object_element in
        match e with
        | None => throw AssertFailed
        | Some q => do! modify_at q (fun _ => Some v) in ret q
        end
    end.

(** The events that carry a value: [null], [boolean], [number_*], [string]. *)
Definition value (v : json) : M dom bool := let! _ := handle_value v in ret true.

Definition start_container (v : json) : M dom bool :=
  let! p := handle_value v in
  let! l := gets ref_stack in
  do! set_stack (p :: l) in
  ret true.
Definition start_object : M dom bool := start_container (JObject []).
Definition start_array : M dom bool := start_container (JArray []).

Definition key (val : bytes) : M dom bool :=
  let! l := gets ref_stack in
  do! lift (assert_that (nonempty l)) in
  let! p := back in
  let! c := deref p in
  do! lift (assert_that (is_object c)) in
  do! modify_at p (add_key val) in
  do! set_element (p ++ [AtKey val]) in
  ret true.

(** [set_parents] does nothing without [JSON_DIAGNOSTICS]. *)
Definition end_container (is_it : json -> bool) : M dom bool :=
  let! l := gets ref_stack in
  do! lift (assert_that (nonempty l)) in
  let! p := back in
  let! c := deref p in
  do! lift (assert_that (is_it c)) in
  do! set_stack (drop 1 l) in
  ret true.
Definition end_object : M dom bool := end_container is_object.
Definition end_array : M dom bool := end_container is_array.

Definition parse_error (ex : exn) : M dom bool := fun d =>
  let d' := mkDom (root d) (ref_stack d) (object_element d) true (allow_exceptions d) in
  if allow_exceptions d then Throw ex else Ret (false, d').

End Dom.

(** ** The parser *)
Module Parser.
Import Json Lexer.

Record parser := mkParser {
  m_lexer : lexer;
  last_token : token_type;
  sax : Dom.dom;
  states : list bool           (* true is an array; the back is the head *)
}.

Definition on_lexer {A} (m : M lexer A) : M parser A :=
  zoom m_lexer (fun L P => mkParser L (last_token P) (sax P) (states P)) m.
Definition on_sax {A} (m : M Dom.dom A) : M parser A :=
  zoom sax (fun d P => mkParser (m_lexer P) (last_token P) d (states P)) m.

Definition get_token : M parser token_type :=
  let! t := on_lexer scan in
  do! modify (fun P => mkParser (m_lexer P) t (sax P) (states P)) in
  ret t.

Definition push_state (b : bool) : M parser unit := modify (fun P =>
  mkParser (m_lexer P) (last_token P) (sax P) (b :: states P)).
Definition pop_state : M parser unit := modify (fun P =>
  mkParser (m_lexer P) (last_token P) (sax P) (drop 1 (states P))).

(** What an iteration of the loop comes to: the function returns, the next
    iteration parses a value, or a value was parsed and the state is next. *)
Inductive verdict : Type := Return (b : bool) | Continue | Evaluate.

Definition syntax_error : M parser verdict :=
  let! b := on_sax (Dom.parse_error JsonParseError) in ret (Return b).

(** A value was reported: on to the state, unless the handler said no. *)
Definition reported (m : M Dom.dom bool) : M parser verdict :=
  let! ok := on_sax m in ret (if ok : bool then Evaluate else Return false).

(** A key and the separator after it; the next token is read. *)
Definition parse_key (last : token_type) : M parser verdict :=
  if bool_decide (last <> value_string) then syntax_error
  else
    let! k := on_lexer (gets token_buffer) in
    let! ok := on_sax (Dom.key k) in
    if negb ok then ret (Return false)
    else
      let! t := get_token in
      if bool_decide (t <> name_separator) then syntax_error
      else ret Continue.

Definition begin_object_case : M parser verdict :=
  let! ok := on_sax Dom.start_object in
  if negb ok then ret (Return false)
  else
    let! t := get_token in
    if bool_decide (t = end_object) then reported Dom.end_object
    else
      let! v := parse_key t in
      match v with
      | Continue => do! push_state false in let! _ := get_token in ret Continue
      | _ => ret v
      end.

Definition begin_array_case : M parser verdict :=
  let! ok := on_sax Dom.start_array in
  if negb ok then ret (Return false)
  else
    let! t := get_token in
    if bool_decide (t = end_array) then reported Dom.end_array
    else do! push_state true in ret Continue.

(** The switch on [last_token]. *)
Definition value_case : M parser verdict :=
  let! t := gets last_token in
  match t with
  | begin_object => begin_object_case
  | begin_array => begin_array_case
  | value_float =>
      let! res := on_lexer (gets number_float) in
      if negb (Float.isfinite res)
      then let! b := on_sax (Dom.parse_error JsonOutOfRange) in ret (Return b)
      else reported (Dom.value (JFloat res))
  | literal_false => reported (Dom.value (JBool false))
  | literal_null => reported (Dom.value JNull)
  | literal_true => reported (Dom.value (JBool true))
  | value_integer =>
      let! z := on_lexer (gets number_integer) in reported (Dom.value (JInt z))
  | value_string =>
      let! s := on_lexer (gets token_buffer) in reported (Dom.value (JString s))
  | value_unsigned =>
      let! z := on_lexer (gets number_unsigned) in reported (Dom.value (JInt z))
  | _ => syntax_error
  end.

(** The end of a container; the next iteration evaluates the state below it. *)
Definition close (m : M Dom.dom bool) : M parser verdict :=
  let! ok := on_sax m in
  if negb ok then ret (Return false)
  else
    let! l := gets states in
    do! lift (assert_that (match l with [] => false | _ => true end)) in
    do! pop_state in
    ret Evaluate.

(** After a value. *)
Definition state_case : M parser verdict :=
  let! l := gets states in
  match l with
  | [] => ret (Return true)
  | true :: _ =>
      let! t := get_token in
      if bool_decide (t = value_separator) then let! _ := get_token in ret Continue
      else if bool_decide (t = end_array) then close Dom.end_array
      else syntax_error
  | false :: _ =>
      let! t := get_token in
      if bool_decide (t = value_separator) then
        let! t := get_token in
        let! v := parse_key t in
        match v with
        | Continue => let! _ := get_token in ret Continue
        | _ => ret v
        end
      else if bool_decide (t = end_object) then close Dom.end_object
      else syntax_error
  end.

Fixpoint sax_loop (fuel : nat) (skip_to_state_evaluation : bool) : M parser bool :=
  match fuel with
  | O => undefined Diverged
  | S fuel' =>
      let! v := (if skip_to_state_evaluation then ret Evaluate else value_case) in
      match v with
      | Return b => ret b
      | Continue => sax_loop fuel' false
      | Evaluate =>
          let! v := state_case in
          match v with
          | Return b => ret b
          | Continue => sax_loop fuel' false
          | Evaluate => sax_loop fuel' true
          end
      end
  end.

(** Each iteration but the last reads a token. *)
Definition sax_parse_internal : M parser bool :=
  let! n := gets (fun P => enough (m_lexer P)) in
  sax_loop (S n) false.

(** The constructor reads the first token. *)
Definition make (adapter : bytes) (allow_exceptions skip_comments : bool) : outcome parser :=
  p ← get_token (mkParser (Lexer.make adapter skip_comments) uninitialized
                   (Dom.make JNull allow_exceptions) []);
  Ret (snd p).

(** [parse(strict, result)]; [None] is the discarded value. *)
Definition parse (strict : bool) : M parser (option json) :=
  let! _ := sax_parse_internal in
  let! t := (if strict then get_token else ret end_of_input) in
  do! (if bool_decide (t <> end_of_input)
       then let! _ := on_sax (Dom.parse_error JsonParseError) in ret tt
       else ret tt) in
  let! d := gets sax in
  ret (if Dom.errored d then None else Some (Dom.root d)).

(** [basic_json::parse] without a callback. *)
Definition basic_json_parse (s : bytes) (allow_exceptions ignore_comments : bool)
    : outcome (option json) :=
  P ← make s allow_exceptions ignore_comments;
  p ← parse true P;
  Ret (fst p).

End Parser.
