(* ===== verification/JsonDump.v ===== *)
(** * The serializer of json.hpp: definitions

    [detail::serializer] over a string output.  The buffers are memory blocks of
    the sizes the class declares, and every access to them is checked. *)
From S2P Require Import Prelude Json JsonUtf8 JsonFloat.

Module Serializer.
Import Json.

Inductive error_handler_t : Type := strict | replace | ignore.
#[export] Instance error_handler_eq_dec : EqDecision error_handler_t.
Proof. solve_decision. Defined.

Record serializer := mkSerializer {
  o : bytes;                   (* what the output adapter has received *)
  number_buffer : bytes;       (* std::array<char, 64> *)
  string_buffer : bytes;       (* std::array<char, 512> *)
  indent_char : Byte.byte;
  indent_string : bytes;
  error_handler : error_handler_t
}.

Definition make (ichar : Byte.byte) (handler : error_handler_t) : serializer :=
  mkSerializer [] (replicate 64 Byte.x00) (replicate 512 Byte.x00) ichar (replicate 512 ichar) handler.

Definition write_characters (s : bytes) : M serializer unit := modify (fun S =>
  mkSerializer (o S ++ s) (number_buffer S) (string_buffer S) (indent_char S) (indent_string S)
    (error_handler S)).
Definition write_character (c : Z) : M serializer unit := write_characters [byte.of_Z c].

Definition set_number_buffer (b : bytes) : M serializer unit := modify (fun S =>
  mkSerializer (o S) b (string_buffer S) (indent_char S) (indent_string S) (error_handler S)).
Definition set_string_buffer (b : bytes) : M serializer unit := modify (fun S =>
  mkSerializer (o S) (number_buffer S) b (indent_char S) (indent_string S) (error_handler S)).
Definition set_indent_string (b : bytes) : M serializer unit := modify (fun S =>
  mkSerializer (o S) (number_buffer S) (string_buffer S) (indent_char S) b (error_handler S)).

(** ** Integers *)

(** [count_digits]: at most five rounds for 64 bits. *)
Fixpoint count_digits_loop (fuel : nat) (x n_digits : Z) : outcome Z :=
  match fuel with
  | O => Undef Diverged
  | S fuel' =>
      if x <? 10 then Ret n_digits
      else if x <? 100 then Ret (n_digits + 1)
      else if x <? 1000 then Ret (n_digits + 2)
      else if x <? 10000 then Ret (n_digits + 3)
      else count_digits_loop fuel' (x / 10000) (n_digits + 4)
  end.
Definition count_digits (x : Z) : outcome Z := count_digits_loop 6 x 1.

(** [remove_sign] of a negative [number_integer_t]. *)
Definition remove_sign (x : Z) : outcome Z :=
  _ ← assert_that ((x <? 0) && (x <? 2 ^ 63 - 1));
  Ret (u64 (u64 (- (x + 1)) + 1)).

(** The table of the source, a pair after the other. *)
Definition digits_to_99 : bytes := lit
 "00010203040506070809101112131415161718192021222324252627282930313233343536373839404142434445464748495051525354555657585960616263646566676869707172737475767778798081828384858687888990919293949596979899".

(** [*(--buffer_ptr) = c] *)
Definition put_before (p : Z) (c : Byte.byte) (buf : bytes) : outcome bytes := store (p - 1) [c] buf.

Definition put_pair (p digits_index : Z) (buf : bytes) : outcome bytes :=
  c1 ← load1 (2 * digits_index + 1) digits_to_99;
  buf ← put_before p c1 buf;
  c0 ← load1 (2 * digits_index) digits_to_99;
  put_before (p - 1) c0 buf.

Fixpoint pairs_loop (fuel : nat) (p abs_value : Z) (buf : bytes) : outcome (Z * Z * bytes) :=
  match fuel with
  | O => Undef Diverged
  | S fuel' =>
      if 100 <=? abs_value then
        let digits_index := abs_value mod 100 in
        buf ← put_pair p digits_index buf;
        pairs_loop fuel' (p - 2) (abs_value / 100) buf
      else Ret (p, abs_value, buf)
  end.

(** The text of an integer in the buffer: its length and the buffer. *)
Definition integer_text (x : Z) (buf : bytes) : outcome (Z * bytes) :=
  r ← (if x <? 0 then
         buf ← store 0 [byte.of_Z 45] buf;
         abs_value ← remove_sign x;
         n ← count_digits abs_value;
         Ret (abs_value, 1 + n, buf)
       else n ← count_digits x; Ret (x, n, buf));
  let '(abs_value, n_chars, buf) := r in
  _ ← assert_that (n_chars <? 64 - 1);
  r ← pairs_loop 11 n_chars abs_value buf;
  let '(p, abs_value, buf) := r in
  buf ← (if 10 <=? abs_value then put_pair p abs_value buf
         else put_before p (byte.of_Z (48 + abs_value)) buf);
  Ret (n_chars, buf).

Definition dump_integer (x : Z) : M serializer unit :=
  if x =? 0 then write_character 48
  else
    let! buf := gets number_buffer in
    let! r := lift (integer_text x buf) in
    do! set_number_buffer (snd r) in
    let! text := lift (load 0 (fst r) (snd r)) in
    write_characters text.

(** ** Floating-point numbers *)
Definition dump_float (x : Z) : M serializer unit :=
  if negb (Float.isfinite x) then write_characters (lit "null")
  else
    let! buf := gets number_buffer in
    let! r := lift (to_chars 0 64 buf x) in
    do! set_number_buffer (snd r) in
    let! text := lift (load 0 (fst r) (snd r)) in
    write_characters text.

(** ** Strings *)

(** The local variables of [dump_escaped]. *)
Record escaping := mkEscaping {
  codepoint : Z;
  state : Z;
  nbytes : Z;                  (* bytes *)
  bytes_after_last_accept : Z;
  undumped_chars : Z
}.

(** Bytes written to [string_buffer] from [bytes] on. *)
Definition put_string (n : Z) (s : bytes) : M serializer unit :=
  let! buf := gets string_buffer in
  let! buf := lift (store n s buf) in
  set_string_buffer buf.

(** [o->write_characters(string_buffer.data(), n)] *)
Definition flush (n : Z) : M serializer unit :=
  let! buf := gets string_buffer in
  let! text := lift (load 0 n buf) in
  write_characters text.

(** ["%04x"] of a 16-bit value. *)
Definition hex_digit (d : Z) : Byte.byte := byte.of_Z (if d <? 10 then 48 + d else 87 + d).
Definition hex4 (x : Z) : bytes :=
  [hex_digit (x / 4096); hex_digit (x / 256 mod 16); hex_digit (x / 16 mod 16); hex_digit (x mod 16)].

Definition backslash (c : Z) : bytes := [byte.of_Z 92; byte.of_Z c].

(** What [snprintf] prints of an escaped code point; it also writes a null byte
    after it. *)
Definition unicode_escape (codepoint : Z) : bytes :=
  if codepoint <=? 0xFFFF then backslash 117 ++ hex4 (u16 codepoint)
  else backslash 117 ++ hex4 (u16 (u32 (0xD7C0 + Z.shiftr codepoint 10))) ++
       backslash 117 ++ hex4 (u16 (u32 (0xDC00 + Z.land codepoint 0x3FF))).

(** The number of bytes after a decoded code point, whose last byte is [b]. *)
Definition write_codepoint (ensure_ascii : bool) (b : Byte.byte) (cp n : Z) : M serializer Z :=
  if cp =? 0x08 then do! put_string n (backslash 98) in ret (n + 2)
  else if cp =? 0x09 then do! put_string n (backslash 116) in ret (n + 2)
  else if cp =? 0x0A then do! put_string n (backslash 110) in ret (n + 2)
  else if cp =? 0x0C then do! put_string n (backslash 102) in ret (n + 2)
  else if cp =? 0x0D then do! put_string n (backslash 114) in ret (n + 2)
  else if cp =? 0x22 then do! put_string n (backslash 34) in ret (n + 2)
  else if cp =? 0x5C then do! put_string n (backslash 92) in ret (n + 2)
  else if (cp <=? 0x1F) || (ensure_ascii && (0x7F <=? cp)) then
    let text := unicode_escape cp in
    do! put_string n (text ++ [Byte.x00]) in ret (n + zlen text)
  else do! put_string n [b] in ret (n + 1).

(** The buffer is written out when a code point might not fit any more. *)
Definition flush_if_full (n : Z) : M serializer Z :=
  if u64 (512 - n) <? 13 then do! flush n in ret 0 else ret n.

Definition replacement (ensure_ascii : bool) : bytes :=
  if ensure_ascii then lit "\ufffd" else [Byte.xef; Byte.xbf; Byte.xbd].

(** The case of [UTF8_REJECT]; whether the byte is read again. *)
Definition reject_case (ensure_ascii : bool) (cp : Z) (e : escaping) : M serializer (escaping * bool) :=
  let! h := gets error_handler in
  match h with
  | strict => throw JsonTypeError
  | _ =>
      let again := 0 <? undumped_chars e in
      let n := bytes_after_last_accept e in
      match h with
      | replace =>
          do! put_string n (replacement ensure_ascii) in
          let! n := flush_if_full (n + zlen (replacement ensure_ascii)) in
          ret (mkEscaping cp Utf8.UTF8_ACCEPT n n 0, again)
      | _ => ret (mkEscaping cp Utf8.UTF8_ACCEPT n n 0, again)
      end
  end.

(** An iteration of the loop, at the byte [b]. *)
Definition escape_byte (ensure_ascii : bool) (b : Byte.byte) (e : escaping)
    : M serializer (escaping * bool) :=
  let! r := lift (Utf8.decode (state e) (codepoint e) (uchar b)) in
  let st := fst r in
  let cp := snd r in
  if st =? Utf8.UTF8_ACCEPT then
    let! n := write_codepoint ensure_ascii b cp (nbytes e) in
    let! n := flush_if_full n in
    ret (mkEscaping cp st n n 0, false)
  else if st =? Utf8.UTF8_REJECT then
    reject_case ensure_ascii cp (mkEscaping cp st (nbytes e) (bytes_after_last_accept e) (undumped_chars e))
  else
    do! when (negb ensure_ascii) (put_string (nbytes e) [b]) in
    ret (mkEscaping cp st (if ensure_ascii then nbytes e else nbytes e + 1)
           (bytes_after_last_accept e) (undumped_chars e + 1), false).

(** A byte is read at most twice. *)
Fixpoint escape_loop (fuel : nat) (ensure_ascii : bool) (s : bytes) (e : escaping)
    : M serializer escaping :=
  match s with
  | [] => ret e
  | b :: s' =>
      match fuel with
      | O => undefined Diverged
      | S fuel' =>
          let! r := escape_byte ensure_ascii b e in
          escape_loop fuel' ensure_ascii (if snd r : bool then s else s') (fst r)
      end
  end.

Definition dump_escaped (s : bytes) (ensure_ascii : bool) : M serializer unit :=
  let! e := escape_loop (2 * length s) ensure_ascii s (mkEscaping 0 Utf8.UTF8_ACCEPT 0 0 0) in
  if state e =? Utf8.UTF8_ACCEPT then when (0 <? nbytes e) (flush (nbytes e))
  else
    let! h := gets error_handler in
    match h with
    | strict => throw JsonTypeError
    | ignore => flush (bytes_after_last_accept e)
    | replace =>
        do! flush (bytes_after_last_accept e) in
        write_characters (replacement ensure_ascii)
    end.

(** ** Values *)

(** [o->write_characters(indent_string.c_str(), n)]; the null byte after the
    string is part of what [c_str] points to. *)
Definition write_indent (n : Z) : M serializer unit :=
  let! s := gets indent_string in
  let! text := lift (load 0 n (s ++ [Byte.x00])) in
  write_characters text.

(** [indent_string.resize(indent_string.size() * 2, ' ')] when it is too short. *)
Definition grow_indent (new_indent : Z) : M serializer unit :=
  let! s := gets indent_string in
  when (zlen s <? new_indent) (set_indent_string (s ++ replicate (length s) (byte.of_Z 32))).

Definition quoted_key (ensure_ascii : bool) (k : bytes) (separator : bytes) : M serializer unit :=
  do! write_character 34 in
  do! dump_escaped k ensure_ascii in
  write_characters separator.

(** The loops over the elements of a container: each element, and a separator
    after all but the last. *)
Definition elements {A} (item : A -> M serializer unit) (separator : M serializer unit)
    : list A -> M serializer unit :=
  fix go l :=
    match l with
    | [] => ret tt
    | [x] => item x
    | x :: l' => do! item x in do! separator in go l'
    end.

Fixpoint dump (val : json) (pretty_print ensure_ascii : bool) (indent_step current_indent : Z)
    : M serializer unit :=
  let new_indent := u32 (current_indent + indent_step) in
  match val with
  | JObject [] => write_characters (lit "{}")
  | JObject m =>
      if pretty_print then
        do! write_characters (lit "{" ++ [Byte.x0a]) in
        do! grow_indent new_indent in
        do! elements (fun p =>
              do! write_indent new_indent in
              do! quoted_key ensure_ascii (fst p) ([dquote] ++ lit ": ") in
              dump (snd p) true ensure_ascii indent_step new_indent)
            (write_characters (lit "," ++ [Byte.x0a])) m in
        do! write_character 10 in
        do! write_indent current_indent in
        write_character 125
      else
        do! write_character 123 in
        do! elements (fun p =>
              do! quoted_key ensure_ascii (fst p) ([dquote] ++ lit ":") in
              dump (snd p) false ensure_ascii indent_step current_indent)
            (write_character 44) m in
        write_character 125
  | JArray [] => write_characters (lit "[]")
  | JArray l =>
      if pretty_print then
        do! write_characters (lit "[" ++ [Byte.x0a]) in
        do! grow_indent new_indent in
        do! elements (fun v =>
              do! write_indent new_indent in
              dump v true ensure_ascii indent_step new_indent)
            (write_characters (lit "," ++ [Byte.x0a])) l in
        do! write_character 10 in
        do! write_indent current_indent in
        write_character 93
      else
        do! write_character 91 in
        do! elements (fun v => dump v false ensure_ascii indent_step current_indent)
            (write_character 44) l in
        write_character 93
  | JString s =>
      do! write_character 34 in
      do! dump_escaped s ensure_ascii in
      write_character 34
  | JBool b => write_characters (if b then lit "true" else lit "false")
  | JInt z => dump_integer z
  | JFloat x => dump_float x
  | JNull => write_characters (lit "null")
  end.

(** [basic_json::dump] *)
Definition basic_json_dump (j : json) (indent : Z) (indent_char : Byte.byte) (ensure_ascii : bool)
    (handler : error_handler_t) : outcome bytes :=
  let S := make indent_char handler in
  p ← (if 0 <=? indent then dump j true ensure_ascii (u32 indent) 0 S
       else dump j false ensure_ascii 0 0 S);
  Ret (o (snd p)).

End Serializer.
