(* ===== verification/JsonLexing.v ===== *)
(** * The lexer of json.hpp: theorems

    What the lexer sees is [rest]: the byte that was put back, if any, and what
    the adapter has left.  Every function of the lexer is total on every input;
    the relations [char_text], [number_text] and [token_text] are the grammar of
    RFC 8259 for what it accepts. *)
From S2P Require Import Prelude JsonUtf8 JsonFloat JsonLexer.

Module Lexing.
Import Lexer.

Definition rest (L : lexer) : bytes :=
  if next_unget L then (if current L =? eof then [] else byte.of_Z (current L) :: ia L) else ia L.

(** After the end was read there is nothing left. *)
Definition ok (L : lexer) : Prop :=
  -1 <= current L < 256 /\ (next_unget L = true -> current L = eof -> ia L = []).

Definition next (s : bytes) : Z := match s with [] => eof | b :: _ => uchar b end.

(** What reading leaves alone. *)
Definition same (L L' : lexer) : Prop :=
  token_buffer L' = token_buffer L /\ ignore_comments L' = ignore_comments L /\
  number_integer L' = number_integer L /\ number_unsigned L' = number_unsigned L /\
  number_float L' = number_float L.

(** The lexer after [get]. *)
Record got (L L' : lexer) : Prop := mkGot {
  got_ok : ok L';
  got_rest : rest L' = tail (rest L);
  got_current : current L' = next (rest L);
  got_unget : next_unget L' = false;
  got_same : same L L';
  got_text : current L' <> eof -> token_string L' <> [];
  got_total : chars_read_total (position L') = chars_read_total (position L) + 1
}.

Lemma get_spec L : ok L -> exists L', get L = Ret (next (rest L), L') /\ got L L'.
Proof.
  intros [Hc He]. unfold get. destruct (next_unget L) eqn:En.
  - assert (Hn : next (rest L) = current L).
    { unfold rest. rewrite En. destruct (Z.eqb_spec (current L) eof) as [E|E]; [done|]. cbn.
      rewrite uchar_of_Z, Z.mod_small; [done|]. unfold eof in E; lia. }
    rewrite Hn. eexists. split; [done|]. constructor; cbn; try done.
    + unfold rest. cbn. rewrite En. destruct (Z.eqb_spec (current L) eof) as [E|E]; cbn; auto.
    + intros H. destruct (Z.eqb_spec (current L) eof) as [E|E]; [done|]. by destruct (token_string L).
    + by destruct (current L =? 10).
  - unfold rest. rewrite En. destruct (ia L) as [|b s] eqn:Ei; cbn.
    + eexists. split; [done|]. constructor; unfold rest; cbn; rewrite ?En, ?Ei; done.
    + pose proof (uchar_range b). eexists. split; [done|]. constructor; unfold rest; cbn; rewrite ?En, ?Ei; try done.
      * split; [cbn; lia|discriminate].
      * intros Hb. destruct (Z.eqb_spec (uchar b) eof) as [E|E]; [done|].
        by destruct (token_string L).
      * by destruct (uchar b =? 10).
Qed.

Lemma unget_spec L :
  ok L -> next_unget L = false -> (current L = eof -> ia L = []) ->
  (current L <> eof -> token_string L <> []) ->
  exists L', unget L = Ret (tt, L') /\ ok L' /\ same L L' /\
    rest L' = (if current L =? eof then [] else [byte.of_Z (current L)]) ++ rest L /\
    chars_read_total (position L') = chars_read_total (position L) - 1.
Proof.
  intros [Hc _] Hn He Ht. unfold unget.
  destruct (Z.eqb_spec (current L) eof) as [E|E]; cbn.
  - eexists. split; [done|]. split; [by split|]. split; [done|]. split.
    + unfold rest. cbn. rewrite Hn, He by done. by rewrite (proj2 (Z.eqb_eq _ _) E).
    + by destruct (chars_read_current_line (position L) =? 0).
  - rewrite bool_decide_false by auto. cbn. eexists. split; [done|].
    split; [by split|]. split; [done|]. split.
    + unfold rest. cbn. rewrite Hn. by rewrite (proj2 (Z.eqb_neq _ _) E).
    + by destruct (chars_read_current_line (position L) =? 0).
Qed.

(** Taking back what was just read. *)
Lemma unget_got L L' :
  ok L -> got L L' ->
  exists L'', unget L' = Ret (tt, L'') /\ ok L'' /\ same L L'' /\ rest L'' = rest L /\
    chars_read_total (position L'') = chars_read_total (position L).
Proof.
  intros Hok [H1 H2 H3 H4 H5 H6 H7].
  assert (Hia : ia L' = tail (rest L)) by (rewrite <- H2; unfold rest; by rewrite H4).
  destruct (unget_spec L') as (L'' & E & G1 & G2 & G3 & G4); [done|done| |done|].
  { intros E. rewrite Hia. rewrite H3 in E. destruct (rest L) as [|b s]; [done|].
    pose proof (uchar_range b). unfold next, eof in E. lia. }
  exists L''. split; [done|]. split; [done|]. split.
  - unfold same in *. intuition congruence.
  - split; [|lia]. rewrite G3, H3, H2. destruct (rest L) as [|b s]; cbn; [done|].
    pose proof (uchar_range b). destruct (Z.eqb_spec (uchar b) eof); [unfold eof in *; lia|].
    by rewrite of_Z_uchar.
Qed.

(** ** Reading *)

(** From [L] to [L'] the text [s] was read and [d] was added to the buffer. *)
Record reads (L : lexer) (s d : bytes) (L' : lexer) : Prop := mkReads {
  reads_ok : ok L';
  reads_rest : rest L = s ++ rest L';
  reads_buffer : token_buffer L' = token_buffer L ++ d;
  reads_comments : ignore_comments L' = ignore_comments L;
  reads_total : chars_read_total (position L') = chars_read_total (position L) + zlen s
}.
Definition reads_some (L L' : lexer) : Prop := ok L' /\ exists s, rest L = s ++ rest L' /\
  ignore_comments L' = ignore_comments L /\
  chars_read_total (position L) + zlen s <= chars_read_total (position L').

Lemma reads_refl L : ok L -> reads L [] [] L.
Proof. intros H. constructor; rewrite ?app_nil_r; try done. rewrite zlen_nil. lia. Qed.
Lemma reads_trans L1 s d L2 s' d' L3 :
  reads L1 s d L2 -> reads L2 s' d' L3 -> reads L1 (s ++ s') (d ++ d') L3.
Proof.
  intros [H1 H2 H3 H4 H5] [G1 G2 G3 G4 G5]. constructor; [done|..].
  - by rewrite H2, G2, app_assoc.
  - by rewrite G3, H3, app_assoc.
  - by rewrite G4.
  - rewrite G5, H5, zlen_app. lia.
Qed.
Lemma reads_add L1 s d L2 d' L3 :
  reads L1 s d L2 -> reads L2 [] d' L3 -> reads L1 s (d ++ d') L3.
Proof. intros H1 H2. rewrite <- (app_nil_r s). by eapply reads_trans. Qed.
Lemma reads_reads_some L s d L' : reads L s d L' -> reads_some L L'.
Proof. intros [? ? ? ? ?]. split; [done|]. exists s. repeat split; try done. lia. Qed.
Lemma reads_some_trans L1 L2 L3 : reads_some L1 L2 -> reads_some L2 L3 -> reads_some L1 L3.
Proof.
  intros (_ & s & H & Hc & Ht) (H2 & s' & H' & Hc' & Ht'). split; [done|]. exists (s ++ s').
  split; [by rewrite H, H', app_assoc|]. split; [congruence|]. rewrite zlen_app. lia.
Qed.
Lemma reads_some_refl L : ok L -> reads_some L L.
Proof. intros H. split; [done|]. exists []. repeat split; try done. rewrite zlen_nil. lia. Qed.

Lemma got_reads L L' b s : rest L = b :: s -> got L L' -> reads L [b] [] L'.
Proof.
  intros Hr [H1 H2 H3 H4 (H5 & H6 & _) _ H7]. constructor; try done.
  - by rewrite H2, Hr.
  - by rewrite H5, app_nil_r.
Qed.
Lemma got_reads_some L L' : got L L' -> reads_some L L'.
Proof.
  intros H. destruct (rest L) as [|b s] eqn:Hr; [|by eapply reads_reads_some, got_reads].
  destruct H as [H1 H2 H3 H4 (H5 & H6 & _) _ H7]. split; [done|]. exists [].
  repeat split; [by rewrite Hr, H2, Hr|done|]. rewrite zlen_nil. lia.
Qed.

Lemma next_range s : -1 <= next s < 256.
Proof. destruct s as [|b s]; [done|]. pose proof (uchar_range b). cbn. lia. Qed.
Lemma next_inv s c : next s = c -> c <> eof -> exists s', s = byte.of_Z c :: s'.
Proof. destruct s as [|b s]; [intros <-; done|]. intros <- _. exists s. cbn [next]. by rewrite of_Z_uchar. Qed.
Lemma next_ne_eof L L' c : got L L' -> next (rest L) = c -> c <> eof -> reads L [byte.of_Z c] [] L'.
Proof. intros H E Hc. destruct (next_inv _ _ E Hc) as [s Hs]. by eapply got_reads. Qed.

(** No exception: no assertion fails either. *)
Definition never (_ : exn) : Prop := False.

Lemma wp_get L Q : ok L -> (forall L', got L L' -> Q (next (rest L)) L') -> wp never get Q L.
Proof. intros H HQ. unfold wp. destruct (get_spec L H) as (L' & -> & G). by apply HQ. Qed.

Lemma get_cons L b s :
  ok L -> rest L = b :: s -> exists L', get L = Ret (uchar b, L') /\ got L L' /\ reads L [b] [] L'.
Proof.
  intros H Hr. destruct (get_spec L H) as (L' & E & G). rewrite Hr in E. exists L'.
  split; [done|]. split; [done|]. by eapply got_reads.
Qed.

Lemma add_spec L c : ok L -> reads L [] [byte.of_Z c] (with_buffer (token_buffer L ++ [byte.of_Z c]) L).
Proof. intros H. constructor; try done. cbn. rewrite zlen_nil. lia. Qed.

Lemma wp_add L c (Q : unit -> lexer -> Prop) :
  Q tt (with_buffer (token_buffer L ++ [byte.of_Z c]) L) -> wp never (add c) Q L.
Proof. done. Qed.
Lemma wp_read_current L (Q : Z -> lexer -> Prop) : Q (current L) L -> wp never read_current Q L.
Proof. done. Qed.
Lemma wp_ret {A} L (a : A) (Q : A -> lexer -> Prop) : Q a L -> wp never (ret a) Q L.
Proof. done. Qed.
Lemma wp_assert L b (Q : unit -> lexer -> Prop) :
  b = true -> Q tt L -> wp never (lift (assert_that b)) Q L.
Proof. by intros ->. Qed.
Lemma wp_gets {A} L (f : lexer -> A) (Q : A -> lexer -> Prop) : Q (f L) L -> wp never (gets f) Q L.
Proof. done. Qed.

Lemma enough_rest L s : ok L -> rest L = s -> (length s < enough L)%nat.
Proof.
  intros _ <-. unfold rest, enough. destruct (next_unget L); [|lia].
  destruct (current L =? eof); cbn; lia.
Qed.

(** ** Hexadecimal digits *)

Definition hexval (c : Z) : option Z :=
  if (48 <=? c) && (c <=? 57) then Some (c - 0x30)
  else if (65 <=? c) && (c <=? 70) then Some (c - 0x37)
  else if (97 <=? c) && (c <=? 102) then Some (c - 0x57)
  else None.

Lemma hexval_range c v : hexval c = Some v -> 0 <= v < 16 /\ 0 <= c < 256.
Proof.
  unfold hexval. repeat match goal with |- context [if ?b then _ else _] => destruct b eqn:? end;
    intros ?; simplify_eq; lia.
Qed.

(** [hex_text n t v]: [n] digits of the value [v]. *)
Inductive hex_text : nat -> bytes -> Z -> Prop :=
| hex_nil : hex_text 0 [] 0
| hex_cons n c t v w :
    hexval c = Some v -> hex_text n t w ->
    hex_text (S n) (byte.of_Z c :: t) (v * 16 ^ Z.of_nat n + w).

Lemma hex_text_range n t v : hex_text n t v -> 0 <= v < 16 ^ Z.of_nat n.
Proof.
  induction 1 as [|n c t v w Hv _ IH]; [lia|]. apply hexval_range in Hv as [Hv _].
  rewrite Nat2Z.inj_succ, Z.pow_succ_r by lia. nia.
Qed.

(** The factors of [n] digits. *)
Definition factors (n : nat) : list Z := (fun i => 4 * Z.of_nat i) <$> rev (seq 0 n).

Lemma factors_S n : factors (S n) = 4 * Z.of_nat n :: factors n.
Proof. unfold factors. by rewrite seq_S, rev_app_distr. Qed.

Lemma hex_step n cp L :
  (n < 4)%nat ->
  hex_digits (factors (S n)) cp L =
  (let! c := get in
   match hexval c with
   | Some v => hex_digits (factors n) (cp + v * 16 ^ Z.of_nat n)
   | None => ret (-1)
   end) L.
Proof.
  intros Hn. rewrite factors_S. cbn [hex_digits]. rewrite !M_bind_eq.
  destruct (get L) as [[c L']| |]; [|done..].
  assert (Hs : forall v, 0 <= v < 16 -> i32 (u32 (Z.shiftl (u32 v) (4 * Z.of_nat n))) = v * 16 ^ Z.of_nat n).
  { intros v Hv. rewrite (uwrap_small 32 v) by lia.
    do 4 (destruct n as [|n]; [rewrite Z.shiftl_mul_pow2 by lia; cbn -[swrap uwrap Z.mul];
      rewrite uwrap_small by lia; apply swrap_small; unfold srange; lia|]). lia. }
  unfold hexval.
  destruct ((48 <=? c) && (c <=? 57)) eqn:E1; [rewrite Hs by lia; done|].
  destruct ((65 <=? c) && (c <=? 70)) eqn:E2; [rewrite Hs by lia; done|].
  destruct ((97 <=? c) && (c <=? 102)) eqn:E3; [rewrite Hs by lia; done|]. done.
Qed.

(** Reading [n] more digits after the code point [cp]. *)
Lemma hex_digits_spec n cp L :
  ok L -> (n <= 4)%nat -> 0 <= cp -> cp + 16 ^ Z.of_nat n <= 65536 ->
  wp never (hex_digits (factors n) cp) (fun r L' =>
    (r = -1 /\ reads_some L L') \/
    exists t v, hex_text n t v /\ r = cp + v /\ reads L t [] L') L.
Proof.
  revert cp L. induction n as [|n IH]; intros cp L Hok Hn H0 Hc.
  - cbn. apply wp_bind, wp_assert; [lia|]. apply wp_ret. right. exists [], 0.
    split; [constructor|]. split; [lia|]. by apply reads_refl.
  - unfold wp. rewrite hex_step by lia. apply wp_bind, wp_get; [done|]. intros L1 G.
    destruct (hexval (next (rest L))) as [v|] eqn:E.
    + apply hexval_range in E as Hv. rewrite Nat2Z.inj_succ, Z.pow_succ_r in Hc by lia.
      eapply wp_mono; [apply IH; [apply G|lia|nia|nia]|].
      intros r L2 [[-> Hr]|(t & w & Ht & -> & Hr)].
      * left. split; [done|]. eapply reads_some_trans; [by eapply got_reads_some|done].
      * right. exists (byte.of_Z (next (rest L)) :: t), (v * 16 ^ Z.of_nat n + w).
        split; [by constructor|]. split; [lia|].
        apply (reads_trans L [_] [] L1 t []); [|done].
        apply next_ne_eof; [done|done|]. unfold eof. lia.
    + apply wp_ret. left. split; [done|]. by eapply got_reads_some.
Qed.

Lemma hex_digits_text n t v cp L s :
  hex_text n t v -> ok L -> rest L = t ++ s -> (n <= 4)%nat -> 0 <= cp ->
  cp + 16 ^ Z.of_nat n <= 65536 ->
  exists L', hex_digits (factors n) cp L = Ret (cp + v, L') /\ reads L t [] L'.
Proof.
  intros Ht. revert cp L. induction Ht as [|n c t v w Hv Ht IH]; intros cp L Hok Hr Hn H0 Hc.
  - exists L. split; [|by apply reads_refl]. rewrite Z.add_0_r. cbn.
    destruct (Z.leb_spec 0 cp), (Z.leb_spec cp 65535); try lia. done.
  - rewrite hex_step by lia. apply hexval_range in Hv as Hv'.
    destruct (get_cons L _ _ Hok Hr) as (L1 & E & _ & G). rewrite M_bind_eq, E.
    rewrite uchar_of_Z, Z.mod_small by lia. rewrite Hv.
    rewrite Nat2Z.inj_succ, Z.pow_succ_r in Hc by lia.
    destruct (IH (cp + v * 16 ^ Z.of_nat n) L1) as (L' & -> & R); [apply G| |lia|nia|nia|].
    { destruct G as [_ G _ _ _]. rewrite Hr in G. by injection G. }
    exists L'. rewrite Z.add_assoc. split; [done|]. by apply (reads_trans L [_] [] L1 t []).
Qed.

Lemma get_codepoint_factors : get_codepoint =
  (let! c := read_current in do! lift (assert_that (c =? 117)) in hex_digits (factors 4) 0).
Proof. done. Qed.

Lemma get_codepoint_spec L :
  ok L -> current L = 117 ->
  wp never get_codepoint (fun r L' =>
    (r = -1 /\ reads_some L L') \/ (exists t, hex_text 4 t r /\ reads L t [] L')) L.
Proof.
  intros Hok Hc. rewrite get_codepoint_factors. apply wp_bind, wp_read_current.
  apply wp_bind, wp_assert; [lia|].
  eapply wp_mono; [apply hex_digits_spec; [done|lia..]|].
  intros r L' [?|(t & v & H1 & -> & H2)]; [by left|right]. eauto.
Qed.

Lemma get_codepoint_text L t v s :
  hex_text 4 t v -> ok L -> current L = 117 -> rest L = t ++ s ->
  exists L', get_codepoint L = Ret (v, L') /\ reads L t [] L'.
Proof.
  intros Ht Hok Hc Hr. rewrite get_codepoint_factors. cbn [bindM read_current gets]. rewrite Hc. cbn.
  destruct (hex_digits_text 4 t v 0 L s) as (L' & E & R); try done. eauto.
Qed.

(** ** Strings *)

Definition escapes : list (Z * Z) :=
  [(34, 34); (92, 92); (47, 47); (98, 8); (102, 12); (110, 10); (114, 13); (116, 9)].

Definition surrogate_pair (hi lo : Z) : Z := 0x10000 + (hi - 0xD800) * 1024 + (lo - 0xDC00).

(** [char_text t d]: the text [t] of one character of a string stands for the
    bytes [d]. *)
Inductive char_text : bytes -> bytes -> Prop :=
| char_plain c0 rs cs :
    Utf8.row c0 rs -> Utf8.fits rs cs -> 0x20 <= c0 -> c0 <> 34 -> c0 <> 92 ->
    char_text (byte.of_Z <$> (c0 :: cs)) (byte.of_Z <$> (c0 :: cs))
| char_short c d :
    (c, d) ∈ escapes -> char_text [byte.of_Z 92; byte.of_Z c] [byte.of_Z d]
| char_unicode t cp :
    hex_text 4 t cp -> Utf8.scalar cp ->
    char_text (byte.of_Z 92 :: byte.of_Z 117 :: t) (byte.of_Z <$> Utf8.encode cp)
| char_pair t1 hi t2 lo :
    hex_text 4 t1 hi -> hex_text 4 t2 lo -> 0xD800 <= hi <= 0xDBFF -> 0xDC00 <= lo <= 0xDFFF ->
    char_text (byte.of_Z 92 :: byte.of_Z 117 :: t1 ++ byte.of_Z 92 :: byte.of_Z 117 :: t2)
      (byte.of_Z <$> Utf8.encode (surrogate_pair hi lo)).

(** The characters of a string. *)
Inductive string_text : bytes -> bytes -> Prop :=
| string_nil : string_text [] []
| string_cons t d t' d' : char_text t d -> string_text t' d' -> string_text (t ++ t') (d ++ d').

Lemma surrogate_pair_scalar hi lo :
  0xD800 <= hi <= 0xDBFF -> 0xDC00 <= lo <= 0xDFFF -> Utf8.scalar (surrogate_pair hi lo).
Proof. unfold Utf8.scalar, surrogate_pair. lia. Qed.

(** The bytes a string stands for are UTF-8. *)
Lemma char_text_valid t d : char_text t d -> Utf8.valid d = true.
Proof.
  destruct 1; [by eapply Utf8.valid_chunk| |by apply Utf8.valid_encode|].
  - unfold escapes in *. repeat (apply elem_of_cons in H as [H|H]; [injection H as -> ->; done|]).
    by apply elem_of_nil in H.
  - by apply Utf8.valid_encode, surrogate_pair_scalar.
Qed.
Lemma string_text_valid t d : string_text t d -> Utf8.valid d = true.
Proof. induction 1; [done|]. apply Utf8.valid_app; [by eapply char_text_valid|done]. Qed.

Lemma bytes_in_ranges_spec rs L :
  ok L -> Forall Utf8.continuation rs ->
  wp never (bytes_in_ranges rs) (fun r L' =>
    if r then exists cs, Utf8.fits rs cs /\ reads L (byte.of_Z <$> cs) (byte.of_Z <$> cs) L'
    else reads_some L L') L.
Proof.
  intros Hok Hr. revert L Hok.
  induction Hr as [|[lo hi] rs [H1 H2] Hr IH]; intros L Hok; cbn [bytes_in_ranges].
  - apply wp_ret. exists []. split; [constructor|]. by apply reads_refl.
  - cbn in H1, H2. apply wp_bind, wp_get; [done|]. intros L1 G.
    destruct ((lo <=? next (rest L)) && (next (rest L) <=? hi)) eqn:E.
    + assert (R : reads L [byte.of_Z (next (rest L))] [] L1).
      { apply next_ne_eof; [done|done|]. unfold eof. lia. }
      apply wp_bind, wp_add. eapply wp_mono; [apply IH; apply G|].
      pose proof (reads_trans _ _ _ _ _ _ _ R (add_spec L1 (next (rest L)) (got_ok _ _ G))) as R1.
      intros [] L2.
      * intros (cs & Hf & R2). exists (next (rest L) :: cs). split; [constructor; [cbn; lia|done]|].
        exact (reads_trans _ _ _ _ _ _ _ R1 R2).
      * intros R2. eapply reads_some_trans; [by eapply reads_reads_some|done].
    + apply wp_ret. by eapply got_reads_some.
Qed.

Lemma bytes_in_ranges_text rs cs L s :
  Utf8.fits rs cs -> Forall Utf8.continuation rs -> ok L -> rest L = (byte.of_Z <$> cs) ++ s ->
  exists L', bytes_in_ranges rs L = Ret (true, L') /\
    reads L (byte.of_Z <$> cs) (byte.of_Z <$> cs) L'.
Proof.
  intros Hf. revert L. induction Hf as [|[lo hi] c rs cs Hc Hf IH]; intros L Hr Hok Hrest.
  - exists L. split; [done|]. by apply reads_refl.
  - apply Forall_cons in Hr as [[H1 H2] Hr]. cbn in H1, H2, Hc.
    destruct (get_cons L _ _ Hok Hrest) as (L1 & E & G & R).
    cbn [bytes_in_ranges]. rewrite M_bind_eq, E. rewrite uchar_of_Z, Z.mod_small by lia.
    rewrite (proj2 (Z.leb_le lo c)), (proj2 (Z.leb_le c hi)) by lia. cbn [andb].
    rewrite M_bind_eq. cbn [add modify].
    pose proof (reads_trans _ _ _ _ _ _ _ R (add_spec L1 c (got_ok _ _ G))) as R1.
    edestruct IH as (L2 & -> & R2); [done|apply R1| |].
    { pose proof (reads_rest _ _ _ _ R1) as Hx. rewrite Hrest in Hx. cbn in Hx. by injection Hx. }
    exists L2. split; [done|]. exact (reads_trans _ _ _ _ _ _ _ R1 R2).
Qed.

Lemma add_all_spec cs L :
  ok L -> exists L', add_all cs L = Ret (tt, L') /\ reads L [] (byte.of_Z <$> cs) L'.
Proof.
  revert L. induction cs as [|c cs IH]; intros L Hok; [eexists; split; [done|by apply reads_refl]|].
  cbn [add_all]. rewrite M_bind_eq. cbn [add modify]. pose proof (add_spec L c Hok) as R.
  destruct (IH _ (reads_ok _ _ _ _ R)) as (L' & -> & R'). eexists. split; [done|].
  exact (reads_trans _ _ _ _ _ _ _ R R').
Qed.

Lemma add_codepoint_spec cp L :
  ok L -> 0 <= cp <= 0x10FFFF ->
  exists L', add_codepoint cp L = Ret (None, L') /\ reads L [] (byte.of_Z <$> Utf8.encode cp) L'.
Proof.
  intros Hok Hc. unfold add_codepoint. rewrite M_bind_eq. cbn [lift].
  rewrite (proj2 (Z.leb_le 0 cp)), (proj2 (Z.leb_le cp _)) by lia. cbn.
  destruct (add_all_spec (Utf8.encode cp) L Hok) as (L' & -> & R). eauto.
Qed.

Lemma pair_value hi lo :
  0xD800 <= hi <= 0xDBFF -> 0xDC00 <= lo <= 0xDFFF ->
  i32 (u32 (u32 (u32 (Z.shiftl (u32 hi) 10) + u32 lo) - 0x35FDC00)) = surrogate_pair hi lo.
Proof.
  intros H1 H2. unfold surrogate_pair. rewrite !(uwrap_small 32 hi), !(uwrap_small 32 lo) by lia.
  rewrite Z.shiftl_mul_pow2 by lia. change (2 ^ 10) with 1024.
  rewrite (uwrap_small 32 (hi * 1024)) by lia. rewrite (uwrap_small 32 (hi * 1024 + lo)) by lia.
  rewrite uwrap_small by lia. rewrite swrap_small by (unfold srange; lia). lia.
Qed.

(** *** One character *)

(** What a body of [scan_string] comes to. *)
Definition char_result (L : lexer) (r : option token_type) (L' : lexer) : Prop :=
  match r with
  | None => exists t d, char_text t d /\ reads L t d L'
  | Some value_string => reads L [dquote] [] L'
  | Some t => t = parse_error /\ reads_some L L'
  end.

(** The same, for a part of a body that has read [t0]. *)
Definition char_after (t0 : bytes) (L : lexer) (r : option token_type) (L' : lexer) : Prop :=
  match r with
  | None => exists t d, char_text (t0 ++ t) d /\ reads L t d L'
  | Some t => t = parse_error /\ reads_some L L'
  end.

Lemma add_codepoint_wp cp L t0 :
  ok L -> Utf8.scalar cp -> char_text t0 (byte.of_Z <$> Utf8.encode cp) ->
  wp never (add_codepoint cp) (char_after t0 L) L.
Proof.
  intros Hok Hc Ht. destruct (add_codepoint_spec cp L) as (L' & E & R);
    [done|unfold Utf8.scalar in Hc; lia|].
  unfold wp. rewrite E. exists [], (byte.of_Z <$> Utf8.encode cp). by rewrite app_nil_r.
Qed.

Lemma char_after_extend t0 t L1 L2 r L3 :
  reads L1 t [] L2 -> char_after (t0 ++ t) L2 r L3 -> char_after t0 L1 r L3.
Proof.
  intros R. destruct r as [k|]; cbn.
  - intros [? H]. split; [done|]. eapply reads_some_trans; [by eapply reads_reads_some|done].
  - intros (t' & d & Hc & R'). exists (t ++ t'), d. rewrite app_assoc. split; [done|].
    exact (reads_trans _ _ _ _ _ _ _ R R').
Qed.

Lemma scan_pair_wp t1 hi L :
  ok L -> hex_text 4 t1 hi -> 0xD800 <= hi <= 0xDBFF ->
  wp never (low_surrogate hi) (char_after ([byte.of_Z 92; byte.of_Z 117] ++ t1) L) L.
Proof.
  intros Hok Ht1 Hhi. unfold low_surrogate. apply wp_bind, wp_get; [done|]. intros L1 G1.
  apply wp_bind. destruct (Z.eqb_spec (next (rest L)) 92) as [E1|E1].
  2: { apply wp_ret, wp_ret. split; [done|]. by eapply got_reads_some. }
  apply wp_bind, wp_get; [apply G1|]. intros L2 G2. apply wp_ret.
  pose proof (next_ne_eof _ _ _ G1 E1 ltac:(done)) as R1.
  destruct (Z.eqb_spec (next (rest L1)) 117) as [E2|E2].
  2: { apply wp_ret. split; [done|]. eapply reads_some_trans; by eapply got_reads_some. }
  pose proof (reads_trans _ _ _ _ _ _ _ R1 (next_ne_eof _ _ _ G2 E2 ltac:(done))) as R2.
  apply wp_bind. eapply wp_mono.
  { apply get_codepoint_spec; [apply G2|]. by rewrite (got_current _ _ G2). }
  intros lo L3 [[-> R3]|(t2 & Ht2 & R3)].
  { apply wp_ret. split; [done|]. eapply reads_some_trans; [by eapply reads_reads_some|done]. }
  pose proof (hex_text_range _ _ _ Ht2).
  destruct (Z.eqb_spec lo (-1)); [lia|].
  pose proof (reads_trans _ _ _ _ _ _ _ R2 R3) as R4.
  destruct ((0xDC00 <=? lo) && (lo <=? 0xDFFF)) eqn:El.
  - rewrite pair_value by lia. eapply wp_mono.
    { apply (add_codepoint_wp _ L3 ([byte.of_Z 92; byte.of_Z 117] ++ t1 ++ [byte.of_Z 92; byte.of_Z 117] ++ t2));
        [apply R3|apply surrogate_pair_scalar; lia|].
      apply (char_pair t1 hi t2 lo); [done|done|lia|lia]. }
    intros r L4 H4. eapply char_after_extend; [exact R4|].
    by rewrite <- app_assoc.
  - apply wp_ret. split; [done|]. by eapply reads_reads_some.
Qed.

Lemma scan_unicode_wp L :
  ok L -> current L = 117 ->
  wp never scan_unicode (char_after [byte.of_Z 92; byte.of_Z 117] L) L.
Proof.
  intros Hok Hc. unfold scan_unicode. apply wp_bind. eapply wp_mono; [by apply get_codepoint_spec|].
  intros cp L1 [[-> R]|(t & Ht & R)].
  { apply wp_ret. by split. }
  pose proof (hex_text_range _ _ _ Ht). destruct (Z.eqb_spec cp (-1)); [lia|].
  destruct ((0xD800 <=? cp) && (cp <=? 0xDBFF)) eqn:E1; [|destruct ((0xDC00 <=? cp) && (cp <=? 0xDFFF)) eqn:E2].
  - eapply wp_mono; [apply (scan_pair_wp t cp L1); [apply R|done|lia]|].
    intros r L2. exact (char_after_extend [byte.of_Z 92; byte.of_Z 117] t L L1 r L2 R).
  - apply wp_ret. split; [done|]. by eapply reads_reads_some.
  - assert (Utf8.scalar cp) by (unfold Utf8.scalar; lia).
    eapply wp_mono; [apply (add_codepoint_wp cp L1); [apply R|done|by apply char_unicode]|].
    intros r L2. exact (char_after_extend [byte.of_Z 92; byte.of_Z 117] t L L1 r L2 R).
Qed.

Ltac short_escape k Hadd :=
  match goal with |- context [?c =? k] =>
    destruct (Z.eqb_spec c k) as [E|_]; [apply Hadd; rewrite E; unfold escapes; set_solver|] end.

Lemma scan_escape_wp L :
  ok L -> wp never scan_escape (char_after [byte.of_Z 92] L) L.
Proof.
  intros Hok. unfold scan_escape. apply wp_bind, wp_get; [done|]. intros L1 G.
  assert (Hadd : forall d, (next (rest L), d) ∈ escapes ->
    wp never (do! add d in ret None) (char_after [byte.of_Z 92] L) L1).
  { intros d Hd. apply wp_bind, wp_add, wp_ret. exists [byte.of_Z (next (rest L))], [byte.of_Z d].
    split; [by apply char_short|].
    assert (R : reads L [byte.of_Z (next (rest L))] [] L1).
    { apply next_ne_eof; [done|done|]. intros E. rewrite E in Hd. unfold escapes, eof in Hd.
      repeat (apply elem_of_cons in Hd as [Hd|Hd]; [by simplify_eq|]). by apply elem_of_nil in Hd. }
    exact (reads_trans _ _ _ _ _ _ _ R (add_spec L1 d (got_ok _ _ G))). }
  short_escape 34 Hadd. short_escape 92 Hadd. short_escape 47 Hadd. short_escape 98 Hadd.
  short_escape 102 Hadd. short_escape 110 Hadd. short_escape 114 Hadd. short_escape 116 Hadd.
  destruct (Z.eqb_spec (next (rest L)) 117) as [E|_].
  - eapply wp_mono; [apply (scan_unicode_wp L1); [apply G|by rewrite (got_current _ _ G)]|].
    intros r L2.
    exact (char_after_extend [byte.of_Z 92] [byte.of_Z 117] L L1 r L2 (next_ne_eof _ _ _ G E ltac:(done))).
  - apply wp_ret. split; [done|]. by eapply got_reads_some.
Qed.

Lemma ranges_row c rs : 0x20 <= c -> Utf8.ranges c = Some rs <-> Utf8.row c rs.
Proof.
  intros Hc. rewrite Utf8.ranges_row_iff. tauto.
Qed.

Lemma next_byte_in_range_eq rs L :
  rs <> [] -> (length rs <= 3)%nat ->
  next_byte_in_range rs L = (do! add (current L) in bytes_in_ranges rs) L.
Proof. intros H1 H2. do 4 (destruct rs as [|? rs]; [done|]). cbn in H2. lia. Qed.

Lemma scan_char_wp L : ok L -> wp never scan_char (char_result L) L.
Proof.
  intros Hok. unfold scan_char. apply wp_bind, wp_get; [done|]. intros L1 G.
  pose proof (next_range (rest L)) as Hn. set (c := next (rest L)) in *.
  destruct (Z.eqb_spec c eof) as [E|E].
  { apply wp_ret. split; [done|]. by eapply got_reads_some. }
  pose proof (next_ne_eof _ _ c G eq_refl E) as R. unfold eof in E.
  destruct (Z.eqb_spec c 34) as [E1|E1]; [apply wp_ret; cbn; by rewrite E1 in R|].
  destruct (Z.eqb_spec c 92) as [E2|E2].
  { eapply wp_mono; [apply scan_escape_wp; apply G|]. intros [k|] L2; cbn.
    - intros [-> H]. split; [done|]. eapply reads_some_trans; [by eapply reads_reads_some|done].
    - intros (t & d & Hc & R'). rewrite E2 in R. exists ([byte.of_Z 92] ++ t), d. split; [done|].
      exact (reads_trans _ _ _ _ _ _ _ R R'). }
  destruct ((0 <=? c) && (c <=? 31)) eqn:E3.
  { apply wp_ret. split; [done|]. by eapply got_reads_some. }
  destruct (Utf8.ranges c) as [rs|] eqn:E4.
  2: { apply wp_ret. split; [done|]. by eapply got_reads_some. }
  apply ranges_row in E4; [|lia]. destruct (Utf8.row_bounds _ _ E4) as (_ & Hcont & Hlen & _).
  pose proof (reads_trans _ _ _ _ _ _ _ R (add_spec L1 c (got_ok _ _ G))) as R1. cbn in R1.
  destruct rs as [|r rs].
  - apply wp_bind, wp_add, wp_ret. exists [byte.of_Z c], [byte.of_Z c].
    split; [by apply (char_plain c [] []); [|constructor|lia|..]|done].
  - apply wp_bind. unfold wp. rewrite next_byte_in_range_eq by done.
    rewrite (got_current _ _ G). fold c. apply wp_bind, wp_add.
    eapply wp_mono; [apply bytes_in_ranges_spec; [apply R1|done]|]. intros [] L2.
    + intros (cs & Hf & R2). apply wp_ret. exists (byte.of_Z <$> (c :: cs)), (byte.of_Z <$> (c :: cs)).
      split; [by apply (char_plain c (r :: rs) cs); [..|lia| |]|]. exact (reads_trans _ _ _ _ _ _ _ R1 R2).
    + intros R2. apply wp_ret. split; [done|]. eapply reads_some_trans; [by eapply reads_reads_some|done].
Qed.

(** *** Known characters *)

Lemma get_byte L c s :
  ok L -> rest L = byte.of_Z c :: s -> 0 <= c < 256 ->
  exists L', get L = Ret (c, L') /\ got L L' /\ reads L [byte.of_Z c] [] L' /\ rest L' = s.
Proof.
  intros Hok Hr Hc. destruct (get_cons L _ _ Hok Hr) as (L' & E & G & R).
  rewrite uchar_of_Z, Z.mod_small in E by lia. exists L'. repeat (split; [done|]).
  by rewrite (got_rest _ _ G), Hr.
Qed.

Lemma reads_left L t d L' s : reads L t d L' -> rest L = t ++ s -> rest L' = s.
Proof. intros [_ H _ _] E. rewrite H in E. by apply app_inv_head in E. Qed.

Lemma add_codepoint_text cp L :
  ok L -> Utf8.scalar cp ->
  exists L', add_codepoint cp L = Ret (None, L') /\ reads L [] (byte.of_Z <$> Utf8.encode cp) L'.
Proof. intros Hok Hc. apply add_codepoint_spec; [done|]. unfold Utf8.scalar in Hc; lia. Qed.

Lemma scan_short_text L c d s :
  (c, d) ∈ escapes -> ok L -> rest L = [byte.of_Z c] ++ s ->
  exists L', scan_escape L = Ret (None, L') /\ reads L [byte.of_Z c] [byte.of_Z d] L'.
Proof.
  intros Hd Hok Hr.
  assert (Hc : 0 <= c < 256).
  { unfold escapes in Hd. repeat (apply elem_of_cons in Hd as [Hd|Hd]; [simplify_eq; lia|]).
    by apply elem_of_nil in Hd. }
  destruct (get_byte L c s) as (L1 & E & G & R & _); [done..|].
  pose proof (reads_trans _ _ _ _ _ _ _ R (add_spec L1 d (got_ok _ _ G))) as R1.
  unfold scan_escape. rewrite M_bind_eq, E. unfold escapes in Hd.
  repeat (apply elem_of_cons in Hd as [Hd|Hd]; [simplify_eq; cbn; by eexists|]).
  by apply elem_of_nil in Hd.
Qed.

Lemma scan_pair_text L hi t lo s :
  hex_text 4 t lo -> 0xD800 <= hi <= 0xDBFF -> 0xDC00 <= lo <= 0xDFFF ->
  ok L -> rest L = (byte.of_Z 92 :: byte.of_Z 117 :: t) ++ s ->
  exists L', low_surrogate hi L = Ret (None, L') /\
    reads L (byte.of_Z 92 :: byte.of_Z 117 :: t) (byte.of_Z <$> Utf8.encode (surrogate_pair hi lo)) L'.
Proof.
  intros Ht Hhi Hlo Hok Hr. unfold low_surrogate.
  destruct (get_byte L 92 _ Hok Hr) as (L1 & E1 & G1 & R1 & Hr1); [lia|].
  rewrite M_bind_eq, E1, M_bind_eq. cbn [Z.eqb Pos.eqb]. rewrite (M_bind_eq get).
  destruct (get_byte L1 117 _ (got_ok _ _ G1) Hr1) as (L2 & E2 & G2 & R2 & Hr2); [lia|].
  rewrite E2. cbn -[low_surrogate get_codepoint add_codepoint].
  destruct (get_codepoint_text L2 t lo s) as (L3 & -> & R3); [done|apply G2| |done|].
  { by rewrite (got_current _ _ G2), Hr1. }
  pose proof (hex_text_range _ _ _ Ht). destruct (Z.eqb_spec lo (-1)); [lia|].
  rewrite (proj2 (Z.leb_le 0xDC00 lo)), (proj2 (Z.leb_le lo 0xDFFF)) by lia. cbn [andb].
  rewrite pair_value by done.
  destruct (add_codepoint_text (surrogate_pair hi lo) L3) as (L4 & -> & R4);
    [apply R3|by apply surrogate_pair_scalar|].
  exists L4. split; [done|].
  exact (reads_trans _ _ _ _ _ _ _ R1 (reads_trans _ _ _ _ _ _ _ R2 (reads_add _ _ _ _ _ _ R3 R4))).
Qed.

Lemma scan_escape_u L s :
  ok L -> rest L = byte.of_Z 117 :: s ->
  exists L', scan_escape L = scan_unicode L' /\ ok L' /\ current L' = 117 /\
    reads L [byte.of_Z 117] [] L' /\ rest L' = s.
Proof.
  intros Hok Hr. destruct (get_byte L 117 s) as (L1 & E & G & R & Hr1); [done|done|lia|].
  exists L1. unfold scan_escape. rewrite M_bind_eq, E. split; [done|]. split; [apply G|].
  split; [by rewrite (got_current _ _ G), Hr|done].
Qed.

Lemma scan_escape_text L t d s :
  char_text (byte.of_Z 92 :: t) d -> ok L -> rest L = t ++ s ->
  exists L', scan_escape L = Ret (None, L') /\ reads L t d L'.
Proof.
  intros Ht Hok Hr. inversion Ht as [c0 rs cs Hrow _ H0 _ Hc E|c d0 Hd|t0 cp Hh Hs|t1 hi t2 lo Hh1 Hh2 Hhi Hlo];
    subst; clear Ht.
  - destruct Hc. apply (f_equal uchar) in E. destruct (Utf8.row_bounds _ _ Hrow) as [? _].
    rewrite !uchar_of_Z, (Z.mod_small c0) in E by lia. done.
  - by apply scan_short_text with s.
  - destruct (scan_escape_u L _ Hok Hr) as (L1 & -> & Hok1 & Hc1 & R1 & Hr1).
    unfold scan_unicode. rewrite M_bind_eq.
    destruct (get_codepoint_text L1 t0 cp s) as (L2 & -> & R2); [done..|].
    pose proof (hex_text_range _ _ _ Hh). unfold Utf8.scalar in Hs.
    destruct (Z.eqb_spec cp (-1)); [lia|].
    destruct ((0xD800 <=? cp) && (cp <=? 0xDBFF)) eqn:E1; [lia|].
    destruct ((0xDC00 <=? cp) && (cp <=? 0xDFFF)) eqn:E2; [lia|].
    destruct (add_codepoint_text cp L2) as (L3 & -> & R3); [apply R2|done|].
    exists L3. split; [done|]. exact (reads_trans _ _ _ _ _ _ _ R1 (reads_add _ _ _ _ _ _ R2 R3)).
  - rewrite <- app_comm_cons, <- app_assoc in Hr.
    destruct (scan_escape_u L _ Hok Hr) as (L1 & -> & Hok1 & Hc1 & R1 & Hr1).
    unfold scan_unicode. rewrite M_bind_eq.
    edestruct (get_codepoint_text L1 t1 hi) as (L2 & -> & R2); [done|done|done|exact Hr1|].
    destruct (Z.eqb_spec hi (-1)); [lia|].
    rewrite (proj2 (Z.leb_le 0xD800 hi)), (proj2 (Z.leb_le hi 0xDBFF)) by lia. cbn [andb].
    destruct (scan_pair_text L2 hi t2 lo s) as (L3 & -> & R3); [done|done|done|apply R2| |].
    { by apply (reads_left _ _ _ _ _ R2). }
    exists L3. split; [done|].
    pose proof (reads_trans _ _ _ _ _ _ _ R1 (reads_trans _ _ _ _ _ _ _ R2 R3)) as R4. done.
Qed.

Lemma scan_char_text L t d s :
  char_text t d -> ok L -> rest L = t ++ s ->
  exists L', scan_char L = Ret (None, L') /\ reads L t d L'.
Proof.
  intros Ht Hok Hr.
  assert (Hesc : forall t', t = byte.of_Z 92 :: t' ->
    exists L', scan_char L = Ret (None, L') /\ reads L t d L').
  { intros t' ->. destruct (get_byte L 92 (t' ++ s)) as (L1 & E & G & R & Hr1); [done|done|lia|].
    unfold scan_char. rewrite M_bind_eq, E. cbn [Z.eqb Pos.eqb eof].
    destruct (scan_escape_text L1 t' d s Ht (got_ok _ _ G) Hr1) as (L2 & -> & R2).
    exists L2. split; [done|]. exact (reads_trans _ _ _ _ _ _ _ R R2). }
  inversion Ht as [c0 rs cs Hrow Hf H0 H1 H2|c d0 Hd|t0 cp Hh Hs|t1 hi t2 lo Hh1 Hh2 Hhi Hlo];
    subst; [|by eapply Hesc..]. clear Hesc.
  destruct (Utf8.row_bounds _ _ Hrow) as (Hc & Hcont & Hlen & _).
  destruct (get_byte L c0 _ Hok Hr) as (L1 & E & G & R & Hr1); [lia|].
  unfold scan_char. rewrite M_bind_eq, E.
  destruct (Z.eqb_spec c0 eof); [unfold eof in *; lia|].
  destruct (Z.eqb_spec c0 34); [lia|]. destruct (Z.eqb_spec c0 92); [lia|].
  destruct ((0 <=? c0) && (c0 <=? 31)) eqn:E3; [lia|].
  apply ranges_row in Hrow; [|lia]. rewrite Hrow.
  pose proof (reads_trans _ _ _ _ _ _ _ R (add_spec L1 c0 (got_ok _ _ G))) as R1. cbn [app] in R1.
  destruct rs as [|r rs].
  - inversion Hf; subst. rewrite M_bind_eq. eexists. split; [done|]. exact R1.
  - rewrite M_bind_eq, next_byte_in_range_eq by done. rewrite (got_current _ _ G), Hr.
    cbn [next app fmap list_fmap]. rewrite uchar_of_Z, Z.mod_small by lia.
    rewrite M_bind_eq. cbn [add modify].
    edestruct (bytes_in_ranges_text (r :: rs) cs) as (L2 & -> & R2); [done|done|apply R1| |].
    { apply (reads_left _ _ _ _ (_ ++ s) R1). by rewrite Hr. }
    eexists. split; [done|]. exact (reads_trans _ _ _ _ _ _ _ R1 R2).
Qed.

(** *** The loop *)

Lemma char_text_length t d : char_text t d -> (0 < length t)%nat.
Proof. destruct 1; cbn; lia. Qed.

Lemma reads_length L t d L' : reads L t d L' -> length (rest L) = (length t + length (rest L'))%nat.
Proof. intros [_ -> _ _]. apply length_app. Qed.

Lemma scan_string_loop_wp fuel L :
  ok L -> (length (rest L) < fuel)%nat ->
  wp never (scan_string_loop fuel) (fun r L' =>
    (r = value_string /\ exists t d, string_text t d /\ reads L (t ++ [dquote]) d L') \/
    (r = parse_error /\ reads_some L L')) L.
Proof.
  revert L. induction fuel as [|fuel IH]; intros L Hok Hf; [lia|]. cbn [scan_string_loop].
  apply wp_bind. eapply wp_mono; [by apply scan_char_wp|]. intros [k|] L1 H.
  - apply wp_ret. destruct k; cbn in H; try (right; destruct H as [H ?]; done).
    left. split; [done|]. exists [], []. by split; [constructor|].
  - destruct H as (t & d & Hc & R). eapply wp_mono.
    { apply IH; [apply R|]. apply reads_length in R. apply char_text_length in Hc. lia. }
    intros r L2 [(-> & t' & d' & Hs & R')|[-> R']].
    + left. split; [done|]. exists (t ++ t'), (d ++ d'). split; [by constructor|].
      rewrite <- app_assoc. exact (reads_trans _ _ _ _ _ _ _ R R').
    + right. split; [done|]. eapply reads_some_trans; [by eapply reads_reads_some|done].
Qed.

Lemma scan_string_loop_text fuel t d L s :
  string_text t d -> ok L -> rest L = t ++ dquote :: s -> (length (rest L) < fuel)%nat ->
  exists L', scan_string_loop fuel L = Ret (value_string, L') /\ reads L (t ++ [dquote]) d L'.
Proof.
  intros Ht. revert fuel L. induction Ht as [|t d t' d' Hc Ht IH]; intros fuel L Hok Hr Hf.
  - destruct fuel as [|fuel]; [lia|]. destruct (get_byte L 34 s) as (L1 & E & G & R & _); [done|done|lia|].
    exists L1. split; [|done]. cbn [scan_string_loop]. unfold scan_char. rewrite M_bind_eq, M_bind_eq, E.
    done.
  - destruct fuel as [|fuel]; [lia|]. rewrite <- app_assoc in Hr.
    destruct (scan_char_text L t d _ Hc Hok Hr) as (L1 & E & R). cbn [scan_string_loop].
    rewrite M_bind_eq, E.
    destruct (IH fuel L1) as (L2 & -> & R2); [apply R|by apply (reads_left _ _ _ _ _ R)| |].
    { apply reads_length in R. apply char_text_length in Hc. lia. }
    exists L2. split; [done|]. rewrite <- app_assoc. exact (reads_trans _ _ _ _ _ _ _ R R2).
Qed.

(** A string after its opening quote; the buffer holds what it stands for. *)
Definition reset_lexer (L : lexer) : lexer :=
  mkLexer (ia L) (ignore_comments L) (current L) (next_unget L) (position L)
    [byte.of_Z (current L)] [] (number_integer L) (number_unsigned L) (number_float L).
Lemma reset_eq L : reset L = Ret (tt, reset_lexer L).
Proof. done. Qed.

Lemma reset_reads_some L L' : reads_some (reset_lexer L) L' -> reads_some L L'.
Proof. done. Qed.

Lemma scan_string_wp L :
  ok L -> current L = 34 ->
  wp never scan_string (fun r L' =>
    (r = value_string /\ exists t, string_text t (token_buffer L') /\
       reads (reset_lexer L) (t ++ [dquote]) (token_buffer L') L') \/
    (r = parse_error /\ reads_some L L')) L.
Proof.
  intros Hok Hc. unfold scan_string. apply wp_bind. unfold wp at 1. rewrite reset_eq.
  apply wp_bind, wp_read_current. cbn [reset_lexer current]. rewrite Hc.
  apply wp_bind, wp_assert; [done|]. apply wp_bind, wp_gets.
  eapply wp_mono; [apply scan_string_loop_wp; [done|by eapply enough_rest]|].
  intros r L' [(-> & t & d & Ht & R)|[-> R]]; [left|by right]. split; [done|]. exists t.
  pose proof (reads_buffer _ _ _ _ R) as Hb. cbn in Hb. by rewrite Hb.
Qed.

Lemma scan_string_text t d L s :
  string_text t d -> ok L -> current L = 34 -> rest L = t ++ dquote :: s ->
  exists L', scan_string L = Ret (value_string, L') /\ reads (reset_lexer L) (t ++ [dquote]) d L'.
Proof.
  intros Ht Hok Hc Hr. unfold scan_string. rewrite M_bind_eq, reset_eq. cbn [bindM read_current gets].
  cbn [reset_lexer current]. rewrite Hc. cbn [lift].
  apply (scan_string_loop_text _ t d (reset_lexer L) s Ht Hok Hr). by eapply enough_rest.
Qed.

(** ** Numbers *)

(** The labels that can jump to [scan_number_done]. *)
Definition accepting (s : number_state) : bool :=
  match s with zero | any1 | decimal2 | any2 => true | _ => false end.

(** A run of the automaton over the text after a label, and the type it gives. *)
Fixpoint number_run (s : number_state) (ty : token_type) (t : bytes) : option token_type :=
  let ty := number_type_at s ty in
  match t with
  | [] => if accepting s then Some ty else None
  | b :: t' => match number_jump s (uchar b) with Goto s' => number_run s' ty t' | _ => None end
  end.

Definition number_text (t : bytes) : option token_type :=
  match t with
  | [] => None
  | b :: t' =>
      let c := uchar b in
      if c =? 45 then number_run minus value_unsigned t'
      else if c =? 48 then number_run zero value_unsigned t'
      else if nonzero_digit c then number_run any1 value_unsigned t'
      else None
  end.

(** No character of a number comes next. *)
Definition stops (c : Z) : bool := negb (digit c || (c =? 46) || is_e c).

Lemma jump_done s c : number_jump s c = Done -> accepting s = true.
Proof.
  destruct s; cbn; repeat match goal with |- context [if ?b then _ else _] => destruct b end; done.
Qed.

Lemma jump_stops s c : accepting s = true -> stops c = true -> number_jump s c = Done.
Proof.
  unfold stops. rewrite negb_true_iff, !orb_false_iff. intros Ha [[H1 H2] H3].
  destruct s; try done; cbn; by rewrite ?H1, ?H2, ?H3.
Qed.

Lemma jump_goto_range s c s' : number_jump s c = Goto s' -> 0 < c < 256.
Proof.
  unfold number_jump, digit, nonzero_digit, is_e. destruct s;
    repeat match goal with |- context [if ?b then _ else _] => destruct b eqn:? end; intros; simplify_eq; lia.
Qed.

Lemma number_loop_wp fuel s ty L :
  ok L -> (length (rest L) < fuel)%nat ->
  wp never (number_loop fuel s ty) (fun r L' =>
    match r with
    | Some ty' => exists t L1, number_run s ty t = Some ty' /\ reads L t t L1 /\ got L1 L'
    | None => reads_some L L'
    end) L.
Proof.
  revert s ty L. induction fuel as [|fuel IH]; intros s ty L Hok Hf; [lia|]. cbn [number_loop].
  apply wp_bind, wp_get; [done|]. intros L1 G.
  destruct (number_jump s (next (rest L))) as [s'| |] eqn:E.
  - pose proof (jump_goto_range _ _ _ E). set (c := next (rest L)) in *.
    pose proof (next_ne_eof _ _ c G eq_refl ltac:(unfold eof; lia)) as R.
    pose proof (reads_trans _ _ _ _ _ _ _ R (add_spec L1 c (got_ok _ _ G))) as R1. cbn [app] in R1.
    apply wp_bind, wp_add. eapply wp_mono.
    { apply IH; [apply R1|]. apply reads_length in R1. cbn [length] in R1. lia. }
    intros [ty'|] L2.
    + intros (t & L3 & Ht & R2 & G2). exists (byte.of_Z c :: t), L3. split; [|split; [|done]].
      * cbn [number_run]. rewrite uchar_of_Z, Z.mod_small by lia. by rewrite E.
      * exact (reads_trans _ _ _ _ _ _ _ R1 R2).
    + intros R2. eapply reads_some_trans; [by eapply reads_reads_some|done].
  - apply wp_ret. exists [], L. cbn [number_run]. rewrite (jump_done _ _ E).
    split; [done|]. split; [by apply reads_refl|done].
  - apply wp_ret. by eapply got_reads_some.
Qed.

Lemma number_loop_text fuel s ty t ty' L r :
  number_run s ty t = Some ty' -> ok L -> rest L = t ++ r -> stops (next r) = true ->
  (length (rest L) < fuel)%nat ->
  exists L1 L', number_loop fuel s ty L = Ret (Some ty', L') /\ reads L t t L1 /\ got L1 L'.
Proof.
  revert s ty fuel L. induction t as [|b t IH]; intros s ty fuel L Hrun Hok Hr Hs Hf;
    (destruct fuel as [|fuel]; [lia|]); cbn [number_loop number_run] in *.
  - destruct (accepting s) eqn:Ea; [|done]. injection Hrun as <-.
    destruct (get_spec L Hok) as (L' & E & G). exists L, L'. rewrite M_bind_eq, E.
    rewrite Hr. cbn [app]. rewrite jump_stops by done. split; [done|]. split; [by apply reads_refl|done].
  - destruct (number_jump s (uchar b)) as [s'| |] eqn:E; [|done..].
    destruct (get_cons L _ _ Hok Hr) as (L1 & Eg & G & R). rewrite M_bind_eq, Eg, E.
    pose proof (reads_trans _ _ _ _ _ _ _ R (add_spec L1 (uchar b) (got_ok _ _ G))) as R1.
    rewrite of_Z_uchar in R1. cbn [app] in R1. rewrite M_bind_eq. cbn [add modify]. rewrite of_Z_uchar.
    edestruct (IH s' (number_type_at s ty) fuel) as (L2 & L' & E' & R2 & G2); [exact Hrun|apply R1| |done| |].
    { by apply (reads_left _ _ _ _ (t ++ r) R1). }
    { apply reads_length in R1. cbn [length] in R1. lia. }
    exists L2, L'. rewrite E'. split; [done|]. split; [|done]. exact (reads_trans _ _ _ _ _ _ _ R1 R2).
Qed.

(** *** The conversions read the whole text *)

Definition is_digit (b : Byte.byte) : bool := Float.is_digit b.
Definition digits (t : bytes) : Prop := Forall (fun b => is_digit b = true) t.
Definition digits_value (acc : Z) (t : bytes) : Z :=
  foldl (fun a b => a * 10 + (uchar b - 48)) acc t.
Definition no_digit_next (s : bytes) : bool := negb (digit (next s)).

Lemma span_digits_app t acc s :
  digits t -> no_digit_next s = true ->
  Float.span_digits acc (t ++ s) = (zlen t, digits_value acc t, s).
Proof.
  intros Ht Hs. revert acc. induction Ht as [|b t Hb Ht IH]; intros acc.
  - cbn [app]. destruct s as [|b s]; [done|]. cbn [Float.span_digits].
    unfold no_digit_next, digit in Hs. cbn in Hs. unfold Float.is_digit. apply negb_true_iff in Hs.
    by rewrite Hs.
  - cbn [app Float.span_digits]. unfold is_digit in Hb. rewrite Hb. rewrite IH.
    f_equal. f_equal. rewrite zlen_cons. lia.
Qed.

Lemma digit_is_digit b : digit (uchar b) = is_digit b.
Proof. done. Qed.

(** The parts of a number: what a label can still read. *)
Definition exponent_part (t : bytes) : Prop :=
  t = [] \/ exists e sg ds, t = e :: sg ++ ds /\ is_e (uchar e) = true /\
    (sg = [] \/ sg = [byte.of_Z 43] \/ sg = [byte.of_Z 45]) /\ digits ds /\ ds <> [].
Definition fraction_part (t : bytes) : Prop :=
  t = [] \/ exists ds, t = byte.of_Z 46 :: ds /\ digits ds /\ ds <> [].

Definition tail_shape (s : number_state) (t : bytes) : Prop :=
  match s with
  | any2 => digits t
  | sign => digits t /\ t <> []
  | exponent => forall e, is_e (uchar e) = true -> exponent_part (e :: t)
  | decimal2 => exists ds ex, t = ds ++ ex /\ digits ds /\ exponent_part ex
  | decimal1 => exists ds ex, t = ds ++ ex /\ digits ds /\ ds <> [] /\ exponent_part ex
  | zero => exists fr ex, t = fr ++ ex /\ fraction_part fr /\ exponent_part ex
  | any1 => exists ds fr ex, t = ds ++ fr ++ ex /\ digits ds /\ fraction_part fr /\ exponent_part ex
  | minus => exists ds fr ex, t = ds ++ fr ++ ex /\ digits ds /\ ds <> [] /\ fraction_part fr /\ exponent_part ex
  end.

Lemma uchar_inv b c : uchar b = c -> b = byte.of_Z c.
Proof. intros <-. by rewrite of_Z_uchar. Qed.

Ltac split_jump H :=
  repeat match type of H with
  | context [if ?b then _ else _] => let E := fresh "E" in destruct b eqn:E
  end; simplify_eq/=.

Lemma digits_cons b t : digits (b :: t) <-> is_digit b = true /\ digits t.
Proof. unfold digits. by rewrite Forall_cons. Qed.

Lemma run_shape s ty t ty' : number_run s ty t = Some ty' -> tail_shape s t.
Proof.
  revert s ty. induction t as [|b t IH]; intros s ty Hrun.
  - destruct s; cbn in Hrun; simplify_eq/=.
    + exists [], []. repeat split; by left.
    + exists [], [], []. repeat split; [constructor|by left..].
    + exists [], []. repeat split; [constructor|by left].
    + constructor.
  - cbn [number_run] in Hrun. destruct (number_jump s (uchar b)) as [s'| |] eqn:E; [|done..].
    apply IH in Hrun. clear IH. unfold number_jump in E. destruct s; cbn [tail_shape];
      split_jump E; cbn [tail_shape] in Hrun.
    + destruct Hrun as (fr & ex & -> & H1 & H2). exists [b], fr, ex. split; [done|].
      split; [|done]. constructor; [|constructor]. unfold is_digit, Float.is_digit. lia.
    + destruct Hrun as (ds & fr & ex & -> & H0 & H1 & H2). exists (b :: ds), fr, ex. split; [done|].
      split; [|done]. constructor; [|done]. unfold nonzero_digit in *. unfold is_digit, Float.is_digit. lia.
    + destruct Hrun as (ds & ex & -> & H1 & H2 & H3). exists (b :: ds), ex. split; [done|].
      split; [|done]. right. exists ds. split; [|done]. f_equal. apply uchar_inv. lia.
    + exists [], (b :: t). split; [done|]. split; [by left|auto].
    + destruct Hrun as (ds & fr & ex & -> & H0 & H1 & H2). exists (b :: ds), fr, ex. split; [done|].
      split; [|done]. by constructor.
    + destruct Hrun as (ds & ex & -> & H1 & H2 & H3). exists [], (b :: ds), ex. split; [done|].
      split; [constructor|]. split; [|done]. right. exists ds. split; [|done]. f_equal. apply uchar_inv. lia.
    + exists [], [], (b :: t). split; [done|]. split; [constructor|]. split; [by left|auto].
    + destruct Hrun as (ds & ex & -> & H1 & H2). exists (b :: ds), ex. split; [done|].
      split; [by constructor|done].
    + destruct Hrun as (ds & ex & -> & H1 & H2). exists (b :: ds), ex. split; [done|].
      split; [by constructor|done].
    + exists [], (b :: t). split; [done|]. split; [constructor|auto].
    + intros e He. right. destruct Hrun as [H1 H2]. exists e, [b], t. split; [done|]. split; [done|].
      split; [|done]. right. destruct (Z.eqb_spec (uchar b) 43) as [E1|E1].
      * left. f_equal. by apply uchar_inv.
      * right. f_equal. apply uchar_inv. lia.
    + intros e He. right. exists e, [], (b :: t). split; [done|]. split; [done|]. split; [by left|].
      split; [by constructor|done].
    + split; [by constructor|done].
    + by constructor.
Qed.

Lemma run_float s ty t ty' :
  match s with decimal1 | exponent => True | decimal2 | sign | any2 => ty = value_float | _ => False end ->
  number_run s ty t = Some ty' -> ty' = value_float.
Proof.
  revert s ty. induction t as [|b t IH]; intros s ty Hs Hrun.
  - destruct s; try done; cbn in Hrun; simplify_eq; done.
  - cbn [number_run] in Hrun. destruct (number_jump s (uchar b)) as [s'| |] eqn:E; [|done..].
    eapply IH; [|exact Hrun]. unfold number_jump in E. destruct s; try done; split_jump E; done.
Qed.

Lemma run_integer s ty t ty' :
  s = zero \/ s = any1 -> number_run s ty t = Some ty' -> ty' = value_float \/ (ty' = ty /\ digits t).
Proof.
  revert s. induction t as [|b t IH]; intros s Hs Hrun.
  - right. destruct Hs as [-> | ->]; cbn in Hrun; simplify_eq; split; [done|constructor|done|constructor].
  - cbn [number_run] in Hrun. destruct (number_jump s (uchar b)) as [s'| |] eqn:E; [|done..].
    unfold number_jump in E. destruct Hs as [-> | ->]; split_jump E; cbn in Hrun;
      try (left; by eapply run_float in Hrun).
    apply IH in Hrun; [|by right]. destruct Hrun as [?|[? ?]]; [by left|right].
    split; [done|]. by constructor.
Qed.

(** The four shapes of a number: with a sign or not, an integer or not. *)
Inductive number_shape (t : bytes) : token_type -> Prop :=
| shape_unsigned : digits t -> t <> [] -> number_shape t value_unsigned
| shape_integer ds : t = byte.of_Z 45 :: ds -> digits ds -> ds <> [] -> number_shape t value_integer
| shape_float sg ds fr ex :
    t = sg ++ ds ++ fr ++ ex -> sg = [] \/ sg = [byte.of_Z 45] -> digits ds -> ds <> [] ->
    fraction_part fr -> exponent_part ex -> number_shape t value_float.

Lemma number_text_shape t ty : number_text t = Some ty -> number_shape t ty.
Proof.
  destruct t as [|b t]; [done|]. cbn [number_text].
  destruct (Z.eqb_spec (uchar b) 45) as [E|E].
  - apply uchar_inv in E as ->. intros Hrun.
    pose proof (run_shape _ _ _ _ Hrun) as (ds & fr & ex & Ht & Hd & Hn & Hf & He).
    destruct t as [|c t]; [done|]. cbn [number_run number_type_at] in Hrun.
    destruct (number_jump minus (uchar c)) as [s'| |] eqn:Ej; [|done..].
    assert (Hs' : (s' = zero \/ s' = any1) /\ is_digit c = true).
    { unfold number_jump, nonzero_digit in Ej. split_jump Ej; split; auto;
        unfold is_digit, Float.is_digit; lia. }
    apply run_integer in Hrun; [|apply Hs']. destruct Hrun as [-> | [-> Hds]].
    + rewrite Ht. apply (shape_float _ [byte.of_Z 45] ds fr ex); auto.
    + apply (shape_integer _ (c :: t)); [done| |done]. constructor; [apply Hs'|done].
  - assert (Hgo : forall s', (s' = zero \/ s' = any1) -> is_digit b = true ->
      number_run s' value_unsigned t = Some ty -> number_shape (b :: t) ty).
    { intros s' Hs' Hb Hrun. pose proof (run_shape _ _ _ _ Hrun) as Hsh.
      apply run_integer in Hrun; [|done]. destruct Hrun as [-> | [-> Hds]].
      - destruct Hs' as [-> | ->]; cbn [tail_shape] in Hsh.
        + destruct Hsh as (fr & ex & -> & H1 & H2).
          apply (shape_float _ [] [b] fr ex); auto. by constructor; [|constructor].
        + destruct Hsh as (ds & fr & ex & -> & H0 & H1 & H2).
          apply (shape_float _ [] (b :: ds) fr ex); auto. by constructor.
      - apply shape_unsigned; [by constructor|done]. }
    destruct (Z.eqb_spec (uchar b) 48) as [E0|E0].
    + apply Hgo; [by left|]. unfold is_digit, Float.is_digit. lia.
    + destruct (nonzero_digit (uchar b)) eqn:En; [|done].
      apply Hgo; [by right|]. unfold is_digit, Float.is_digit. unfold nonzero_digit in En. lia.
Qed.

Lemma span_digits_all t acc : digits t -> Float.span_digits acc t = (zlen t, digits_value acc t, []).
Proof. intros Ht. rewrite <- (app_nil_r t) at 1. by apply span_digits_app. Qed.

Lemma zlen_pos {A} (l : list A) : l <> [] -> 0 < zlen l.
Proof. destruct l; [done|]. rewrite zlen_cons. pose proof (zlen_nonneg l). lia. Qed.

Lemma strtoull_digits t :
  digits t -> t <> [] ->
  strtoull t = (Z.min (digits_value 0 t) (2 ^ 64 - 1), 2 ^ 64 <=? digits_value 0 t, []).
Proof.
  intros Ht Hn. unfold strtoull. rewrite span_digits_all by done.
  destruct (Z.eqb_spec (zlen t) 0); [apply zlen_pos in Hn; lia|done].
Qed.

Lemma strtoll_negative t :
  digits t -> t <> [] ->
  strtoll (byte.of_Z 45 :: t) =
    (Z.max (- digits_value 0 t) (- 2 ^ 63), 2 ^ 63 <? digits_value 0 t, []).
Proof.
  intros Ht Hn. unfold strtoll. change (uchar (byte.of_Z 45) =? 45) with true. cbv iota beta zeta.
  rewrite span_digits_all by done.
  destruct (Z.eqb_spec (zlen t) 0); [apply zlen_pos in Hn; lia|done].
Qed.

(** The digits of a fraction part, and the value of an exponent part. *)
Definition fraction_digits (fr fd : bytes) : Prop :=
  (fr = [] /\ fd = []) \/ (fr = byte.of_Z 46 :: fd /\ fd <> []).
Definition exponent_value (ex : bytes) (x : Z) : Prop :=
  (ex = [] /\ x = 0) \/
  exists e sg ds, ex = e :: sg ++ ds /\ is_e (uchar e) = true /\ digits ds /\ ds <> [] /\
    ((sg = [] \/ sg = [byte.of_Z 43]) /\ x = digits_value 0 ds \/
     sg = [byte.of_Z 45] /\ x = - digits_value 0 ds).

Lemma digits_head b ds : digits (b :: ds) -> uchar b <> 43 /\ uchar b <> 45 /\ uchar b <> 46.
Proof. intros [H _]%digits_cons. unfold is_digit, Float.is_digit in H. lia. Qed.

Lemma span_exponent_spec ex x : exponent_value ex x -> Float.span_exponent ex = (x, []).
Proof.
  intros [[-> ->]|(e & sg & ds & -> & He & Hd & Hn & Hx)]; [done|].
  unfold Float.span_exponent. unfold is_e in He. rewrite He.
  assert (Hz : forall v, (if zlen ds =? 0 then (0, e :: sg ++ ds) else (v, [])) = (v, @nil Init.Byte.byte)).
  { intros v. destruct (Z.eqb_spec (zlen ds) 0); [apply zlen_pos in Hn; lia|done]. }
  destruct Hx as [[[-> | ->] ->]|[-> ->]]; cbn [app].
  - assert (Hc : (match ds with c :: t => if uchar c =? 45 then (-1, t) else
      if uchar c =? 43 then (1, t) else (1, ds) | [] => (1, ds) end) = (1, ds)).
    { destruct ds as [|c ds]; [done|]. destruct (digits_head _ _ Hd) as (H1 & H2 & _).
      apply Z.eqb_neq in H1, H2. by rewrite H1, H2. }
    rewrite Hc, span_digits_all by done. rewrite Z.mul_1_l. apply Hz.
  - change (uchar (byte.of_Z 43) =? 45) with false. change (uchar (byte.of_Z 43) =? 43) with true. cbv iota.
    rewrite span_digits_all by done. rewrite Z.mul_1_l. apply Hz.
  - change (uchar (byte.of_Z 45) =? 45) with true. cbv iota.
    rewrite span_digits_all by done. replace (-1 * digits_value 0 ds) with (- digits_value 0 ds) by lia.
    apply Hz.
Qed.

Lemma digits_value_app acc s t : digits_value acc (s ++ t) = digits_value (digits_value acc s) t.
Proof. apply foldl_app. Qed.

Definition signed (negative : bool) (x : Z) : Z := if negative then Float.neg x else x.
Definition sign_text (negative : bool) : bytes := if negative then [byte.of_Z 45] else [].

Lemma no_digit_exponent ex x : exponent_value ex x -> no_digit_next ex = true /\ next ex <> 46.
Proof.
  intros [[-> _]|(e & sg & ds & -> & He & _)]; [done|]. unfold no_digit_next, digit.
  cbn [next]. unfold is_e in He. split; [apply negb_true_iff|]; lia.
Qed.

(** [strtod] on a number: it reads the whole text, and the value is the one the
    text denotes, rounded. *)
Lemma strtod_spec negative ds fr fd ex x :
  digits ds -> ds <> [] -> fraction_digits fr fd -> digits fd -> exponent_value ex x ->
  Float.strtod (sign_text negative ++ ds ++ fr ++ ex) =
    (signed negative (Float.of_decimal (digits_value 0 (ds ++ fd)) (x - zlen fd)), []).
Proof.
  intros Hd Hn Hfr Hfd Hx. unfold Float.strtod.
  assert (Hsign : (match sign_text negative ++ ds ++ fr ++ ex with
    | b :: t => if uchar b =? 45 then (true, t) else (false, sign_text negative ++ ds ++ fr ++ ex)
    | [] => (false, sign_text negative ++ ds ++ fr ++ ex) end) = (negative, ds ++ fr ++ ex)).
  { destruct negative; cbn [sign_text app]; [done|]. destruct ds as [|c ds]; [done|]. cbn [app].
    destruct (digits_head _ _ Hd) as (_ & H & _). by apply Z.eqb_neq in H as ->. }
  rewrite Hsign. clear Hsign. destruct (no_digit_exponent ex x Hx) as [Hne Hdot].
  rewrite span_digits_app; [|done|].
  2: { destruct Hfr as [[-> _]|[-> _]]; [done|]. done. }
  assert (Hfrac : (match fr ++ ex with
    | b :: t => if uchar b =? 46 then Float.span_digits (digits_value 0 ds) t
                else (0, digits_value 0 ds, fr ++ ex)
    | [] => (0, digits_value 0 ds, fr ++ ex) end) = (zlen fd, digits_value 0 (ds ++ fd), ex)).
  { destruct Hfr as [[-> ->]|[-> _]]; cbn [app].
    - rewrite (app_nil_r ds). destruct ex as [|b ex]; [done|]. cbn [next] in Hdot.
      by apply Z.eqb_neq in Hdot as ->.
    - change (uchar (byte.of_Z 46) =? 46) with true. cbv iota.
      by rewrite span_digits_app, digits_value_app. }
  rewrite Hfrac. apply zlen_pos in Hn. pose proof (zlen_nonneg fd).
  destruct (Z.eqb_spec (zlen ds + zlen fd) 0); [lia|].
  by rewrite (span_exponent_spec ex x Hx).
Qed.

Lemma fraction_part_digits fr : fraction_part fr -> exists fd, fraction_digits fr fd /\ digits fd.
Proof.
  intros [->|(ds & -> & H1 & H2)]; [exists []; split; [by left|constructor]|].
  exists ds. split; [by right|done].
Qed.
Lemma exponent_part_value ex : exponent_part ex -> exists x, exponent_value ex x.
Proof.
  intros [->|(e & sg & ds & -> & He & Hsg & Hd & Hn)]; [exists 0; by left|].
  destruct Hsg as [-> | [-> | ->]].
  - exists (digits_value 0 ds). right. exists e, [], ds. repeat (split; [done|]). auto.
  - exists (digits_value 0 ds). right. exists e, [byte.of_Z 43], ds. repeat (split; [done|]). auto.
  - exists (- digits_value 0 ds). right. exists e, [byte.of_Z 45], ds. repeat (split; [done|]). auto.
Qed.

Lemma strtod_all t ty : number_shape t ty -> snd (Float.strtod t) = [].
Proof.
  assert (H : forall negative ds fr ex, digits ds -> ds <> [] -> fraction_part fr -> exponent_part ex ->
    snd (Float.strtod (sign_text negative ++ ds ++ fr ++ ex)) = []).
  { intros negative ds fr ex Hd Hn Hf He. destruct (fraction_part_digits fr Hf) as (fd & H1 & H2).
    destruct (exponent_part_value ex He) as [x Hx]. by rewrite (strtod_spec _ _ _ fd _ x). }
  destruct 1 as [Hd Hn|ds -> Hd Hn|sg ds fr ex -> Hs Hd Hn Hf He].
  - specialize (H false t [] []). cbn in H. rewrite ?app_nil_r in H.
    apply H; try done; by left.
  - specialize (H true ds [] []). cbn in H. rewrite ?app_nil_r in H. apply H; try done; by left.
  - destruct Hs as [-> | ->]; [by apply (H false)|by apply (H true)].
Qed.

(** *** The values are in their ranges *)

Lemma digits_value_nonneg acc t : digits t -> 0 <= acc -> 0 <= digits_value acc t.
Proof.
  intros H. revert acc. induction H as [|b t Hb H IH]; intros acc Ha; [done|].
  cbn [digits_value foldl]. apply IH. unfold is_digit, Float.is_digit in Hb. lia.
Qed.

Lemma round_nonneg N D : 0 <= N -> 0 < D -> 0 <= Float.round_half_even N D.
Proof.
  intros HN HD. unfold Float.round_half_even. pose proof (Z.div_pos N D HN HD).
  repeat case_match; lia.
Qed.

Lemma nearest_range N D : 0 <= N -> 0 < D -> 0 <= Float.nearest N D <= Float.infinity.
Proof.
  intros HN HD. unfold Float.nearest. destruct (N =? 0); [done|]. split; [|apply Z.le_min_r].
  apply Z.min_glb; [|done].
  assert (Hq : -1074 <= Float.quantum N D) by (unfold Float.quantum; lia).
  pose proof (round_nonneg (N * 2 ^ Z.max 0 (- Float.quantum N D)) (D * 2 ^ Z.max 0 (Float.quantum N D))) as Hr.
  assert (forall x, 0 < 2 ^ Z.max 0 x) by (intros; apply Z.pow_pos_nonneg; lia).
  specialize (Hr ltac:(apply Z.mul_nonneg_nonneg; [lia|apply Z.lt_le_incl; auto])
                 ltac:(apply Z.mul_pos_pos; auto)). lia.
Qed.

Lemma of_decimal_range m e : 0 <= m -> 0 <= Float.of_decimal m e <= Float.infinity.
Proof.
  intros Hm. unfold Float.of_decimal. apply nearest_range.
  - apply Z.mul_nonneg_nonneg; [done|]. apply Z.pow_nonneg. lia.
  - apply Z.pow_pos_nonneg; lia.
Qed.

Lemma neg_high x : 0 <= x < 2 ^ 63 -> Float.neg x = x + 2 ^ 63.
Proof.
  intros H. unfold Float.neg. symmetry. apply Z.add_nocarry_lxor.
  apply Z.bits_inj'. intros i Hi. rewrite Z.land_spec, Z.bits_0, Z.pow2_bits_eqb by lia.
  destruct (Z.eqb_spec 63 i) as [<-|]; [|apply andb_false_r].
  destruct (Z.eq_dec x 0) as [->|]; [done|]. rewrite (Z.bits_above_log2 x); [done|lia|].
  apply Z.log2_lt_pow2; lia.
Qed.

Lemma signed_range negative x : 0 <= x <= Float.infinity -> 0 <= signed negative x < 2 ^ 64.
Proof.
  intros H. assert (Float.infinity < 2 ^ 63) by done. unfold signed. destruct negative; [|lia].
  rewrite neg_high by lia. lia.
Qed.

Lemma strtod_range t ty : number_shape t ty -> 0 <= fst (Float.strtod t) < 2 ^ 64.
Proof.
  assert (H : forall negative ds fr ex, digits ds -> ds <> [] -> fraction_part fr -> exponent_part ex ->
    0 <= fst (Float.strtod (sign_text negative ++ ds ++ fr ++ ex)) < 2 ^ 64).
  { intros negative ds fr ex Hd Hn Hf He. destruct (fraction_part_digits fr Hf) as (fd & H1 & H2).
    destruct (exponent_part_value ex He) as [x Hx]. rewrite (strtod_spec _ _ _ fd _ x) by done.
    cbn [fst]. apply signed_range, of_decimal_range, digits_value_nonneg; [|done].
    by apply Forall_app. }
  destruct 1 as [Hd Hn|ds -> Hd Hn|sg ds fr ex -> Hs Hd Hn Hf He].
  - specialize (H false t [] []). cbn in H. rewrite ?app_nil_r in H. apply H; try done; by left.
  - specialize (H true ds [] []). cbn in H. rewrite ?app_nil_r in H. apply H; try done; by left.
  - destruct Hs as [-> | ->]; [by apply (H false)|by apply (H true)].
Qed.

(** ** Tokens *)

(** A token with its value. *)
Inductive token : Type :=
| Symbol (t : token_type) | Text (d : bytes) | Unsigned (z : Z) | Integer (z : Z) | Real (x : Z).

Definition kind (k : token) : token_type :=
  match k with
  | Symbol t => t
  | Text _ => value_string
  | Unsigned _ => value_unsigned
  | Integer _ => value_integer
  | Real _ => value_float
  end.

(** The lexer has the value of the token. *)
Definition holds (k : token) (L : lexer) : Prop :=
  match k with
  | Symbol _ => True
  | Text d => token_buffer L = d
  | Unsigned z => number_unsigned L = z
  | Integer z => number_integer L = z
  | Real x => number_float L = x
  end.

(** The value of the text of a number: an integer that does not fit is read as a
    [double]. *)
Definition number_token (t : bytes) (ty : token_type) : token :=
  match ty with
  | value_unsigned =>
      if 2 ^ 64 <=? digits_value 0 t then Real (fst (Float.strtod t)) else Unsigned (digits_value 0 t)
  | value_integer =>
      if 2 ^ 63 <? digits_value 0 (drop 1 t) then Real (fst (Float.strtod t))
      else Integer (- digits_value 0 (drop 1 t))
  | _ => Real (fst (Float.strtod t))
  end.

(** Symbols of one character, by the character, and literals. *)
Definition punctuation : list (Z * token_type) :=
  [(91, begin_array); (93, end_array); (123, begin_object); (125, end_object);
   (58, name_separator); (44, value_separator)].
Definition literals : list (bytes * token_type) :=
  [(lit "true", literal_true); (lit "false", literal_false); (lit "null", literal_null)].

Inductive token_text : bytes -> token -> Prop :=
| text_punctuation c t : (c, t) ∈ punctuation -> token_text [byte.of_Z c] (Symbol t)
| text_literal s t : (s, t) ∈ literals -> token_text s (Symbol t)
| text_string t d : string_text t d -> token_text (dquote :: t ++ [dquote]) (Text d)
| text_number t ty : number_text t = Some ty -> token_text t (number_token t ty).

(** [s] was read from [L] to [L']. *)
Definition consumed (L : lexer) (s : bytes) (L' : lexer) : Prop :=
  ok L' /\ rest L = s ++ rest L' /\ ignore_comments L' = ignore_comments L /\
  chars_read_total (position L) + zlen s <= chars_read_total (position L').

Lemma reads_consumed L s d L' : reads L s d L' -> consumed L s L'.
Proof. intros [? ? ? ? ?]. repeat split; try done; try apply reads_ok0. lia. Qed.
Lemma consumed_some L s L' : consumed L s L' -> reads_some L L'.
Proof. intros (? & ? & ? & ?). split; [done|]. by exists s. Qed.
Lemma consumed_trans L1 s L2 s' L3 : consumed L1 s L2 -> consumed L2 s' L3 -> consumed L1 (s ++ s') L3.
Proof.
  intros (_ & H & Hc & Ht) (H2 & H' & Hc' & Ht'). split; [done|].
  split; [by rewrite H, H', app_assoc|]. split; [congruence|]. rewrite zlen_app. lia.
Qed.

(** *** Numbers *)

Lemma float_token_spec L :
  ok L -> snd (Float.strtod (token_buffer L)) = [] ->
  exists L', float_token L = Ret (value_float, L') /\ holds (Real (fst (Float.strtod (token_buffer L)))) L' /\
    consumed L [] L'.
Proof.
  intros Hok Hr. unfold float_token. cbn [bindM gets].
  destruct (Float.strtod (token_buffer L)) as [x r]. cbn in Hr. subst r. cbn.
  eexists. split; [done|]. split; [done|]. split; [done|]. split; [done|]. split; [done|].
  cbn. rewrite zlen_nil. lia.
Qed.

Lemma with_numbers_consumed i u f L : ok L -> consumed L [] (with_numbers i u f L).
Proof. intros Hok. split; [done|]. split; [done|]. split; [done|]. cbn. rewrite zlen_nil. lia. Qed.

(** After the last character of a number: it is put back and the text converted. *)
Lemma number_done_spec t ty s L0 L1 L2 :
  number_text t = Some ty -> ok L1 -> token_buffer L1 = t -> got L1 L2 -> consumed L0 s L1 ->
  exists L', scan_number_done ty L2 = Ret (kind (number_token t ty), L') /\
    holds (number_token t ty) L' /\ consumed L0 s L'.
Proof.
  intros Ht Hok Hb G Hc. destruct (unget_got L1 L2 Hok G) as (L3 & E & Hok3 & Hs & Hr & Htot).
  assert (Hb3 : token_buffer L3 = t) by (destruct Hs as (-> & _); done).
  assert (Hc3 : consumed L0 s L3).
  { destruct Hc as (_ & H1 & H2 & H3). destruct Hs as (_ & Hi & _). unfold consumed.
    rewrite Hr, Hi, Htot. done. }
  assert (Hgo : forall i u f, consumed L0 s (with_numbers i u f L3)).
  { intros i u f. rewrite <- (app_nil_r s). eapply consumed_trans; [done|by apply with_numbers_consumed]. }
  pose proof (number_text_shape t ty Ht) as Hsh.
  assert (Hfl : exists L', float_token L3 = Ret (value_float, L') /\
    holds (Real (fst (Float.strtod t))) L' /\ consumed L0 s L').
  { destruct (float_token_spec L3) as (L' & E' & Hh & Hc'); [done|rewrite Hb3; by eapply strtod_all|].
    rewrite Hb3 in Hh. exists L'. split; [done|]. split; [done|]. rewrite <- (app_nil_r s).
    by eapply consumed_trans. }
  unfold scan_number_done. rewrite M_bind_eq, E. cbn [bindM gets]. rewrite Hb3. clear Ht.
  destruct Hsh as [Hd Hn|ds -> Hd Hn|sg ds fr ex _ _ _ _ _ _]; [| |exact Hfl].
  - rewrite strtoull_digits by done. cbn [number_token at_end lift].
    destruct (2 ^ 64 <=? digits_value 0 t) eqn:Ev; [exact Hfl|]. eexists. split; [done|].
    split; [|apply Hgo]. cbn. lia.
  - rewrite strtoll_negative by done. cbn [number_token drop at_end lift]. rewrite drop_0.
    destruct (2 ^ 63 <? digits_value 0 ds) eqn:Ev; [exact Hfl|]. eexists. split; [done|].
    split; [|apply Hgo]. cbn. lia.
Qed.

(** The entry of [scan_number]: the label for the first character. *)
Definition number_entry (c : Z) : option number_state :=
  if c =? 45 then Some minus else if c =? 48 then Some zero
  else if nonzero_digit c then Some any1 else None.

Lemma number_text_entry b t :
  number_text (b :: t) = s ← number_entry (uchar b); number_run s value_unsigned t.
Proof.
  cbn [number_text]. unfold number_entry. destruct (uchar b =? 45); [done|].
  destruct (uchar b =? 48); [done|]. by destruct (nonzero_digit (uchar b)).
Qed.

Lemma number_entry_range c s : number_entry c = Some s -> 0 <= c < 256.
Proof.
  unfold number_entry, nonzero_digit. repeat match goal with |- context [if ?b then _ else _] => destruct b eqn:? end;
    intros; simplify_eq; lia.
Qed.

Lemma scan_number_eq L s :
  number_entry (current L) = Some s ->
  scan_number L =
  (let! r := number_loop (enough (reset_lexer L)) s value_unsigned in
   match r with Some number_type => scan_number_done number_type | None => ret parse_error end)
    (with_buffer [byte.of_Z (current L)] (reset_lexer L)).
Proof.
  unfold number_entry, scan_number. rewrite M_bind_eq, reset_eq. cbn [bindM read_current gets].
  change (current (reset_lexer L)) with (current L).
  destruct (current L =? 45); [intros [= <-]; done|]. destruct (current L =? 48); [intros [= <-]; done|].
  destruct (nonzero_digit (current L)); [intros [= <-]; done|done].
Qed.

Lemma scan_number_wp L s :
  ok L -> number_entry (current L) = Some s ->
  wp never scan_number (fun r L' =>
    (exists t k, token_text (byte.of_Z (current L) :: t) k /\ r = kind k /\ holds k L' /\ consumed L t L') \/
    (r = parse_error /\ reads_some L L')) L.
Proof.
  intros Hok Hs. pose proof (number_entry_range _ _ Hs) as Hc. unfold wp.
  rewrite (scan_number_eq L s Hs). set (L1 := with_buffer _ _).
  apply (wp_bind never). eapply wp_mono.
  { apply (number_loop_wp _ s value_unsigned L1); [done|]. by eapply (enough_rest L). }
  intros [ty|] L2.
  - intros (t & L3 & Ht & R & G).
    assert (Hn : number_text (byte.of_Z (current L) :: t) = Some ty).
    { rewrite number_text_entry, uchar_of_Z, Z.mod_small, Hs by lia. done. }
    assert (Hcons : consumed L t L3) by (apply reads_consumed in R; exact R).
    pose proof (reads_buffer _ _ _ _ R) as Hb.
    destruct (number_done_spec (byte.of_Z (current L) :: t) ty t L L3 L2) as (L' & E & Hh & Hc');
      [done|apply R|exact Hb|done|done|].
    unfold wp. rewrite E. left. exists t, (number_token (byte.of_Z (current L) :: t) ty).
    split; [by constructor|done].
  - intros H. apply wp_ret. by right.
Qed.

Lemma scan_number_text L t ty r :
  number_text (byte.of_Z (current L) :: t) = Some ty -> ok L -> 0 <= current L -> rest L = t ++ r ->
  stops (next r) = true ->
  exists L', scan_number L = Ret (kind (number_token (byte.of_Z (current L) :: t) ty), L') /\
    holds (number_token (byte.of_Z (current L) :: t) ty) L' /\ consumed L t L'.
Proof.
  intros Hn Hok Hc Hr Hs. pose proof Hn as Hn'. rewrite number_text_entry, uchar_of_Z, Z.mod_small in Hn'
    by (destruct Hok; lia).
  destruct (number_entry (current L)) as [s|] eqn:Es; [|done]. cbn in Hn'.
  rewrite (scan_number_eq L s Es). set (L1 := with_buffer _ _).
  destruct (number_loop_text (enough (reset_lexer L)) s value_unsigned t ty L1 r)
    as (L2 & L3 & E & R & G); [done|done|done|done|by eapply (enough_rest L)|].
  rewrite M_bind_eq, E. apply (number_done_spec _ ty t L L2 L3); [done|apply R| |done|].
  - apply (reads_buffer _ _ _ _ R).
  - apply reads_consumed in R. exact R.
Qed.

(** *** Literals *)

Lemma literal_loop_wp s t L :
  ok L -> Forall (fun b => b <> Byte.xff) s ->
  wp never (literal_loop s t) (fun r L' =>
    (r = t /\ reads L s [] L') \/ (r = parse_error /\ reads_some L L')) L.
Proof.
  intros Hok Hs. revert L Hok. induction Hs as [|b s Hb Hs IH]; intros L Hok; cbn [literal_loop].
  - apply wp_ret. left. split; [done|]. by apply reads_refl.
  - apply wp_bind, wp_get; [done|]. intros L1 G. case_bool_decide as E.
    + assert (R : reads L [b] [] L1).
      { rewrite <- E. apply next_ne_eof; [done|done|]. intros Ee. rewrite Ee in E. by subst. }
      eapply wp_mono; [apply IH, G|]. intros r L2 [[-> R2]|[-> R2]].
      * left. split; [done|]. exact (reads_trans _ _ _ _ _ _ _ R R2).
      * right. split; [done|]. eapply reads_some_trans; [by eapply reads_reads_some|done].
    + apply wp_ret. right. split; [done|]. by eapply got_reads_some.
Qed.

Lemma literal_loop_text s t L r :
  ok L -> rest L = s ++ r -> exists L', literal_loop s t L = Ret (t, L') /\ reads L s [] L'.
Proof.
  revert L. induction s as [|b s IH]; intros L Hok Hr; [exists L; split; [done|by apply reads_refl]|].
  destruct (get_cons L _ _ Hok Hr) as (L1 & E & G & R). cbn [literal_loop]. rewrite M_bind_eq, E.
  rewrite of_Z_uchar, bool_decide_true by done.
  destruct (IH L1) as (L2 & E2 & R2); [apply G|by apply (reads_left _ _ _ _ _ R)|].
  exists L2. split; [done|]. exact (reads_trans _ _ _ _ _ _ _ R R2).
Qed.

Lemma scan_literal_eq b s t L :
  byte.of_Z (current L) = b -> scan_literal (b :: s) t L = literal_loop s t L.
Proof.
  intros H. unfold scan_literal. cbn [bindM read_current gets lift]. rewrite H.
  change (load1 0 (b :: s)) with (Ret b). cbn [mbind outcome_bind drop].
  by rewrite bool_decide_true, drop_0.
Qed.

(** *** Comments and white space *)

Definition space_text (s : bytes) : Prop := Forall (fun b => is_space (uchar b) = true) s.

Lemma whitespace_loop_wp fuel L :
  ok L -> (length (rest L) < fuel)%nat ->
  wp never (whitespace_loop fuel) (fun _ L' =>
    exists w L1, space_text w /\ consumed L w L1 /\ got L1 L' /\ is_space (next (rest L1)) = false) L.
Proof.
  revert L. induction fuel as [|fuel IH]; intros L Hok Hf; [lia|]. cbn [whitespace_loop].
  apply wp_bind, wp_get; [done|]. intros L1 G. destruct (is_space (next (rest L))) eqn:E.
  - destruct (rest L) as [|b s] eqn:Er; [done|].
    pose proof (got_reads _ _ _ _ Er G) as R. eapply wp_mono.
    { apply IH; [apply G|]. apply reads_length in R. rewrite Er in R. cbn in R, Hf. lia. }
    intros [] L2 (w & L3 & Hw & Hc & G2 & Hn). exists (b :: w), L3.
    split; [by constructor|]. split; [|done].
    apply (consumed_trans L [b] L1 w); [by eapply reads_consumed|done].
  - apply wp_ret. exists [], L. split; [constructor|]. split; [|done].
    apply (reads_consumed L [] []). by apply reads_refl.
Qed.

Lemma whitespace_loop_text fuel w L s :
  space_text w -> ok L -> rest L = w ++ s -> is_space (next s) = false -> (length (rest L) < fuel)%nat ->
  exists L1 L', whitespace_loop fuel L = Ret (tt, L') /\ consumed L w L1 /\ rest L1 = s /\ got L1 L'.
Proof.
  intros Hw. revert fuel L. induction Hw as [|b w Hb Hw IH]; intros fuel L Hok Hr Hs Hf;
    (destruct fuel as [|fuel]; [lia|]); cbn [whitespace_loop].
  - destruct (get_spec L Hok) as (L' & E & G). exists L, L'. rewrite M_bind_eq, E, Hr. cbn [app].
    rewrite Hs. split; [done|]. split; [|done]. apply (reads_consumed L [] []). by apply reads_refl.
  - destruct (get_cons L _ _ Hok Hr) as (L1 & E & G & R). rewrite M_bind_eq, E, Hb.
    destruct (IH fuel L1) as (L2 & L' & E2 & Hc & Hr2 & G2);
      [apply G|by apply (reads_left _ _ _ _ _ R)|done|apply reads_length in R; cbn in R; lia|].
    exists L2, L'. split; [done|]. split; [|done].
    apply (consumed_trans L [b] L1 w); [by eapply reads_consumed|done].
Qed.

Lemma skip_whitespace_wp L :
  ok L ->
  wp never skip_whitespace (fun _ L' =>
    exists w L1, space_text w /\ consumed L w L1 /\ got L1 L' /\ is_space (next (rest L1)) = false) L.
Proof.
  intros Hok. unfold skip_whitespace. apply wp_bind, wp_gets.
  apply whitespace_loop_wp; [done|by eapply enough_rest].
Qed.

Lemma reads_some_length L L' : reads_some L L' -> (length (rest L') <= length (rest L))%nat.
Proof. intros (_ & s & -> & _). rewrite length_app. lia. Qed.

Lemma line_comment_wp fuel L :
  ok L -> (length (rest L) < fuel)%nat -> wp never (line_comment fuel) (fun _ L' => reads_some L L') L.
Proof.
  revert L. induction fuel as [|fuel IH]; intros L Hok Hf; [lia|]. cbn [line_comment].
  apply wp_bind, wp_get; [done|]. intros L1 G. pose proof (got_reads_some _ _ G) as R.
  destruct (rest L) as [|b s] eqn:Er; [by apply wp_ret|].
  destruct (_ || _); [by apply wp_ret|]. eapply wp_mono.
  { apply IH; [apply G|]. pose proof (got_rest _ _ G) as Hl. rewrite Er in Hl. rewrite Hl. cbn in *. lia. }
  intros a L2 R2. by eapply reads_some_trans.
Qed.

Lemma unget_got_some L L1 L2 :
  reads_some L L1 -> got L1 L2 ->
  wp never unget (fun _ L' => reads_some L L' /\ rest L' = rest L1) L2.
Proof.
  intros R G. destruct (unget_got L1 L2) as (L3 & E & H1 & H2 & H3 & H4); [apply R|done|].
  unfold wp. rewrite E. split; [|done]. destruct R as (_ & s & Hr & Hc & Ht). split; [done|].
  exists s. rewrite H3, H4. split; [done|]. split; [|done]. destruct H2 as (_ & -> & _). done.
Qed.

Lemma block_comment_wp fuel L :
  ok L -> (length (rest L) < fuel)%nat -> wp never (block_comment fuel) (fun _ L' => reads_some L L') L.
Proof.
  revert L. induction fuel as [|fuel IH]; intros L Hok Hf; [lia|]. cbn [block_comment].
  apply wp_bind, wp_get; [done|]. intros L1 G. pose proof (got_reads_some _ _ G) as R.
  destruct (rest L) as [|b s] eqn:Er; [by apply wp_ret|].
  pose proof (got_rest _ _ G) as Hl. rewrite Er in Hl. cbn in Hl, Hf.
  destruct (_ || _); [by apply wp_ret|].
  assert (Hgo : forall L2, reads_some L L2 -> rest L2 = s ->
    wp never (block_comment fuel) (fun _ L' => reads_some L L') L2).
  { intros L2 R2 H2. eapply wp_mono; [apply IH; [apply R2|rewrite H2; lia]|].
    intros a L3 R3. by eapply reads_some_trans. }
  destruct (next (b :: s) =? 42); [|by apply Hgo].
  apply wp_bind, wp_get; [apply G|]. intros L2 G2.
  destruct (_ =? 47); [apply wp_ret; by eapply reads_some_trans, got_reads_some|].
  apply wp_bind. eapply wp_mono; [by apply (unget_got_some L L1 L2)|]. intros [] L3 [R3 H3].
  apply Hgo; [done|]. by rewrite H3.
Qed.

Lemma scan_comment_wp L :
  ok L ->
  wp never scan_comment (fun closed L' => reads_some L L' /\
    (closed = true -> (length (rest L') < length (rest L))%nat)) L.
Proof.
  intros Hok. unfold scan_comment. apply wp_bind, wp_get; [done|]. intros L1 G.
  apply wp_bind, wp_gets. pose proof (got_reads_some _ _ G) as R.
  assert (Hf : (length (rest L1) < enough L1)%nat) by (by eapply enough_rest; [apply G|]).
  assert (Hgo : forall L2, next (rest L) <> eof -> reads_some L1 L2 ->
    reads_some L L2 /\ (length (rest L2) < length (rest L))%nat).
  { intros L2 Hn R2. split; [by eapply reads_some_trans|]. apply reads_some_length in R2.
    pose proof (next_ne_eof _ _ _ G eq_refl Hn) as R1. apply reads_length in R1. cbn in R1. lia. }
  destruct (Z.eqb_spec (next (rest L)) 47) as [E|E]; [|destruct (Z.eqb_spec (next (rest L)) 42) as [E'|E']].
  - eapply wp_mono; [by apply line_comment_wp; [apply G|]|]. intros a L2 R2.
    destruct (Hgo L2); [by rewrite E|done|done].
  - eapply wp_mono; [by apply block_comment_wp; [apply G|]|]. intros a L2 R2.
    destruct (Hgo L2); [by rewrite E'|done|done].
  - by apply wp_ret.
Qed.

Lemma got_total_le L0 L1 L :
  reads_some L0 L1 -> got L1 L ->
  chars_read_total (position L0) + 1 <= chars_read_total (position L).
Proof.
  intros (_ & s & _ & _ & H) G. pose proof (zlen_nonneg s). pose proof (got_total _ _ G). lia.
Qed.

Lemma total_le L L' : reads_some L L' -> chars_read_total (position L) <= chars_read_total (position L').
Proof. intros (_ & s & _ & _ & H). pose proof (zlen_nonneg s). lia. Qed.

(** From [L0] on the text up to [L1] is behind, and [L] has read a character
    more. *)
Lemma comments_loop_wp fuel L0 L1 L :
  reads_some L0 L1 -> got L1 L -> (length (rest L) < fuel)%nat ->
  wp never (comments_loop fuel) (fun go L' =>
    if go then exists L2, reads_some L0 L2 /\ got L2 L' /\ (ignore_comments L1 = false -> L2 = L1)
    else reads_some L0 L' /\ chars_read_total (position L0) + 1 <= chars_read_total (position L')) L.
Proof.
  revert L1 L. induction fuel as [|fuel IH]; intros L1 L R G Hf; [lia|]. cbn [comments_loop].
  apply wp_bind, wp_gets, wp_bind, wp_read_current.
  assert (Hi : ignore_comments L = ignore_comments L1) by apply (got_same _ _ G).
  destruct (ignore_comments L) eqn:Ei; cbn [andb]; [|apply wp_ret; by exists L1].
  destruct (Z.eqb_spec (current L) 47); [|apply wp_ret; by exists L1].
  pose proof (got_total_le _ _ _ R G) as Ht. pose proof (got_reads_some _ _ G) as R1.
  apply wp_bind. eapply wp_mono; [apply scan_comment_wp, G|]. intros closed L2 [R2 Hlen].
  pose proof (total_le _ _ R2).
  assert (R3 : reads_some L0 L2) by (eapply reads_some_trans; [done|]; by eapply reads_some_trans).
  destruct closed.
  2: { apply wp_ret. split; [done|lia]. }
  specialize (Hlen eq_refl). apply wp_bind. eapply wp_mono; [apply skip_whitespace_wp, R2|].
  intros [] L3 (w & L4 & _ & Hc & G4 & _). eapply wp_mono.
  { apply (IH L4 L3); [by eapply reads_some_trans, consumed_some|done|].
    pose proof (reads_some_length _ _ (consumed_some _ _ _ Hc)).
    pose proof (reads_some_length _ _ (got_reads_some _ _ G4)). lia. }
  intros [] L5; [|done]. intros (L6 & H1 & H2 & _). exists L6. split; [done|]. split; [done|].
  congruence.
Qed.

(** *** The values of tokens *)

Definition token_ok (k : token) : Prop :=
  match k with
  | Symbol t =>
      match t with
      | value_string | value_unsigned | value_integer | value_float | parse_error | end_of_input => False
      | _ => True
      end
  | Text d => Utf8.valid d = true
  | Unsigned z => 0 <= z < 2 ^ 64
  | Integer z => - 2 ^ 63 <= z <= 0
  | Real x => 0 <= x < 2 ^ 64
  end.

Lemma number_token_ok t ty : number_shape t ty -> token_ok (number_token t ty).
Proof.
  intros H. pose proof (strtod_range _ _ H) as Hr. destruct H as [Hd Hn|ds -> Hd Hn|]; [| |done].
  - cbn [number_token]. pose proof (digits_value_nonneg 0 t Hd ltac:(lia)).
    destruct (Z.leb_spec (2 ^ 64) (digits_value 0 t)); [done|]. cbn. lia.
  - cbn [number_token drop]. rewrite drop_0. pose proof (digits_value_nonneg 0 ds Hd ltac:(lia)).
    destruct (Z.ltb_spec (2 ^ 63) (digits_value 0 ds)); [done|]. cbn. lia.
Qed.

Lemma token_text_ok s k : token_text s k -> token_ok k.
Proof.
  destruct 1 as [c t H|s t H|t d H|t ty H].
  - unfold punctuation in H. rewrite !elem_of_cons, elem_of_nil in H.
    destruct H as [H|[H|[H|[H|[H|[H|[]]]]]]]; by injection H as _ ->.
  - unfold literals in H. rewrite !elem_of_cons, elem_of_nil in H.
    destruct H as [H|[H|[H|[]]]]; by injection H as _ ->.
  - cbn. by eapply string_text_valid.
  - by apply number_token_ok, number_text_shape.
Qed.

(** *** The token after the white space *)

(** Where the input ends for the lexer: at its end, or at a null byte. *)
Definition end_text (s : bytes) (L' : lexer) : Prop := (s = [] /\ rest L' = []) \/ s = [Byte.x00].

Definition scan_result (L : lexer) (t : token_type) (L' : lexer) : Prop :=
  chars_read_total (position L) + 1 <= chars_read_total (position L') /\
  ((t = parse_error /\ reads_some L L') \/
   (t = end_of_input /\ exists s, end_text s L' /\ rest L = s ++ rest L' /\ reads_some L L') \/
   (exists s k, token_text s k /\ t = kind k /\ holds k L' /\ consumed L s L')).

Lemma token_text_cons s k : token_text s k -> s <> [].
Proof.
  destruct 1 as [? ? _|s t H|? ? _|t ty H]; [done| |done|by destruct t].
  unfold literals in H. repeat (apply elem_of_cons in H as [H|H]; [injection H as -> ->; done|]).
  by apply elem_of_nil in H.
Qed.

Lemma scan_result_token L L' s k :
  token_text s k -> holds k L' -> consumed L s L' -> scan_result L (kind k) L'.
Proof.
  intros H1 H2 H3. split; [|right; right; by exists s, k].
  apply token_text_cons, zlen_pos in H1. destruct H3 as (_ & _ & _ & H3). lia.
Qed.

Lemma punctuation_result L0 L t c :
  got L0 L -> current L = c -> c <> eof -> (c, t) ∈ punctuation -> scan_result L0 t L.
Proof.
  intros G Hc Hn Ht. apply (scan_result_token _ _ [byte.of_Z c] (Symbol t)); [by constructor|done|].
  eapply reads_consumed, next_ne_eof; [done|rewrite <- Hc; symmetry; apply G|done].
Qed.

Lemma error_result L0 L L' : got L0 L -> reads_some L L' -> ok L0 -> scan_result L0 parse_error L'.
Proof.
  intros G R Hok. pose proof (got_total _ _ G). pose proof (total_le _ _ R). split; [lia|]. left.
  split; [done|]. eapply reads_some_trans; [by eapply got_reads_some|done].
Qed.

Lemma literal_result L0 L s t b :
  ok L0 -> got L0 L -> byte.of_Z (current L) = b -> current L <> eof -> (b :: s, t) ∈ literals ->
  wp never (scan_literal (b :: s) t) (scan_result L0) L.
Proof.
  intros Hok G Hb Hn Ht. unfold wp. rewrite (scan_literal_eq b s t L Hb).
  pose proof (next_ne_eof _ _ _ G eq_refl ltac:(by rewrite <- (got_current _ _ G))) as R.
  rewrite <- (got_current _ _ G), Hb in R.
  eapply (wp_mono never).
  { apply literal_loop_wp; [apply G|]. unfold literals in Ht.
    repeat (apply elem_of_cons in Ht as [Ht|Ht]; [injection Ht as _ -> _; by repeat constructor|]).
    by apply elem_of_nil in Ht. }
  intros r L' [[-> R2]|[-> R2]]; [|by eapply error_result].
  apply (scan_result_token _ _ (b :: s) (Symbol t)); [by constructor|done|].
  eapply reads_consumed. exact (reads_trans _ _ _ _ _ _ _ R R2).
Qed.

Ltac punct G E :=
  apply wp_ret; apply (punctuation_result _ _ _ _ G eq_refl); rewrite E; [done|];
  unfold punctuation; set_solver.

(** The end of the input, or a null byte. *)
Lemma end_result L0 L :
  ok L0 -> got L0 L -> current L = 0 \/ current L = eof -> scan_result L0 end_of_input L.
Proof.
  intros Hok0 G Hz. pose proof (got_total _ _ G) as Htot.
  split; [lia|]. right. left. split; [done|]. destruct Hz as [E|E].
  - assert (R : reads L0 [byte.of_Z (current L)] [] L) by (apply next_ne_eof; [done|symmetry; apply G|by rewrite E]).
    rewrite E in R. exists [Byte.x00]. split; [by right|].
    split; [by apply (reads_rest _ _ _ _ R)|by eapply got_reads_some].
  - exists []. assert (Hnil : rest L0 = []).
    { destruct (rest L0) as [|b s] eqn:Er; [done|]. pose proof (got_current _ _ G) as Hc.
      rewrite Er in Hc. cbn in Hc. pose proof (uchar_range b). unfold eof in *. lia. }
    split; [left; split; [done|by rewrite (got_rest _ _ G), Hnil]|].
    split; [by rewrite (got_rest _ _ G), Hnil|by eapply got_reads_some].
Qed.

Lemma scan_token_wp L0 L :
  ok L0 -> got L0 L -> wp never scan_token (scan_result L0) L.
Proof.
  intros Hok0 G. pose proof (got_ok _ _ G) as Hok. unfold scan_token. apply wp_bind, wp_read_current.
  destruct (Z.eqb_spec (current L) 91) as [E|_]; [punct G E|].
  destruct (Z.eqb_spec (current L) 93) as [E|_]; [punct G E|].
  destruct (Z.eqb_spec (current L) 123) as [E|_]; [punct G E|].
  destruct (Z.eqb_spec (current L) 125) as [E|_]; [punct G E|].
  destruct (Z.eqb_spec (current L) 58) as [E|_]; [punct G E|].
  destruct (Z.eqb_spec (current L) 44) as [E|_]; [punct G E|].
  destruct (Z.eqb_spec (current L) 116) as [E|_].
  { apply literal_result; [done|done|by rewrite E|by rewrite E|unfold literals; set_solver]. }
  destruct (Z.eqb_spec (current L) 102) as [E|_].
  { apply literal_result; [done|done|by rewrite E|by rewrite E|unfold literals; set_solver]. }
  destruct (Z.eqb_spec (current L) 110) as [E|_].
  { apply literal_result; [done|done|by rewrite E|by rewrite E|unfold literals; set_solver]. }
  assert (Hgo : current L <> eof -> reads L0 [byte.of_Z (current L)] [] L).
  { intros Hn. apply next_ne_eof; [done|symmetry; apply G|done]. }
  destruct (Z.eqb_spec (current L) 34) as [E|_].
  { eapply wp_mono; [by apply scan_string_wp|]. intros r L' [(-> & t & Ht & R)|[-> R]]; [|by eapply error_result].
    apply (scan_result_token _ _ (dquote :: t ++ [dquote]) (Text (token_buffer L'))); [by constructor|done|].
    rewrite E in Hgo. apply (consumed_trans L0 [dquote] L).
    - by eapply reads_consumed, Hgo.
    - apply reads_consumed in R. exact R. }
  destruct ((current L =? 45) || digit (current L)) eqn:En.
  { assert (Hs : exists s, number_entry (current L) = Some s).
    { unfold number_entry, digit, nonzero_digit in *.
      repeat match goal with |- context [if ?b then _ else _] => destruct b eqn:? end; eauto. lia. }
    destruct Hs as [s Hs]. eapply wp_mono; [by apply (scan_number_wp L s)|].
    intros r L' [(t & k & Ht & -> & Hh & Hc)|[-> R]]; [|by eapply error_result].
    apply (scan_result_token _ _ (byte.of_Z (current L) :: t) k); [done|done|].
    apply number_entry_range in Hs. apply (consumed_trans L0 [byte.of_Z (current L)] L); [|done].
    eapply reads_consumed, Hgo. unfold eof. lia. }
  pose proof (got_total _ _ G) as Htot.
  destruct ((current L =? 0) || (current L =? eof)) eqn:Ez; apply wp_ret.
  2: { eapply error_result; [done|by apply reads_some_refl|done]. }
  apply end_result; [done|done|]. apply orb_true_iff in Ez. rewrite !Z.eqb_eq in Ez. tauto.
Qed.

(** ** Scanning *)

Definition bom : bytes := [Byte.xef; Byte.xbb; Byte.xbf].
Definition total (L : lexer) : Z := chars_read_total (position L).

Lemma got_consumed L L' c : got L L' -> next (rest L) = c -> c <> eof -> consumed L [byte.of_Z c] L'.
Proof. intros. by eapply reads_consumed, next_ne_eof. Qed.

Lemma skip_bom_wp L :
  ok L ->
  wp never skip_bom (fun go L' =>
    if go then exists b, (b = [] \/ b = bom) /\ consumed L b L'
    else reads_some L L' /\ total L + 1 <= total L') L.
Proof.
  intros Hok. unfold skip_bom. apply wp_bind, wp_get; [done|]. intros L1 G1.
  pose proof (got_reads_some _ _ G1) as R1. pose proof (got_total _ _ G1) as T1.
  destruct (Z.eqb_spec (next (rest L)) 0xEF) as [E1|E1].
  - pose proof (got_consumed _ _ _ G1 E1 ltac:(done)) as C1.
    apply wp_bind, wp_get; [apply G1|]. intros L2 G2. pose proof (got_total _ _ G2) as T2.
    destruct (Z.eqb_spec (next (rest L1)) 0xBB) as [E2|E2].
    + pose proof (got_consumed _ _ _ G2 E2 ltac:(done)) as C2.
      apply wp_bind, wp_get; [apply G2|]. intros L3 G3. pose proof (got_total _ _ G3) as T3. apply wp_ret.
      destruct (Z.eqb_spec (next (rest L2)) 0xBF) as [E3|E3].
      * pose proof (got_consumed _ _ _ G3 E3 ltac:(done)) as C3. exists bom. split; [by right|].
        exact (consumed_trans _ _ _ _ _ C1 (consumed_trans _ _ _ _ _ C2 C3)).
      * unfold total. split; [|lia].
        eapply reads_some_trans; [by eapply consumed_some|].
        eapply reads_some_trans; [by eapply consumed_some|]. by eapply got_reads_some.
    + apply wp_ret. unfold total. split; [|lia].
      eapply reads_some_trans; [by eapply consumed_some|]. by eapply got_reads_some.
  - apply wp_bind. destruct (unget_got L L1 Hok G1) as (L2 & E & H1 & H2 & H3 & H4).
    unfold wp at 1. rewrite E. apply wp_ret. exists []. split; [by left|]. split; [done|].
    split; [by rewrite H3|]. split; [apply H2|]. rewrite zlen_nil. lia.
Qed.

(** What stands before a token: a byte order mark, only at the start, and white
    space. *)
Definition gap (L : lexer) (s : bytes) : Prop :=
  exists b w, s = b ++ w /\ space_text w /\ (b = [] \/ (total L = 0 /\ b = bom)).

(** Every input is scanned, without a failed assertion, and the result is an
    error, the end, or a token of the grammar after a gap. *)
Lemma scan_wp L :
  ok L -> 0 <= total L ->
  wp never scan (fun t L' =>
    1 <= total L' /\ reads_some L L' /\
    (t = parse_error \/
     exists L1, reads_some L L1 /\ scan_result L1 t L' /\
       (ignore_comments L = false -> exists s, gap L s /\ consumed L s L1))) L.
Proof.
  intros Hok H0. unfold scan. apply wp_bind, wp_gets, wp_bind.
  apply (wp_mono never _ (fun go L' =>
    if go : bool then exists b, (b = [] \/ (total L = 0 /\ b = bom)) /\ consumed L b L'
    else reads_some L L' /\ total L + 1 <= total L')).
  { unfold total. destruct (Z.eqb_spec (chars_read_total (position L)) 0) as [E|E].
    - eapply wp_mono; [by apply skip_bom_wp|]. intros [] L1; [|done].
      intros (b & [-> | ->] & Hc); eexists; (split; [|done]); auto.
    - apply wp_ret. exists []. split; [by left|]. apply (reads_consumed _ _ []). by apply reads_refl. }
  intros go L1 Hgo. destruct go; cbn [negb].
  2: { apply wp_ret. destruct Hgo. split; [lia|]. split; [done|by left]. }
  destruct Hgo as (b & Hb & Cb). apply wp_bind.
  eapply wp_mono; [apply skip_whitespace_wp; apply Cb|]. intros [] L3 (w & L2 & Hw & Cw & G & _).
  pose proof (consumed_trans _ _ _ _ _ Cb Cw) as C2. apply wp_bind, wp_gets, wp_bind.
  eapply wp_mono.
  { apply (comments_loop_wp _ L L2 L3); [by eapply consumed_some|done|].
    by eapply enough_rest; [apply G|]. }
  intros [] L4.
  - intros (L5 & R5 & G5 & Heq). eapply wp_mono; [by apply (scan_token_wp L5); [apply R5|]|].
    intros t L6 Hr. pose proof (total_le _ _ R5) as T5. unfold total in *.
    assert (reads_some L L6).
    { eapply reads_some_trans; [done|]. destruct Hr as (_ & [[_ ?]|[(_ & s & _ & _ & ?)|(s & k & _ & _ & _ & ?)]]);
        [done|done|by eapply consumed_some]. }
    split; [destruct Hr; lia|]. split; [done|]. right. exists L5. split; [done|]. split; [done|].
    intros Hi. exists (b ++ w). split; [by exists b, w|]. rewrite Heq; [done|].
    destruct C2 as (_ & _ & -> & _). done.
  - intros [R4 T4]. apply wp_ret. unfold total in *. split; [lia|]. split; [done|by left].
Qed.

(** A token takes at least a character. *)
Definition stuck (t : token_type) : bool :=
  match t with parse_error | end_of_input => true | _ => false end.

Lemma scan_progress L :
  ok L -> 0 <= total L ->
  wp never scan (fun t L' =>
    ok L' /\ 1 <= total L' /\ ignore_comments L' = ignore_comments L /\
    (length (rest L') <= length (rest L))%nat /\
    (stuck t = false -> (length (rest L') < length (rest L))%nat)) L.
Proof.
  intros Hok H0. eapply wp_mono; [by apply scan_wp|]. intros t L' (H1 & R & H).
  split; [apply R|]. split; [done|]. split; [destruct R as (_ & ? & _ & ? & _); done|].
  pose proof (reads_some_length _ _ R). split; [done|]. intros Hs.
  destruct H as [->|(L1 & R1 & (_ & [[-> _]|[[-> _]|(s & k & Ht & -> & _ & C)]]) & _)]; [done..|].
  pose proof (reads_some_length _ _ R1). destruct C as (_ & E & _). apply token_text_cons in Ht.
  destruct s; [done|]. rewrite E in *. cbn [length app] in *. rewrite length_app in *. lia.
Qed.

(** ** Known texts *)

(** A number is over where none of its characters comes next. *)
Definition delimited (k : token) (s : bytes) : Prop :=
  match k with Unsigned _ | Integer _ | Real _ => stops (next s) = true | _ => True end.

Lemma number_token_delimited t ty s : delimited (number_token t ty) s -> stops (next s) = true.
Proof. unfold number_token. destruct ty; try done; by destruct (_ : bool). Qed.

(** The first character of a token. *)
Definition starter (c : Z) : bool :=
  ((33 <=? c) && (c <? 128)) && negb (c =? 47).

Lemma token_text_first s k : token_text s k -> exists c t, s = byte.of_Z c :: t /\ starter c = true.
Proof.
  destruct 1 as [c t H|s t H|t d _|t ty H].
  - exists c, []. split; [done|]. unfold punctuation in H.
    repeat (apply elem_of_cons in H as [H|H]; [by injection H as -> _|]). by apply elem_of_nil in H.
  - unfold literals in H. rewrite !elem_of_cons, elem_of_nil in H.
    destruct H as [H|[H|[H|[]]]]; injection H as -> _;
      [by exists 116, (lit "rue")|by exists 102, (lit "alse")|by exists 110, (lit "ull")].
  - by exists 34, (t ++ [dquote]).
  - destruct t as [|b t]; [done|]. rewrite number_text_entry in H.
    exists (uchar b), t. split; [by rewrite of_Z_uchar|].
    destruct (number_entry (uchar b)) as [e|] eqn:E; [|done].
    unfold number_entry, nonzero_digit, starter in *.
    repeat match type of E with context [if ?b then _ else _] => destruct b eqn:? in E end; simplify_eq; lia.
Qed.

Lemma starter_facts c : starter c = true -> 0 <= c < 128 /\ is_space c = false /\ c <> 47.
Proof. unfold starter, is_space. lia. Qed.

Lemma comments_loop_skip fuel L :
  current L <> 47 -> comments_loop (S fuel) L = Ret (true, L).
Proof.
  intros H. cbn [comments_loop bindM gets read_current]. apply Z.eqb_neq in H. rewrite H.
  by rewrite andb_false_r.
Qed.

Lemma scan_literal_text b s t L0 L r :
  got L0 L -> byte.of_Z (current L) = b -> rest L0 = (b :: s) ++ r ->
  exists L', scan_literal (b :: s) t L = Ret (t, L') /\ consumed L0 (b :: s) L'.
Proof.
  intros G Hb Hr. rewrite (scan_literal_eq b s t L Hb).
  pose proof (got_reads _ _ b (s ++ r) Hr G) as R.
  destruct (literal_loop_text s t L r) as (L' & -> & R'); [apply G|by rewrite (got_rest _ _ G), Hr|].
  exists L'. split; [done|]. eapply reads_consumed. exact (reads_trans _ _ _ _ _ _ _ R R').
Qed.

(** A character that starts a number makes the lexer scan one. *)
Lemma scan_token_number L e : number_entry (current L) = Some e -> scan_token L = scan_number L.
Proof.
  intros Ee. unfold scan_token. cbn [bindM read_current gets].
  unfold number_entry, nonzero_digit, digit in *.
  repeat match goal with
  | |- context [current L =? ?k] => destruct (Z.eqb_spec (current L) k) as [Ec|?]; [rewrite Ec in *; done|]
  end.
  destruct ((false || _)) eqn:Ed; [done|].
  repeat match type of Ee with context [if ?b then _ else _] => destruct b eqn:? in Ee end; simplify_eq; lia.
Qed.

(** The token after its first character was read. *)
Lemma scan_token_text L0 L s k r :
  token_text s k -> delimited k r -> ok L0 -> got L0 L -> rest L0 = s ++ r ->
  exists L', scan_token L = Ret (kind k, L') /\ holds k L' /\ consumed L0 s L'.
Proof.
  intros Ht Hd Hok0 G Hr.
  destruct (token_text_first _ _ Ht) as (c & s' & Es & Hc).
  apply starter_facts in Hc as (Hc & _ & _).
  assert (Ec : current L = c).
  { rewrite (got_current _ _ G), Hr, Es. cbn [next app]. rewrite uchar_of_Z. apply Z.mod_small. lia. }
  assert (Hrest : rest L = s' ++ r) by (by rewrite (got_rest _ _ G), Hr, Es).
  assert (C0 : consumed L0 [byte.of_Z c] L).
  { eapply got_consumed; [done| |unfold eof; lia]. by rewrite <- (got_current _ _ G). }
  destruct Ht as [c1 t H|s1 t H|t d Ht|t ty Ht];
    [unfold scan_token; cbn [bindM read_current gets]..|].
  - injection Es as Ec1 <-. unfold punctuation in H.
    assert (Hcc : c1 = c).
    { apply (f_equal uchar) in Ec1. rewrite !uchar_of_Z in Ec1.
      repeat (apply elem_of_cons in H as [H|H]; [injection H as -> ->; rewrite (Z.mod_small c) in Ec1 by lia; done|]).
      by apply elem_of_nil in H. }
    subst c1. exists L. rewrite Ec.
    repeat (apply elem_of_cons in H as [H|H]; [injection H as -> ->; done|]). by apply elem_of_nil in H.
  - unfold literals in H.
    clear Es Hrest C0. rewrite !elem_of_cons, elem_of_nil in H.
    assert (Hgo : forall b s2, s1 = b :: s2 -> byte.of_Z (current L) = b ->
      exists L', scan_literal (b :: s2) t L = Ret (t, L') /\ consumed L0 (b :: s2) L').
    { intros b s2 -> Hb. by eapply scan_literal_text. }
    assert (Hcur : current L = next s1) by (rewrite (got_current _ _ G), Hr; by destruct H as [H|[H|[H|[]]]];
      injection H as -> _).
    destruct H as [H|[H|[H|[]]]]; injection H as -> ->; rewrite Hcur;
      destruct (Hgo _ _ eq_refl) as (L' & E & C); try (by rewrite Hcur); by exists L'.
  - injection Es as Ec1 <-. assert (c = 34) as ->.
    { apply (f_equal uchar) in Ec1. rewrite uchar_of_Z, (Z.mod_small c) in Ec1 by lia. done. }
    rewrite <- app_assoc in Hrest.
    destruct (scan_string_text t d L r) as (L' & E & R); [done|apply G|done|done|].
    rewrite Ec. exists L'. split; [done|]. split; [apply (reads_buffer _ _ _ _ R)|].
    apply reads_consumed in R. exact (consumed_trans L0 _ L _ _ C0 R).
  - rewrite Es in Ht. pose proof Ht as Hn. rewrite number_text_entry, uchar_of_Z, Z.mod_small in Hn by lia.
    destruct (number_entry c) as [e|] eqn:Ee; [|done].
    rewrite <- Ec in Ee. rewrite (scan_token_number _ _ Ee). subst c.
    destruct (scan_number_text L s' ty r) as (L' & E & Hh & C); [done|apply G|lia|done| |].
    { rewrite <- Es in *. by eapply number_token_delimited. }
    rewrite Es. exists L'. split; [done|]. split; [done|]. exact (consumed_trans L0 _ L _ _ C0 C).
Qed.

(** The start of [scan]: the byte order mark and the white space are skipped, and
    the next character is read. *)
Lemma skip_bom_text L b r :
  ok L -> rest L = b ++ r -> b = bom \/ (b = [] /\ next r <> 0xEF) ->
  exists L', skip_bom L = Ret (true, L') /\ consumed L b L' /\ rest L' = r.
Proof.
  intros Hok Hr [-> | [-> Hn]]; unfold skip_bom.
  - destruct (get_byte L 0xEF _ Hok Hr) as (L1 & E1 & G1 & R1 & H1); [lia|].
    destruct (get_byte L1 0xBB _ (got_ok _ _ G1) H1) as (L2 & E2 & G2 & R2 & H2); [lia|].
    destruct (get_byte L2 0xBF _ (got_ok _ _ G2) H2) as (L3 & E3 & G3 & R3 & H3); [lia|].
    rewrite M_bind_eq, E1. cbn [Z.eqb Pos.eqb]. rewrite M_bind_eq, E2. cbn [Z.eqb Pos.eqb].
    rewrite M_bind_eq, E3. exists L3. split; [done|]. split; [|done].
    apply reads_consumed in R1, R2, R3.
    exact (consumed_trans _ _ _ _ _ R1 (consumed_trans _ _ _ _ _ R2 R3)).
  - destruct (get_spec L Hok) as (L1 & E1 & G1). rewrite M_bind_eq, E1, Hr. cbn [app].
    apply Z.eqb_neq in Hn. rewrite Hn.
    destruct (unget_got L L1 Hok G1) as (L2 & E & H1 & H2 & H3 & H4). rewrite M_bind_eq, E.
    exists L2. split; [done|]. rewrite H3, Hr. split; [|done]. split; [done|].
    split; [by rewrite H3|]. split; [apply H2|]. rewrite zlen_nil. lia.
Qed.

Lemma space_next w r : space_text w -> next (w ++ r) <> 0xEF \/ w = [].
Proof.
  destruct 1 as [|b w Hb _]; [by right|]. left. cbn. unfold is_space in Hb. lia.
Qed.

Lemma scan_start L s r :
  gap L s -> ok L -> rest L = s ++ r -> is_space (next r) = false -> next r <> 0xEF -> next r <> 47 ->
  exists L1 L2, scan L = scan_token L2 /\ consumed L s L1 /\ rest L1 = r /\ got L1 L2.
Proof.
  intros (b & w & -> & Hw & Hb) Hok Hr Hs Hn Hc. rewrite <- app_assoc in Hr. unfold scan.
  cbn [bindM gets].
  assert (Hbom : exists L1, (if chars_read_total (position L) =? 0 then skip_bom else ret true) L =
    Ret (true, L1) /\ consumed L b L1 /\ rest L1 = w ++ r).
  { assert (Hne : next (w ++ r) <> 0xEF) by (destruct (space_next w r Hw) as [? | ->]; done).
    unfold total in Hb. destruct (Z.eqb_spec (chars_read_total (position L)) 0) as [E|E].
    - apply skip_bom_text; [done|done|]. destruct Hb as [-> | [_ ->]]; auto.
    - destruct Hb as [-> | [? _]]; [|done]. exists L. split; [done|]. split; [|done].
      apply (reads_consumed _ [] []). by apply reads_refl. }
  destruct Hbom as (L1 & -> & C1 & H1). cbn [negb]. cbv iota beta. rewrite M_bind_eq.
  unfold skip_whitespace at 1. cbn [bindM gets].
  destruct (whitespace_loop_text (enough L1) w L1 r) as (L2 & L3 & -> & C2 & H2 & G);
    [done|apply C1|done|done|by eapply enough_rest; [apply C1|]|].
  exists L2, L3. split; [|split; [by eapply consumed_trans|done]].
  unfold enough. rewrite comments_loop_skip; [done|]. by rewrite (got_current _ _ G), H2.
Qed.

(** A token of the grammar is scanned, after any gap. *)
Lemma scan_text L w s k r :
  gap L w -> token_text s k -> delimited k r -> ok L -> rest L = w ++ s ++ r ->
  exists L', scan L = Ret (kind k, L') /\ holds k L' /\ consumed L (w ++ s) L'.
Proof.
  intros Hw Ht Hd Hok Hr. destruct (token_text_first _ _ Ht) as (c & s' & Es & Hc).
  apply starter_facts in Hc as (H1 & H2 & H3).
  assert (Hn : next (s ++ r) = c) by (rewrite Es; cbn; rewrite uchar_of_Z; apply Z.mod_small; lia).
  destruct (scan_start L w (s ++ r)) as (L1 & L2 & -> & C & E & G); try rewrite Hn; try done; [lia|].
  destruct (scan_token_text L1 L2 s k r) as (L' & E' & Hh & C'); [done|done|apply C|done|done|].
  exists L'. split; [done|]. split; [done|]. by eapply consumed_trans.
Qed.

Lemma scan_end L w z :
  gap L w -> ok L -> rest L = w ++ z -> z = [] \/ (exists junk, z = Byte.x00 :: junk) ->
  exists L', scan L = Ret (end_of_input, L') /\ reads_some L L'.
Proof.
  intros Hw Hok Hr Hz.
  assert (Hn : next z = eof \/ next z = 0) by (destruct Hz as [-> | [junk ->]]; auto).
  destruct (scan_start L w z) as (L1 & L2 & -> & C & E & G);
    [done|done|done|by destruct Hn as [-> | ->]..|].
  assert (Hc : current L2 = next z) by (by rewrite (got_current _ _ G), E).
  exists L2. split.
  - unfold scan_token. cbn [bindM read_current gets]. rewrite Hc. by destruct Hn as [-> | ->].
  - eapply reads_some_trans; [by eapply consumed_some|by eapply got_reads_some].
Qed.

Lemma gap_space L w : space_text w -> gap L w.
Proof. intros H. exists [], w. split; [done|]. split; [done|by left]. Qed.

Lemma fresh_lexer_ok s c : ok (make s c) /\ rest (make s c) = s /\ total (make s c) = 0.
Proof. split; [split; [unfold eof; cbn; unfold eof; lia|done]|done]. Qed.

End Lexing.
