(* ===== verification/JsonParsing.v ===== *)
(** * The parser of json.hpp: theorems

    [Zipper] is the abstract view of a parse: the containers that are open, each
    with what it has so far.  The pointers of [json_sax_dom_parser] are the way
    through them, and every event does to the zipper what its name says.  On top
    of that the parser ends on every input, with a well-formed value or an
    exception it documents, and reads every text of the grammar to its value. *)
From S2P Require Import Prelude Json JsonUtf8 JsonFloat JsonLexer JsonParser JsonLexing.

(** ** Well-formed values *)
Module Wf.
Import Json.

(** Keys in the order of the map, each once. *)
Fixpoint sorted (m : list (bytes * json)) : bool :=
  match m with
  | [] => true
  | p :: m' => match m' with [] => true | q :: _ => string_lt (fst p) (fst q) end && sorted m'
  end.

Definition float_ok (x : Z) : bool := (0 <=? x) && (x <? 2 ^ 64) && Float.isfinite x.

(** What a value of the C++ type can be, with strings that are UTF-8. *)
Fixpoint wf (j : json) : bool :=
  match j with
  | JNull | JBool _ => true
  | JInt z => (- 2 ^ 63 <=? z) && (z <? 2 ^ 64)
  | JFloat x => float_ok x
  | JString s => Utf8.valid s
  | JArray l => forallb wf l
  | JObject m => sorted m && forallb (fun p => Utf8.valid (fst p) && wf (snd p)) m
  end.

Definition members_wf (m : list (bytes * json)) : bool := wf (JObject m).

Lemma string_lt_irrefl a : string_lt a a = false.
Proof.
  induction a as [|x a IH]; [done|]. cbn. rewrite IH, Z.ltb_irrefl, andb_false_r. done.
Qed.

Lemma string_lt_trans a b c : string_lt a b = true -> string_lt b c = true -> string_lt a c = true.
Proof.
  revert b c. induction a as [|x a IH]; intros [|y b] [|z c]; cbn; try done.
  rewrite !orb_true_iff, !andb_true_iff, !Z.ltb_lt, !Z.eqb_eq.
  intros [H1|[H1 H1']] [H2|[H2 H2']]; [left; lia..|]. right. split; [lia|eauto].
Qed.

Lemma string_lt_total a b : string_lt a b = false -> a <> b -> string_lt b a = true.
Proof.
  revert b. induction a as [|x a IH]; intros [|y b]; cbn; try done.
  rewrite orb_false_iff, andb_false_iff, orb_true_iff, andb_true_iff, Z.ltb_ge, Z.ltb_lt, Z.eqb_eq, Z.eqb_neq.
  intros [H1 H2] Hne. destruct (Z.eq_dec (uchar x) (uchar y)) as [E|E]; [right|left; lia].
  split; [done|]. apply IH; [by destruct H2|]. intros ->. apply Hne. f_equal.
  apply (f_equal byte.of_Z) in E. by rewrite !of_Z_uchar in E.
Qed.

(** A key before the first key of a sorted list is before all. *)
Definition before (k : bytes) (m : list (bytes * json)) : bool :=
  match m with [] => true | p :: _ => string_lt k (fst p) end.

Lemma sorted_cons k v m : sorted ((k, v) :: m) = before k m && sorted m.
Proof. by destruct m. Qed.

Lemma before_find k m : before k m = true -> sorted m = true -> find k m = None.
Proof.
  revert k. induction m as [|[k' v] m IH]; intros k; [done|]. rewrite sorted_cons. cbn.
  rewrite andb_true_iff. intros Hk [Hb Hs]. case_bool_decide as E.
  - subst. by rewrite string_lt_irrefl in Hk.
  - apply IH; [|done]. destruct m as [|[k2 v2] m]; [done|]. cbn in *. by eapply string_lt_trans.
Qed.

Lemma before_insert k key v m :
  before k m = true -> string_lt k key = true -> before k (insert_sorted key v m) = true.
Proof. destruct m as [|[k' v'] m]; cbn; [done|]. by destruct (string_lt key k'). Qed.

Lemma sorted_insert key v m :
  sorted m = true -> find key m = None -> sorted (insert_sorted key v m) = true.
Proof.
  induction m as [|[k w] m IH]; [done|]. rewrite sorted_cons, andb_true_iff. intros [Hb Hs].
  cbn [find insert_sorted]. case_bool_decide as E; [done|]. intros Hf.
  destruct (string_lt key k) eqn:El.
  - rewrite !sorted_cons. cbn. by rewrite El, Hb, Hs.
  - rewrite sorted_cons, before_insert, IH; try done. by apply string_lt_total.
Qed.

Lemma sorted_emplace key v m : sorted m = true -> sorted (emplace key v m) = true.
Proof.
  intros H. unfold emplace. destruct (find key m) eqn:E; [done|]. by apply sorted_insert.
Qed.

Lemma before_assign k key v m : before k (assign key v m) = before k m.
Proof. destruct m as [|[k' w] m]; [done|]. cbn. by case_bool_decide. Qed.

Lemma sorted_assign key v m : sorted (assign key v m) = sorted m.
Proof.
  induction m as [|[k w] m IH]; [done|]. cbn [assign]. case_bool_decide; rewrite !sorted_cons; [done|].
  by rewrite before_assign, IH.
Qed.

Lemma forallb_insert (f : bytes * json -> bool) key v m :
  forallb f (insert_sorted key v m) = f (key, v) && forallb f m.
Proof.
  induction m as [|[k w] m IH]; [done|]. cbn. destruct (string_lt key k); [done|]. cbn.
  rewrite IH. by destruct (f (k, w)), (f (key, v)).
Qed.

Lemma forallb_assign (f : bytes * json -> bool) key v m :
  f (key, v) = true -> forallb f m = true -> forallb f (assign key v m) = true.
Proof.
  intros Hv. induction m as [|[k w] m IH]; [done|]. cbn. rewrite andb_true_iff. intros [H1 H2].
  case_bool_decide; cbn; [subst; by rewrite Hv|]. by rewrite H1, IH.
Qed.

Lemma wf_emplace k m :
  wf (JObject m) = true -> Utf8.valid k = true -> wf (JObject (emplace k JNull m)) = true.
Proof.
  cbn. rewrite !andb_true_iff. intros [H1 H2] Hk. split; [by apply sorted_emplace|].
  unfold emplace. destruct (find k m); [done|]. rewrite forallb_insert, H2. cbn. by rewrite Hk.
Qed.

Lemma wf_assign k v m :
  wf (JObject m) = true -> Utf8.valid k = true -> wf v = true -> wf (JObject (assign k v m)) = true.
Proof.
  cbn. rewrite !andb_true_iff. intros [H1 H2] Hk Hv. rewrite sorted_assign. split; [done|].
  apply forallb_assign; [|done]. cbn. by rewrite Hk, Hv.
Qed.

Lemma find_emplace k m : exists v, find k (emplace k JNull m) = Some v.
Proof.
  unfold emplace. destruct (find k m) eqn:E; [eauto|]. exists JNull. by apply find_insert_sorted.
Qed.

Lemma assign_assign k v w m : assign k v (assign k w m) = assign k v m.
Proof.
  induction m as [|[k' x] m IH]; [done|]. cbn. case_bool_decide as E; cbn.
  - by rewrite bool_decide_true.
  - rewrite bool_decide_false by done. by rewrite IH.
Qed.

End Wf.

(** ** The zipper *)
Module Zipper.
Import Json Dom.

(** An open container: the elements of an array so far, or the members of an
    object and the key whose value comes next. *)
Inductive frame : Type :=
| InArray (es : list json)
| InObject (m : list (bytes * json)) (k : bytes).

(** The innermost frame is first.  [plug] closes the frames around a value,
    [path] is the way to the place of that value. *)
Fixpoint plug (fs : list frame) (v : json) : json :=
  match fs with
  | [] => v
  | InArray es :: fs' => plug fs' (JArray (es ++ [v]))
  | InObject m k :: fs' => plug fs' (JObject (assign k v m))
  end.
Fixpoint path (fs : list frame) : pointer :=
  match fs with
  | [] => []
  | InArray es :: fs' => path fs' ++ [AtIndex (length es)]
  | InObject m k :: fs' => path fs' ++ [AtKey k]
  end.
Fixpoint pointers (fs : list frame) : list pointer :=
  match fs with [] => [] | _ :: fs' => path fs' :: pointers fs' end.
Definition kinds (fs : list frame) : list bool :=
  (fun f => match f with InArray _ => true | InObject _ _ => false end) <$> fs.

Definition frame_ok (f : frame) : bool :=
  match f with
  | InArray es => forallb Wf.wf es
  | InObject m k => Wf.wf (JObject m) && Utf8.valid k && match find k m with Some _ => true | None => false end
  end.
Definition frames_ok (fs : list frame) : bool := forallb frame_ok fs.

(** The member an object waits for is there. *)
Definition linked (fs : list frame) : bool :=
  forallb (fun f => match f with
                    | InArray _ => true
                    | InObject m k => match find k m with Some _ => true | None => false end
                    end) fs.
Lemma frames_linked fs : frames_ok fs = true -> linked fs = true.
Proof.
  unfold frames_ok, linked. rewrite !forallb_forall. intros H f Hf. apply H in Hf.
  destruct f as [es|m k]; [done|]. unfold frame_ok in Hf. by apply andb_true_iff in Hf as [_ ->].
Qed.

Lemma read_app p q j : read (p ++ q) j = c ← read p j; read q c.
Proof.
  revert j. induction p as [|s p IH]; intros j; [done|]. cbn. destruct (child s j); [apply IH|done].
Qed.

Lemma update_app p q f j : update (p ++ q) f j = update p (update q f) j.
Proof.
  revert j. induction p as [|s p IH]; intros j; [done|]. cbn. destruct (child s j); [|done].
  cbn. by rewrite IH.
Qed.

(** The place of the next value is a hole: what is plugged is read there, and an
    update there is an update of what is plugged. *)
Lemma hole fs c f :
  linked fs = true ->
  read (path fs) (plug fs c) = Some c /\ update (path fs) f (plug fs c) = plug fs <$> f c.
Proof.
  revert c f. induction fs as [|[es|m k] fs IH]; intros c f; cbn [linked forallb plug path];
    [intros _; split; [reflexivity|cbn [update]; destruct (f c); reflexivity]| |];
    rewrite andb_true_iff; intros [Hf Hfs]; rewrite read_app, update_app.
  - destruct (IH (JArray (es ++ [c])) (update [AtIndex (length es)] f) Hfs) as [-> ->].
    cbn. rewrite list_lookup_middle by done. cbn. split; [done|].
    destruct (f c) as [c'|]; cbn; [|done]. by rewrite insert_app_r_alt, Nat.sub_diag by lia.
  - destruct (IH (JObject (assign k c m)) (update [AtKey k] f) Hfs) as [-> ->].
    destruct (find k m) as [w|] eqn:Ek; [|done].
    cbn. rewrite (find_assign _ _ _ _ Ek). cbn. split; [done|].
    destruct (f c) as [c'|]; cbn; [|done]. by rewrite Wf.assign_assign.
Qed.

Lemma wf_plug fs v : frames_ok fs = true -> Wf.wf v = true -> Wf.wf (plug fs v) = true.
Proof.
  revert v. induction fs as [|[es|m k] fs IH]; intros v; cbn [frames_ok forallb plug]; [done| |];
    rewrite andb_true_iff; intros [Hf Hfs] Hv; apply IH; try done.
  - cbn in *. rewrite forallb_app, Hf. cbn. by rewrite Hv.
  - cbn [frame_ok] in Hf. rewrite !andb_true_iff in Hf. destruct Hf as [[H1 H2] _].
    by apply Wf.wf_assign.
Qed.

(** The object under construction is waiting for a value. *)
Definition waiting (fs : list frame) (d : dom) : Prop :=
  ref_stack d = pointers fs /\
  match fs with
  | [] => True
  | InArray es :: fs' => root d = plug fs' (JArray es)
  | InObject m k :: fs' => root d = plug fs' (JObject m) /\ object_element d = Some (path fs)
  end.

(** It has the value. *)
Definition filled (fs : list frame) (v : json) (d : dom) : Prop :=
  ref_stack d = pointers fs /\ root d = plug fs v.

(** What no event but [parse_error] changes. *)
Definition calm (d d' : dom) : Prop :=
  errored d' = errored d /\ allow_exceptions d' = allow_exceptions d.

(** The innermost container, with what it has. *)
Definition holding (fs : list frame) (c : json) (d : dom) : Prop :=
  ref_stack d = path fs :: pointers fs /\ root d = plug fs c.

Lemma filled_array es fs v d : filled (InArray es :: fs) v d -> holding fs (JArray (es ++ [v])) d.
Proof. done. Qed.
Lemma filled_object m k fs v d : filled (InObject m k :: fs) v d -> holding fs (JObject (assign k v m)) d.
Proof. done. Qed.

(** ** The events *)

Lemma deref_hole fs c d :
  linked fs = true -> root d = plug fs c -> deref (path fs) d = Ret (c, d).
Proof.
  intros Hok Hr. unfold deref. cbn [bindM gets lift]. rewrite Hr.
  by rewrite (proj1 (hole fs c Some Hok)).
Qed.

Lemma modify_at_spec p f d r :
  update p f (root d) = Some r ->
  modify_at p f d = Ret (tt, mkDom r (ref_stack d) (object_element d) (errored d) (allow_exceptions d)).
Proof. intros H. unfold modify_at. cbn [bindM gets lift]. by rewrite H. Qed.

Lemma handle_value_spec fs v d :
  linked fs = true -> waiting fs d ->
  exists d', handle_value v d = Ret (path fs, d') /\ filled fs v d' /\ calm d d'.
Proof.
  intros Hok [Hs Hw]. unfold handle_value. cbn [bindM gets]. rewrite Hs.
  destruct fs as [|[es|m k] fs]; cbn [pointers nonempty negb].
  - eexists. by split.
  - pose proof (andb_prop _ _ Hok) as [_ Hok2]. clear Hok. rename Hok2 into Hok. cbn [bindM]. unfold back. cbn [bindM gets]. rewrite Hs.
    cbn [pointers ret]. rewrite (deref_hole fs (JArray es) d Hok Hw). cbn [is_array orb].
    cbn [bindM lift assert_that mbind outcome_bind].
    rewrite (modify_at_spec _ _ _ (plug fs (JArray (es ++ [v])))).
    2: { rewrite Hw. by rewrite (proj2 (hole fs (JArray es) (append v) Hok)). }
    eexists. by split.
  - destruct Hw as [Hr He]. pose proof (andb_prop _ _ Hok) as [Hf Hok2]. clear Hok. rename Hok2 into Hok.
    unfold back. cbn [bindM gets]. rewrite Hs.
    cbn [pointers ret]. rewrite (deref_hole fs (JObject m) d Hok Hr). cbn [is_array is_object orb].
    cbn [bindM lift assert_that mbind outcome_bind gets]. rewrite He. cbn [bindM].
    rewrite (modify_at_spec _ _ _ (plug fs (JObject (assign k v m)))); [eexists; by split|].
    rewrite Hr. cbn [path]. rewrite update_app, (proj2 (hole fs (JObject m) _ Hok)).
    cbn. by destruct (find k m).
Qed.

Lemma value_spec fs v d :
  linked fs = true -> waiting fs d ->
  exists d', value v d = Ret (true, d') /\ filled fs v d' /\ calm d d'.
Proof.
  intros Hok Hw. destruct (handle_value_spec fs v d Hok Hw) as (d' & E & H).
  exists d'. split; [|done]. unfold value. by rewrite M_bind_eq, E.
Qed.

Lemma start_spec fs c d :
  linked fs = true -> waiting fs d ->
  exists d', start_container c d = Ret (true, d') /\ holding fs c d' /\ calm d d'.
Proof.
  intros Hok Hw. destruct (handle_value_spec fs c d Hok Hw) as (d' & E & [Hs Hr] & Hc).
  unfold start_container. rewrite M_bind_eq, E. cbn. eexists. split; [done|].
  by split; [split; [cbn; by rewrite Hs|]|].
Qed.

Lemma key_spec fs m k d :
  linked fs = true -> holding fs (JObject m) d ->
  exists d', key k d = Ret (true, d') /\ waiting (InObject (emplace k JNull m) k :: fs) d' /\ calm d d'.
Proof.
  intros Hok [Hs Hr]. unfold key. cbn [bindM gets]. rewrite Hs. cbn [nonempty assert_that lift].
  cbn [bindM mbind outcome_bind]. unfold back. cbn [bindM gets]. rewrite Hs. cbn [ret].
  rewrite (deref_hole fs _ d Hok Hr). cbn [is_object assert_that lift bindM mbind outcome_bind].
  rewrite (modify_at_spec _ _ _ (plug fs (JObject (emplace k JNull m)))).
  2: { rewrite Hr. by rewrite (proj2 (hole fs (JObject m) (add_key k) Hok)). }
  eexists. split; [done|]. split; [|done]. split; [done|]. by split.
Qed.

Lemma end_spec fs c is_it d :
  linked fs = true -> holding fs c d -> is_it c = true ->
  exists d', end_container is_it d = Ret (true, d') /\ filled fs c d' /\ calm d d'.
Proof.
  intros Hok [Hs Hr] Hi. unfold end_container. cbn [bindM gets]. rewrite Hs.
  cbn [nonempty assert_that lift bindM mbind outcome_bind]. unfold back. cbn [bindM gets]. rewrite Hs.
  cbn [ret]. rewrite (deref_hole fs _ d Hok Hr), Hi. cbn. eexists. by split.
Qed.

Lemma parse_error_spec ex d :
  parse_error ex d = (if allow_exceptions d then Throw ex
                      else Ret (false, mkDom (root d) (ref_stack d) (object_element d) true false)).
Proof. unfold parse_error. by destruct (allow_exceptions d). Qed.

End Zipper.

(** ** The grammar *)
Module Syntax.
Import Json Lexer Lexing.

(** The tokens of a value, and of what follows an opening bracket: [acc] are the
    elements so far, [m] the members so far. *)
Inductive value_tokens : json -> list token -> Prop :=
| v_null : value_tokens JNull [Symbol literal_null]
| v_true : value_tokens (JBool true) [Symbol literal_true]
| v_false : value_tokens (JBool false) [Symbol literal_false]
| v_unsigned z : value_tokens (JInt z) [Unsigned z]
| v_integer z : value_tokens (JInt z) [Integer z]
| v_real x : Float.isfinite x = true -> value_tokens (JFloat x) [Real x]
| v_string s : value_tokens (JString s) [Text s]
| v_empty_array : value_tokens (JArray []) [Symbol begin_array; Symbol end_array]
| v_array es ts : items_tokens [] ts es -> value_tokens (JArray es) (Symbol begin_array :: ts)
| v_empty_object : value_tokens (JObject []) [Symbol begin_object; Symbol end_object]
| v_object m ts : members_tokens [] ts m -> value_tokens (JObject m) (Symbol begin_object :: ts)
with items_tokens : list json -> list token -> list json -> Prop :=
| i_last acc v ts : value_tokens v ts -> items_tokens acc (ts ++ [Symbol end_array]) (acc ++ [v])
| i_more acc v ts ts' es :
    value_tokens v ts -> items_tokens (acc ++ [v]) ts' es ->
    items_tokens acc (ts ++ Symbol value_separator :: ts') es
with members_tokens : list (bytes * json) -> list token -> list (bytes * json) -> Prop :=
| m_last m k v ts :
    value_tokens v ts ->
    members_tokens m (Text k :: Symbol name_separator :: ts ++ [Symbol end_object])
      (assign k v (emplace k JNull m))
| m_more m k v ts ts' m' :
    value_tokens v ts -> members_tokens (assign k v (emplace k JNull m)) ts' m' ->
    members_tokens m (Text k :: Symbol name_separator :: ts ++ Symbol value_separator :: ts') m'.

Scheme value_tokens_mut := Minimality for value_tokens Sort Prop
  with items_tokens_mut := Minimality for items_tokens Sort Prop
  with members_tokens_mut := Minimality for members_tokens Sort Prop.
Combined Scheme tokens_mut from value_tokens_mut, items_tokens_mut, members_tokens_mut.

(** [lexes ks t r]: the text [t], before [r], is made of the tokens [ks] with
    white space between them. *)
Inductive lexes : list token -> bytes -> bytes -> Prop :=
| lexes_nil r : lexes [] [] r
| lexes_cons w s k ks t r :
    space_text w -> token_text s k -> delimited k (t ++ r) -> lexes ks t r ->
    lexes (k :: ks) (w ++ s ++ t) r.

(** A text of the value [v]: an optional byte order mark, its tokens, white space,
    and perhaps a null byte, after which anything may come. *)
Definition ending (z : bytes) : Prop := z = [] \/ exists junk, z = Byte.x00 :: junk.
Definition json_text (v : json) (s : bytes) : Prop :=
  exists b ks t e z, (b = [] \/ b = bom) /\ s = b ++ t ++ e ++ z /\
    value_tokens v ks /\ lexes ks t (e ++ z) /\ space_text e /\ ending z.

End Syntax.

(** ** What was read *)
Module Trail.
Import Json Lexer Lexing Zipper Syntax.

(** The tokens [ks] were read from [t], from left to right. *)
Inductive spelled : list token -> bytes -> Prop :=
| spelled_nil : spelled [] []
| spelled_snoc ks t w s k :
    spelled ks t -> space_text w -> token_text s k -> spelled (ks ++ [k]) (t ++ w ++ s).

(** The tokens [ks] lead into the open containers [fs], at a value: what is missing
    makes each of them a container of the grammar. *)
Definition in_items (acc : list json) (ts : list token) : Prop :=
  forall ts' es, items_tokens acc ts' es -> items_tokens [] (ts ++ ts') es.
Definition in_members (m : list (bytes * json)) (ts : list token) : Prop :=
  forall ts' m', members_tokens m ts' m' -> members_tokens [] (ts ++ ts') m'.
Fixpoint open (fs : list frame) (ks : list token) : Prop :=
  match fs with
  | [] => ks = []
  | InArray acc :: fs' => exists ks0 ts,
      ks = ks0 ++ Symbol begin_array :: ts /\ open fs' ks0 /\ in_items acc ts
  | InObject m k :: fs' => exists m0 ks0 ts,
      m = emplace k JNull m0 /\
      ks = (ks0 ++ Symbol begin_object :: ts) ++ [Text k; Symbol name_separator] /\
      open fs' ks0 /\ in_members m0 ts
  end.
(** They lead to the value [v], and into an object at a key. *)
Definition had (fs : list frame) (v : json) (ks : list token) : Prop :=
  exists ks0 ts, ks = ks0 ++ ts /\ open fs ks0 /\ value_tokens v ts.
Definition at_key (fs : list frame) (m : list (bytes * json)) (ks : list token) : Prop :=
  exists ks0 ts, ks = ks0 ++ Symbol begin_object :: ts /\ open fs ks0 /\ in_members m ts.

Lemma had_value fs v ks ts : open fs ks -> value_tokens v ts -> had fs v (ks ++ ts).
Proof. intros H Hv. by exists ks, ts. Qed.
Lemma open_array fs ks : open fs ks -> open (InArray [] :: fs) (ks ++ [Symbol begin_array]).
Proof. intros H. exists ks, []. by split; [|split; [|intros ts' es]]. Qed.
Lemma at_first_key fs ks : open fs ks -> at_key fs [] (ks ++ [Symbol begin_object]).
Proof. intros H. exists ks, []. by split; [|split; [|intros ts' es]]. Qed.
Lemma open_object fs m k ks :
  at_key fs m ks -> open (InObject (emplace k JNull m) k :: fs) (ks ++ [Text k; Symbol name_separator]).
Proof. intros (ks0 & ts & -> & H & Hm). by exists m, ks0, ts. Qed.

Lemma had_item fs acc v ks : had (InArray acc :: fs) v ks ->
  open (InArray (acc ++ [v]) :: fs) (ks ++ [Symbol value_separator]).
Proof.
  intros (? & vs & -> & (ks0 & ts & -> & H & Hi) & Hv). exists ks0, (ts ++ vs ++ [Symbol value_separator]).
  split; [by rewrite <- !app_assoc|]. split; [done|]. intros ts' es He.
  rewrite <- !app_assoc. apply Hi. by apply (i_more acc v vs).
Qed.
Lemma had_array fs acc v ks : had (InArray acc :: fs) v ks ->
  had fs (JArray (acc ++ [v])) (ks ++ [Symbol end_array]).
Proof.
  intros (? & vs & -> & (ks0 & ts & -> & H & Hi) & Hv).
  exists ks0, (Symbol begin_array :: ts ++ vs ++ [Symbol end_array]).
  split; [by rewrite <- !app_assoc|]. split; [done|]. apply v_array, Hi. by apply i_last.
Qed.
Lemma had_member fs m k v ks : had (InObject m k :: fs) v ks ->
  at_key fs (assign k v m) (ks ++ [Symbol value_separator]).
Proof.
  intros (? & vs & -> & (m0 & ks0 & ts & -> & -> & H & Hi) & Hv).
  exists ks0, (ts ++ [Text k; Symbol name_separator] ++ vs ++ [Symbol value_separator]).
  split; [by rewrite <- !app_assoc|]. split; [done|]. intros ts' m' Hm.
  rewrite <- !app_assoc. apply Hi. by apply (m_more m0 k v vs ts' m').
Qed.
Lemma had_object fs m k v ks : had (InObject m k :: fs) v ks ->
  had fs (JObject (assign k v m)) (ks ++ [Symbol end_object]).
Proof.
  intros (? & vs & -> & (m0 & ks0 & ts & -> & -> & H & Hi) & Hv).
  exists ks0, (Symbol begin_object :: ts ++ [Text k; Symbol name_separator] ++ vs ++ [Symbol end_object]).
  split; [by rewrite <- !app_assoc|]. split; [done|]. apply v_object, Hi. by apply m_last.
Qed.

(** Symbols are those of the grammar. *)
Definition proper (k : token) : bool :=
  match k with Symbol (value_string | value_unsigned | value_integer | value_float) => false | _ => true end.
Lemma token_text_proper s k : token_text s k -> proper k = true.
Proof.
  destruct 1 as [c t H|s t H|t d H|t ty H]; [| |done|].
  - unfold punctuation in H. repeat (apply elem_of_cons in H as [H|H]; [by injection H as _ ->|]). by apply elem_of_nil in H.
  - unfold literals in H. repeat (apply elem_of_cons in H as [H|H]; [by injection H as _ ->|]). by apply elem_of_nil in H.
  - unfold number_token. destruct ty; try done; [by destruct (_ <=? _)|by destruct (_ <? _)].
Qed.

Lemma kind_symbol k t :
  kind k = t -> match t with value_string | value_unsigned | value_integer | value_float => False | _ => True end ->
  k = Symbol t.
Proof. by destruct k; cbn; intros <-. Qed.
Lemma kind_text k L : kind k = value_string -> proper k = true -> holds k L -> k = Text (token_buffer L).
Proof. destruct k; cbn; try done; [by intros ->|by intros _ _ ->]. Qed.
Lemma token_text_kind s k : token_text s k -> kind k <> end_of_input.
Proof.
  destruct 1 as [c t H|s t H|t d H|t ty H]; [| |done|].
  - unfold punctuation in H. repeat (apply elem_of_cons in H as [H|H]; [by injection H as _ ->|]). by apply elem_of_nil in H.
  - unfold literals in H. repeat (apply elem_of_cons in H as [H|H]; [by injection H as _ ->|]). by apply elem_of_nil in H.
  - unfold number_token. destruct ty; try done; [by destruct (_ <=? _)|by destruct (_ <? _)].
Qed.

End Trail.

(** ** The parser on every input *)
Module Parsing.
Import Json Lexer Lexing Zipper Parser Syntax Trail.

(** The value of the last token is one of its type. *)
Definition payload_ok (t : token_type) (L : lexer) : Prop :=
  match t with
  | value_string => Utf8.valid (token_buffer L) = true
  | value_unsigned => 0 <= number_unsigned L < 2 ^ 64
  | value_integer => - 2 ^ 63 <= number_integer L <= 0
  | value_float => 0 <= number_float L < 2 ^ 64
  | _ => True
  end.

Lemma token_payload k L : token_ok k -> holds k L -> payload_ok (kind k) L.
Proof. destruct k as [[]| | | |]; cbn; intros H1 H2; by rewrite ?H2. Qed.

Section Total.
(** The arguments [allow_exceptions] and [ignore_comments], and the whole input. *)
Context (allow ignore : bool) (input : bytes).

(** The exceptions a parse may throw. *)
Definition thrown (e : exn) : Prop := allow = true /\ (e = JsonParseError \/ e = JsonOutOfRange).

Record lexed (P : parser) : Prop := mkLexed {
  lexed_ok : ok (m_lexer P);
  lexed_total : 1 <= total (m_lexer P);
  lexed_payload : payload_ok (last_token P) (m_lexer P);
  lexed_allow : Dom.allow_exceptions (sax P) = allow;
  lexed_comments : ignore_comments (m_lexer P) = ignore
}.

Definition remaining (P : parser) : nat := length (rest (m_lexer P)).
(** The measure of the parse: a token that is no progress counts less. *)
Definition measure (P : parser) : nat :=
  (remaining P + if stuck (last_token P) then 0 else 1)%nat.

(** An event that is no error. *)
Lemma lexed_sax P d st :
  lexed P -> Dom.allow_exceptions d = Dom.allow_exceptions (sax P) ->
  lexed (mkParser (m_lexer P) (last_token P) d st).
Proof. intros [H1 H2 H3 H4 H5] H. constructor; try done. cbn. congruence. Qed.

(** The tokens [ks] are what was read of the input, when comments are errors. *)
Definition trail (P : parser) (ks : list token) : Prop :=
  ignore = false ->
  (total (m_lexer P) = 0 /\ ks = [] /\ rest (m_lexer P) = input) \/
  (1 <= total (m_lexer P) /\ exists b t, (b = [] \/ b = bom) /\ input = b ++ t ++ rest (m_lexer P) /\
     spelled ks t).
(** The token [k] was read from [P] to [P']; nothing but white space was left. *)
Definition read_token (k : token) (P P' : parser) : Prop :=
  kind k = last_token P' /\ proper k = true /\ holds k (m_lexer P') /\
  forall ks, trail P ks -> trail P' (ks ++ [k]).
Definition read_up (P : parser) : Prop :=
  forall ks, trail P ks -> ignore = false ->
  exists b t e z, (b = [] \/ b = bom) /\ input = b ++ t ++ e ++ z /\ spelled ks t /\ space_text e /\ ending z.

(** After [get_token]. *)
Record got_token (P : parser) (t : token_type) (P' : parser) : Prop := mkGotToken {
  gt_lexed : lexed P';
  gt_last : last_token P' = t;
  gt_sax : sax P' = sax P;
  gt_states : states P' = states P;
  gt_measure : (measure P' <= remaining P)%nat;
  gt_remaining : (remaining P' <= remaining P)%nat;
  gt_read : stuck t = false -> exists k, read_token k P P';
  gt_end : t = end_of_input -> read_up P
}.

Lemma trail_gap P ks g L :
  trail P ks -> ignore = false -> gap (m_lexer P) g -> consumed (m_lexer P) g L ->
  exists b t w, (b = [] \/ b = bom) /\ input = b ++ t ++ w ++ rest L /\ spelled ks t /\ space_text w.
Proof.
  intros Ht Hi (b' & w & -> & Hw & Hb') (_ & Hr & _). destruct (Ht Hi) as [(H0 & -> & <-)|(H1 & b & t & Hb & -> & Hs)].
  - exists b', [], w. split; [destruct Hb' as [?|[_ ?]]; auto|].
    split; [by rewrite Hr, <- app_assoc|]. by split; [constructor|].
  - destruct Hb' as [-> | [? _]]; [|lia]. exists b, t, w. by rewrite Hr.
Qed.

Lemma get_token_wp P (Q : token_type -> parser -> Prop) E :
  ok (m_lexer P) -> 0 <= total (m_lexer P) -> Dom.allow_exceptions (sax P) = allow ->
  ignore_comments (m_lexer P) = ignore ->
  (forall t P', got_token P t P' -> Q t P') -> wp E get_token Q P.
Proof.
  intros Hok H0 Ha Hi HQ. unfold get_token. apply wp_bind. unfold wp at 1, on_lexer, zoom.
  pose proof (scan_wp (m_lexer P) Hok H0) as H1. pose proof (scan_progress (m_lexer P) Hok H0) as H2.
  unfold wp in H1, H2. destruct (scan (m_lexer P)) as [[t L]| |]; [|done..]. cbn.
  destruct H1 as (Ht & Hr & H). destruct H2 as (_ & _ & Hic & Hle & Hlt). apply HQ.
  constructor; try done; cbn.
  - constructor; cbn; [apply Hr|done| |done|congruence].
    destruct H as [->|(L1 & _ & (_ & [[-> _]|[[-> _]|(s & k & Htx & -> & Hh & _)]]) & _)]; [done..|].
    apply token_payload; [by eapply token_text_ok|done].
  - unfold measure, remaining. cbn. destruct (stuck t) eqn:Es; [lia|]. specialize (Hlt eq_refl). lia.
  - intros Hst. destruct H as [->|(L1 & _ & (_ & [[-> _]|[[-> _]|(s & k & Htx & -> & Hh & C)]]) & Hg)]; [done..|].
    exists k. split; [done|]. split; [by eapply token_text_proper|]. split; [done|]. intros ks Hks Hf.
    destruct (Hg ltac:(congruence)) as (g & Hgap & Cg). right. split; [done|].
    destruct (trail_gap _ _ _ _ Hks Hf Hgap Cg) as (b & t & w & Hb & -> & Hsp & Hw).
    destruct C as (_ & -> & _). exists b, (t ++ w ++ s). cbn. split; [done|].
    split; [by rewrite <- !app_assoc|]. by constructor.
  - intros -> ks Hks Hf. destruct H as [?|(L1 & _ & (_ & [[? _]|[(_ & z & Hz & E1 & _)|(s & k & Htx & Ek & _)]]) & Hg)];
      [done|done| |by apply token_text_kind in Htx; rewrite <- Ek in Htx].
    destruct (Hg ltac:(congruence)) as (g & Hgap & Cg).
    destruct (trail_gap _ _ _ _ Hks Hf Hgap Cg) as (b & t & w & Hb & -> & Hsp & Hw).
    exists b, t, w, (rest L1). split; [done|]. split; [done|]. split; [done|]. split; [done|].
    rewrite E1. destruct Hz as [[-> ->]| ->]; [by left|right; by eexists].
Qed.

Lemma wp_on_sax {A} E (m : M Dom.dom A) (Q : A -> parser -> Prop) P :
  wp E m (fun a d => Q a (mkParser (m_lexer P) (last_token P) d (states P))) (sax P) ->
  wp E (on_sax m) Q P.
Proof. unfold wp, on_sax, zoom. by destruct (m (sax P)) as [[a d]| |]. Qed.

Lemma wp_run_sax {A} E (m : M Dom.dom A) (Q : A -> parser -> Prop) P a d :
  m (sax P) = Ret (a, d) -> Q a (mkParser (m_lexer P) (last_token P) d (states P)) ->
  wp E (on_sax m) Q P.
Proof. intros H HQ. apply wp_on_sax. unfold wp. by rewrite H. Qed.

(** What an error leaves when it is not thrown. *)
Definition failed (r : verdict) (P : parser) : Prop :=
  r = Return false /\ Dom.errored (sax P) = true /\ lexed P /\ allow = false.

Lemma wp_parse_error e P (Q : bool -> parser -> Prop) :
  e = JsonParseError \/ e = JsonOutOfRange -> lexed P ->
  (forall P', Dom.errored (sax P') = true -> lexed P' -> allow = false -> Q false P') ->
  wp thrown (on_sax (Dom.parse_error e)) Q P.
Proof.
  intros He [H1 H2 H3 H4 H5] HQ. apply wp_on_sax. unfold wp. rewrite parse_error_spec, H4.
  destruct allow eqn:Ea; [done|]. apply HQ; [done| |done]. by constructor.
Qed.

Lemma syntax_error_wp P (Q : verdict -> parser -> Prop) :
  lexed P -> (forall r P', failed r P' -> Q r P') -> wp thrown syntax_error Q P.
Proof.
  intros HL HQ. apply wp_bind, wp_parse_error; [by left|done|]. intros P' H1 H2 H3. by apply HQ.
Qed.

(** The states of the loop: before a value, and after it. *)
Record expecting (fs : list frame) (P : parser) : Prop := mkExpecting {
  ex_lexed : lexed P;
  ex_frames : frames_ok fs = true;
  ex_waiting : waiting fs (sax P);
  ex_states : states P = kinds fs;
  ex_errored : Dom.errored (sax P) = false;
  ex_trail : stuck (last_token P) = false -> exists ks k,
    kind k = last_token P /\ proper k = true /\ holds k (m_lexer P) /\ trail P (ks ++ [k]) /\ open fs ks
}.
Record having (fs : list frame) (v : json) (P : parser) : Prop := mkHaving {
  hv_lexed : lexed P;
  hv_frames : frames_ok fs = true;
  hv_filled : filled fs v (sax P);
  hv_value : Wf.wf v = true;
  hv_states : states P = kinds fs;
  hv_errored : Dom.errored (sax P) = false;
  hv_trail : exists ks, trail P ks /\ had fs v ks
}.

Lemma wp_return {A} E P (a : A) (Q : A -> parser -> Prop) : Q a P -> wp E (ret a) Q P.
Proof. done. Qed.
Lemma wp_on_lexer_gets {A} E P (f : lexer -> A) (Q : A -> parser -> Prop) :
  Q (f (m_lexer P)) P -> wp E (on_lexer (gets f)) Q P.
Proof. unfold wp, on_lexer, zoom. cbn. by destruct P. Qed.

(** What the switch on the token comes to. *)
Definition value_result (fs : list frame) (P : parser) (r : verdict) (P' : parser) : Prop :=
  match r with
  | Return b => failed (Return b) P'
  | Evaluate => stuck (last_token P) = false /\ (remaining P' <= remaining P)%nat /\
                exists v, having fs v P'
  | Continue => stuck (last_token P) = false /\ (measure P' <= remaining P)%nat /\
                exists f, expecting (f :: fs) P'
  end.

Lemma failed_result fs P r P' : failed r P' -> value_result fs P r P'.
Proof. intros H. pose proof H as [-> _]. done. Qed.

(** A scalar is reported. *)
Lemma reported_value_wp fs v P :
  expecting fs P -> Wf.wf v = true -> stuck (last_token P) = false ->
  (forall k, kind k = last_token P -> proper k = true -> holds k (m_lexer P) -> value_tokens v [k]) ->
  wp thrown (reported (Dom.value v)) (value_result fs P) P.
Proof.
  intros [HL Hf Hw Hs He Hx] Hv Hst Hk. unfold reported. apply wp_bind.
  destruct (value_spec fs v (sax P) (frames_linked _ Hf) Hw) as (d & E & Hd & Hc).
  eapply wp_run_sax; [exact E|]. apply wp_return. cbn. split; [done|]. split; [done|].
  exists v. destruct Hc as [Hc Ha]. destruct (Hx Hst) as (ks & k & K1 & K2 & K3 & Ht & Ho).
  constructor; cbn; try done; [by apply (lexed_sax P)|congruence|].
  exists (ks ++ [k]). split; [exact Ht|]. by apply had_value; [|apply Hk].
Qed.

(** A key is reported and the separator read: [m] has the members so far. *)
Lemma parse_key_wp fs m t P :
  lexed P -> last_token P = t -> frames_ok fs = true -> Wf.wf (JObject m) = true ->
  holding fs (JObject m) (sax P) -> Dom.errored (sax P) = false ->
  (stuck t = false -> exists ks k, kind k = t /\ proper k = true /\ holds k (m_lexer P) /\
     trail P (ks ++ [k]) /\ at_key fs m ks) ->
  wp thrown (parse_key t) (fun r P' =>
    failed r P' \/
    (r = Continue /\ lexed P' /\ states P' = states P /\ (remaining P' <= remaining P)%nat /\
     Dom.errored (sax P') = false /\
     exists m' k ks, frame_ok (InObject m' k) = true /\ waiting (InObject m' k :: fs) (sax P') /\
       trail P' ks /\ open (InObject m' k :: fs) ks)) P.
Proof.
  intros HL <- Hf Hm Hh He Hx. unfold parse_key. case_bool_decide as Ek.
  { apply syntax_error_wp; [done|]. intros r P' H. by left. }
  apply wp_bind, wp_on_lexer_gets, wp_bind.
  assert (Hk : Utf8.valid (token_buffer (m_lexer P)) = true).
  { pose proof (lexed_payload _ HL) as H. by rewrite Ek in H. }
  set (k := token_buffer (m_lexer P)) in *.
  destruct (key_spec fs m k (sax P) (frames_linked _ Hf) Hh) as (d & E & Hd & [Hc Ha]).
  eapply wp_run_sax; [exact E|]. cbn [negb]. apply wp_bind.
  apply get_token_wp; [apply HL|destruct HL; cbn; lia|cbn; destruct HL; congruence|apply HL|]. intros t P2 [G1 G2 G3 G4 G5 G6 G7 G8].
  unfold remaining in G5, G6. cbn [m_lexer sax states] in G3, G4, G5, G6.
  case_bool_decide as Es.
  { apply syntax_error_wp; [done|]. intros r P' H. by left. }
  apply wp_return. right. split; [done|]. split; [done|]. split; [done|].
  split; [done|]. rewrite G3. split; [congruence|].
  destruct Hx as (ks & k0 & K1 & K2 & K3 & Ht & Ho); [by rewrite Ek|]. rewrite Ek in K1.
  destruct G7 as (k1 & R1 & R2 & R3 & R4); [by rewrite Es|]. rewrite G2, Es in R1.
  apply kind_symbol in R1 as ->; [|done]. rewrite (kind_text _ _ K1 K2 K3) in Ht. fold k in Ht.
  exists (emplace k JNull m), k, (ks ++ [Text k; Symbol name_separator]). split; [|split; [done|split]].
  - unfold frame_ok. rewrite Wf.wf_emplace, Hk by done. by destruct (Wf.find_emplace k m) as [w ->].
  - apply R4 in Ht. by rewrite <- app_assoc in Ht.
  - by apply open_object.
Qed.

Lemma begin_object_wp fs P :
  expecting fs P -> last_token P = begin_object ->
  wp thrown begin_object_case (value_result fs P) P.
Proof.
  intros [HL Hf Hw Hs He Hx] Hlast. assert (Hst : stuck (last_token P) = false) by by rewrite Hlast. unfold begin_object_case. apply wp_bind.
  destruct (start_spec fs (JObject []) (sax P) (frames_linked _ Hf) Hw) as (d & E & Hd & [Hc Ha]).
  eapply wp_run_sax; [exact E|]. cbn [negb]. apply wp_bind.
  apply get_token_wp; [apply HL|destruct HL; cbn; lia|cbn; destruct HL; congruence|apply HL|]. intros t P2 [G1 G2 G3 G4 G5 G6 G7 G8].
  unfold remaining in G5, G6. cbn [m_lexer sax states] in G3, G4, G5, G6.
  assert (He2 : Dom.errored (sax P2) = false) by (rewrite G3; congruence).
  destruct (Hx Hst) as (ks & k0 & K1 & _ & _ & Ht & Ho). rewrite Hlast in K1. apply kind_symbol in K1 as ->; [|done].
  case_bool_decide as Et.
  - unfold reported. apply wp_bind.
    destruct (end_spec fs (JObject []) Dom.is_object (sax P2)) as (d2 & E2 & Hd2 & [Hc2 Ha2]);
      [by apply frames_linked|by rewrite G3|done|].
    eapply wp_run_sax; [exact E2|]. apply wp_return. split; [done|].
    split; [done|]. exists (JObject []).
    constructor; cbn; try done; [by apply (lexed_sax P2); [|congruence]|congruence|congruence|].
    destruct G7 as (k1 & R1 & _ & _ & R4); [by rewrite Et|]. rewrite G2, Et in R1. apply kind_symbol in R1 as ->; [|done].
    exists ((ks ++ [Symbol begin_object]) ++ [Symbol end_object]). split; [by apply R4|].
    rewrite <- app_assoc. by apply had_value; [|constructor].
  - apply wp_bind. eapply wp_mono; [apply (parse_key_wp fs []); [done..|by rewrite G3|done|]|].
    { intros Hst2. destruct (G7 Hst2) as (k1 & R1 & R2 & R3 & R4). exists (ks ++ [Symbol begin_object]), k1.
      rewrite <- G2. repeat (split; [done|]). split; [by apply R4|by apply at_first_key]. }
    intros r P3 [Hr|(-> & HL3 & Hs3 & Hr3 & He3 & m & k & ks3 & Hfr & Hw3 & Ht3 & Ho3)].
    { pose proof Hr as [-> _]. apply wp_return. by apply failed_result. }
    apply wp_bind. unfold wp at 1, push_state. cbn [modify]. apply wp_bind.
    apply get_token_wp; [apply HL3|destruct HL3; cbn; lia|apply HL3|apply HL3|].
    intros t4 P4 [K1 K2 K3 K4 K5 K6 K7 K8]. unfold remaining in K5, K6. cbn [m_lexer sax states] in *. apply wp_return.
    split; [done|]. split; [unfold remaining in *; lia|]. exists (InObject m k).
    constructor; [done| |by rewrite K3|rewrite K4; cbn; by rewrite Hs3, G4, Hs|by rewrite K3|].
    + cbn [frames_ok forallb]. by rewrite Hfr.
    + rewrite K2. intros Hst4. destruct (K7 Hst4) as (k4 & R1 & R2 & R3 & R4). exists ks3, k4.
      rewrite <- K2. repeat (split; [done|]). by split; [apply R4|].
Qed.

Lemma begin_array_wp fs P :
  expecting fs P -> last_token P = begin_array ->
  wp thrown begin_array_case (value_result fs P) P.
Proof.
  intros [HL Hf Hw Hs He Hx] Hlast. assert (Hst : stuck (last_token P) = false) by by rewrite Hlast. unfold begin_array_case. apply wp_bind.
  destruct (start_spec fs (JArray []) (sax P) (frames_linked _ Hf) Hw) as (d & E & Hd & [Hc Ha]).
  eapply wp_run_sax; [exact E|]. cbn [negb]. apply wp_bind.
  apply get_token_wp; [apply HL|destruct HL; cbn; lia|cbn; destruct HL; congruence|apply HL|]. intros t P2 [G1 G2 G3 G4 G5 G6 G7 G8].
  unfold remaining in G5, G6. cbn [m_lexer sax states] in G3, G4, G5, G6.
  assert (He2 : Dom.errored (sax P2) = false) by (rewrite G3; congruence).
  destruct (Hx Hst) as (ks & k0 & K1 & _ & _ & Ht & Ho). rewrite Hlast in K1. apply kind_symbol in K1 as ->; [|done].
  case_bool_decide as Et.
  - unfold reported. apply wp_bind.
    destruct (end_spec fs (JArray []) Dom.is_array (sax P2)) as (d2 & E2 & Hd2 & [Hc2 Ha2]);
      [by apply frames_linked|by rewrite G3|done|].
    eapply wp_run_sax; [exact E2|]. apply wp_return. split; [done|].
    split; [done|]. exists (JArray []).
    constructor; cbn; try done; [by apply (lexed_sax P2); [|congruence]|congruence|congruence|].
    destruct G7 as (k1 & R1 & _ & _ & R4); [by rewrite Et|]. rewrite G2, Et in R1. apply kind_symbol in R1 as ->; [|done].
    exists ((ks ++ [Symbol begin_array]) ++ [Symbol end_array]). split; [by apply R4|].
    rewrite <- app_assoc. by apply had_value; [|constructor].
  - apply wp_bind. unfold wp at 1, push_state. cbn [modify]. apply wp_return.
    split; [done|]. split; [done|]. exists (InArray []).
    constructor; cbn; try done; [by apply (lexed_sax P2)|by rewrite G3|by rewrite G4, Hs|].
    rewrite G2. intros Hst2. destruct (G7 Hst2) as (k1 & R1 & R2 & R3 & R4).
    exists (ks ++ [Symbol begin_array]), k1. rewrite <- G2. repeat (split; [done|]).
    split; [by apply R4|by apply open_array].
Qed.

Lemma value_case_wp fs P : expecting fs P -> wp thrown value_case (value_result fs P) P.
Proof.
  intros Hx. pose proof Hx as [HL Hf Hw Hs He Htr]. pose proof (lexed_payload _ HL) as Hp.
  unfold value_case. apply wp_bind. unfold wp at 1. cbn [gets].
  assert (Hbad : wp thrown syntax_error (value_result fs P) P).
  { apply syntax_error_wp; [done|]. intros r P' H. by apply failed_result. }
  destruct (last_token P) eqn:El; lazymatch goal with |- wp _ syntax_error _ _ => exact Hbad | _ => idtac end.
  - apply reported_value_wp; [done|done|by rewrite El|]. intros k K _ _. rewrite El in K.
    apply kind_symbol in K as ->; [constructor|done].
  - apply reported_value_wp; [done|done|by rewrite El|]. intros k K _ _. rewrite El in K.
    apply kind_symbol in K as ->; [constructor|done].
  - apply reported_value_wp; [done|done|by rewrite El|]. intros k K _ _. rewrite El in K.
    apply kind_symbol in K as ->; [constructor|done].
  - apply wp_bind, wp_on_lexer_gets, reported_value_wp; [done|exact Hp|by rewrite El|].
    intros k K K' Hh. rewrite El in K. rewrite (kind_text _ _ K K' Hh). constructor.
  - apply wp_bind, wp_on_lexer_gets, reported_value_wp; [done| |by rewrite El|].
    + cbn in Hp |- *. lia.
    + intros k K K' Hh. rewrite El in K. destruct k as [[]| | | |]; try done. rewrite Hh. constructor.
  - apply wp_bind, wp_on_lexer_gets, reported_value_wp; [done| |by rewrite El|].
    + cbn in Hp |- *. lia.
    + intros k K K' Hh. rewrite El in K. destruct k as [[]| | | |]; try done. rewrite Hh. constructor.
  - apply wp_bind, wp_on_lexer_gets. destruct (Float.isfinite (number_float (m_lexer P))) eqn:Ef; cbn [negb].
    + apply reported_value_wp; [done| |by rewrite El|].
      * cbn in Hp |- *. unfold Wf.float_ok. rewrite Ef. lia.
      * intros k K K' Hh. rewrite El in K. destruct k as [[]| | | |]; try done. cbn in Hh. rewrite Hh in *. by constructor.
    + apply wp_bind, wp_parse_error; [by right|done|]. intros P' H1 H2 H3. by apply wp_return.
  - by apply begin_array_wp.
  - by apply begin_object_wp.
Qed.

Definition state_result (fs : list frame) (v : json) (P : parser) (r : verdict) (P' : parser) : Prop :=
  match r with
  | Return true => fs = [] /\ P' = P
  | Return false => failed (Return false) P'
  | Evaluate => (measure P' <= remaining P)%nat /\ (remaining P' < remaining P)%nat /\
                exists f fs' v', fs = f :: fs' /\ having fs' v' P'
  | Continue => (measure P' < remaining P)%nat /\ exists fs', expecting fs' P'
  end.

Lemma failed_state fs v P r P' : failed r P' -> state_result fs v P r P'.
Proof. intros H. pose proof H as [-> _]. done. Qed.

(** A token that is progress takes a character. *)
Lemma got_remaining P t P' : got_token P t P' -> stuck t = false -> (remaining P' < remaining P)%nat.
Proof. intros [_ H _ _ Hm _] Hs. unfold measure in Hm. rewrite H, Hs in Hm. lia. Qed.

(** A symbol that was read. *)
Lemma symbol_trail P t P' ks :
  got_token P t P' -> trail P ks -> stuck t = false ->
  match t with value_string | value_unsigned | value_integer | value_float => False | _ => True end ->
  trail P' (ks ++ [Symbol t]).
Proof.
  intros G Ht Hs Hsym. destruct (gt_read _ _ _ G Hs) as (k & R1 & _ & _ & R4).
  rewrite (gt_last _ _ _ G) in R1. apply kind_symbol in R1 as ->; [|done]. by apply R4.
Qed.

(** The end of a container. *)
Lemma close_wp fs c is_it b P0 P :
  lexed P -> frames_ok fs = true -> holding fs c (sax P) -> is_it c = true -> Wf.wf c = true ->
  states P = b :: kinds fs -> Dom.errored (sax P) = false ->
  (measure P <= remaining P0)%nat -> stuck (last_token P) = false ->
  (exists ks, trail P ks /\ had fs c ks) ->
  wp thrown (close (Dom.end_container is_it)) (fun r P' =>
    r = Evaluate /\ (measure P' <= remaining P0)%nat /\ (remaining P' < remaining P0)%nat /\
    having fs c P') P.
Proof.
  intros HL Hf Hh Hi Hc Hs He Hm Hst Hx. unfold close. apply wp_bind.
  destruct (end_spec fs c is_it (sax P) (frames_linked _ Hf) Hh Hi) as (d & E & Hd & [Hc2 Ha2]).
  eapply wp_run_sax; [exact E|]. cbn [negb]. apply wp_bind. unfold wp at 1. cbn [gets states].
  rewrite Hs. unfold wp. cbn [assert_that lift bindM mbind outcome_bind pop_state modify ret].
  split; [done|]. unfold measure, remaining in *. rewrite Hst in Hm.
  cbn [m_lexer last_token]. rewrite Hst. split; [done|]. split; [lia|].
  constructor; cbn; try done; [by apply (lexed_sax P)|congruence].
Qed.

Lemma array_state_wp es fs v P :
  having (InArray es :: fs) v P -> wp thrown state_case (state_result (InArray es :: fs) v P) P.
Proof.
  intros [HL Hf Hfill Hv Hs He Hy]. unfold state_case. apply wp_bind. unfold wp at 1. cbn [gets].
  rewrite Hs. cbn [kinds fmap list_fmap]. apply wp_bind.
  apply get_token_wp; [apply HL|destruct HL; lia|apply HL|apply HL|]. intros t P2 G. pose proof G as HG. pose proof (got_remaining _ _ _ G) as Hrem. destruct G as [G1 G2 G3 G4 G5 G6 G7 G8].
  pose proof (andb_prop _ _ Hf) as [Hfe Hfs]. cbn [frame_ok] in Hfe. destruct Hy as (ks & Ht & Ho).
  assert (read_symbol : forall t1, t = t1 -> stuck t1 = false ->
    match t1 with value_string | value_unsigned | value_integer | value_float => False | _ => True end ->
    trail P2 (ks ++ [Symbol t1])) by (intros t1 -> Hs1 Hsym; by eapply symbol_trail).
  assert (Hw2 : Wf.wf (JArray (es ++ [v])) = true) by (cbn; rewrite forallb_app, Hfe; cbn; by rewrite Hv).
  case_bool_decide as E1; [|case_bool_decide as E2].
  - apply wp_bind, get_token_wp; [apply G1|destruct G1; lia|apply G1|apply G1|]. intros t3 P3 [K1 K2 K3 K4 K5 K6 K7 K8].
    apply wp_return. specialize (Hrem ltac:(by rewrite E1)). split; [lia|].
    exists (InArray (es ++ [v]) :: fs). constructor.
    + done.
    + cbn [frames_ok forallb frame_ok]. by rewrite (Hw2 : forallb Wf.wf _ = true).
    + rewrite K3, G3. by apply filled_array in Hfill.
    + by rewrite K4, G4, Hs.
    + by rewrite K3, G3.
    + rewrite K2. intros Hst3. destruct (K7 Hst3) as (k3 & R1 & R2 & R3 & R4).
      exists (ks ++ [Symbol value_separator]), k3. rewrite <- K2. repeat (split; [done|]).
      split; [by apply R4, read_symbol|by apply had_item].
  - eapply wp_mono.
    { apply (close_wp fs (JArray (es ++ [v])) Dom.is_array true P P2); try done;
        [by rewrite G3|by rewrite G4, Hs|by rewrite G3|by rewrite G2, E2|].
      exists (ks ++ [Symbol end_array]). split; [by apply read_symbol|by apply had_array]. }
    intros r P3 (-> & H1 & H2 & H3). split; [done|]. split; [done|]. by eexists _, fs, _.
  - apply syntax_error_wp; [done|]. intros r P3 H. by apply failed_state.
Qed.

Lemma object_state_wp m k fs v P :
  having (InObject m k :: fs) v P -> wp thrown state_case (state_result (InObject m k :: fs) v P) P.
Proof.
  intros [HL Hf Hfill Hv Hs He Hy]. unfold state_case. apply wp_bind. unfold wp at 1. cbn [gets].
  rewrite Hs. cbn [kinds fmap list_fmap]. apply wp_bind.
  apply get_token_wp; [apply HL|destruct HL; lia|apply HL|apply HL|]. intros t P2 G. pose proof G as HG. pose proof (got_remaining _ _ _ G) as Hrem. destruct G as [G1 G2 G3 G4 G5 G6 G7 G8].
  pose proof (andb_prop _ _ Hf) as [Hfe Hfs]. unfold frame_ok in Hfe. rewrite !andb_true_iff in Hfe.
  destruct Hfe as [[Hm Hk] _]. destruct Hy as (ks & Ht & Ho).
  assert (read_symbol : forall t1, t = t1 -> stuck t1 = false ->
    match t1 with value_string | value_unsigned | value_integer | value_float => False | _ => True end ->
    trail P2 (ks ++ [Symbol t1])) by (intros t1 -> Hs1 Hsym; by eapply symbol_trail).
  pose proof (Wf.wf_assign k v m Hm Hk Hv) as Hw2. apply filled_object in Hfill.
  case_bool_decide as E1; [|case_bool_decide as E2].
  - apply wp_bind, get_token_wp; [apply G1|destruct G1; lia|apply G1|apply G1|]. intros t3 P3 [K1 K2 K3 K4 K5 K6 K7 K8].
    apply wp_bind. eapply wp_mono.
    { apply (parse_key_wp fs (assign k v m)); try done; [by rewrite K3, G3..|].
      intros Hst3. destruct (K7 Hst3) as (k3 & R1 & R2 & R3 & R4). exists (ks ++ [Symbol value_separator]), k3.
      rewrite <- K2. repeat (split; [done|]). split; [by apply R4, read_symbol|by apply had_member]. }
    intros r P4 [Hr|(-> & HL4 & Hs4 & Hr4 & He4 & m' & k' & ks4 & Hfr & Hw4 & Ht4 & Ho4)].
    { pose proof Hr as [-> _]. apply wp_return. by apply failed_state. }
    apply wp_bind, get_token_wp; [apply HL4|destruct HL4; lia|apply HL4|apply HL4|].
    intros t5 P5 [J1 J2 J3 J4 J5 J6 J7 J8]. apply wp_return. specialize (Hrem ltac:(by rewrite E1)).
    split; [lia|].
    exists (InObject m' k' :: fs). constructor; [done| |by rewrite J3| |by rewrite J3|].
    + unfold frames_ok. cbn [forallb]. rewrite Hfr. done.
    + by rewrite J4, Hs4, K4, G4, Hs.
    + rewrite J2. intros Hst5. destruct (J7 Hst5) as (k5 & R1 & R2 & R3 & R4). exists ks4, k5.
      rewrite <- J2. repeat (split; [done|]). by split; [apply R4|].
  - eapply wp_mono.
    { apply (close_wp fs (JObject (assign k v m)) Dom.is_object false P P2); try done;
        [by rewrite G3|by rewrite G4, Hs|by rewrite G3|by rewrite G2, E2|].
      exists (ks ++ [Symbol end_object]). split; [by apply read_symbol|by apply had_object]. }
    intros r P3 (-> & H1 & H2 & H3). split; [done|]. split; [done|]. by eexists _, fs, _.
  - apply syntax_error_wp; [done|]. intros r P3 H. by apply failed_state.
Qed.

Lemma state_case_wp fs v P : having fs v P -> wp thrown state_case (state_result fs v P) P.
Proof.
  intros H. destruct fs as [|[es|m k] fs]; [|by apply array_state_wp|by apply object_state_wp].
  unfold state_case. apply wp_bind. unfold wp at 1. cbn [gets]. by rewrite (hv_states _ _ _ H).
Qed.

(** The result of the loop: a well-formed value, or the error that was noted. *)
Definition parsed (b : bool) (P : parser) : Prop :=
  lexed P /\
  if b then Dom.errored (sax P) = false /\ Wf.wf (Dom.root (sax P)) = true /\
    exists ks, trail P ks /\ value_tokens (Dom.root (sax P)) ks
  else Dom.errored (sax P) = true /\ allow = false.

Lemma sax_loop_wp fuel :
  (forall fs P, expecting fs P -> (measure P < fuel)%nat -> wp thrown (sax_loop fuel false) parsed P) /\
  (forall fs v P, having fs v P -> (remaining P < fuel)%nat -> wp thrown (sax_loop fuel true) parsed P).
Proof.
  induction fuel as [|fuel [IHf IHt]]; [split; lia|].
  assert (Hstate : forall fs v P, having fs v P -> (remaining P < S fuel)%nat ->
    wp thrown (let! v := state_case in
      match v with
      | Return b => ret b
      | Continue => sax_loop fuel false
      | Evaluate => sax_loop fuel true
      end) parsed P).
  { intros fs v P Hv Hm. apply wp_bind. eapply wp_mono; [by apply (state_case_wp fs v)|].
    intros [[|]| |] P2; cbn [state_result].
    - intros [-> ->]. apply wp_return. split; [apply Hv|]. destruct Hv as [_ _ [_ Hr] Hwf _ He Ht].
      rewrite Hr. split; [done|]. split; [done|]. destruct Ht as (ks & Ht & (? & ts & -> & -> & Hts)). by exists ts.
    - intros (_ & He & HL & Ha). by apply wp_return.
    - intros [Hm2 [fs' Hx]]. eapply IHf; [done|lia].
    - intros (Hm2 & Hr2 & f & fs' & v' & _ & Hh). eapply IHt; [done|lia]. }
  split; cbn [sax_loop].
  - intros fs P Hx Hm. apply wp_bind. eapply wp_mono; [by apply (value_case_wp fs)|].
    intros [b| |] P2; cbn [value_result].
    + intros ([= ->] & He & HL & Ha). by apply wp_return.
    + intros (Hst & Hm2 & f & Hx2). eapply IHf; [done|]. unfold measure at 1 in Hm. rewrite Hst in Hm. lia.
    + intros (Hst & Hm2 & v & Hh). eapply Hstate; [done|]. unfold measure in Hm. rewrite Hst in Hm. lia.
  - intros fs v P Hh Hm. apply wp_bind, wp_return. by eapply Hstate.
Qed.

Lemma sax_parse_wp P : expecting [] P -> wp thrown sax_parse_internal parsed P.
Proof.
  intros H. unfold sax_parse_internal. apply wp_bind. unfold wp at 1. cbn [gets].
  eapply (proj1 (sax_loop_wp _)); [done|].
  pose proof (enough_rest (m_lexer P) _ (lexed_ok _ (ex_lexed _ _ H)) eq_refl).
  unfold measure, remaining. destruct (stuck _); lia.
Qed.

End Total.

(** A text that was read as the value [v], when comments are errors. *)
Definition read_as (v : json) (s : bytes) : Prop :=
  exists b ks t e z, (b = [] \/ b = bom) /\ s = b ++ t ++ e ++ z /\
    value_tokens v ks /\ spelled ks t /\ space_text e /\ ending z.

Lemma first_token_wp s allow ignore :
  wp (thrown allow) get_token (fun _ P => expecting allow ignore s [] P)
    (mkParser (Lexer.make s ignore) uninitialized (Dom.make JNull allow) []).
Proof.
  destruct (fresh_lexer_ok s ignore) as (H1 & H2 & H3).
  apply (get_token_wp allow ignore s); [done|cbn [m_lexer]; lia|done|done|].
  intros t P [G1 G2 G3 G4 G5 G6 G7 G8].
  constructor; try done; [by rewrite G3|by rewrite G3|]. rewrite G2. intros Hst.
  destruct (G7 Hst) as (k & R1 & R2 & R3 & R4). exists [], k. rewrite <- G2. repeat (split; [done|]).
  split; [|done]. apply R4. intros _. by left.
Qed.

Lemma make_total s allow ignore :
  match make s allow ignore with
  | Ret P => expecting allow ignore s [] P
  | Throw e => thrown allow e
  | Undef _ => False
  end.
Proof.
  unfold make. pose proof (first_token_wp s allow ignore) as H. unfold wp in H.
  by destruct (get_token _) as [[t P]| |].
Qed.

Lemma parse_wp s allow ignore P :
  expecting allow ignore s [] P ->
  wp (thrown allow) (parse true) (fun o _ =>
    match o with
    | Some v => Wf.wf v = true /\ (ignore = false -> read_as v s)
    | None => allow = false
    end) P.
Proof.
  intros Hx. apply sax_parse_wp in Hx. unfold parse. apply wp_bind.
  eapply wp_mono; [exact Hx|]. intros b P1 [HL Hb]. clear Hx.
  apply wp_bind. apply (get_token_wp allow ignore s); [apply HL|destruct HL; lia|apply HL|apply HL|].
  intros t2 P2 [K1 K2 K3 K4 K5 K6 K7 K8]. apply wp_bind.
  assert (Hbad : forall P3, Dom.errored (sax P3) = true -> allow = false ->
    wp (thrown allow) (let! d := gets sax in ret (if Dom.errored d then None else Some (Dom.root d)))
      (fun o _ => match o with
       | Some v => Wf.wf v = true /\ (ignore = false -> read_as v s)
       | None => allow = false end) P3).
  { intros P3 H Ha. unfold wp. cbn. by rewrite H. }
  case_bool_decide as Et.
  { apply wp_bind, (wp_parse_error allow ignore); [by left|done|]. intros P3 E1 E2 E3.
    by apply wp_return, Hbad. }
  apply wp_return. destruct b; [|destruct Hb as [He Ha]; apply Hbad; [by rewrite K3|done]].
  destruct Hb as (He & Hwf & ks & Ht & Hv). unfold wp. cbn. rewrite K3, He. split; [done|].
  intros Hi. destruct (K8 Et ks Ht Hi) as (b & t & e & z & Hb & Hs & Hsp & Hes & Hz).
  by exists b, ks, t, e, z.
Qed.

(** [parse] on any bytes at all: a well-formed value, which they spell, or one of the
    exceptions it documents; without exceptions, the discarded value instead. *)
Lemma basic_json_parse_result s allow ignore :
  match basic_json_parse s allow ignore with
  | Ret (Some v) => Wf.wf v = true /\ (ignore = false -> read_as v s)
  | Ret None => allow = false
  | Throw e => allow = true /\ (e = JsonParseError \/ e = JsonOutOfRange)
  | Undef _ => False
  end.
Proof.
  unfold basic_json_parse. pose proof (make_total s allow ignore) as H.
  destruct (make s allow ignore) as [P| |]; [|done..]. cbn [mbind outcome_bind].
  apply parse_wp in H. unfold wp in H. by destruct (parse true P) as [[o P']| |].
Qed.

Lemma basic_json_parse_total s allow ignore :
  match basic_json_parse s allow ignore with
  | Ret (Some v) => Wf.wf v = true
  | Ret None => allow = false
  | Throw e => allow = true /\ (e = JsonParseError \/ e = JsonOutOfRange)
  | Undef _ => False
  end.
Proof.
  pose proof (basic_json_parse_result s allow ignore) as H.
  destruct (basic_json_parse s allow ignore) as [[v|]| |]; [apply H|exact H..].
Qed.

End Parsing.
