(* ===== verification/JsonGrammar.v ===== *)
(** * The parser of json.hpp: the language it reads

    Every text of the grammar is read to its value, and every text that is read is
    a text of the grammar: the parser accepts exactly RFC 8259, with an optional
    byte order mark and, since a null byte ends the input, anything after one. *)
From S2P Require Import Prelude Json JsonUtf8 JsonFloat JsonLexer JsonParser JsonLexing JsonParsing.

Module Grammar.
Import Json Lexer Lexing Zipper Parser Trail.
Export Syntax.

(** Tokens a value starts with. *)
Definition opens (t : token_type) : bool :=
  match t with
  | literal_null | literal_true | literal_false | value_unsigned | value_integer | value_float
  | value_string | begin_array | begin_object => true
  | _ => false
  end.
Lemma value_first v ts : value_tokens v ts -> exists k ks, ts = k :: ks /\ opens (kind k) = true.
Proof. destruct 1; by eexists _, _. Qed.

Lemma items_first acc ts es :
  items_tokens acc ts es -> exists k ks, ts = k :: ks /\ opens (kind k) = true.
Proof.
  destruct 1 as [acc v ts H|acc v ts ts' es H _]; destruct (value_first _ _ H) as (k & ks & -> & Hk);
    by eexists _, _.
Qed.

(** The parser before the tokens [ks], and at the token [k] before them. *)
Definition ahead (P : parser) (ks : list token) (r : bytes) : Prop :=
  ok (m_lexer P) /\ 1 <= total (m_lexer P) /\ exists t, rest (m_lexer P) = t ++ r /\ lexes ks t r.
Definition at_token (P : parser) (k : token) (ks : list token) (r : bytes) : Prop :=
  last_token P = kind k /\ holds k (m_lexer P) /\ ahead P ks r.

Lemma get_token_text P k ks r :
  ahead P (k :: ks) r ->
  exists P', get_token P = Ret (kind k, P') /\ at_token P' k ks r /\ sax P' = sax P /\ states P' = states P.
Proof.
  intros (Hok & Ht & t & Hr & Hl). inversion Hl as [|w s k' ks' t' r' Hw Hs Hd Hl']; subst.
  destruct (scan_text (m_lexer P) w s k (t' ++ r)) as (L & E & Hh & Hc);
    [by apply gap_space|done|done|done|by rewrite Hr, <- !app_assoc|].
  eexists. split; [unfold get_token, on_lexer, zoom; cbn [bindM]; by rewrite E|].
  split; [|done]. split; [done|]. split; [done|]. destruct Hc as (H1 & H2 & _ & H3).
  split; [done|]. cbn. split; [unfold total in *; pose proof (zlen_nonneg (w ++ s)); lia|].
  exists t'. split; [|done]. rewrite Hr in H2.
  replace ((w ++ s ++ t') ++ r) with ((w ++ s) ++ t' ++ r) in H2 by by rewrite <- !app_assoc.
  by apply app_inv_head in H2.
Qed.

Lemma ahead_sax P ks r d l :
  ahead P ks r -> ahead (mkParser (m_lexer P) (last_token P) d l) ks r.
Proof. done. Qed.

Lemma on_sax_Ret {A} (m : M Dom.dom A) P a d :
  m (sax P) = Ret (a, d) -> on_sax m P = Ret (a, mkParser (m_lexer P) (last_token P) d (states P)).
Proof. intros H. unfold on_sax, zoom. by rewrite H. Qed.

Lemma on_lexer_gets {A} (f : lexer -> A) P : on_lexer (gets f) P = Ret (f (m_lexer P), P).
Proof. by destruct P. Qed.

(** Some iterations of the loop, whatever fuel is left for the rest. *)
Definition steps (b : bool) (P : parser) (b' : bool) (P' : parser) : Prop :=
  exists i, forall n, sax_loop (i + S n) b P = sax_loop (S n) b' P'.

Lemma steps_trans b1 P1 b2 P2 b3 P3 : steps b1 P1 b2 P2 -> steps b2 P2 b3 P3 -> steps b1 P1 b3 P3.
Proof.
  intros [i Hi] [j Hj]. exists (i + j)%nat. intros n.
  replace (i + j + S n)%nat with (i + S (j + n))%nat by lia. rewrite Hi.
  replace (S (j + n)) with (j + S n)%nat by lia. apply Hj.
Qed.
Lemma steps_one b P b' P' : (forall n, sax_loop (S n) b P = sax_loop n b' P') -> steps b P b' P'.
Proof. intros H. exists 1%nat. intros n. apply (H (S n)). Qed.
Lemma steps_same b P b' P' : (forall n, sax_loop (S n) b P = sax_loop (S n) b' P') -> steps b P b' P'.
Proof. intros H. exists 0%nat. exact H. Qed.

Lemma value_continue P P' : value_case P = Ret (Continue, P') -> steps false P false P'.
Proof. intros H. apply steps_one. intros n. cbn [sax_loop]. by rewrite M_bind_eq, H. Qed.
Lemma value_evaluate P P' : value_case P = Ret (Evaluate, P') -> steps false P true P'.
Proof. intros H. apply steps_same. intros n. cbn [sax_loop]. by rewrite M_bind_eq, H. Qed.
Lemma state_continue P P' : state_case P = Ret (Continue, P') -> steps true P false P'.
Proof. intros H. apply steps_one. intros n. cbn [sax_loop bindM ret]. by rewrite H. Qed.
Lemma state_evaluate P P' : state_case P = Ret (Evaluate, P') -> steps true P true P'.
Proof. intros H. apply steps_one. intros n. cbn [sax_loop bindM ret]. by rewrite H. Qed.

(** A value is parsed and stands in its place. *)
Definition delivers (P : parser) (fs : list frame) (v : json) (ks : list token) (r : bytes) : Prop :=
  exists P', steps false P true P' /\
    filled fs v (sax P') /\ ahead P' ks r /\ states P' = kinds fs /\ calm (sax P) (sax P').

Definition ready (fs : list frame) (P : parser) : Prop :=
  linked fs = true /\ waiting fs (sax P) /\ states P = kinds fs.

Lemma calm_trans d1 d2 d3 : calm d1 d2 -> calm d2 d3 -> calm d1 d3.
Proof. intros [H1 H2] [H3 H4]. split; congruence. Qed.
Lemma calm_refl d : calm d d.
Proof. done. Qed.

Lemma scalar_delivers fs v P k ks r :
  value_case P = reported (Dom.value v) P -> ready fs P -> at_token P k ks r -> delivers P fs v ks r.
Proof.
  intros Hv (Hl & Hw & Hs) (_ & _ & Ha).
  destruct (value_spec fs v (sax P) Hl Hw) as (d & E & Hd & Hc).
  exists (mkParser (m_lexer P) (last_token P) d (states P)).
  split; [|by split; [|split]]. apply value_evaluate. rewrite Hv.
  unfold reported. by rewrite M_bind_eq, (on_sax_Ret _ _ _ _ E).
Qed.

(** *** Arrays *)

Lemma array_more P fs acc v k ks r :
  filled (InArray acc :: fs) v (sax P) -> states P = true :: kinds fs ->
  ahead P (Symbol value_separator :: k :: ks) r ->
  exists P', steps true P false P' /\ waiting (InArray (acc ++ [v]) :: fs) (sax P') /\
    states P' = true :: kinds fs /\ at_token P' k ks r /\ sax P' = sax P.
Proof.
  intros Hf Hs Ha. destruct (get_token_text _ _ _ _ Ha) as (P1 & E1 & (_ & _ & A1) & S1 & T1).
  destruct (get_token_text _ _ _ _ A1) as (P2 & E2 & A2 & S2 & T2).
  exists P2. split.
  - apply state_continue. unfold state_case. cbn [bindM gets]. rewrite Hs. rewrite M_bind_eq, E1.
    cbn [kind]. rewrite bool_decide_true by done. by rewrite M_bind_eq, E2.
  - rewrite S2, S1, T2, T1. repeat (split; [done|]). done.
Qed.

Lemma close_text P fs c is_it b ks r :
  linked fs = true -> holding fs c (sax P) -> is_it c = true -> states P = b :: kinds fs ->
  ahead P ks r ->
  exists P', close (Dom.end_container is_it) P = Ret (Evaluate, P') /\ filled fs c (sax P') /\
    ahead P' ks r /\ states P' = kinds fs /\ calm (sax P) (sax P').
Proof.
  intros Hl Hh Hi Hs Ha. destruct (end_spec fs c is_it (sax P) Hl Hh Hi) as (d & E & Hd & Hc).
  eexists. split.
  - unfold close. rewrite M_bind_eq, (on_sax_Ret _ _ _ _ E). cbn [negb bindM gets states].
    rewrite Hs. cbn. done.
  - split; [done|]. split; [done|]. split; [by cbn; rewrite ?Hs|done].
Qed.

Lemma array_end P fs acc v ks r :
  linked fs = true -> filled (InArray acc :: fs) v (sax P) -> states P = true :: kinds fs ->
  ahead P (Symbol end_array :: ks) r ->
  exists P', steps true P true P' /\ filled fs (JArray (acc ++ [v])) (sax P') /\
    ahead P' ks r /\ states P' = kinds fs /\ calm (sax P) (sax P').
Proof.
  intros Hl Hf Hs Ha. destruct (get_token_text _ _ _ _ Ha) as (P1 & E1 & (_ & _ & A1) & S1 & T1).
  destruct (close_text P1 fs (JArray (acc ++ [v])) Dom.is_array true ks r) as (P2 & E2 & H);
    [done|by rewrite S1|done|by rewrite T1|done|].
  exists P2. split; [|by rewrite <- S1]. apply state_evaluate. unfold state_case. cbn [bindM gets]. rewrite Hs.
  rewrite M_bind_eq, E1. done.
Qed.

(** *** Objects *)

Lemma parse_key_text P fs m k k1 ks r :
  linked fs = true -> holding fs (JObject m) (sax P) ->
  at_token P (Text k) (Symbol name_separator :: k1 :: ks) r ->
  exists P', parse_key value_string P = Ret (Continue, P') /\ ahead P' (k1 :: ks) r /\
    waiting (InObject (emplace k JNull m) k :: fs) (sax P') /\ states P' = states P /\
    calm (sax P) (sax P').
Proof.
  intros Hl Hh (_ & Hk & Ha). cbn in Hk.
  destruct (key_spec fs m k (sax P) Hl Hh) as (d & E & Hd & Hc).
  pose (P1 := mkParser (m_lexer P) (last_token P) d (states P)).
  destruct (get_token_text P1 _ _ _ Ha) as (P2 & E2 & (_ & _ & A2) & S2 & T2).
  exists P2. split; [|rewrite S2, T2; by repeat (split; [done|])].
  unfold parse_key. rewrite bool_decide_false by auto. rewrite M_bind_eq.
  rewrite on_lexer_gets, Hk, M_bind_eq, (on_sax_Ret _ _ _ _ E). cbn [negb].
  rewrite M_bind_eq. unfold P1 in E2. by rewrite E2.
Qed.

Lemma object_end P fs m k v ks r :
  linked fs = true -> filled (InObject m k :: fs) v (sax P) -> states P = false :: kinds fs ->
  ahead P (Symbol end_object :: ks) r ->
  exists P', steps true P true P' /\ filled fs (JObject (assign k v m)) (sax P') /\
    ahead P' ks r /\ states P' = kinds fs /\ calm (sax P) (sax P').
Proof.
  intros Hl Hf Hs Ha. destruct (get_token_text _ _ _ _ Ha) as (P1 & E1 & (_ & _ & A1) & S1 & T1).
  destruct (close_text P1 fs (JObject (assign k v m)) Dom.is_object false ks r) as (P2 & E2 & H);
    [done|by rewrite S1|done|by rewrite T1|done|].
  exists P2. split; [|by rewrite <- S1]. apply state_evaluate. unfold state_case. cbn [bindM gets]. rewrite Hs.
  rewrite M_bind_eq, E1. done.
Qed.

Lemma object_more P fs m k v k2 k3 ks r :
  linked fs = true -> filled (InObject m k :: fs) v (sax P) -> states P = false :: kinds fs ->
  ahead P (Symbol value_separator :: Text k2 :: Symbol name_separator :: k3 :: ks) r ->
  exists P', steps true P false P' /\
    waiting (InObject (emplace k2 JNull (assign k v m)) k2 :: fs) (sax P') /\
    states P' = false :: kinds fs /\ at_token P' k3 ks r /\ calm (sax P) (sax P').
Proof.
  intros Hl Hf Hs Ha. destruct (get_token_text _ _ _ _ Ha) as (P1 & E1 & (_ & _ & A1) & S1 & T1).
  destruct (get_token_text _ _ _ _ A1) as (P2 & E2 & A2 & S2 & T2).
  destruct (parse_key_text P2 fs (assign k v m) k2 k3 ks r) as (P3 & E3 & A3 & W3 & T3 & C3);
    [done|by rewrite S2, S1|done|].
  destruct (get_token_text _ _ _ _ A3) as (P4 & E4 & A4 & S4 & T4).
  exists P4. split.
  - apply state_continue. unfold state_case. cbn [bindM gets]. rewrite Hs. rewrite M_bind_eq, E1.
    cbn [kind]. rewrite bool_decide_true by done. rewrite M_bind_eq, E2, M_bind_eq. cbn [kind].
    rewrite E3. by rewrite M_bind_eq, E4.
  - rewrite S4, T4, T3, T2, T1. repeat (split; [done|]). by rewrite <- S1, <- S2.
Qed.

(** *** All values *)

Definition value_goal (v : json) (ts : list token) : Prop :=
  forall k ks P fs ks' r, ts = k :: ks -> ready fs P -> at_token P k (ks ++ ks') r ->
    delivers P fs v ks' r.
Definition items_goal (acc : list json) (ts : list token) (es : list json) : Prop :=
  forall k ks P fs ks' r, ts = k :: ks -> linked fs = true -> waiting (InArray acc :: fs) (sax P) ->
    states P = true :: kinds fs -> at_token P k (ks ++ ks') r -> delivers P fs (JArray es) ks' r.
Definition members_goal (m : list (bytes * json)) (ts : list token) (m' : list (bytes * json)) : Prop :=
  forall k k1 ks P fs ks' r, ts = Text k :: Symbol name_separator :: k1 :: ks -> linked fs = true ->
    waiting (InObject (emplace k JNull m) k :: fs) (sax P) ->
    states P = false :: kinds fs -> at_token P k1 (ks ++ ks') r -> delivers P fs (JObject m') ks' r.

Lemma delivers_calm P1 P2 fs v ks r :
  steps false P1 false P2 -> calm (sax P1) (sax P2) -> delivers P2 fs v ks r -> delivers P1 fs v ks r.
Proof.
  intros Hs Hc (P' & Hs' & H1 & H2 & H3 & Hc'). exists P'. split; [by eapply steps_trans|].
  repeat (split; [done|]). by eapply calm_trans.
Qed.

(** Both steps after the opening bracket of a container that is not empty. *)
Lemma first_token v ts k ks : value_tokens v ts -> ts = k :: ks -> opens (kind k) = true.
Proof. intros H ->. destruct (value_first _ _ H) as (k' & ks' & [= <- <-] & Hk). done. Qed.

Lemma array_goal es ts : items_goal [] ts es -> (exists acc, items_tokens acc ts es) ->
  value_goal (JArray es) (Symbol begin_array :: ts).
Proof.
  intros IH [acc Hi] k0 ks0 P fs ks' r [= <- <-] (Hl & Hw & Hs) (Hlast & _ & Ha).
  destruct (items_first _ _ _ Hi) as (k & ks & -> & Hk).
  destruct (start_spec fs (JArray []) (sax P) Hl Hw) as (d & E & Hd & Hc).
  destruct (get_token_text (mkParser (m_lexer P) (last_token P) d (states P)) k (ks ++ ks') r)
    as (P1 & E1 & A1 & S1 & T1); [done|].
  pose (P2 := mkParser (m_lexer P1) (last_token P1) (sax P1) (true :: states P1)).
  apply (delivers_calm P P2).
  - apply value_continue. unfold value_case. cbn [bindM gets]. rewrite Hlast. cbn [kind].
    unfold begin_array_case, Dom.start_array. rewrite M_bind_eq, (on_sax_Ret _ _ _ _ E). cbn [negb].
    rewrite M_bind_eq, E1. rewrite bool_decide_false; [done|]. intros Ek. by rewrite Ek in Hk.
  - unfold P2. cbn. by rewrite S1.
  - apply (IH k ks P2 fs ks' r); [done|done| | |exact A1].
    + unfold P2. cbn [sax]. by rewrite S1.
    + unfold P2. cbn [states]. by rewrite T1, Hs.
Qed.

Lemma members_first m ts m' :
  members_tokens m ts m' ->
  exists k k1 ks, ts = Text k :: Symbol name_separator :: k1 :: ks.
Proof.
  destruct 1 as [m k v ts H|m k v ts ts' m' H _]; destruct (value_first _ _ H) as (k1 & ks & -> & _);
    by eexists _, _, _.
Qed.

Lemma object_goal m ts : members_goal [] ts m -> (exists m0, members_tokens m0 ts m) ->
  value_goal (JObject m) (Symbol begin_object :: ts).
Proof.
  intros IH [m0 Hm] k0 ks0 P fs ks' r [= <- <-] (Hl & Hw & Hs) (Hlast & _ & Ha).
  destruct (members_first _ _ _ Hm) as (k & k1 & ks & ->).
  destruct (start_spec fs (JObject []) (sax P) Hl Hw) as (d & E & Hd & Hc).
  destruct (get_token_text (mkParser (m_lexer P) (last_token P) d (states P)) (Text k)
    (Symbol name_separator :: k1 :: ks ++ ks') r) as (P1 & E1 & A1 & S1 & T1); [done|].
  destruct (parse_key_text P1 fs [] k k1 (ks ++ ks') r) as (P2 & E2 & A2 & W2 & T2 & C2);
    [done|by rewrite S1|done|].
  pose (P3 := mkParser (m_lexer P2) (last_token P2) (sax P2) (false :: states P2)).
  destruct (get_token_text P3 k1 (ks ++ ks') r) as (P4 & E4 & A4 & S4 & T4); [done|].
  apply (delivers_calm P P4).
  - apply value_continue. unfold value_case. cbn [bindM gets]. rewrite Hlast. cbn [kind].
    unfold begin_object_case, Dom.start_object. rewrite M_bind_eq, (on_sax_Ret _ _ _ _ E). cbn [negb].
    rewrite M_bind_eq, E1. cbn [kind]. rewrite bool_decide_false by done.
    rewrite M_bind_eq, E2. rewrite M_bind_eq. unfold push_state. cbn [modify].
    unfold P3 in E4. by rewrite M_bind_eq, E4.
  - rewrite S4. unfold P3. cbn [sax]. eapply calm_trans; [exact Hc|]. by rewrite S1 in C2.
  - apply (IH k k1 ks P4 fs ks' r); [done|done|by rewrite S4| |done].
    rewrite T4. unfold P3. cbn [states]. by rewrite T2, T1, Hs.
Qed.

(** An empty container. *)
Lemma empty_goal c start is_it t1 t2 :
  start = Dom.start_container c -> is_it c = true ->
  (forall P P1 d, last_token P = t1 -> on_sax start P = Ret (true, d) ->
     get_token d = Ret (t2, P1) -> value_case P = reported (Dom.end_container is_it) P1) ->
  value_goal c [Symbol t1; Symbol t2].
Proof.
  intros -> Hi Hcase k0 ks0 P fs ks' r [= <- <-] (Hl & Hw & Hs) (Hlast & _ & Ha).
  destruct (start_spec fs c (sax P) Hl Hw) as (d & E & Hd & Hc).
  destruct (get_token_text (mkParser (m_lexer P) (last_token P) d (states P)) (Symbol t2) ks' r)
    as (P1 & E1 & (_ & _ & A1) & S1 & T1); [done|].
  destruct (end_spec fs c is_it (sax P1) Hl) as (d2 & E2 & Hd2 & Hc2); [by rewrite S1|done|].
  exists (mkParser (m_lexer P1) (last_token P1) d2 (states P1)). split; [|split; [done|]].
  - apply value_evaluate. rewrite (Hcase P P1 _ Hlast (on_sax_Ret _ _ _ _ E) E1).
    unfold reported. by rewrite M_bind_eq, (on_sax_Ret _ _ _ _ E2).
  - split; [done|]. cbn. rewrite T1. split; [done|]. eapply calm_trans; [exact Hc|]. by rewrite S1 in Hc2.
Qed.

Lemma items_last_goal acc v ts : value_tokens v ts -> value_goal v ts ->
  items_goal acc (ts ++ [Symbol end_array]) (acc ++ [v]).
Proof.
  intros Hv IH k ks P fs ks' r E Hl Hw Hs Ha.
  destruct (value_first _ _ Hv) as (k1 & ks1 & -> & _). injection E as -> <-.
  rewrite <- app_assoc in Ha.
  destruct (IH k ks1 P (InArray acc :: fs) ([Symbol end_array] ++ ks') r eq_refl) as (P1 & St & Hf & A1 & T1 & C1); [done|exact Ha|].
  destruct (array_end P1 fs acc v ks' r) as (P2 & St2 & Hf2 & A2 & T2 & C2); [done..|].
  exists P2. split; [by eapply steps_trans|]. repeat (split; [done|]). by eapply calm_trans.
Qed.

Lemma items_more_goal acc v ts ts' es :
  value_tokens v ts -> items_tokens (acc ++ [v]) ts' es -> value_goal v ts -> items_goal (acc ++ [v]) ts' es ->
  items_goal acc (ts ++ Symbol value_separator :: ts') es.
Proof.
  intros Hv Hi IH IH2 k ks P fs ks' r E Hl Hw Hs Ha.
  destruct (value_first _ _ Hv) as (k1 & ks1 & -> & _). injection E as -> <-.
  destruct (items_first _ _ _ Hi) as (k2 & ks2 & -> & _). rewrite <- app_assoc in Ha.
  destruct (IH k ks1 P (InArray acc :: fs) ((Symbol value_separator :: k2 :: ks2) ++ ks') r eq_refl) as (P1 & St & Hf & A1 & T1 & C1); [done|exact Ha|].
  destruct (array_more P1 fs acc v k2 (ks2 ++ ks') r) as (P2 & St2 & W2 & T2 & A2 & S2); [done..|].
  destruct (IH2 k2 ks2 P2 fs ks' r eq_refl Hl W2 T2 A2) as (P3 & St3 & H3).
  exists P3. split; [by eapply steps_trans, steps_trans|]. destruct H3 as (F3 & A3 & T3 & C3).
  repeat (split; [done|]). eapply calm_trans; [exact C1|]. by rewrite <- S2.
Qed.

Lemma linked_object fs m k : linked fs = true -> linked (InObject (emplace k JNull m) k :: fs) = true.
Proof. intros H. cbn. by destruct (Wf.find_emplace k m) as [w ->]. Qed.

Lemma members_last_goal m k v ts : value_tokens v ts -> value_goal v ts ->
  members_goal m (Text k :: Symbol name_separator :: ts ++ [Symbol end_object])
    (assign k v (emplace k JNull m)).
Proof.
  intros Hv IH k0 k1 ks P fs ks' r E Hl Hw Hs Ha.
  destruct (value_first _ _ Hv) as (k2 & ks1 & -> & _). injection E as <- -> <-.
  rewrite <- app_assoc in Ha.
  destruct (IH k1 ks1 P (InObject (emplace k JNull m) k :: fs) ([Symbol end_object] ++ ks') r eq_refl) as (P1 & St & Hf & A1 & T1 & C1);
    [by split; [apply linked_object|]|exact Ha|].
  destruct (object_end P1 fs (emplace k JNull m) k v ks' r) as (P2 & St2 & Hf2 & A2 & T2 & C2); [done..|].
  exists P2. split; [by eapply steps_trans|]. repeat (split; [done|]). by eapply calm_trans.
Qed.

Lemma members_more_goal m k v ts ts' m' :
  value_tokens v ts -> members_tokens (assign k v (emplace k JNull m)) ts' m' -> value_goal v ts ->
  members_goal (assign k v (emplace k JNull m)) ts' m' ->
  members_goal m (Text k :: Symbol name_separator :: ts ++ Symbol value_separator :: ts') m'.
Proof.
  intros Hv Hi IH IH2 k0 k1 ks P fs ks' r E Hl Hw Hs Ha.
  destruct (value_first _ _ Hv) as (k2 & ks1 & -> & _). injection E as <- -> <-.
  destruct (members_first _ _ _ Hi) as (k3 & k4 & ks4 & ->). rewrite <- app_assoc in Ha.
  destruct (IH k1 ks1 P (InObject (emplace k JNull m) k :: fs) ((Symbol value_separator :: Text k3 :: Symbol name_separator :: k4 :: ks4) ++ ks') r eq_refl) as (P1 & St & Hf & A1 & T1 & C1);
    [by split; [apply linked_object|]|exact Ha|].
  destruct (object_more P1 fs (emplace k JNull m) k v k3 k4 (ks4 ++ ks') r) as (P2 & St2 & W2 & T2 & A2 & C2);
    [done..|].
  destruct (IH2 k3 k4 ks4 P2 fs ks' r eq_refl Hl W2 T2 A2) as (P3 & St3 & F3 & A3 & T3 & C3).
  exists P3. split; [by eapply steps_trans, steps_trans|].
  repeat (split; [done|]). by eapply calm_trans, calm_trans.
Qed.

Ltac scalar :=
  intros k0 ks0 P fs ks' r [= <- <-] Hready Hat; eapply scalar_delivers; [|exact Hready|exact Hat];
  destruct Hat as (Hlast & Hholds & _); unfold value_case; cbn [bindM gets]; rewrite Hlast; cbn [kind];
  rewrite ?M_bind_eq, ?on_lexer_gets; cbn in Hholds; rewrite ?Hholds.

Lemma all_values :
  (forall v ts, value_tokens v ts -> value_goal v ts) /\
  (forall acc ts es, items_tokens acc ts es -> items_goal acc ts es) /\
  (forall m ts m', members_tokens m ts m' -> members_goal m ts m').
Proof.
  apply tokens_mut; intros; try (scalar; done).
  - scalar. by rewrite H.
  - apply (empty_goal _ Dom.start_array Dom.is_array); [done|done|].
    intros P P1 d Hl Hs Hg. unfold value_case. cbn [bindM gets]. rewrite Hl.
    unfold begin_array_case. rewrite M_bind_eq, Hs. cbn [negb]. by rewrite M_bind_eq, Hg.
  - apply array_goal; eauto.
  - apply (empty_goal _ Dom.start_object Dom.is_object); [done|done|].
    intros P P1 d Hl Hs Hg. unfold value_case. cbn [bindM gets]. rewrite Hl.
    unfold begin_object_case. rewrite M_bind_eq, Hs. cbn [negb]. by rewrite M_bind_eq, Hg.
  - apply object_goal; eauto.
  - by apply items_last_goal.
  - by eapply items_more_goal.
  - by apply members_last_goal.
  - by eapply members_more_goal.
Qed.

(** *** The whole text *)

(** More fuel changes nothing. *)
Lemma sax_loop_more fuel b P j :
  match sax_loop fuel b P with Undef _ => True | r => sax_loop (fuel + j) b P = r end.
Proof.
  revert b P. induction fuel as [|fuel IH]; intros b P; [done|]. cbn [Nat.add sax_loop].
  rewrite !M_bind_eq.
  assert (Hstate : forall P1,
    match (let! v := state_case in match v with
      | Return b => ret b | Continue => sax_loop fuel false | Evaluate => sax_loop fuel true end) P1 with
    | Undef _ => True
    | r => (let! v := state_case in match v with
      | Return b => ret b | Continue => sax_loop (fuel + j) false | Evaluate => sax_loop (fuel + j) true end) P1 = r
    end).
  { intros P1. rewrite !M_bind_eq. destruct (state_case P1) as [[[b1| |] P2]| |]; [done|apply IH..|done|done]. }
  destruct ((if b then ret Evaluate else value_case) P) as [[[b1| |] P1]| |]; [done|apply IH|apply Hstate|done|done].
Qed.

(** A run of the machine is a result of the loop with the fuel it has. *)
Lemma loop_steps fuel P P' v :
  steps false P true P' -> states P' = [] -> filled [] v (sax P') ->
  (match sax_loop fuel false P with Undef _ => False | _ => True end) ->
  sax_loop fuel false P = Ret (true, P').
Proof.
  intros [i Hi] Hs Hf Hd.
  assert (Hend : sax_loop (i + S fuel) false P = Ret (true, P')).
  { rewrite Hi. cbn [sax_loop bindM ret]. unfold state_case. cbn [bindM gets]. by rewrite Hs. }
  pose proof (sax_loop_more fuel false P (i + 1)) as Hm.
  replace (fuel + (i + 1))%nat with (i + S fuel)%nat in Hm by lia. rewrite Hend in Hm.
  by destruct (sax_loop fuel false P).
Qed.

Lemma wp_defined {S A} E (m : M S A) Q s :
  wp E m Q s -> match m s with Undef _ => False | _ => True end.
Proof. unfold wp. by destruct (m s) as [[]| |]. Qed.

(** The first token, after the byte order mark. *)
Lemma parser_at_text b k ks t e allow ignore :
  (b = [] \/ b = bom) -> lexes (k :: ks) t e ->
  exists P, make (b ++ t ++ e) allow ignore = Ret P /\ at_token P k ks e /\
    sax P = Dom.make JNull allow /\ states P = [].
Proof.
  intros Hb Hl. inversion Hl as [|w s k' ks' t' r' Hw Hs Hd Hl']; subst.
  destruct (fresh_lexer_ok (b ++ (w ++ s ++ t') ++ e) ignore) as (H1 & H2 & H3).
  assert (Hgap : gap (Lexer.make (b ++ (w ++ s ++ t') ++ e) ignore) (b ++ w)).
  { exists b, w. split; [done|]. split; [done|]. destruct Hb as [-> | ->]; auto. }
  destruct (scan_text _ _ s k (t' ++ e) Hgap Hs Hd H1) as (L & E & Hh & Hc).
  { by rewrite H2, <- !app_assoc. }
  unfold make, get_token, on_lexer, zoom. cbn [bindM m_lexer]. rewrite E. cbn.
  eexists. split; [done|]. cbn. destruct Hc as (C1 & C2 & _ & C3).
  split; [|done].
  split; [done|]. split; [done|]. split; [done|]. cbn. split.
  - apply token_text_cons, zlen_pos in Hs. unfold total in *. rewrite !zlen_app in C3.
    pose proof (zlen_nonneg b). pose proof (zlen_nonneg w). lia.
  - exists t'. split; [|done]. rewrite H2 in C2.
    replace (b ++ (w ++ s ++ t') ++ e) with (((b ++ w) ++ s) ++ t' ++ e) in C2 by by rewrite <- !app_assoc.
    by apply app_inv_head in C2.
Qed.

(** Every text of the grammar is parsed to its value. *)
Lemma parse_text v s allow ignore : json_text v s -> basic_json_parse s allow ignore = Ret (Some v).
Proof.
  intros (b & ts & t & e & z & Hb & -> & Hv & Hl & He & Hz).
  destruct (value_first _ _ Hv) as (k & ks & -> & _).
  destruct (parser_at_text b k ks t (e ++ z) allow ignore Hb Hl) as (P & Em & At & Es & Et).
  pose proof (Parsing.make_total (b ++ t ++ e ++ z) allow ignore) as Hx. rewrite Em in Hx.
  unfold basic_json_parse. rewrite Em. cbn [mbind outcome_bind].
  assert (Hready : ready [] P) by (split; [done|split; [by rewrite Es|done]]).
  destruct (proj1 all_values v _ Hv k ks P [] [] (e ++ z) eq_refl Hready ltac:(by rewrite app_nil_r))
    as (P' & St & Hf & A' & T' & C').
  destruct At as (_ & _ & Hok & Htot & _).
  apply Parsing.sax_parse_wp, wp_defined in Hx.
  assert (Hrun : sax_parse_internal P = Ret (true, P')).
  { unfold sax_parse_internal in *. cbn [bindM gets] in *. by eapply loop_steps. }
  destruct A' as (Hok' & Ht' & t2 & Hr & Hl2). inversion Hl2; subst. cbn [app] in Hr.
  destruct (scan_end (m_lexer P') e z) as (L & E & _); [by apply gap_space|done..|].
  unfold parse. rewrite M_bind_eq, Hrun, M_bind_eq.
  unfold get_token at 1, on_lexer, zoom. cbn [bindM]. rewrite E. cbn.
  rewrite bool_decide_false by auto. cbn. destruct C' as [Ce _]. rewrite Es in Ce. cbn in Ce. rewrite Ce.
  destruct Hf as [_ Hroot]. cbn in Hroot. by rewrite Hroot.
Qed.

(** ** Only those *)

Definition numeric (k : token) : bool :=
  match k with Unsigned _ | Integer _ | Real _ => true | _ => false end.
Definition closing (k : token) : bool :=
  match k with Symbol (value_separator | end_array | end_object) => true | _ => false end.

(** In the tokens of a value a number is followed by what ends it. *)
Fixpoint separated (ks : list token) : bool :=
  match ks with
  | k :: ks' =>
      match ks' with k' :: _ => negb (numeric k) || closing k' | [] => true end && separated ks'
  | [] => true
  end.

Lemma separated_cons k ks : numeric k = false -> separated ks = true -> separated (k :: ks) = true.
Proof. intros Hk H. cbn [separated]. rewrite Hk, H. by destruct ks. Qed.
Lemma separated_app ts k ks :
  separated ts = true -> closing k = true -> separated (k :: ks) = true -> separated (ts ++ k :: ks) = true.
Proof.
  intros Ht Hk H. induction ts as [|k0 ts IH]; [done|]. cbn [separated] in Ht. apply andb_prop in Ht as [H1 H2].
  specialize (IH H2). destruct ts as [|k1 ts]; cbn [app separated] in *.
  - by rewrite Hk, orb_true_r.
  - by rewrite H1, IH.
Qed.

Lemma all_separated :
  (forall v ts, value_tokens v ts -> separated ts = true) /\
  (forall acc ts es, items_tokens acc ts es -> separated ts = true) /\
  (forall m ts m', members_tokens m ts m' -> separated ts = true).
Proof.
  apply tokens_mut; intros; try done; try by apply separated_cons.
  - by apply separated_app.
  - apply separated_app; [done|done|by apply separated_cons].
  - by apply separated_cons, separated_cons, separated_app.
  - apply separated_cons, separated_cons, separated_app; [done..|by apply separated_cons].
Qed.

(** What was read is made of the tokens: after a number comes what ends it. *)
Lemma spelled_lexes ts t ks t' r :
  spelled ts t -> separated (ts ++ ks) = true -> lexes ks t' r ->
  (ks = [] -> stops (next r) = true) -> lexes (ts ++ ks) (t ++ t') r.
Proof.
  intros H. revert ks t'. induction H as [|ts t w s k H IH Hw Hs]; intros ks t' Hsep Hl Hr; [done|].
  rewrite <- !app_assoc in *. apply IH; [done| |done]. constructor; [done|done| |done].
  assert (Hn : numeric k = true -> stops (next (t' ++ r)) = true).
  { intros Hk. inversion Hl as [r'|w' s' k' ks' t'' r' Hw' Hs' Hd Hl']; subst; [by apply Hr|].
    assert (Hc : closing k' = true).
    { clear -Hsep Hk. induction ts as [|k0 ts IH]; cbn [app separated] in Hsep; apply andb_prop in Hsep as [H1 H2]; [|by apply IH].
      by rewrite Hk in H1. }
    destruct Hw' as [|b w' Hb Hw']; [|revert Hb; cbn; unfold is_space, stops, digit, is_e; lia].
    destruct Hs' as [c t0 Hp|s0 t0 Hp|d0 d1 Hp|d0 ty Hp].
    - unfold punctuation in Hp.
      repeat (apply elem_of_cons in Hp as [Hp|Hp]; [by injection Hp as -> ->|]). by apply elem_of_nil in Hp.
    - unfold literals in Hp.
      repeat (apply elem_of_cons in Hp as [Hp|Hp]; [by injection Hp as -> ->|]). by apply elem_of_nil in Hp.
    - done.
    - unfold number_token in Hc. destruct ty; try done; [by destruct (_ <=? _)|by destruct (_ <? _)]. }
  destruct k; cbn; auto.
Qed.

Lemma ending_stops e z : space_text e -> ending z -> stops (next (e ++ z)) = true.
Proof.
  intros He Hz. destruct He as [|b e Hb He].
  - by destruct Hz as [-> | [junk ->]].
  - revert Hb. cbn. unfold is_space, stops, digit, is_e. lia.
Qed.

Lemma read_as_text v s : Parsing.read_as v s -> json_text v s.
Proof.
  intros (b & ks & t & e & z & Hb & -> & Hv & Hs & He & Hz). exists b, ks, t, e, z.
  split; [done|]. split; [done|]. split; [done|]. split; [|done].
  pose proof (proj1 all_separated _ _ Hv) as Hsep.
  rewrite <- (app_nil_r ks), <- (app_nil_r t).
  apply spelled_lexes; [done|by rewrite app_nil_r|constructor|]. intros _. by apply ending_stops.
Qed.


End Grammar.
