(* ===== verification/JsonIntegers.v ===== *)
(** * The serializer of json.hpp: integers

    The decimal text of a number, as a function, and the proof that the
    serializer, which fills its buffer two digits at a time from the end, writes
    exactly that text. *)
From S2P Require Import Prelude Json JsonUtf8 JsonFloat JsonLexer JsonDump JsonLexing JsonParser JsonParsing.

(** ** Decimal texts *)
Module Decimals.
Import Lexing.

Definition digit_char (d : Z) : Byte.byte := byte.of_Z (48 + d).

Fixpoint decimal_go (fuel : nat) (x : Z) : bytes :=
  match fuel with
  | O => [digit_char x]
  | S fuel' => if x <? 10 then [digit_char x] else decimal_go fuel' (x / 10) ++ [digit_char (x mod 10)]
  end.
(** The decimal digits of a natural number. *)
Definition decimal (x : Z) : bytes := decimal_go (Z.to_nat (Z.log2 x)) x.

Lemma decimal_go_fuel f g x :
  0 <= x < 10 ^ (Z.of_nat f + 1) -> x < 10 ^ (Z.of_nat g + 1) -> decimal_go f x = decimal_go g x.
Proof.
  revert g x. induction f as [|f IH]; intros g x Hf Hg.
  - destruct g as [|g]; [done|]. cbn. destruct (Z.ltb_spec x 10); [done|]. cbn in Hf. lia.
  - cbn [decimal_go]. destruct (Z.ltb_spec x 10).
    + destruct g as [|g]; [done|]. cbn. destruct (Z.ltb_spec x 10); [done|lia].
    + destruct g as [|g]; [cbn in Hg; lia|]. cbn [decimal_go]. destruct (Z.ltb_spec x 10); [lia|].
      f_equal. rewrite !Nat2Z.inj_succ in *.
      replace (Z.succ (Z.of_nat f) + 1) with (Z.succ (Z.of_nat f + 1)) in Hf by lia.
      replace (Z.succ (Z.of_nat g) + 1) with (Z.succ (Z.of_nat g + 1)) in Hg by lia.
      rewrite Z.pow_succ_r in Hf, Hg by lia.
      apply IH; [split; [apply Z.div_pos; lia|]|]; apply Z.div_lt_upper_bound; lia.
Qed.

Lemma log2_bound x : 0 <= x -> x < 10 ^ (Z.of_nat (Z.to_nat (Z.log2 x)) + 1).
Proof.
  intros Hx. rewrite Z2Nat.id by apply Z.log2_nonneg. destruct (Z.eq_dec x 0) as [->|]; [done|].
  pose proof (Z.log2_spec x ltac:(lia)) as [_ H]. rewrite <- Z.add_1_r in H.
  eapply Z.lt_le_trans; [exact H|]. apply Z.pow_le_mono_l. pose proof (Z.log2_nonneg x). lia.
Qed.

Lemma decimal_small x : 0 <= x < 10 -> decimal x = [digit_char x].
Proof.
  intros Hx. unfold decimal. destruct (Z.to_nat (Z.log2 x)) as [|f]; [done|]. cbn.
  destruct (Z.ltb_spec x 10); [done|lia].
Qed.

Lemma decimal_step x : 10 <= x -> decimal x = decimal (x / 10) ++ [digit_char (x mod 10)].
Proof.
  intros Hx. unfold decimal. assert (Hl : 3 <= Z.log2 x) by (apply (Z.log2_le_mono 8); lia).
  destruct (Z.to_nat (Z.log2 x)) as [|f] eqn:E; [lia|]. cbn [decimal_go].
  destruct (Z.ltb_spec x 10); [lia|]. f_equal.
  pose proof (log2_bound x ltac:(lia)) as Hb. rewrite E, Nat2Z.inj_succ in Hb.
  replace (Z.succ (Z.of_nat f) + 1) with (Z.succ (Z.of_nat f + 1)) in Hb by lia.
  rewrite Z.pow_succ_r in Hb by lia.
  apply decimal_go_fuel; [split; [apply Z.div_pos; lia|apply Z.div_lt_upper_bound; lia]|].
  apply log2_bound, Z.div_pos; lia.
Qed.

(** Induction on the digits of a number. *)
Lemma digits_ind (P : Z -> Prop) :
  (forall x, 0 <= x < 10 -> P x) -> (forall x, 10 <= x -> P (x / 10) -> P x) -> forall x, 0 <= x -> P x.
Proof.
  intros H0 HS x. apply (Zlt_0_ind (fun x => P x)). clear x. intros x IH Hx.
  destruct (Z.ltb_spec x 10); [auto|]. apply HS; [done|]. apply IH.
  split; [apply Z.div_pos; lia|apply Z.div_lt; lia].
Qed.

Lemma digit_char_digit d : 0 <= d < 10 -> is_digit (digit_char d) = true /\ uchar (digit_char d) = 48 + d.
Proof.
  intros H. unfold is_digit, Float.is_digit, digit_char. rewrite uchar_of_Z, Z.mod_small by lia. lia.
Qed.

Lemma decimal_digits x : 0 <= x -> digits (decimal x) /\ digits_value 0 (decimal x) = x /\ decimal x <> [].
Proof.
  revert x. apply digits_ind.
  - intros x Hx. rewrite decimal_small by done. destruct (digit_char_digit x Hx) as [H1 H2].
    split; [by constructor|]. split; [|done]. cbn. rewrite H2. lia.
  - intros x Hx (H1 & H2 & H3). rewrite decimal_step by done.
    destruct (digit_char_digit (x mod 10)) as [H4 H5]; [zdiv|].
    split; [apply Forall_app; split; [done|by constructor]|]. split; [|by destruct (decimal _)].
    rewrite digits_value_app, H2. cbn [digits_value foldl]. rewrite H5. zdiv.
Qed.

(** No number but zero starts with the digit zero. *)
Lemma decimal_head x :
  0 < x -> exists c t, decimal x = c :: t /\ Lexer.nonzero_digit (uchar c) = true /\ digits t.
Proof.
  intros Hx. assert (H : 0 <= x) by lia. revert x H Hx.
  apply (digits_ind (fun x => 0 < x -> exists c t, decimal x = c :: t /\ Lexer.nonzero_digit (uchar c) = true /\ digits t)).
  - intros x Hx H0. rewrite decimal_small by done. exists (digit_char x), [].
    destruct (digit_char_digit x Hx) as [_ E]. split; [done|]. split; [|constructor].
    unfold Lexer.nonzero_digit. rewrite E. lia.
  - intros x Hx IH H0. destruct IH as (c & t & E & Hc & Ht); [zdiv|]. rewrite decimal_step, E by done.
    exists c, (t ++ [digit_char (x mod 10)]). split; [done|]. split; [done|].
    apply Forall_app. split; [done|]. constructor; [|constructor]. apply digit_char_digit. zdiv.
Qed.

Lemma decimal_length x n :
  0 <= x < 10 ^ n -> 1 <= n -> 1 <= zlen (decimal x) <= n.
Proof.
  intros Hx Hn. assert (H : 0 <= x) by lia. revert x H n Hx Hn.
  apply (digits_ind (fun x => forall n, 0 <= x < 10 ^ n -> 1 <= n -> 1 <= zlen (decimal x) <= n)).
  - intros x Hx n H Hn. rewrite decimal_small by done. unfold zlen. cbn. lia.
  - intros x Hx IH n H Hn. rewrite decimal_step, zlen_app by done. change (zlen [_]) with 1.
    assert (Hn2 : 2 <= n).
    { destruct (Z.eq_dec n 1) as [->|]; [|lia]. change (10 ^ 1) with 10 in H. lia. }
    replace n with (Z.succ (n - 1)) in H by lia. rewrite Z.pow_succ_r in H by lia.
    specialize (IH (n - 1) ltac:(split; [zdiv|apply Z.div_lt_upper_bound; lia]) ltac:(lia)). lia.
Qed.

End Decimals.

(** ** Integers *)
Module Integers.
Import Lexing Decimals Serializer.

Lemma zlen_decimal_step x : 10 <= x -> zlen (decimal x) = zlen (decimal (x / 10)) + 1.
Proof. intros H. rewrite decimal_step, zlen_app by done. done. Qed.

Lemma count_digits_loop_spec fuel x n :
  0 <= x < 10 ^ (4 * Z.of_nat fuel) -> (0 < fuel)%nat -> count_digits_loop fuel x n = Ret (n - 1 + zlen (decimal x)).
Proof.
  revert x n. induction fuel as [|fuel IH]; intros x n Hx Hf; [lia|]. cbn [count_digits_loop].
  assert (H1 : forall y, 0 <= y < 10 -> zlen (decimal y) = 1) by (intros; by rewrite decimal_small).
  destruct (Z.ltb_spec x 10); [rewrite H1 by lia; apply (f_equal Ret); lia|]. rewrite zlen_decimal_step by done.
  destruct (Z.ltb_spec x 100); [rewrite H1 by zdiv; apply (f_equal Ret); lia|]. rewrite zlen_decimal_step by zdiv.
  destruct (Z.ltb_spec x 1000); [rewrite H1 by zdiv; apply (f_equal Ret); lia|]. rewrite zlen_decimal_step by zdiv.
  destruct (Z.ltb_spec x 10000); [rewrite H1 by zdiv; apply (f_equal Ret); lia|]. rewrite zlen_decimal_step by zdiv.
  rewrite !Z.div_div by lia. change (10 * (10 * (10 * 10))) with 10000.
  rewrite Nat2Z.inj_succ in Hx. replace (4 * Z.succ (Z.of_nat fuel)) with (4 * Z.of_nat fuel + 4) in Hx by lia.
  rewrite Z.pow_add_r in Hx by lia. change (10 ^ 4) with 10000 in Hx.
  assert (Hx2 : 0 <= x / 10000 < 10 ^ (4 * Z.of_nat fuel))
    by (split; [zdiv|apply Z.div_lt_upper_bound; lia]).
  rewrite IH; [apply (f_equal Ret); lia|done|]. destruct fuel; [change (10 ^ (4 * Z.of_nat 0)) with 1 in Hx2; zdiv|lia].
Qed.

Lemma count_digits_spec x : 0 <= x < 2 ^ 64 -> count_digits x = Ret (zlen (decimal x)).
Proof.
  intros H. unfold count_digits. rewrite count_digits_loop_spec; [apply (f_equal Ret); lia| |lia].
  split; [lia|]. change (10 ^ (4 * Z.of_nat 6)) with (10 ^ 24). lia.
Qed.

Lemma digits_to_99_table :
  forallb (fun i => bool_decide (load1 (2 * i) digits_to_99 = Ret (digit_char (i / 10))) &&
                    bool_decide (load1 (2 * i + 1) digits_to_99 = Ret (digit_char (i mod 10))))
    (seqZ 0 100) = true.
Proof. vm_compute. reflexivity. Qed.

Lemma digits_to_99_spec i :
  0 <= i < 100 -> load1 (2 * i) digits_to_99 = Ret (digit_char (i / 10)) /\
                  load1 (2 * i + 1) digits_to_99 = Ret (digit_char (i mod 10)).
Proof.
  intros Hi. pose proof digits_to_99_table as H. rewrite forallb_forall in H.
  specialize (H i ltac:(apply list_elem_of_In, elem_of_seqZ; lia)).
  by rewrite andb_true_iff, !bool_decide_eq_true in H.
Qed.

Lemma splice_adjacent {A} off (s t l : list A) :
  0 <= off -> off + zlen s + zlen t <= zlen l ->
  splice off s (splice (off + zlen s) t l) = splice off (s ++ t) l.
Proof.
  unfold zlen. intros H0 H. unfold splice.
  rewrite take_app_le by (rewrite length_take; lia). rewrite take_take.
  replace (Nat.min (Z.to_nat off) (Z.to_nat (off + Z.of_nat (length s)))) with (Z.to_nat off) by lia.
  rewrite <- app_assoc. f_equal. f_equal.
  rewrite drop_app_ge by (rewrite length_take; unfold zlen; lia).
  rewrite length_take. unfold zlen. replace (Z.to_nat _ - _)%nat with 0%nat by lia. rewrite drop_0.
  f_equal. f_equal. rewrite length_app. lia.
Qed.

Lemma put_pair_spec p i buf :
  0 <= i < 100 -> 2 <= p <= zlen buf ->
  put_pair p i buf = Ret (splice (p - 2) [digit_char (i / 10); digit_char (i mod 10)] buf).
Proof.
  intros Hi Hp. destruct (digits_to_99_spec i Hi) as [E0 E1]. unfold put_pair, put_before.
  rewrite E1. cbn [mbind outcome_bind]. rewrite store_ok by (change (zlen [_]) with 1; lia).
  cbn [mbind outcome_bind]. rewrite E0. cbn [mbind outcome_bind].
  rewrite store_ok by (rewrite ?zlen_splice; change (zlen [_]) with 1; lia).
  replace (p - 1 - 1) with (p - 2) by lia. f_equal.
  pose proof (splice_adjacent (p - 2) [digit_char (i / 10)] [digit_char (i mod 10)] buf) as H.
  change (zlen [_]) with 1 in H. replace (p - 2 + 1) with (p - 1) in H by lia. rewrite H by lia. done.
Qed.

Lemma decimal_pair x :
  100 <= x -> decimal x = decimal (x / 100) ++ [digit_char (x mod 100 / 10); digit_char (x mod 100 mod 10)].
Proof.
  intros Hx. rewrite decimal_step, (decimal_step (x / 10)), <- app_assoc by zdiv.
  rewrite Z.div_div by lia. cbn [app].
  replace (x mod 100 / 10) with (x / 10 mod 10) by zdiv.
  by replace (x mod 100 mod 10) with (x mod 10) by zdiv.
Qed.

(** The loop leaves the leading one or two digits and has written the others. *)
Lemma pairs_loop_spec fuel p x buf :
  0 <= x < 100 ^ Z.of_nat fuel -> (0 < fuel)%nat -> zlen (decimal x) <= p <= zlen buf ->
  exists p' x' suf, pairs_loop fuel p x buf = Ret (p', x', splice p' suf buf) /\
    0 <= x' < 100 /\ decimal x = decimal x' ++ suf /\ p' = p - zlen suf.
Proof.
  revert p x buf. induction fuel as [|fuel IH]; intros p x buf Hx Hf Hp; [lia|].
  cbn [pairs_loop]. destruct (Z.leb_spec 100 x) as [H|H].
  - rewrite (decimal_pair x), zlen_app in Hp by done. change (zlen [_; _]) with 2 in Hp.
    pose proof (zlen_nonneg (decimal (x / 100))).
    rewrite put_pair_spec by (first [zdiv | lia]). cbn [mbind outcome_bind].
    set (pair := [digit_char _; digit_char _]).
    assert (Hl : zlen (splice (p - 2) pair buf) = zlen buf) by (apply zlen_splice; change (zlen pair) with 2; lia).
    rewrite Nat2Z.inj_succ, Z.pow_succ_r in Hx by lia.
    destruct (IH (p - 2) (x / 100) (splice (p - 2) pair buf)) as (p' & x' & suf & E & Hx' & Hd & Hp').
    { split; [zdiv|]. apply Z.div_lt_upper_bound; lia. }
    { destruct fuel; [change (100 ^ Z.of_nat 0) with 1 in Hx|]; lia. }
    { rewrite Hl. lia. }
    pose proof (zlen_nonneg suf). pose proof (zlen_nonneg (decimal x')).
    assert (zlen (decimal (x / 100)) = zlen (decimal x') + zlen suf) by (rewrite Hd; apply zlen_app).
    exists p', x', (suf ++ pair). rewrite E. split; [|split; [done|split]].
    + do 2 f_equal. replace (p - 2) with (p' + zlen suf) by lia.
      apply splice_adjacent; [lia|]. change (zlen pair) with 2. lia.
    + rewrite (decimal_pair x), Hd, <- app_assoc by done. done.
    + rewrite zlen_app. change (zlen pair) with 2. lia.
  - exists p, x, []. split; [|split; [lia|split; [by rewrite app_nil_r|rewrite zlen_nil; lia]]].
    do 2 f_equal. unfold splice. rewrite zlen_nil, Z.add_0_r. cbn. by rewrite take_drop.
Qed.

(** The text of an integer: what the serializer writes for it. *)
Definition integer (x : Z) : bytes := if x <? 0 then byte.of_Z 45 :: decimal (- x) else decimal x.

Lemma write_digits p x buf :
  0 <= x < 2 ^ 64 -> 0 <= p -> p + zlen (decimal x) <= zlen buf ->
  (r ← pairs_loop 11 (p + zlen (decimal x)) x buf;
   let '(q, y, buf) := r in
   buf ← (if 10 <=? y then put_pair q y buf else put_before q (byte.of_Z (48 + y)) buf);
   Ret buf) = Ret (splice p (decimal x) buf).
Proof.
  intros Hx Hp Hb. pose proof (zlen_nonneg (decimal x)).
  destruct (pairs_loop_spec 11 (p + zlen (decimal x)) x buf) as (q & y & suf & E & Hy & Hd & Hq).
  { change (100 ^ Z.of_nat 11) with (10 ^ 22). lia. }
  { lia. }
  { lia. }
  rewrite E. cbn [mbind outcome_bind]. rewrite Hd, zlen_app in Hq. replace q with (p + zlen (decimal y)) in * by lia.
  rewrite Hd, zlen_app in Hb. pose proof (zlen_nonneg suf).
  assert (Hl : zlen (splice (p + zlen (decimal y)) suf buf) = zlen buf)
    by (apply zlen_splice; pose proof (zlen_nonneg (decimal y)); lia).
  rewrite Hd. destruct (Z.leb_spec 10 y) as [H10|H10].
  - assert (Hdy : decimal y = [digit_char (y / 10); digit_char (y mod 10)])
      by (rewrite decimal_step, decimal_small by zdiv; done).
    rewrite Hdy in *. change (zlen [_; _]) with 2 in *.
    rewrite put_pair_spec by lia. cbn [mbind outcome_bind]. f_equal.
    replace (p + 2 - 2) with p by lia. rewrite <- splice_adjacent by (change (zlen [_; _]) with 2; lia). done.
  - rewrite (decimal_small y) in * by lia. change (zlen [_]) with 1 in *. unfold put_before.
    rewrite store_ok by (change (zlen [_]) with 1; lia). cbn [mbind outcome_bind]. f_equal.
    replace (p + 1 - 1) with p by lia. rewrite <- splice_adjacent by (change (zlen [_]) with 1; lia). done.
Qed.

Lemma integer_text_spec x buf :
  - 2 ^ 63 <= x < 2 ^ 64 -> zlen buf = 64 ->
  exists buf', integer_text x buf = Ret (zlen (integer x), buf') /\ window 0 (zlen (integer x)) buf' = integer x /\
    zlen buf' = 64.
Proof.
  intros Hx Hb. unfold integer_text, integer.
  assert (Hlen : forall y, 0 <= y < 2 ^ 64 -> 1 <= zlen (decimal y) <= 20)
    by (intros y Hy; apply decimal_length; lia).
  destruct (Z.ltb_spec x 0) as [H|H].
  - rewrite store_ok by (change (zlen [_]) with 1; lia). cbn [mbind outcome_bind].
    unfold remove_sign. destruct (Z.ltb_spec x 0), (Z.ltb_spec x (2 ^ 63 - 1)); try lia.
    cbn [assert_that andb mbind outcome_bind].
    assert (Hu : u64 (u64 (- (x + 1)) + 1) = - x) by (rewrite (uwrap_small 64 (- (x + 1))) by lia; rewrite uwrap_small; lia).
    rewrite Hu. rewrite count_digits_spec by lia. cbn [mbind outcome_bind].
    specialize (Hlen (- x) ltac:(lia)). destruct (Z.ltb_spec (1 + zlen (decimal (- x))) (64 - 1)); [|lia].
    cbn [assert_that mbind outcome_bind].
    set (buf1 := splice 0 [byte.of_Z 45] buf).
    assert (Hl1 : zlen buf1 = 64) by (unfold buf1; rewrite zlen_splice; [done|lia|change (zlen [_]) with 1; lia]).
    pose proof (write_digits 1 (- x) buf1 ltac:(lia) ltac:(lia) ltac:(lia)) as Hw.
    destruct (pairs_loop 11 (1 + zlen (decimal (- x))) (- x) buf1) as [[[q y] b2]| |]; [|done..].
    cbn [mbind outcome_bind] in Hw |- *. destruct (if 10 <=? y then _ else _) as [b3| |]; [|done..].
    injection Hw as ->. cbn [mbind outcome_bind]. rewrite zlen_cons. eexists. split; [done|].
    split.
    + rewrite <- (window_app 0 1) by lia. rewrite window_splice_before by lia.
      rewrite window_splice_same by lia. unfold buf1.
      pose proof (window_splice_same 0 [byte.of_Z 45] buf) as Hs. change (zlen [_]) with 1 in Hs.
      by rewrite Hs by lia.
    + rewrite zlen_splice by lia. done.
  - rewrite count_digits_spec by lia. cbn [mbind outcome_bind]. specialize (Hlen x ltac:(lia)).
    destruct (Z.ltb_spec (zlen (decimal x)) (64 - 1)); [|lia]. cbn [assert_that mbind outcome_bind].
    pose proof (write_digits 0 x buf ltac:(lia) ltac:(lia) ltac:(lia)) as Hw. rewrite Z.add_0_l in Hw.
    destruct (pairs_loop 11 (zlen (decimal x)) x buf) as [[[q y] b2]| |]; [|done..].
    cbn [mbind outcome_bind] in Hw |- *. destruct (if 10 <=? y then _ else _) as [b3| |]; [|done..].
    injection Hw as ->. eexists. split; [done|]. split; [apply window_splice_same; lia|].
    rewrite zlen_splice by lia. done.
Qed.

Lemma integer_zero : integer 0 = [byte.of_Z 48].
Proof. done. Qed.

End Integers.
