(* ===== verification/JsonEscaping.v ===== *)
(** * The serializer of json.hpp: strings

    [dump_escaped] with its 512-byte buffer: on the encoding of code points it
    writes the escape of each one after the other, on other bytes it throws or
    replaces them as the error handler says, and the buffer is never overrun. *)
From S2P Require Import Prelude Json JsonUtf8 JsonFloat JsonDump.

Module Escaping.
Import Serializer.

(** What a writer leaves alone, and the sizes of the buffers. *)
Record steady (S S' : serializer) : Prop := mkSteady {
  st_number : zlen (number_buffer S') = zlen (number_buffer S);
  st_string : zlen (string_buffer S') = zlen (string_buffer S);
  st_char : indent_char S' = indent_char S;
  st_handler : error_handler S' = error_handler S
}.
#[export] Instance steady_preorder : PreOrder steady.
Proof.
  split; [by intros S; constructor|].
  intros S1 S2 S3 [H1 H2 H3 H4] [G1 G2 G3 G4]. constructor; congruence.
Qed.

(** The text that has been produced: what the adapter has, and the first [n]
    bytes of the buffer. *)
Definition produced (n : Z) (S : serializer) : bytes := o S ++ window 0 n (string_buffer S).

Lemma put_string_spec n t x S :
  zlen (string_buffer S) = 512 -> 0 <= n -> n + zlen t + zlen x <= 512 ->
  exists S', put_string n (t ++ x) S = Ret (tt, S') /\ steady S S' /\
    indent_string S' = indent_string S /\
    produced (n + zlen t) S' = produced n S ++ t /\
    (forall m, 0 <= m <= n -> produced m S' = produced m S).
Proof.
  intros Hb Hn Hl. pose proof (zlen_nonneg t). pose proof (zlen_nonneg x).
  unfold put_string. cbn [bindM gets lift].
  rewrite store_ok by (rewrite ?zlen_app; lia). cbn [mbind outcome_bind set_string_buffer modify].
  assert (Hz : zlen (splice n (t ++ x) (string_buffer S)) = zlen (string_buffer S))
    by (apply zlen_splice; rewrite ?zlen_app; lia).
  eexists. split; [done|]. split; [by constructor|]. split; [done|].
  unfold produced. cbn [o string_buffer]. split.
  - rewrite <- app_assoc. f_equal. rewrite <- (window_app 0 n) by lia.
    rewrite window_splice_before by (rewrite ?zlen_app; lia). f_equal.
    rewrite <- (take_window (0 + n) (zlen (t ++ x)) (zlen t)) by (rewrite zlen_app; lia).
    rewrite Z.add_0_l, window_splice_same by (rewrite ?zlen_app; lia).
    unfold zlen. rewrite Nat2Z.id. by apply take_app_length.
  - intros m Hm. f_equal. apply window_splice_before; rewrite ?zlen_app; lia.
Qed.

Lemma put_string_all n t S :
  zlen (string_buffer S) = 512 -> 0 <= n -> n + zlen t <= 512 ->
  exists S', put_string n t S = Ret (tt, S') /\ steady S S' /\ indent_string S' = indent_string S /\
    produced (n + zlen t) S' = produced n S ++ t /\
    (forall m, 0 <= m <= n -> produced m S' = produced m S).
Proof.
  intros Hb Hn Hl. destruct (put_string_spec n t [] S) as (S' & E & H); [done|done|rewrite zlen_nil; lia|].
  rewrite app_nil_r in E. eauto.
Qed.

Lemma flush_spec n S :
  zlen (string_buffer S) = 512 -> 0 <= n <= 512 ->
  exists S', flush n S = Ret (tt, S') /\ steady S S' /\ indent_string S' = indent_string S /\
    o S' = produced n S.
Proof.
  intros Hb Hn. unfold flush. cbn [bindM gets lift]. rewrite load_ok by lia.
  cbn [mbind outcome_bind write_characters modify]. eexists. split; [done|]. by split; [constructor|].
Qed.

Lemma flush_if_full_spec n S :
  zlen (string_buffer S) = 512 -> 0 <= n <= 512 ->
  exists n' S', flush_if_full n S = Ret (n', S') /\ steady S S' /\ indent_string S' = indent_string S /\
    0 <= n' <= 499 /\ produced n' S' = produced n S.
Proof.
  intros Hb Hn. unfold flush_if_full. rewrite uwrap_small by lia.
  destruct (Z.ltb_spec (512 - n) 13).
  - destruct (flush_spec n S Hb Hn) as (S' & E & Hs & Hi & Ho). exists 0, S'. rewrite M_bind_eq, E.
    split; [done|]. split; [done|]. split; [done|]. split; [lia|]. unfold produced at 1.
    by rewrite window_0, app_nil_r.
  - exists n, S. split; [done|]. split; [done|]. split; [done|]. split; [lia|done].
Qed.

(** The bytes written after a code point was decoded, and those of a whole one. *)
Definition short_escape (cp : Z) : option Z :=
  if cp =? 0x08 then Some 98 else if cp =? 0x09 then Some 116 else if cp =? 0x0A then Some 110
  else if cp =? 0x0C then Some 102 else if cp =? 0x0D then Some 114 else if cp =? 0x22 then Some 34
  else if cp =? 0x5C then Some 92 else None.
Definition long_escape (ensure_ascii : bool) (cp : Z) : bool :=
  (cp <=? 0x1F) || (ensure_ascii && (0x7F <=? cp)).
Definition escape_or (ensure_ascii : bool) (cp : Z) (plain : bytes) : bytes :=
  match short_escape cp with
  | Some c => backslash c
  | None => if long_escape ensure_ascii cp then unicode_escape cp else plain
  end.
Definition char_escape (ensure_ascii : bool) (cp : Z) : bytes :=
  escape_or ensure_ascii cp (byte.of_Z <$> Utf8.encode cp).

Lemma unicode_escape_length cp : zlen (unicode_escape cp) = if cp <=? 0xFFFF then 6 else 12.
Proof. unfold unicode_escape. by destruct (cp <=? 0xFFFF). Qed.

(** The room a code point needs, the null byte of [snprintf] included. *)
Definition room (ensure_ascii : bool) : Z := if ensure_ascii then 13 else 7.

Lemma write_codepoint_spec ensure_ascii b cp n S :
  zlen (string_buffer S) = 512 -> 0 <= n -> n + room ensure_ascii <= 512 ->
  exists n' S', write_codepoint ensure_ascii b cp n S = Ret (n', S') /\ steady S S' /\
    indent_string S' = indent_string S /\ n <= n' <= 512 /\
    produced n' S' = produced n S ++ escape_or ensure_ascii cp [b].
Proof.
  intros Hb Hn Hr. assert (H7 : n + 7 <= 512) by (unfold room in Hr; destruct ensure_ascii; lia).
  assert (Hshort : forall c, exists n' S', (do! put_string n (backslash c) in ret (n + 2)) S = Ret (n', S') /\
    steady S S' /\ indent_string S' = indent_string S /\ n <= n' <= 512 /\
    produced n' S' = produced n S ++ backslash c).
  { intros c. destruct (put_string_all n (backslash c) S) as (S' & E & Hs & Hi & Ho & _);
      [done|done|change (zlen (backslash c)) with 2; lia|].
    exists (n + 2), S'. rewrite M_bind_eq, E. repeat (split; [done|]). split; [lia|done]. }
  unfold write_codepoint, escape_or, short_escape.
  repeat match goal with |- context [if cp =? ?k then _ else _] => destruct (cp =? k); [apply Hshort|] end.
  unfold long_escape. destruct ((cp <=? 31) || (ensure_ascii && (127 <=? cp))) eqn:E.
  - assert (Hl : n + zlen (unicode_escape cp) + zlen [Byte.x00] <= 512).
    { rewrite unicode_escape_length. change (zlen [Byte.x00]) with 1. unfold room in Hr.
      destruct (Z.leb_spec cp 0xFFFF); destruct ensure_ascii; cbn [andb orb] in E; lia. }
    destruct (put_string_spec n (unicode_escape cp) [Byte.x00] S Hb Hn Hl) as (S' & E' & Hs & Hi & Ho & _).
    exists (n + zlen (unicode_escape cp)), S'. rewrite M_bind_eq, E'. repeat (split; [done|]).
    split; [|done]. change (zlen [Byte.x00]) with 1 in Hl. pose proof (zlen_nonneg (unicode_escape cp)). lia.
  - destruct (put_string_all n [b] S) as (S' & E' & Hs & Hi & Ho & _); [done|done|change (zlen [b]) with 1; lia|].
    exists (n + 1), S'. rewrite M_bind_eq, E'. repeat (split; [done|]). split; [lia|done].
Qed.

(** ** One byte *)

(** Between two bytes: the ranges [rs] are still to come, at most three bytes of
    an unfinished code point are in the buffer (none under [ensure_ascii]), and
    what was accepted leaves room for the next code point. *)
Record live (ensure_ascii : bool) (e : escaping) (rs : list (Z * Z)) (S : serializer) : Prop := mkLive {
  lv_buffer : zlen (string_buffer S) = 512;
  lv_state : 0 <= state e <= 8;
  lv_pending : Utf8.pending (state e) = Some rs;
  lv_undumped : 0 <= undumped_chars e /\ undumped_chars e + zlen rs <= 4;
  lv_accepted : rs = [] -> undumped_chars e = 0;
  lv_accept : 0 <= bytes_after_last_accept e <= 499;
  lv_bytes : nbytes e = bytes_after_last_accept e + (if ensure_ascii then 0 else undumped_chars e)
}.

Lemma live_start ensure_ascii S :
  zlen (string_buffer S) = 512 -> live ensure_ascii (mkEscaping 0 Utf8.UTF8_ACCEPT 0 0 0) [] S.
Proof. intros H. by constructor; cbn; try destruct ensure_ascii. Qed.

Lemma live_accepted ensure_ascii cp n S :
  zlen (string_buffer S) = 512 -> 0 <= n <= 499 ->
  live ensure_ascii (mkEscaping cp Utf8.UTF8_ACCEPT n n 0) [] S.
Proof. intros H Hn. constructor; cbn; rewrite ?zlen_nil; try destruct ensure_ascii; done || lia. Qed.

(** No more than three bytes are unfinished. *)
Lemma live_bytes ensure_ascii e rs S :
  live ensure_ascii e rs S -> 0 <= undumped_chars e <= 3 /\
  bytes_after_last_accept e <= nbytes e <= bytes_after_last_accept e + 3 /\ (ensure_ascii = true -> nbytes e <= 499).
Proof.
  intros [_ _ _ Hu Hacc Ha Hn]. assert (0 <= undumped_chars e <= 3).
  { destruct rs as [|r rs]; [rewrite Hacc by done; lia|]. rewrite zlen_cons in Hu. pose proof (zlen_nonneg rs). lia. }
  destruct ensure_ascii; lia.
Qed.

(** The byte completes a code point. *)
Lemma escape_byte_accept ensure_ascii b e rs S :
  live ensure_ascii e rs S -> Utf8.after (state e) (uchar b) = Some [] ->
  exists n S', escape_byte ensure_ascii b e S =
      Ret ((mkEscaping (Utf8.code (state e) (codepoint e) (uchar b)) Utf8.UTF8_ACCEPT n n 0, false), S') /\
    steady S S' /\ indent_string S' = indent_string S /\ 0 <= n <= 499 /\
    produced n S' = produced (nbytes e) S ++
                    escape_or ensure_ascii (Utf8.code (state e) (codepoint e) (uchar b)) [b].
Proof.
  intros Hl Haf. destruct (live_bytes _ _ _ _ Hl) as (Hu3 & Hn3 & Hna). destruct Hl as [Hb Hst Hp Hu _ Ha Hn].
  destruct (Utf8.decode_spec (state e) (codepoint e) (uchar b)) as (st' & E & Hst' & Hp' & _);
    [done|apply uchar_range|].
  rewrite Haf in Hp'. apply Utf8.pending_nil in Hp' as ->; [|done].
  unfold escape_byte. cbn [bindM lift]. rewrite E. cbn [mbind outcome_bind fst snd Z.eqb Utf8.UTF8_ACCEPT].
  destruct (write_codepoint_spec ensure_ascii b (Utf8.code (state e) (codepoint e) (uchar b)) (nbytes e) S)
    as (n & S1 & E1 & Hs1 & Hi1 & Hn1 & Ho1); [done|lia|unfold room; destruct ensure_ascii; lia|].
  destruct (flush_if_full_spec n S1) as (n' & S2 & E2 & Hs2 & Hi2 & Hn2 & Ho2);
    [by rewrite (st_string _ _ Hs1)|lia|].
  exists n', S2. rewrite M_bind_eq, E1, M_bind_eq, E2. split; [done|]. split; [by transitivity S1|].
  split; [congruence|]. split; [done|]. by rewrite Ho2, Ho1.
Qed.

(** The byte belongs to a code point that goes on. *)
Lemma escape_byte_more ensure_ascii b e rs r rs' S :
  live ensure_ascii e rs S -> Utf8.after (state e) (uchar b) = Some (r :: rs') ->
  exists st' n S', escape_byte ensure_ascii b e S =
      Ret ((mkEscaping (Utf8.code (state e) (codepoint e) (uchar b)) st' n (bytes_after_last_accept e)
              (undumped_chars e + 1), false), S') /\
    Utf8.decode (state e) (codepoint e) (uchar b) =
      Ret (st', Utf8.code (state e) (codepoint e) (uchar b)) /\
    steady S S' /\ indent_string S' = indent_string S /\
    live ensure_ascii (mkEscaping (Utf8.code (state e) (codepoint e) (uchar b)) st' n
      (bytes_after_last_accept e) (undumped_chars e + 1)) (r :: rs') S' /\
    produced n S' = produced (nbytes e) S ++ (if ensure_ascii then [] else [b]).
Proof.
  intros Hl Haf. destruct (live_bytes _ _ _ _ Hl) as (Hu3 & Hn3 & Hna). destruct Hl as [Hb Hst Hp Hu Hacc Ha Hn].
  destruct (Utf8.decode_spec (state e) (codepoint e) (uchar b)) as (st' & E & Hst' & Hp' & Hrej);
    [done|apply uchar_range|].
  rewrite Haf in Hp'.
  assert (H0 : (st' =? Utf8.UTF8_ACCEPT) = false) by (apply Z.eqb_neq; intros ->; discriminate Hp').
  assert (H1 : (st' =? Utf8.UTF8_REJECT) = false) by (apply Z.eqb_neq; intros Hr%Hrej; congruence).
  assert (Hlen : undumped_chars e + 1 + zlen (r :: rs') <= 4).
  { unfold Utf8.after in Haf. rewrite Hp in Haf. destruct rs as [|[lo hi] rs].
    - apply Utf8.lead_row in Haf; [|apply uchar_range]. apply Utf8.row_bounds in Haf as (_ & _ & Hl & _).
      rewrite Hacc by done. unfold zlen. cbn [length] in *. revert Hl. lia.
    - destruct ((lo <=? uchar b) && (uchar b <=? hi)); [|done]. injection Haf as ->.
      rewrite zlen_cons in Hu. lia. }
  pose proof (zlen_nonneg (r :: rs')). unfold escape_byte. cbn [bindM lift]. rewrite E.
  cbn [mbind outcome_bind fst snd]. rewrite H0, H1. destruct ensure_ascii; cbn [negb when].
  - exists st', (nbytes e), S. split; [done|]. split; [done|]. split; [done|]. split; [done|].
    split; [constructor; cbn; try done; lia|by rewrite app_nil_r].
  - destruct (put_string_all (nbytes e) [b] S) as (S1 & E1 & Hs1 & Hi1 & Ho1 & _);
      [done|lia|change (zlen [b]) with 1; lia|].
    exists st', (nbytes e + 1), S1. unfold when. rewrite M_bind_eq, E1. split; [done|]. split; [done|]. split; [done|].
    split; [done|]. split; [|done]. pose proof (st_string _ _ Hs1).
    constructor; cbn; try done; lia.
Qed.

(** The byte cannot follow. *)
Lemma escape_byte_reject ensure_ascii b e rs S :
  live ensure_ascii e rs S -> Utf8.after (state e) (uchar b) = None ->
  Utf8.decode (state e) (codepoint e) (uchar b) =
    Ret (Utf8.UTF8_REJECT, Utf8.code (state e) (codepoint e) (uchar b)) /\
  if decide (error_handler S = strict) then escape_byte ensure_ascii b e S = Throw JsonTypeError
  else exists cp n S', escape_byte ensure_ascii b e S =
      Ret ((mkEscaping cp Utf8.UTF8_ACCEPT n n 0, 0 <? undumped_chars e), S') /\
    steady S S' /\ indent_string S' = indent_string S /\ 0 <= n <= 499.
Proof.
  intros [Hb Hst Hp Hu Hacc Ha Hn] Haf. pose proof (zlen_nonneg rs).
  destruct (Utf8.decode_spec (state e) (codepoint e) (uchar b)) as (st' & E & Hst' & _ & Hrej);
    [done|apply uchar_range|].
  apply Hrej in Haf as ->. split; [done|].
  unfold escape_byte. cbn [bindM lift]. rewrite E. cbn [mbind outcome_bind fst snd].
  cbn [Z.eqb Utf8.UTF8_REJECT Utf8.UTF8_ACCEPT Pos.eqb]. unfold reject_case. cbn [bindM gets].
  destruct (error_handler S) eqn:Eh; cbn [mbind outcome_bind]; destruct (decide _); try done.
  - assert (Hr : 0 <= zlen (replacement ensure_ascii) <= 6) by (by destruct ensure_ascii).
    destruct (put_string_all (bytes_after_last_accept e) (replacement ensure_ascii) S)
      as (S1 & E1 & Hs1 & Hi1 & Ho1 & _); [done|lia|lia|].
    destruct (flush_if_full_spec (bytes_after_last_accept e + zlen (replacement ensure_ascii)) S1)
      as (n' & S2 & E2 & Hs2 & Hi2 & Hn2 & Ho2); [by rewrite (st_string _ _ Hs1)|lia|].
    eexists _, n', S2. cbn [undumped_chars bytes_after_last_accept]. rewrite M_bind_eq, E1, M_bind_eq, E2.
    split; [done|]. split; [by transitivity S1|]. split; [congruence|done].
  - eexists _, _, S. cbn [undumped_chars bytes_after_last_accept]. split; [done|]. split; [done|]. split; [done|lia].
Qed.

(** ** The loop *)

Lemma escape_loop_cons fuel ensure_ascii b s e S e' again S' :
  escape_byte ensure_ascii b e S = Ret ((e', again), S') ->
  escape_loop (Datatypes.S fuel) ensure_ascii (b :: s) e S =
    escape_loop fuel ensure_ascii (if again : bool then b :: s else s) e' S'.
Proof. intros H. cbn [escape_loop]. by rewrite M_bind_eq, H. Qed.

(** The rounds that are needed: a byte is read again only after bytes of an
    unfinished code point. *)
Definition rounds (s : bytes) (e : escaping) : Z := 2 * zlen s - (if undumped_chars e =? 0 then 1 else 0).

(** How the loop ends on any bytes: with all of them read, or, when the
    serializer is strict, with an exception where the decoder [d] rejects. *)
Definition loop_ends (ensure_ascii : bool) (S : serializer) (d : outcome (Z * Z))
    (r : outcome (escaping * serializer)) : Prop :=
  (exists e' rs' S', r = Ret (e', S') /\ live ensure_ascii e' rs' S' /\ steady S S' /\
     indent_string S' = indent_string S /\
     (error_handler S = strict -> d = Ret (state e', codepoint e'))) \/
  (error_handler S = strict /\ r = Throw JsonTypeError /\ exists cp, d = Ret (Utf8.UTF8_REJECT, cp)).

Lemma loop_ends_steady ensure_ascii S S' d d' r :
  steady S S' -> indent_string S' = indent_string S -> (error_handler S = strict -> d = d') ->
  loop_ends ensure_ascii S' d' r -> loop_ends ensure_ascii S d r.
Proof.
  intros Hs Hi Hd. pose proof (st_handler _ _ Hs) as Hh. unfold loop_ends. rewrite Hh.
  intros [(e' & rs' & S2 & -> & Hl & Hs2 & Hi2 & Hd2)|(Hstr & -> & cp & Hd2)].
  - left. exists e', rs', S2. split; [done|]. split; [done|]. split; [by transitivity S'|].
    split; [congruence|]. intros Hstr. rewrite Hd by done. by apply Hd2.
  - right. split; [done|]. split; [done|]. exists cp. rewrite Hd by done. done.
Qed.

Lemma escape_loop_total ensure_ascii fuel s e rs S :
  live ensure_ascii e rs S -> rounds s e <= Z.of_nat fuel ->
  loop_ends ensure_ascii S (Utf8.decodes (state e) (codepoint e) s) (escape_loop fuel ensure_ascii s e S).
Proof.
  revert s e rs S. induction fuel as [|fuel IH]; intros [|b s] e rs S Hl Hf;
    try (left; eexists _, _, _; repeat (split; [done|]); done).
  { unfold rounds in Hf. rewrite zlen_cons in Hf. pose proof (zlen_nonneg s). destruct (_ =? 0); lia. }
  unfold rounds in Hf. rewrite zlen_cons in Hf. pose proof (live_bytes _ _ _ _ Hl) as (Hu3 & _).
  assert (Hb : forall S', steady S S' -> zlen (string_buffer S') = 512)
    by (intros S' Hs'; by rewrite (st_string _ _ Hs'), (lv_buffer _ _ _ _ Hl)).
  destruct (Utf8.after (state e) (uchar b)) as [[|r rs']|] eqn:Ea.
  - destruct (escape_byte_accept ensure_ascii b e rs S Hl Ea) as (n & S' & E & Hs' & Hi' & Hn & _).
    destruct (Utf8.decode_spec (state e) (codepoint e) (uchar b)) as (st' & Ed & Hst' & Hp' & _);
      [apply (lv_state _ _ _ _ Hl)|apply uchar_range|].
    rewrite Ea in Hp'. apply Utf8.pending_nil in Hp' as ->; [|done].
    rewrite (escape_loop_cons _ _ _ _ _ _ _ _ _ E). eapply loop_ends_steady; [done|done| |].
    + intros _. cbn [Utf8.decodes]. rewrite Ed. reflexivity.
    + eapply (IH s (mkEscaping _ _ _ _ _)); [by apply live_accepted; auto|].
      unfold rounds. cbn. destruct (_ =? 0); lia.
  - destruct (escape_byte_more ensure_ascii b e rs r rs' S Hl Ea) as (st' & n & S' & E & Ed & Hs' & Hi' & Hl' & _).
    rewrite (escape_loop_cons _ _ _ _ _ _ _ _ _ E). eapply loop_ends_steady; [done|done| |].
    + intros _. cbn [Utf8.decodes]. rewrite Ed. reflexivity.
    + eapply (IH s (mkEscaping _ _ _ _ _)); [exact Hl'|].
      unfold rounds. cbn [undumped_chars]. destruct (undumped_chars e + 1 =? 0), (_ =? 0); lia.
  - destruct (escape_byte_reject ensure_ascii b e rs S Hl Ea) as [Ed H].
    destruct (decide (error_handler S = strict)) as [Hstr|Hstr].
    + right. split; [done|]. split; [cbn [escape_loop]; by rewrite M_bind_eq, H|].
      cbn [Utf8.decodes]. rewrite Ed. apply Utf8.decodes_reject.
    + destruct H as (cp & n & S' & E & Hs' & Hi' & Hn).
      rewrite (escape_loop_cons _ _ _ _ _ _ _ _ _ E).
      set (e' := mkEscaping _ _ _ _ _). set (s' := if _ : bool then _ else _).
      eapply (loop_ends_steady _ _ _ _ (Utf8.decodes (state e') (codepoint e') s')); [done|done|done|].
      apply (IH s' e' []); [by apply live_accepted; auto|]. subst s' e'.
      unfold rounds. cbn. revert Hf. destruct (Z.ltb_spec 0 (undumped_chars e)), (Z.eqb_spec (undumped_chars e) 0);
        rewrite ?zlen_cons; lia.
Qed.

(** ** Code points *)

(** Outside of ASCII the escape of a code point is its number or its bytes. *)
Lemma escape_or_wide ensure_ascii cp plain :
  0x80 <= cp -> escape_or ensure_ascii cp plain = if ensure_ascii then unicode_escape cp else plain.
Proof.
  intros H. unfold escape_or, short_escape, long_escape.
  repeat match goal with |- context [cp =? ?k] => destruct (Z.eqb_spec cp k); [lia|] end.
  destruct (Z.leb_spec cp 0x1F), (Z.leb_spec 0x7F cp); try lia. by destruct ensure_ascii.
Qed.

(** The rest of a code point, in the ranges that are still to come. *)
Lemma escape_fits ensure_ascii rs cs fuel s e S :
  Utf8.fits rs cs -> Forall Utf8.continuation rs -> cs <> [] -> live ensure_ascii e rs S ->
  0 <= codepoint e -> (codepoint e + 1) * 64 ^ zlen cs <= 2 ^ 32 -> 0x80 <= Utf8.extend (codepoint e) cs ->
  exists n S', escape_loop (length cs + fuel) ensure_ascii ((byte.of_Z <$> cs) ++ s) e S =
      escape_loop fuel ensure_ascii s (mkEscaping (Utf8.extend (codepoint e) cs) Utf8.UTF8_ACCEPT n n 0) S' /\
    steady S S' /\ indent_string S' = indent_string S /\ 0 <= n <= 499 /\
    produced n S' = produced (nbytes e) S ++
      (if ensure_ascii then unicode_escape (Utf8.extend (codepoint e) cs) else byte.of_Z <$> cs).
Proof.
  intros Hf. revert e S. induction Hf as [|[lo hi] c rs cs Hc Hf IH]; intros e S Hr Hne Hl Hcp Hb Hx; [done|].
  apply Forall_cons in Hr as [[H1 H2] Hr]. cbn in H1, H2, Hc.
  rewrite zlen_cons, Z.pow_add_r in Hb by (pose proof (zlen_nonneg cs); lia).
  assert (0 < 64 ^ zlen cs) by (apply Z.pow_pos_nonneg; pose proof (zlen_nonneg cs); lia).
  pose proof (lv_pending _ _ _ _ Hl) as Hp.
  assert (Hna : state e <> Utf8.UTF8_ACCEPT) by (intros Ha; rewrite Ha in Hp; discriminate Hp).
  assert (Hu : uchar (byte.of_Z c) = c) by (rewrite uchar_of_Z, Z.mod_small; lia).
  assert (Hcode : Utf8.code (state e) (codepoint e) (uchar (byte.of_Z c)) = codepoint e * 64 + (c - 128))
    by (rewrite Hu; apply Utf8.next_code; [done|lia|nia]).
  assert (Ha : Utf8.after (state e) (uchar (byte.of_Z c)) = Some rs).
  { unfold Utf8.after. rewrite Hp, Hu. destruct (Z.leb_spec lo c), (Z.leb_spec c hi); try lia. done. }
  cbn [fmap list_fmap app length Nat.add]. cbn [Utf8.extend foldl] in Hx |- *.
  destruct Hf as [|r c' rs cs Hc' Hf].
  - destruct (escape_byte_accept ensure_ascii _ e _ S Hl Ha) as (n & S' & E & Hs & Hi & Hn & Ho).
    rewrite Hcode in E, Ho. cbn [foldl] in Hx. rewrite escape_or_wide in Ho by done.
    exists n, S'. split; [exact (escape_loop_cons _ _ _ _ _ _ _ _ _ E)|done].
  - destruct (escape_byte_more ensure_ascii _ e _ _ _ S Hl Ha) as (st & n & S' & E & _ & Hs & Hi & Hl' & Ho).
    rewrite Hcode in E, Hl'.
    destruct (IH _ S' Hr ltac:(done) Hl') as (n2 & S2 & E2 & Hs2 & Hi2 & Hn2 & Ho2);
      cbn [codepoint nbytes] in *; [lia|nia|exact Hx|].
    exists n2, S2. rewrite (escape_loop_cons _ _ _ _ _ _ _ _ _ E). split; [exact E2|].
    split; [by transitivity S'|]. split; [congruence|]. split; [done|]. rewrite Ho2, Ho, <- app_assoc. f_equal.
    by destruct ensure_ascii.
Qed.

Lemma escape_or_ascii ensure_ascii cp b :
  0 <= cp <= 0x7F -> b = byte.of_Z cp -> escape_or ensure_ascii cp [b] = char_escape ensure_ascii cp.
Proof.
  intros H ->. unfold char_escape, Utf8.encode. by destruct (Z.ltb_spec cp 0x80); [|lia].
Qed.

Lemma char_escape_wide ensure_ascii cp c0 cs :
  0x80 <= cp -> Utf8.encode cp = c0 :: cs ->
  char_escape ensure_ascii cp = if ensure_ascii then unicode_escape cp else byte.of_Z <$> (c0 :: cs).
Proof. intros H E. unfold char_escape. by rewrite escape_or_wide, E. Qed.

(** A whole code point. *)
Lemma escape_encode ensure_ascii cp fuel s e S :
  Utf8.scalar cp -> live ensure_ascii e [] S ->
  exists n S', escape_loop (length (Utf8.encode cp) + fuel) ensure_ascii ((byte.of_Z <$> Utf8.encode cp) ++ s) e S =
      escape_loop fuel ensure_ascii s (mkEscaping cp Utf8.UTF8_ACCEPT n n 0) S' /\
    steady S S' /\ indent_string S' = indent_string S /\ 0 <= n <= 499 /\
    produced n S' = produced (nbytes e) S ++ char_escape ensure_ascii cp.
Proof.
  intros Hcp Hl. destruct (Utf8.scalar_chunk cp Hcp) as (c0 & rs & cs & He & Hr & Hf & Hx).
  destruct (Utf8.row_bounds _ _ Hr) as (Hc0 & Hcont & Hlen & Hbase).
  assert (Hu : uchar (byte.of_Z c0) = c0) by (rewrite uchar_of_Z, Z.mod_small; lia).
  assert (Hst : state e = Utf8.UTF8_ACCEPT)
    by (eapply Utf8.pending_nil; [apply (lv_state _ _ _ _ Hl)|apply (lv_pending _ _ _ _ Hl)]).
  assert (Ha : Utf8.after (state e) (uchar (byte.of_Z c0)) = Some rs)
    by (rewrite Hst, Hu; cbn; apply Utf8.lead_row; [lia|done]).
  assert (Hcode : Utf8.code (state e) (codepoint e) (uchar (byte.of_Z c0)) = c0 - Utf8.base rs)
    by (rewrite Hst, Hu; apply Utf8.lead_code; [lia|apply Utf8.lead_row; [lia|done]]).
  rewrite He. cbn [fmap list_fmap app length Nat.add].
  destruct rs as [|r rs].
  - inversion Hf; subst cs. cbn in Hx, Hcode. rewrite Z.sub_0_r in Hx. subst c0.
    destruct (escape_byte_accept ensure_ascii _ e _ S Hl Ha) as (n & S' & E & Hs & Hi & Hn & Ho).
    rewrite Hcode, Z.sub_0_r in E, Ho. rewrite escape_or_ascii in Ho; [|inversion Hr; lia|done].
    exists n, S'. split; [exact (escape_loop_cons _ _ _ _ _ _ _ _ _ E)|done].
  - assert (Hwide : 0x80 <= cp).
    { destruct (Z.ltb_spec cp 0x80) as [H|H]; [|lia]. unfold Utf8.encode in He.
      destruct (Z.ltb_spec cp 0x80); [|lia]. injection He as <- <-. inversion Hf. }
    destruct (escape_byte_more ensure_ascii _ e _ _ _ S Hl Ha) as (st & n & S' & E & _ & Hs & Hi & Hl' & Ho).
    rewrite Hcode in E, Hl'. pose proof (Forall2_length _ _ _ Hf) as Hlf.
    assert (64 ^ zlen cs <= 64 ^ 3) by (apply Z.pow_le_mono_r; unfold zlen; lia).
    destruct (escape_fits ensure_ascii _ cs fuel s _ S' Hf Hcont ltac:(by destruct cs) Hl')
      as (n2 & S2 & E2 & Hs2 & Hi2 & Hn2 & Ho2); cbn [codepoint nbytes] in *; [lia|nia|lia|].
    rewrite Hx in E2, Ho2. exists n2, S2. rewrite (escape_loop_cons _ _ _ _ _ _ _ _ _ E). split; [exact E2|].
    split; [by transitivity S'|]. split; [congruence|]. split; [done|].
    rewrite Ho2, Ho, <- app_assoc, (char_escape_wide _ _ _ _ Hwide He). by destruct ensure_ascii.
Qed.

(** The text of a string: the escapes of its code points. *)
Definition escape_text (ensure_ascii : bool) (cps : list Z) : bytes := concat (char_escape ensure_ascii <$> cps).

Lemma escape_loop_text ensure_ascii cps e S fuel :
  Forall Utf8.scalar cps -> live ensure_ascii e [] S -> (length (Utf8.encode_all cps) <= fuel)%nat ->
  exists e' S', escape_loop fuel ensure_ascii (Utf8.encode_all cps) e S = Ret (e', S') /\ live ensure_ascii e' [] S' /\
    steady S S' /\ indent_string S' = indent_string S /\
    produced (nbytes e') S' = produced (nbytes e) S ++ escape_text ensure_ascii cps.
Proof.
  intros H. revert e S fuel. induction H as [|cp cps Hcp _ IH]; intros e S fuel Hl Hf.
  - exists e, S. unfold Utf8.encode_all, escape_text. cbn. rewrite app_nil_r. destruct fuel; by repeat (split; [done|]).
  - assert (Hsplit : Utf8.encode_all (cp :: cps) = (byte.of_Z <$> Utf8.encode cp) ++ Utf8.encode_all cps)
      by (unfold Utf8.encode_all; cbn; by rewrite fmap_app).
    rewrite Hsplit, length_app, length_fmap in Hf. rewrite Hsplit.
    replace fuel with (length (Utf8.encode cp) + (fuel - length (Utf8.encode cp)))%nat by lia.
    destruct (escape_encode ensure_ascii cp (fuel - length (Utf8.encode cp)) (Utf8.encode_all cps) e S Hcp Hl)
      as (n & S1 & -> & Hs1 & Hi1 & Hn1 & Ho1).
    destruct (IH (mkEscaping cp Utf8.UTF8_ACCEPT n n 0) S1 (fuel - length (Utf8.encode cp))%nat)
      as (e2 & S2 & E & Hl2 & Hs2 & Hi2 & Ho2).
    { apply live_accepted; [|done]. by rewrite (st_string _ _ Hs1), (lv_buffer _ _ _ _ Hl). }
    { lia. }
    exists e2, S2. split; [done|]. split; [done|]. split; [by transitivity S1|]. split; [congruence|].
    rewrite Ho2. cbn [nbytes]. rewrite Ho1, <- app_assoc. done.
Qed.

(** ** Strings *)

(** Well-formed UTF-8: the text, whatever the error handler. *)
Lemma dump_escaped_text ensure_ascii cps S :
  zlen (string_buffer S) = 512 -> Forall Utf8.scalar cps ->
  exists S', dump_escaped (Utf8.encode_all cps) ensure_ascii S = Ret (tt, S') /\ steady S S' /\
    indent_string S' = indent_string S /\ o S' = o S ++ escape_text ensure_ascii cps.
Proof.
  intros Hb Hc. unfold dump_escaped.
  destruct (escape_loop_text ensure_ascii cps _ S (2 * length (Utf8.encode_all cps)) Hc (live_start ensure_ascii S Hb))
    as (e & S1 & E & Hl & Hs & Hi & Ho); [lia|].
  rewrite M_bind_eq, E. assert (Hst : state e = Utf8.UTF8_ACCEPT)
    by (eapply Utf8.pending_nil; [apply (lv_state _ _ _ _ Hl)|apply (lv_pending _ _ _ _ Hl)]).
  rewrite Hst. cbn [Z.eqb Utf8.UTF8_ACCEPT nbytes] in *. unfold produced in Ho at 2.
  rewrite window_0, app_nil_r in Ho. unfold when. pose proof (live_bytes _ _ _ _ Hl) as Hn.
  pose proof (lv_accept _ _ _ _ Hl). pose proof (lv_accepted _ _ _ _ Hl eq_refl). pose proof (lv_bytes _ _ _ _ Hl) as Hn2.
  destruct (Z.ltb_spec 0 (nbytes e)).
  - destruct (flush_spec (nbytes e) S1) as (S2 & E2 & Hs2 & Hi2 & Ho2);
      [apply (lv_buffer _ _ _ _ Hl)|lia|].
    exists S2. split; [done|]. split; [by transitivity S1|]. split; [congruence|]. by rewrite Ho2, Ho.
  - exists S1. split; [done|]. split; [done|]. split; [done|]. rewrite <- Ho. unfold produced.
    replace (nbytes e) with 0 by lia. by rewrite window_0, app_nil_r.
Qed.

(** Any bytes: no access outside the buffer; an exception exactly from the strict
    handler on ill-formed UTF-8. *)
Lemma dump_escaped_cases ensure_ascii s S :
  zlen (string_buffer S) = 512 ->
  if bool_decide (error_handler S = strict) && negb (Utf8.valid s)
  then dump_escaped s ensure_ascii S = Throw JsonTypeError
  else exists S', dump_escaped s ensure_ascii S = Ret (tt, S') /\ steady S S' /\ indent_string S' = indent_string S.
Proof.
  intros Hb. pose proof (live_start ensure_ascii S Hb) as Hl0. unfold dump_escaped.
  pose proof (escape_loop_total ensure_ascii (2 * length s) s _ _ S Hl0) as H.
  destruct H as [(e & rs & S1 & E & Hl & Hs & Hi & Hd)|(Hstr & E & cp & Hd)].
  { unfold rounds, zlen. cbn. lia. }
  - rewrite M_bind_eq, E. cbn [state codepoint] in Hd. pose proof (live_bytes _ _ _ _ Hl) as Hn.
    pose proof (lv_accept _ _ _ _ Hl).
    assert (Hflush : forall n, 0 <= n <= 502 -> exists S', flush n S1 = Ret (tt, S') /\ steady S S' /\
      indent_string S' = indent_string S).
    { intros n Hn'. destruct (flush_spec n S1) as (S2 & E2 & Hs2 & Hi2 & _); [apply (lv_buffer _ _ _ _ Hl)|lia|].
      exists S2. split; [done|]. split; [by transitivity S1|congruence]. }
    rewrite <- (st_handler _ _ Hs) in Hd |- *.
    destruct (Z.eqb_spec (state e) Utf8.UTF8_ACCEPT) as [Ha|Ha].
    + assert (Hc : bool_decide (error_handler S1 = strict) && negb (Utf8.valid s) = false).
      { case_bool_decide as Hstr; [|done]. unfold Utf8.valid. by rewrite (Hd Hstr), Ha. }
      rewrite Hc. unfold when. destruct (0 <? nbytes e) eqn:?; [apply Hflush; lia|].
      by exists S1.
    + cbn [bindM gets]. destruct (error_handler S1) eqn:Eh; cbn [bool_decide andb].
      * rewrite bool_decide_true by done. unfold Utf8.valid. rewrite (Hd eq_refl).
        destruct (Z.eqb_spec (state e) Utf8.UTF8_ACCEPT); [done|]. done.
      * rewrite bool_decide_false by done. cbn [andb].
        destruct (Hflush (bytes_after_last_accept e) ltac:(lia)) as (S2 & E2 & Hs2 & Hi2).
        cbn [mbind outcome_bind]. rewrite M_bind_eq, E2. eexists. split; [done|]. split; [|done].
        etransitivity; [exact Hs2|]. by constructor.
      * rewrite bool_decide_false by done. cbn [andb mbind outcome_bind]. apply Hflush. lia.
  - rewrite bool_decide_true by done. cbn [state codepoint] in Hd. unfold Utf8.valid. rewrite Hd.
    rewrite M_bind_eq, E. done.
Qed.

End Escaping.
