(* ===== verification/JsonPrinting.v ===== *)
(** * The serializer of json.hpp: values

    [print] is the reference: the text of a value as a function, without buffers.
    The serializer writes exactly that text, and it is a text of the grammar for
    the same value, so that the parser reads it back. *)
From S2P Require Import Prelude Json JsonUtf8 JsonFloat JsonLexer JsonDump JsonLexing JsonParser JsonParsing.
From S2P Require Import JsonIntegers JsonEscaping.

(** ** The reference printer *)
Module Printing.
Import Json Wf Serializer Escaping.

(** The code points of a string, by the decoder of the serializer. *)
Fixpoint code_points (state codep : Z) (s : bytes) : list Z :=
  match s with
  | [] => []
  | b :: s' =>
      match Utf8.decode state codep (uchar b) with
      | Ret (st, cp) =>
          if st =? Utf8.UTF8_ACCEPT then cp :: code_points st cp s' else code_points st cp s'
      | _ => []
      end
  end.

Lemma code_points_fits rs cs st cp s :
  Utf8.fits rs cs -> cs <> [] -> Forall Utf8.continuation rs -> 0 <= st <= 8 -> Utf8.pending st = Some rs ->
  0 <= cp -> (cp + 1) * 64 ^ zlen cs <= 2 ^ 32 ->
  exists x, code_points st cp ((byte.of_Z <$> cs) ++ s) = Utf8.extend cp cs :: code_points Utf8.UTF8_ACCEPT x s.
Proof.
  intros Hf. revert st cp. induction Hf as [|[lo hi] c rs cs Hc Hf IH]; intros st cp Hne Hr Hst Hp Hcp Hb; [done|].
  apply Forall_cons in Hr as [[H1 H2] Hr]. cbn in H1, H2, Hc.
  rewrite zlen_cons, Z.pow_add_r in Hb by (pose proof (zlen_nonneg cs); lia).
  assert (0 < 64 ^ zlen cs) by (apply Z.pow_pos_nonneg; pose proof (zlen_nonneg cs); lia).
  assert (Hna : st <> Utf8.UTF8_ACCEPT) by (intros ->; discriminate Hp).
  cbn [fmap list_fmap app code_points]. rewrite uchar_of_Z, Z.mod_small by lia.
  destruct (Utf8.decode_spec st cp c) as (st' & -> & Hst' & Hp' & _); [done|lia|].
  rewrite Utf8.next_code by (try done; nia). unfold Utf8.after in Hp'. rewrite Hp in Hp'.
  destruct (Z.leb_spec lo c), (Z.leb_spec c hi); try lia. cbn in Hp'.
  destruct Hf as [|r c' rs cs Hc' Hf].
  - apply Utf8.pending_nil in Hp' as ->; [|done]. cbn. eauto.
  - destruct (Z.eqb_spec st' Utf8.UTF8_ACCEPT) as [->|_]; [discriminate Hp'|].
    apply IH; try done; [lia|nia].
Qed.

Lemma code_points_all cps x : Forall Utf8.scalar cps -> code_points Utf8.UTF8_ACCEPT x (Utf8.encode_all cps) = cps.
Proof.
  intros H. revert x. induction H as [|cp cps Hcp _ IH]; intros x; [done|].
  destruct (Utf8.scalar_chunk cp Hcp) as (c0 & rs & cs & He & Hr & Hf & Hx).
  destruct (Utf8.row_bounds _ _ Hr) as (Hc0 & Hcont & Hlen & Hb).
  unfold Utf8.encode_all in *. cbn [fmap list_fmap concat]. rewrite fmap_app, He.
  cbn [fmap list_fmap app code_points]. rewrite uchar_of_Z, Z.mod_small by lia.
  destruct (Utf8.decode_spec Utf8.UTF8_ACCEPT x c0) as (st' & -> & Hst' & Hp' & _); [done|lia|].
  cbn in Hp'. rewrite (proj2 (Utf8.lead_row c0 rs ltac:(lia)) Hr) in Hp'.
  rewrite (Utf8.lead_code x c0 rs) by (try apply Utf8.lead_row; first [done | lia]).
  destruct Hf as [|r c rs cs Hc Hf].
  - apply Utf8.pending_nil in Hp' as ->; [|done]. cbn in Hx |- *. f_equal; [lia|apply IH].
  - destruct (Z.eqb_spec st' Utf8.UTF8_ACCEPT) as [->|_]; [discriminate Hp'|].
    destruct (code_points_fits (r :: rs) (c :: cs) st' (c0 - Utf8.base (r :: rs)) (byte.of_Z <$> concat (Utf8.encode <$> cps)))
      as (y & E); [by constructor|done|done|done|done|lia| |etransitivity; [exact E|]; rewrite Hx; f_equal; apply IH].
    apply Forall2_length in Hf. cbn [length] in Hlen. unfold zlen. cbn [length].
    assert (64 ^ Z.of_nat (S (length cs)) <= 64 ^ 3) by (apply Z.pow_le_mono_r; lia). nia.
Qed.

(** The layout: the compact one, or [step] more characters of indentation for
    each level. *)
Record layout := mkLayout { pretty : bool; step : Z; ichar : Byte.byte; ascii : bool }.

Definition newline (L : layout) (n : Z) : bytes :=
  if pretty L then Byte.x0a :: replicate (Z.to_nat n) (ichar L) else [].
Definition colon (L : layout) : bytes := if pretty L then lit ": " else lit ":".
Definition inner (L : layout) (n : Z) : Z := if pretty L then n + step L else n.

Definition quoted (L : layout) (s : bytes) : bytes :=
  dquote :: escape_text (ascii L) (code_points Utf8.UTF8_ACCEPT 0 s) ++ [dquote].

(** Items with a separator between them. *)
Fixpoint join (sep : bytes) (l : list bytes) : bytes :=
  match l with
  | [] => []
  | [x] => x
  | x :: l' => x ++ sep ++ join sep l'
  end.

Section Print.
Context (float_text : Z -> bytes) (L : layout).

Definition bracketed (o c : Z) (n : Z) (items : list bytes) : bytes :=
  match items with
  | [] => [byte.of_Z o; byte.of_Z c]
  | _ => byte.of_Z o :: newline L (inner L n) ++
           join (byte.of_Z 44 :: newline L (inner L n)) items ++ newline L n ++ [byte.of_Z c]
  end.

(** The text of a value whose line is indented by [n]. *)
Fixpoint print (n : Z) (j : json) : bytes :=
  match j with
  | JNull => lit "null"
  | JBool b => if b then lit "true" else lit "false"
  | JInt z => Integers.integer z
  | JFloat x => float_text x
  | JString s => quoted L s
  | JArray l => bracketed 91 93 n (print (inner L n) <$> l)
  | JObject m =>
      bracketed 123 125 n ((fun p => quoted L (fst p) ++ colon L ++ print (inner L n) (snd p)) <$> m)
  end.
End Print.

(** The depth of containers in a value. *)
Fixpoint depth (j : json) : Z :=
  match j with
  | JArray l => 1 + foldr (fun v d => depth v `max` d) 0 l
  | JObject m => 1 + foldr (fun p d => depth (snd p) `max` d) 0 m
  | _ => 0
  end.

Lemma depth_nonneg j : 0 <= depth j.
Proof.
  destruct j; cbn; try lia.
  - induction l; cbn; lia.
  - induction members; cbn; lia.
Qed.

(** Induction on values, with the elements and members. *)
Section JsonInd.
Context (P : json -> Prop).
Context (Hnull : P JNull) (Hbool : forall b, P (JBool b)) (Hint : forall z, P (JInt z))
  (Hfloat : forall x, P (JFloat x)) (Hstring : forall s, P (JString s))
  (Harray : forall l, Forall P l -> P (JArray l))
  (Hobject : forall m, Forall (fun p => P (snd p)) m -> P (JObject m)).
Fixpoint json_nested_ind (j : json) : P j :=
  match j with
  | JNull => Hnull
  | JBool b => Hbool b
  | JInt z => Hint z
  | JFloat x => Hfloat x
  | JString s => Hstring s
  | JArray l =>
      Harray l ((fix go l : Forall P l :=
        match l with [] => Forall_nil_2 _ | v :: l' => Forall_cons_2 _ _ _ (json_nested_ind v) (go l') end) l)
  | JObject m =>
      Hobject m ((fix go m : Forall (fun p => P (snd p)) m :=
        match m with
        | [] => Forall_nil_2 _
        | p :: m' => Forall_cons_2 _ _ _ (json_nested_ind (snd p)) (go m')
        end) m)
  end.
End JsonInd.

(** The numbers of a value are in the range of their C++ types, and finite. *)
Fixpoint typed (j : json) : bool :=
  match j with
  | JInt z => (- 2 ^ 63 <=? z) && (z <? 2 ^ 64)
  | JFloat x => float_ok x
  | JArray l => forallb typed l
  | JObject m => forallb (fun p => typed (snd p)) m
  | _ => true
  end.

(** All its strings are UTF-8. *)
Fixpoint utf8 (j : json) : bool :=
  match j with
  | JString s => Utf8.valid s
  | JArray l => forallb utf8 l
  | JObject m => forallb (fun p => Utf8.valid (fst p) && utf8 (snd p)) m
  | _ => true
  end.

(** The keys of every object are in the order of the map. *)
Fixpoint ordered (j : json) : bool :=
  match j with
  | JArray l => forallb ordered l
  | JObject m => sorted m && forallb (fun p => ordered (snd p)) m
  | _ => true
  end.

Lemma forallb_andb {A} (f g h : A -> bool) l :
  Forall (fun x => f x = g x && h x) l -> forallb f l = forallb g l && forallb h l.
Proof.
  induction 1 as [|x l Hx _ IH]; [done|]. cbn. rewrite Hx, IH.
  by destruct (g x), (h x), (forallb g l), (forallb h l).
Qed.

Lemma wf_split j : wf j = typed j && (utf8 j && ordered j).
Proof.
  induction j as [| | | | |l IH|m IH] using json_nested_ind; cbn; rewrite ?andb_true_r; try done.
  - rewrite (forallb_andb wf typed (fun v => utf8 v && ordered v)) by done. f_equal.
    apply forallb_andb. by apply Forall_true.
  - rewrite (forallb_andb (fun p => Utf8.valid (fst p) && wf (snd p)) (fun p => typed (snd p))
      (fun p => (Utf8.valid (fst p) && utf8 (snd p)) && ordered (snd p))).
    + rewrite (forallb_andb (fun p => (Utf8.valid (fst p) && utf8 (snd p)) && ordered (snd p))
        (fun p => Utf8.valid (fst p) && utf8 (snd p)) (fun p => ordered (snd p))) by (by apply Forall_true).
      destruct (sorted m); cbn; [done|]. by rewrite !andb_false_r.
    + eapply Forall_impl; [exact IH|]. intros p ->.
      by destruct (Utf8.valid (fst p)), (typed (snd p)), (utf8 (snd p)).
Qed.

Lemma wf_typed_utf8 j : wf j = true -> typed j = true /\ utf8 j = true.
Proof. rewrite wf_split, !andb_true_iff. tauto. Qed.

(** ** What a computation writes *)

(** The buffers have their sizes, and the indentation is as it was made. *)
Record ready (L : layout) (S : serializer) : Prop := mkReady {
  rd_number : zlen (number_buffer S) = 64;
  rd_string : zlen (string_buffer S) = 512;
  rd_indent : indent_string S = replicate 512 (ichar L)
}.

Lemma ready_make ichar h L : Printing.ichar L = ichar -> ready L (make ichar h).
Proof. intros <-. by constructor. Qed.

Lemma ready_steady L S S' : ready L S -> steady S S' -> indent_string S' = indent_string S -> ready L S'.
Proof. intros [H1 H2 H3] [G1 G2 _ _] Hi. constructor; congruence. Qed.

(** It ends with the serializer ready for more. *)
Definition ends (L : layout) (m : M serializer unit) (S : serializer) (P : serializer -> Prop) : Prop :=
  exists S', m S = Ret (tt, S') /\ ready L S' /\ error_handler S' = error_handler S /\ P S'.

(** It writes the text; [None]: a strict serializer throws [type_error], another
    one writes something. *)
Definition outputs (L : layout) (m : M serializer unit) (r : option bytes) : Prop :=
  forall S, ready L S ->
    match r with
    | Some t => ends L m S (fun S' => o S' = o S ++ t)
    | None => if decide (error_handler S = strict) then m S = Throw JsonTypeError else ends L m S (fun _ => True)
    end.

Lemma outputs_bind L m1 m2 r1 r2 :
  outputs L m1 r1 -> outputs L m2 r2 ->
  outputs L (do! m1 in m2) (t1 ← r1; t2 ← r2; Some (t1 ++ t2)).
Proof.
  intros H1 H2 S Hr. specialize (H1 S Hr).
  assert (Hstep : forall (P : serializer -> Prop), ends L m1 S P -> exists S1, P S1 /\
    error_handler S1 = error_handler S /\ ready L S1 /\ bindM m1 (fun _ => m2) S = m2 S1)
    by (intros P (S1 & E & Hr1 & Hh1 & HP); exists S1; rewrite M_bind_eq, E; done).
  destruct r1 as [t1|]; cbn [mbind option_bind]; [|destruct (decide _); [by rewrite M_bind_eq, H1|]].
  - destruct (Hstep _ H1) as (S1 & Ho1 & Hh1 & Hr1 & E). specialize (H2 S1 Hr1). rewrite Hh1 in H2.
    unfold ends in *. rewrite E. destruct r2 as [t2|]; cbn [mbind option_bind]; [|destruct (decide _); [done|]];
      destruct H2 as (S2 & -> & Hr2 & Hh2 & Ho2); exists S2; rewrite <- Hh1; [|done].
    by rewrite Ho2, Ho1, <- app_assoc.
  - destruct (Hstep _ H1) as (S1 & _ & Hh1 & Hr1 & E). specialize (H2 S1 Hr1). rewrite Hh1 in H2.
    unfold ends in *. rewrite E. destruct r2 as [t2|]; [|rewrite decide_False in H2 by done];
      destruct H2 as (S2 & -> & Hr2 & Hh2 & _); exists S2; by rewrite <- Hh1.
Qed.

Lemma outputs_Ret L (m : M serializer unit) t :
  (forall S, ready L S -> exists S', m S = Ret (tt, S') /\ steady S S' /\ indent_string S' = indent_string S /\
     o S' = o S ++ t) -> outputs L m (Some t).
Proof.
  intros H S Hr. destruct (H S Hr) as (S' & E & Hs & Hi & Ho). exists S'. split; [done|].
  split; [by eapply ready_steady|]. split; [apply (st_handler _ _ Hs)|done].
Qed.

Lemma outputs_characters L t : outputs L (write_characters t) (Some t).
Proof. apply outputs_Ret. intros S _. eexists. split; [done|]. by split; [constructor|]. Qed.

Lemma outputs_character L c : outputs L (write_character c) (Some [byte.of_Z c]).
Proof. apply outputs_characters. Qed.

Lemma load_replicate {A} n m (x y : A) : 0 <= n <= Z.of_nat m -> load 0 n (replicate m x ++ [y]) = Ret (replicate (Z.to_nat n) x).
Proof.
  intros H. rewrite load_ok by (unfold zlen; rewrite ?length_app, ?length_replicate; cbn; lia).
  unfold window. rewrite drop_0, take_app_le by (rewrite length_replicate; lia).
  rewrite take_replicate. f_equal. f_equal. lia.
Qed.

Lemma outputs_indent L n : 0 <= n <= 512 -> outputs L (write_indent n) (Some (replicate (Z.to_nat n) (ichar L))).
Proof.
  intros Hn. apply outputs_Ret. intros S Hr. unfold write_indent. cbn [bindM gets lift].
  assert (El : load 0 n (indent_string S ++ [Byte.x00]) = Ret (replicate (Z.to_nat n) (ichar L)))
    by (rewrite (rd_indent _ _ Hr); apply load_replicate; lia).
  rewrite El.
  cbn [mbind outcome_bind write_characters modify]. eexists. split; [done|]. by split; [constructor|].
Qed.

Lemma outputs_grow L n m r : n <= 512 -> outputs L m r -> outputs L (do! grow_indent n in m) r.
Proof.
  intros Hn Hm S Hr. specialize (Hm S Hr).
  assert (E : bindM (grow_indent n) (fun _ => m) S = m S).
  { rewrite M_bind_eq. unfold grow_indent. cbn [bindM gets]. rewrite (rd_indent _ _ Hr). unfold zlen, when.
    rewrite length_replicate. by destruct (Z.ltb_spec (Z.of_nat 512) n); [lia|]. }
  unfold ends in *. by rewrite E.
Qed.

Lemma outputs_integer L z :
  - 2 ^ 63 <= z < 2 ^ 64 -> outputs L (dump_integer z) (Some (Integers.integer z)).
Proof.
  intros Hz. unfold dump_integer. destruct (Z.eqb_spec z 0) as [->|Hne]; [apply outputs_character|].
  apply outputs_Ret. intros S Hr. cbn [bindM gets lift].
  destruct (Integers.integer_text_spec z (number_buffer S) Hz (rd_number _ _ Hr)) as (buf & -> & Hw & Hl).
  cbn [mbind outcome_bind set_number_buffer modify fst snd].
  rewrite load_ok, Hw.
  - cbn. eexists. split; [done|]. split; [constructor; cbn; try done|done]. by rewrite Hl, (rd_number _ _ Hr).
  - lia.
  - apply zlen_nonneg.
  - assert (H : zlen (window 0 (zlen (Integers.integer z)) buf) = zlen (Integers.integer z)) by by rewrite Hw.
    unfold window, zlen in *. rewrite length_take, length_drop in H. lia.
Qed.

Lemma outputs_string L s :
  outputs L (dump_escaped s (ascii L))
    (if Utf8.valid s then Some (escape_text (ascii L) (code_points Utf8.UTF8_ACCEPT 0 s)) else None).
Proof.
  destruct (Utf8.valid s) eqn:Hv.
  - apply Utf8.valid_iff_encoded in Hv as (cps & Hc & ->). apply outputs_Ret. intros S Hr.
    rewrite code_points_all by done. apply dump_escaped_text; [apply (rd_string _ _ Hr)|done].
  - intros S Hr. pose proof (dump_escaped_cases (ascii L) s S (rd_string _ _ Hr)) as H. rewrite Hv in H.
    destruct (decide (error_handler S = strict)); [by rewrite bool_decide_true in H|].
    rewrite bool_decide_false in H by done. destruct H as (S' & E & Hs & Hi). exists S'. split; [done|].
    split; [by eapply ready_steady|]. split; [apply (st_handler _ _ Hs)|done].
Qed.

(** The text of items one after the other. *)
Lemma outputs_elements {A} L (item : A -> M serializer unit) sep st (f : A -> option bytes) l :
  Forall (fun x => outputs L (item x) (f x)) l -> outputs L sep (Some st) ->
  outputs L (elements item sep l) (join st <$> mapM f l).
Proof.
  intros H Hsep. induction H as [|x l Hx Hl IH].
  - apply outputs_Ret. intros S _. exists S. split; [done|]. cbn. by rewrite app_nil_r.
  - destruct l as [|y l].
    + cbn. destruct (f x); exact Hx.
    + pose proof (outputs_bind L _ _ _ _ Hx (outputs_bind L _ _ _ _ Hsep IH)) as Hb.
      change (elements item sep (x :: y :: l)) with (do! item x in do! sep in elements item sep (y :: l)).
      cbn [mapM]. destruct (f x) as [tx|]; cbn in Hb |- *; [|exact Hb].
      destruct (f y) as [ty|]; cbn in Hb |- *; [|exact Hb].
      destruct (mapM f l) as [tl|]; cbn in Hb |- *; exact Hb.
Qed.

(** ** The serializer writes the text of [print] *)

Lemma mapM_guard {A B} (p : A -> bool) (f : A -> B) l :
  mapM (fun x => if p x then Some (f x) else None) l = if forallb p l then Some (f <$> l) else None.
Proof.
  induction l as [|x l IH]; [done|]. cbn [mapM forallb]. rewrite IH. destruct (p x); [|done]. cbn.
  by destruct (forallb p l).
Qed.

Lemma join_cons sep x y l : join sep (x :: y :: l) = x ++ sep ++ join sep (y :: l).
Proof. done. Qed.

Lemma join_newline x sep items :
  items <> [] -> x ++ join (sep ++ x) items = join sep ((fun t => x ++ t) <$> items).
Proof.
  intros Hne. destruct items as [|i items]; [done|]. clear Hne. revert i.
  induction items as [|i' items IH]; intros i; [done|]. specialize (IH i').
  cbn [fmap list_fmap] in *. rewrite !join_cons, <- !app_assoc, IH. done.
Qed.

Section Containers.
Context {A : Type} (L : layout) (item : A -> M serializer unit) (text : A -> bytes) (p : A -> bool)
  (o c n : Z) (l : list A).
Context (Hne : l <> [])
  (Hitems : Forall (fun x => outputs L (item x) (if p x then Some (text x) else None)) l).

Lemma outputs_compact :
  pretty L = false ->
  outputs L (do! write_character o in do! elements item (write_character 44) l in write_character c)
    (if forallb p l then Some (bracketed L o c n (text <$> l)) else None).
Proof.
  intros Hp. pose proof (outputs_bind L _ _ _ _ (outputs_character L o)
    (outputs_bind L _ _ _ _ (outputs_elements L item _ _ _ l Hitems (outputs_character L 44)) (outputs_character L c))) as H.
  rewrite mapM_guard in H. destruct (forallb p l); [|exact H]. cbn in H.
  unfold bracketed, newline. rewrite Hp. cbn [app]. destruct l; [done|exact H].
Qed.

Lemma outputs_pretty :
  pretty L = true -> 0 <= n -> 0 <= step L -> n + step L <= 512 ->
  outputs L
    (do! write_characters [byte.of_Z o; Byte.x0a] in
     do! grow_indent (inner L n) in
     do! elements (fun x => do! write_indent (inner L n) in item x) (write_characters (lit "," ++ [Byte.x0a])) l in
     do! write_character 10 in
     do! write_indent n in
     write_character c)
    (if forallb p l then Some (bracketed L o c n (text <$> l)) else None).
Proof.
  intros Hp Hn Hs Hb. set (pad := replicate (Z.to_nat (inner L n)) (ichar L)).
  assert (Hi : inner L n = n + step L) by (unfold inner; by rewrite Hp).
  assert (H2 : Forall (fun x => outputs L (do! write_indent (inner L n) in item x)
                                  (if p x then Some (pad ++ text x) else None)) l).
  { eapply Forall_impl; [exact Hitems|]. intros x Hx.
    pose proof (outputs_bind L _ _ _ _ (outputs_indent L (inner L n) ltac:(lia)) Hx) as H.
    destruct (p x); exact H. }
  pose proof (outputs_bind L _ _ _ _ (outputs_characters L [byte.of_Z o; Byte.x0a])
    (outputs_grow L (inner L n) _ _ ltac:(lia)
    (outputs_bind L _ _ _ _ (outputs_elements L _ _ _ _ l H2 (outputs_characters L (lit "," ++ [Byte.x0a])))
    (outputs_bind L _ _ _ _ (outputs_character L 10)
    (outputs_bind L _ _ _ _ (outputs_indent L n ltac:(lia)) (outputs_character L c)))))) as H.
  rewrite mapM_guard in H. destruct (forallb p l); [|exact H]. cbn [mbind option_bind] in H.
  eapply eq_rect; [exact H|]. f_equal. unfold bracketed, newline. rewrite Hp. fold pad.
  assert (Hl : text <$> l <> []) by (destruct l; done).
  destruct (text <$> l) as [|t ts] eqn:E; [done|]. rewrite <- E in *.
  replace ((fun x => pad ++ text x) <$> l) with ((fun t => pad ++ t) <$> (text <$> l)) by (by rewrite <- list_fmap_compose).
  pose proof (join_newline pad [byte.of_Z 44; Byte.x0a] (text <$> l) Hl) as Hj.
  cbn [app] in Hj |- *. change (lit "," ++ [Byte.x0a]) with [byte.of_Z 44; Byte.x0a].
  cbn [fmap option_fmap option_map mbind option_bind]. rewrite <- Hj, <- app_assoc. done.
Qed.
End Containers.

Section Dump.
Context (float_text : Z -> bytes) (L : layout).
Context (float_writes : forall x, float_ok x = true -> outputs L (dump_float x) (Some (float_text x))).

(** No line is indented by more than the 512 characters that are there from the
    start: what the serializer does beyond that is undefined. *)
Definition bounded (n : Z) (j : json) : Prop :=
  pretty L = true -> 0 <= n /\ 0 <= step L /\ n + step L * depth j <= 512.

Lemma bounded_inner n d j c :
  bounded n c -> depth c = 1 + d -> depth j <= d -> bounded (inner L n) j.
Proof.
  unfold bounded, inner. intros H Hc Hj Hp. rewrite Hp. destruct (H Hp) as (H1 & H2 & H3).
  rewrite Hc in H3. split; [lia|]. split; [done|]. nia.
Qed.

Lemma bounded_step n c d : bounded n c -> depth c = 1 + d -> 0 <= d -> pretty L = true ->
  0 <= n /\ 0 <= step L /\ n + step L <= 512 /\ u32 (n + step L) = inner L n.
Proof.
  unfold bounded, inner. intros H Hc Hd Hp. destruct (H Hp) as (H1 & H2 & H3). rewrite Hp. rewrite Hc in H3.
  assert (n + step L <= 512) by nia. split; [done|]. split; [done|]. split; [done|]. apply uwrap_small. lia.
Qed.

Lemma max_fold {A} (f : A -> Z) l x : x ∈ l -> f x <= foldr (fun v d => f v `max` d) 0 l.
Proof. induction 1; cbn; lia. Qed.
Lemma fold_nonneg {A} (f : A -> Z) l : 0 <= foldr (fun v d => f v `max` d) 0 l.
Proof. induction l; cbn; lia. Qed.

Lemma Forall_guarded {A} (P : A -> Prop) (q : A -> bool) (l : list A) (R : A -> Prop) :
  Forall P l -> forallb q l = true -> (forall x, x ∈ l -> P x -> q x = true -> R x) -> Forall R l.
Proof.
  rewrite !Forall_forall, forallb_forall. intros HP Hq HR x Hx. apply HR; [done|auto|].
  apply Hq. by apply list_elem_of_In.
Qed.

Lemma outputs_key k v r :
  outputs L v r ->
  outputs L (do! quoted_key (ascii L) k ([dquote] ++ colon L) in v)
    (t ← (if Utf8.valid k then Some (quoted L k ++ colon L) else None); t' ← r; Some (t ++ t')).
Proof.
  intros Hv. pose proof (outputs_bind L _ _ _ _ (outputs_bind L _ _ _ _ (outputs_character L 34)
    (outputs_bind L _ _ _ _ (outputs_string L k) (outputs_characters L ([dquote] ++ colon L)))) Hv) as H.
  destruct (Utf8.valid k); [|exact H]. cbn [mbind option_bind] in H |- *.
  unfold quoted. cbn [app] in H |- *. rewrite <- app_assoc. exact H.
Qed.

Lemma outputs_dump j n :
  typed j = true -> bounded n j ->
  outputs L (dump j (pretty L) (ascii L) (step L) n) (if utf8 j then Some (print float_text L n j) else None).
Proof.
  revert n. induction j as [|b|z|x|s|l IH|m IH] using json_nested_ind; intros n Ht Hb; cbn [utf8 print].
  - apply outputs_characters.
  - destruct b; apply outputs_characters.
  - cbn in Ht. apply outputs_integer. lia.
  - by apply float_writes.
  - pose proof (outputs_bind L _ _ _ _ (outputs_character L 34)
      (outputs_bind L _ _ _ _ (outputs_string L s) (outputs_character L 34))) as H.
    cbn [dump]. destruct (Utf8.valid s); exact H.
  - cbn [typed] in Ht. destruct l as [|v l]; [apply outputs_characters|].
    assert (Hi : Forall (fun v => outputs L (dump v (pretty L) (ascii L) (step L) (inner L n))
       (if utf8 v then Some (print float_text L (inner L n) v) else None)) (v :: l)).
    { eapply Forall_guarded; [exact IH|exact Ht|]. intros x Hx HP Hq. apply HP; [done|].
      eapply bounded_inner; [exact Hb|reflexivity|]. by apply (max_fold depth). }
    cbn [dump]. destruct (pretty L) eqn:Hp.
    + destruct (bounded_step n _ _ Hb eq_refl (fold_nonneg depth _) Hp) as (H1 & H2 & H3 & ->).
      by apply (outputs_pretty L _ _ utf8 91 93).
    + replace (inner L n) with n in * by (unfold inner; by rewrite Hp).
      by apply (outputs_compact L _ _ utf8 91 93).
  - cbn [typed] in Ht. destruct m as [|p m]; [apply outputs_characters|].
    assert (Hi : Forall (fun p => outputs L (do! quoted_key (ascii L) (fst p) ([dquote] ++ (if pretty L then lit ": " else lit ":")) in
         dump (snd p) (pretty L) (ascii L) (step L) (inner L n))
       (if Utf8.valid (fst p) && utf8 (snd p) then
          Some (quoted L (fst p) ++ colon L ++ print float_text L (inner L n) (snd p)) else None)) (p :: m)).
    { eapply Forall_guarded; [exact IH|exact Ht|]. intros [k v] Hx HP Hq. cbn [fst snd] in *.
      assert (Hv : bounded (inner L n) v).
      { eapply bounded_inner; [exact Hb|reflexivity|]. by apply (max_fold (fun p => depth (snd p)) _ (k, v)). }
      pose proof (outputs_key k _ _ (HP _ Hq Hv)) as H.
      destruct (Utf8.valid k), (utf8 v); try exact H. cbn [mbind option_bind andb] in H |- *.
      by rewrite <- app_assoc in H. }
    cbn [dump]. destruct (pretty L) eqn:Hp.
    + destruct (bounded_step n _ _ Hb eq_refl (fold_nonneg (fun p => depth (snd p)) _) Hp) as (H1 & H2 & H3 & ->).
      by apply (outputs_pretty L _ _ (fun p => Utf8.valid (fst p) && utf8 (snd p)) 123 125).
    + replace (inner L n) with n in * by (unfold inner; by rewrite Hp).
      by apply (outputs_compact L _ _ (fun p => Utf8.valid (fst p) && utf8 (snd p)) 123 125).
Qed.
End Dump.

End Printing.
