(* ===== verification/JsonRounding.v ===== *)
(** * Decimal texts to doubles: the rounding interval

    A magnitude strictly inside the interval of a positive finite double is
    rounded to that double.  The interval is the one [compute_boundaries] of the
    printer uses: half way to both neighbours, the lower one at a quarter of the
    unit when the significand is the smallest of its binade.

    A power of two [2 ^ k] with a negative exponent is [two k] in units of
    [2 ^ -1200], so that all comparisons are between integers. *)
From S2P Require Import Prelude JsonFloat.

Module Rounding.
Import Float.

Definition unit : Z := 2 ^ 1200.
Definition two (k : Z) : Z := 2 ^ (k + 1200).

Lemma two_pos k : -1200 <= k -> 0 < two k.
Proof. intros H. unfold two. apply Z.pow_pos_nonneg; lia. Qed.

Lemma two_plus j k : -1200 <= k -> 0 <= j -> two (j + k) = 2 ^ j * two k.
Proof. intros H1 H2. unfold two. rewrite <- Z.pow_add_r by lia. f_equal. lia. Qed.

Lemma two_succ k : -1200 <= k -> two (k + 1) = 2 * two k.
Proof. intros H. rewrite Z.add_comm. apply (two_plus 1); lia. Qed.

Lemma two_mono j k : -1200 <= j <= k -> two j <= two k.
Proof. intros H. apply Z.pow_le_mono_r; lia. Qed.

(** The scaling of [nearest]. *)
Lemma two_scale k : -1200 <= k -> 2 ^ Z.max 0 (- k) * two k = unit * 2 ^ Z.max 0 k.
Proof. intros H. unfold two, unit. rewrite <- !Z.pow_add_r by lia. f_equal. lia. Qed.

Lemma unit_low k : k < -1200 -> unit <= 2 ^ (- k).
Proof. intros H. apply Z.pow_le_mono_r; lia. Qed.

Lemma two_two j k n :
  -1200 <= j -> -1200 <= k -> 0 <= n -> j + k + n = 0 -> two j * two k * 2 ^ n = unit * unit.
Proof. intros Hj Hk Hn H. unfold two, unit. rewrite <- !Z.pow_add_r by lia. f_equal. lia. Qed.

Lemma unit_pos : 0 < unit.
Proof. apply Z.pow_pos_nonneg; lia. Qed.

#[global] Opaque two unit.

(** ** A double *)

Definition significand (bits : Z) : Z :=
  if bits / 2 ^ 52 =? 0 then bits mod 2 ^ 52 else bits mod 2 ^ 52 + 2 ^ 52.
Definition exponent (bits : Z) : Z := if bits / 2 ^ 52 =? 0 then -1074 else bits / 2 ^ 52 - 1075.
Definition closer (bits : Z) : bool := (bits mod 2 ^ 52 =? 0) && (1 <? bits / 2 ^ 52).

(** The ends of the interval, in units of a quarter of the last place. *)
Definition lower (bits : Z) : Z := if closer bits then 4 * significand bits - 1 else 4 * significand bits - 2.
Definition upper (bits : Z) : Z := 4 * significand bits + 2.

(** The magnitude [N / D] is inside. *)
Definition within (bits N D : Z) : Prop :=
  lower bits * two (exponent bits - 2) * D < N * unit < upper bits * two (exponent bits - 2) * D.

(** What a positive finite double is made of. *)
Lemma double_facts bits :
  0 < bits < infinity ->
  bits = (exponent bits + 1074) * 2 ^ 52 + significand bits /\ -1074 <= exponent bits <= 971 /\
  0 < significand bits < 2 ^ 53 /\ (-1074 < exponent bits -> 2 ^ 52 <= significand bits) /\
  (closer bits = true <-> significand bits = 2 ^ 52 /\ -1074 < exponent bits).
Proof.
  intros H. unfold exponent, significand, closer. change infinity with (0x7FF * 2 ^ 52) in H.
  change (2 ^ 53) with (2 * 2 ^ 52). assert (Hp : 2 ^ 52 = 4503599627370496) by reflexivity. rewrite Hp in *. clear Hp.
  rewrite andb_true_iff, Z.eqb_eq, Z.ltb_lt.
  pose proof (Z.div_mod bits 4503599627370496 ltac:(lia)) as Hd.
  pose proof (Z.mod_pos_bound bits 4503599627370496 ltac:(lia)) as Hm.
  set (x := bits / 4503599627370496) in *. set (r := bits mod 4503599627370496) in *.
  destruct (Z.eqb_spec x 0); repeat split; lia.
Qed.

Lemma within_scale bits N D N' D' :
  0 < D -> 0 < D' -> N * D' = N' * D -> within bits N D -> within bits N' D'.
Proof.
  unfold within. intros HD HD' E. generalize (lower bits * two (exponent bits - 2)), (upper bits * two (exponent bits - 2)), unit.
  intros a b u [H1 H2]. apply (Z.mul_lt_mono_pos_r D') in H1, H2; [|done..].
  assert (E2 : N * u * D' = N' * u * D) by (replace (N * u * D') with (N * D' * u) by ring; rewrite E; ring).
  split; apply (Z.mul_lt_mono_pos_r D); try done; lia.
Qed.

(** ** The quantum *)

Lemma quantum_spec N D :
  0 < N -> 0 < D ->
  exists k, quantum N D = Z.max k (-1074) /\
    D * 2 ^ 52 * 2 ^ Z.max 0 k <= N * 2 ^ Z.max 0 (- k) < D * 2 ^ 53 * 2 ^ Z.max 0 k.
Proof.
  intros HN HD. unfold quantum.
  pose proof (Z.log2_spec N HN) as [N1 N2]. pose proof (Z.log2_spec D HD) as [D1 D2].
  set (a := Z.log2 N) in *. set (b := Z.log2 D) in *. assert (0 <= a) by apply Z.log2_nonneg.
  assert (0 <= b) by apply Z.log2_nonneg. set (e := a - b - 53).
  assert (Hpow : forall x y u v, 0 <= x -> 0 <= y -> x + u = y + v -> 0 <= u -> 0 <= v ->
    2 ^ x * 2 ^ u = 2 ^ y * 2 ^ v) by (intros; rewrite <- !Z.pow_add_r by lia; by f_equal).
  destruct (Z.ltb_spec (N * 2 ^ Z.max 0 (- e)) (D * 2 ^ 53 * 2 ^ Z.max 0 e)) as [Hlt|Hge].
  - exists e. split; [done|]. split; [|done].
    assert (E : 2 ^ (53 + b) * 2 ^ Z.max 0 e = 2 ^ a * 2 ^ Z.max 0 (- e)) by (apply Hpow; lia).
    assert (0 < 2 ^ Z.max 0 e) by (apply Z.pow_pos_nonneg; lia).
    assert (0 < 2 ^ Z.max 0 (- e)) by (apply Z.pow_pos_nonneg; lia).
    rewrite Z.pow_add_r in E by lia. change (2 ^ 53) with (2 * 2 ^ 52) in E.
    rewrite Z.pow_succ_r in D2 by lia. nia.
  - exists (e + 1). split; [done|].
    assert (E1 : 2 ^ 1 * 2 ^ Z.max 0 e * 2 ^ Z.max 0 (- (e + 1)) = 2 ^ Z.max 0 (e + 1) * 2 ^ Z.max 0 (- e))
      by (rewrite <- !Z.pow_add_r by lia; f_equal; lia).
    assert (0 < 2 ^ Z.max 0 (- e)) by (apply Z.pow_pos_nonneg; lia).
    assert (0 < 2 ^ Z.max 0 (- (e + 1))) by (apply Z.pow_pos_nonneg; lia).
    assert (0 < 2 ^ Z.max 0 e) by (apply Z.pow_pos_nonneg; lia).
    assert (0 < 2 ^ Z.max 0 (e + 1)) by (apply Z.pow_pos_nonneg; lia).
    change (2 ^ 1) with 2 in E1. split.
    + change (2 ^ 53) with (2 * 2 ^ 52) in Hge.
      set (x := 2 ^ Z.max 0 e) in *. set (y := 2 ^ Z.max 0 (- (e + 1))) in *. set (z := 2 ^ Z.max 0 (e + 1)) in *.
      set (t := 2 ^ Z.max 0 (- e)) in *. apply (Z.mul_le_mono_pos_r _ _ t); [done|].
      replace (D * 2 ^ 52 * z * t) with (D * (2 * 2 ^ 52) * x * y) by nia. nia.
    + assert (E : 2 ^ (53 + b) * 2 ^ Z.max 0 (e + 1) = 2 ^ Z.succ a * 2 ^ Z.max 0 (- (e + 1))) by (apply Hpow; lia).
      rewrite Z.pow_add_r in E by lia. nia.
Qed.

Lemma round_near N D m : 0 < D -> (2 * m - 1) * D < 2 * N < (2 * m + 1) * D -> round_half_even N D = m.
Proof.
  intros HD H. unfold round_half_even. pose proof (Z.div_mod N D ltac:(lia)) as E.
  pose proof (Z.mod_pos_bound N D HD) as Hr. set (x := N / D) in *. set (r := N mod D) in *.
  assert (Hx : x = m \/ x = m - 1) by nia.
  destruct (Z.ltb_spec (2 * r) D), (Z.ltb_spec D (2 * r)); destruct Hx; nia.
Qed.

(** The rounding of a magnitude whose quantum is known, from bounds in the scale
    of [two]. *)
Lemma round_scaled N D q m :
  0 < D -> -1200 <= q ->
  (2 * m - 1) * two q * D < 2 * (N * unit) < (2 * m + 1) * two q * D ->
  round_half_even (N * 2 ^ Z.max 0 (- q)) (D * 2 ^ Z.max 0 q) = m.
Proof.
  intros HD Hq H. pose proof (two_pos q Hq) as Ht. pose proof (two_scale q Hq) as E.
  assert (0 < 2 ^ Z.max 0 (- q)) by (apply Z.pow_pos_nonneg; lia).
  assert (0 < 2 ^ Z.max 0 q) by (apply Z.pow_pos_nonneg; lia).
  apply round_near; [nia|].
  set (t := two q) in *. set (u := unit) in *. set (x := 2 ^ Z.max 0 (- q)) in *. set (y := 2 ^ Z.max 0 q) in *.
  assert (Hu : 0 < u) by nia.
  assert (E1 : forall c, c * t * D * x = c * (D * y) * u) by (intros c; replace (c * t * D * x) with (c * D * (x * t)) by ring; rewrite E; ring).
  assert (E2 : 2 * (N * u) * x = 2 * (N * x) * u) by ring.
  split; apply (Z.mul_lt_mono_pos_r u); try done.
  - rewrite <- E1, <- E2. apply Z.mul_lt_mono_pos_r; [done|apply H].
  - rewrite <- E1, <- E2. apply Z.mul_lt_mono_pos_r; [done|apply H].
Qed.

(** The quantum in the scale of [two]. *)
Lemma quantum_scaled N D k :
  0 < D -> -1200 <= k ->
  D * 2 ^ 52 * 2 ^ Z.max 0 k <= N * 2 ^ Z.max 0 (- k) < D * 2 ^ 53 * 2 ^ Z.max 0 k ->
  2 ^ 52 * two k * D <= N * unit < 2 ^ 53 * two k * D.
Proof.
  intros HD Hk H. pose proof (two_pos k Hk) as Ht. pose proof (two_scale k Hk) as E.
  assert (Hx : 0 < 2 ^ Z.max 0 (- k)) by (apply Z.pow_pos_nonneg; lia).
  assert (0 < 2 ^ Z.max 0 k) by (apply Z.pow_pos_nonneg; lia).
  set (t := two k) in *. set (u := unit) in *. set (x := 2 ^ Z.max 0 (- k)) in *. set (y := 2 ^ Z.max 0 k) in *.
  assert (Hu : 0 < u) by nia.
  assert (E1 : forall c, c * t * D * x = D * c * y * u) by (intros c; replace (c * t * D * x) with (c * D * (x * t)) by ring; rewrite E; ring).
  assert (E2 : N * u * x = N * x * u) by ring.
  split; [apply (Z.mul_le_mono_pos_r _ _ x); [done|]|apply (Z.mul_lt_mono_pos_r x); [done|]]; rewrite E1, E2; nia.
Qed.

(** Below the quantum of the subnormal numbers. *)
Lemma quantum_low N D k :
  0 < D -> 0 < N -> k < -1200 ->
  N * 2 ^ Z.max 0 (- k) < D * 2 ^ 53 * 2 ^ Z.max 0 k -> N * unit < 2 ^ 53 * D.
Proof.
  intros HD HN Hk H. replace (Z.max 0 k) with 0 in H by lia. replace (Z.max 0 (- k)) with (- k) in H by lia.
  pose proof (unit_low k Hk). nia.
Qed.

(** An upper bound bounds the quantum, and a lower one. *)
Lemma quantum_above N D k q :
  0 < D -> 0 < N -> -1200 <= q ->
  D * 2 ^ 52 * 2 ^ Z.max 0 k <= N * 2 ^ Z.max 0 (- k) < D * 2 ^ 53 * 2 ^ Z.max 0 k ->
  N * unit < 2 ^ 53 * two q * D -> k <= q.
Proof.
  intros HD HN Hq Hk H. destruct (Z.le_gt_cases k q) as [|Hgt]; [done|]. exfalso.
  apply quantum_scaled in Hk as [Hk _]; [|done|lia].
  pose proof (two_mono (q + 1) k ltac:(lia)) as Hm. rewrite two_succ in Hm by done.
  change (2 ^ 53) with (2 * 2 ^ 52) in H. pose proof (two_pos q Hq). nia.
Qed.

Lemma quantum_below N D k q c :
  0 < D -> 0 < N -> -1200 <= q ->
  D * 2 ^ 52 * 2 ^ Z.max 0 k <= N * 2 ^ Z.max 0 (- k) < D * 2 ^ 53 * 2 ^ Z.max 0 k ->
  2 ^ 53 <= c -> c * two q * D < N * unit -> q < k.
Proof.
  intros HD HN Hq Hk Hc H. destruct (Z.le_gt_cases k q) as [Hle|]; [|done]. exfalso.
  pose proof (two_pos q Hq) as Hp.
  assert (Hlt : N * unit < 2 ^ 53 * two q * D).
  { destruct (Z.lt_ge_cases k (-1200)) as [Hlow|Hlow].
    - pose proof (quantum_low N D k HD HN Hlow (proj2 Hk)). nia.
    - apply quantum_scaled in Hk as [_ Hk]; [|done|done]. pose proof (two_mono k q ltac:(lia)). nia. }
  assert (2 ^ 53 * (two q * D) <= c * (two q * D)) by (apply Z.mul_le_mono_nonneg_r; nia). lia.
Qed.

(** A magnitude inside the interval of a double is rounded to it. *)
Lemma nearest_within bits N D :
  0 < bits < infinity -> 0 < N -> 0 < D -> within bits N D -> nearest N D = bits.
Proof.
  intros Hb HN HD [Hlo Hhi].
  destruct (double_facts bits Hb) as (Ebits & Hq & Hm & Hnorm & Hcl).
  set (q := exponent bits) in *. set (m := significand bits) in *.
  assert (Ht : two q = 4 * two (q - 2)) by (rewrite <- (two_plus 2) by lia; f_equal; lia).
  pose proof (two_pos (q - 2) ltac:(lia)) as Hp.
  destruct (quantum_spec N D HN HD) as (k & Ek & Hk).
  assert (Hkq : k <= q).
  { eapply quantum_above; [exact HD|exact HN|lia|exact Hk|]. unfold upper in Hhi. fold m in Hhi.
    eapply Z.lt_le_trans; [exact Hhi|]. rewrite Ht, !Z.mul_assoc.
    apply Z.mul_le_mono_nonneg_r; [lia|]. apply Z.mul_le_mono_nonneg_r; [lia|]. lia. }
  assert (Hlow4 : 4 * m - 2 <= lower bits) by (unfold lower; fold m; destruct (closer bits); lia).
  unfold nearest. destruct (Z.eqb_spec N 0); [lia|]. rewrite Ek.
  destruct (Z.eq_dec (Z.max k (-1074)) q) as [->|Hne].
  - rewrite (round_scaled N D q m); [lia|done|lia|]. rewrite Ht. unfold upper in Hhi. fold m in Hhi.
    assert (0 < two (q - 2) * D) by nia.
    assert ((4 * m - 2) * (two (q - 2) * D) <= lower bits * (two (q - 2) * D))
      by (apply Z.mul_le_mono_nonneg_r; lia).
    split; nia.
  - assert (Hq2 : -1074 < q) by lia. specialize (Hnorm Hq2).
    assert (Hk1 : k = q - 1).
    { enough (q - 2 < k) by lia. eapply (quantum_below N D k (q - 2) (lower bits)); try done; lia. }
    replace (Z.max k (-1074)) with (q - 1) by lia.
    assert (Ht1 : two (q - 1) = 2 * two (q - 2)) by (rewrite <- two_succ by lia; f_equal; lia).
    apply quantum_scaled in Hk as [_ Hk]; [|done|lia]. rewrite Hk1, Ht1 in Hk.
    assert (Hm52 : m = 2 ^ 52).
    { enough (lower bits < 2 ^ 54) by lia. apply (Z.mul_lt_mono_pos_r (two (q - 2) * D)); [nia|].
      change (2 ^ 54) with (2 ^ 53 * 2). nia. }
    assert (Hc : closer bits = true) by (apply Hcl; done).
    assert (Hl : lower bits = 2 ^ 54 - 1) by (unfold lower; rewrite Hc; fold m; lia).
    rewrite (round_scaled N D (q - 1) (2 ^ 53)); [lia|done|lia|]. rewrite Ht1.
    rewrite Hl in Hlo. change (2 ^ 54) with (2 * 2 ^ 53) in Hlo.
    set (t := two (q - 2) * D) in *. assert (0 < t) by (unfold t; nia).
    replace ((2 * 2 ^ 53 - 1) * (2 * two (q - 2)) * D) with (2 * ((2 * 2 ^ 53 - 1) * t)) by (unfold t; ring).
    replace ((2 * 2 ^ 53 + 1) * (2 * two (q - 2)) * D) with (2 * ((2 * 2 ^ 53 + 1) * t)) by (unfold t; ring).
    replace (2 ^ 53 * (2 * two (q - 2)) * D) with (2 * 2 ^ 53 * t) in Hk by (unfold t; ring).
    rewrite <- Z.mul_assoc in Hlo. fold t in Hlo. lia.
Qed.

End Rounding.
