(* ===== verification/JsonDiyfp.v ===== *)
(** * The printer of doubles: its numbers

    The 64-bit floating-point numbers of Grisu2: the product is the rounded one,
    the normalization is exact, [compute_boundaries] is the rounding interval of
    the double, and the cached powers are within half a unit of the powers of
    ten they stand for. *)
From S2P Require Import Prelude JsonFloat JsonRounding.

Module Diyfp.
Import Float dtoa_impl Rounding.

Lemma mask_32 x : Z.land x 0xFFFFFFFF = x mod 2 ^ 32.
Proof. change 0xFFFFFFFF with (Z.ones 32). by rewrite Z.land_ones. Qed.

(** The product, rounded to nearest with ties up; nothing wraps. *)
Lemma mul_spec x y :
  0 <= f x < 2 ^ 64 -> 0 <= f y < 2 ^ 64 ->
  mul x y = mkDiyfp ((f x * f y + 2 ^ 63) / 2 ^ 64) (e x + e y + 64).
Proof.
  intros Hx Hy. unfold mul. rewrite !mask_32, !Z.shiftr_div_pow2 by lia.
  change (Z.shiftl 1 (64 - 32 - 1)) with (2 ^ 31). f_equal.
  set (u := f x) in *. set (v := f y) in *. set (B := 2 ^ 32).
  assert (HB : 2 ^ 64 = B * B) by reflexivity. assert (HB2 : 2 ^ 63 = 2 ^ 31 * B) by reflexivity.
  assert (HBv : B = 4294967296) by reflexivity. assert (HB31 : 2 ^ 31 = 2147483648) by reflexivity.
  rewrite HB in Hx, Hy.
  pose proof (Z.div_mod u B ltac:(lia)) as Eu. pose proof (Z.div_mod v B ltac:(lia)) as Ev.
  pose proof (Z.mod_pos_bound u B ltac:(lia)). pose proof (Z.mod_pos_bound v B ltac:(lia)).
  assert (0 <= u / B < B) by (split; [apply Z.div_pos; lia|apply Z.div_lt_upper_bound; lia]).
  assert (0 <= v / B < B) by (split; [apply Z.div_pos; lia|apply Z.div_lt_upper_bound; lia]).
  set (ul := u mod B) in *. set (uh := u / B) in *. set (vl := v mod B) in *. set (vh := v / B) in *.
  assert (Hp : forall a b, 0 <= a < B -> 0 <= b < B -> u64 (a * b) = a * b /\ 0 <= a * b <= (B - 1) * (B - 1)).
  { intros a b Ha Hb. assert (0 <= a * b <= (B - 1) * (B - 1)) by nia. split; [|done].
    apply uwrap_small. rewrite HB. nia. }
  destruct (Hp ul vl) as [-> P0]; [done..|]. destruct (Hp ul vh) as [-> P1]; [done..|].
  destruct (Hp uh vl) as [-> P2]; [done..|]. destruct (Hp uh vh) as [-> P3]; [done..|].
  set (p0 := ul * vl) in *. set (p1 := ul * vh) in *. set (p2 := uh * vl) in *. set (p3 := uh * vh) in *.
  assert (Euv : u * v = p0 + B * (p1 + p2) + B * B * p3) by (rewrite Eu, Ev; unfold p0, p1, p2, p3; ring).
  pose proof (Z.div_mod p1 B ltac:(lia)) as E1. pose proof (Z.div_mod p2 B ltac:(lia)) as E2.
  pose proof (Z.mod_pos_bound p1 B ltac:(lia)). pose proof (Z.mod_pos_bound p2 B ltac:(lia)).
  assert (0 <= p0 / B < B) by (split; [apply Z.div_pos; lia|apply Z.div_lt_upper_bound; nia]).
  assert (HQ : forall z, 0 <= z < B * B -> u64 z = z) by (intros; apply uwrap_small; lia).
  set (p1l := p1 mod B) in *. set (p1h := p1 / B) in *. set (p2l := p2 mod B) in *. set (p2h := p2 / B) in *.
  set (Q := p0 / B + p1l + p2l + 2 ^ 31).
  assert (HQr : 0 <= Q <= 4 * B) by (unfold Q; lia).
  rewrite (HQ (p0 / B + p1l + p2l)) by nia. fold Q. rewrite (HQ Q) by nia.
  assert (Emain : (u * v + 2 ^ 31 * B) / (B * B) = p3 + p1h + p2h + Q / B).
  { rewrite Euv. rewrite <- Z.div_div by lia.
    replace (p0 + B * (p1 + p2) + B * B * p3 + 2 ^ 31 * B) with (p0 + (p1 + p2 + B * p3 + 2 ^ 31) * B) by ring.
    rewrite Z.div_add by lia.
    replace (p0 / B + (p1 + p2 + B * p3 + 2 ^ 31)) with (Q + (p3 + p1h + p2h) * B)
      by (clearbody p1l p2l p1h p2h; unfold Q; rewrite E1, E2; ring).
    rewrite Z.div_add by lia. ring. }
  rewrite HB, HB2, Emain.
  replace (p3 + p2h + p1h + Q / B) with (p3 + p1h + p2h + Q / B) by ring. apply HQ.
  rewrite <- Emain. split; [apply Z.div_pos; nia|apply Z.div_lt_upper_bound; [lia|]].
  assert (u * v <= (B * B - 1) * (B * B - 1)) by nia. nia.
Qed.

(** The error of the product is at most half a unit. *)
Lemma mul_error a b :
  let h := (a * b + 2 ^ 63) / 2 ^ 64 in a * b - 2 ^ 63 <= h * 2 ^ 64 - 1 + 1 <= a * b + 2 ^ 63.
Proof. cbv zeta. zdiv. Qed.

(** ** Normalization *)

Lemma normalize_loop_spec n x :
  0 < f x < 2 ^ 64 -> 2 ^ 63 <= f x * 2 ^ Z.of_nat n ->
  exists k, normalize_loop (S n) x = Ret (mkDiyfp (f x * 2 ^ k) (e x - k)) /\ 0 <= k /\
    2 ^ 63 <= f x * 2 ^ k < 2 ^ 64.
Proof.
  revert x. induction n as [|n IH]; intros [m q] Hx Hf; cbn [f e] in *;
    cbn [normalize_loop f e]; rewrite Z.shiftr_div_pow2 by lia;
    (destruct (Z.eqb_spec (m / 2 ^ 63) 0) as [E|E];
     [|exists 0; rewrite Z.mul_1_r, Z.sub_0_r; split; [done|]; split; [done|];
       split; [|lia]; destruct (Z.le_gt_cases (2 ^ 63) m) as [|Hlt]; [done|]; rewrite Z.div_small in E by lia; lia]).
  - change (2 ^ Z.of_nat 0) with 1 in Hf. exfalso. revert E. change (2 ^ 63) with 9223372036854775808 in *. zdiv.
  - assert (Hm : m < 2 ^ 63) by (revert E; change (2 ^ 63) with 9223372036854775808; zdiv).
    assert (Hw : u64 (Z.shiftl m 1) = 2 * m).
    { rewrite Z.shiftl_mul_pow2 by lia. change (2 ^ 1) with 2. rewrite uwrap_small; lia. }
    rewrite Nat2Z.inj_succ, Z.pow_succ_r in Hf by lia.
    destruct (IH (mkDiyfp (2 * m) (q - 1))) as (k & Ek & Hk & Hb); cbn [f e] in *; [lia|nia|].
    exists (k + 1). cbn [normalize_loop f e] in *. rewrite Hw. rewrite Ek. rewrite Z.pow_add_r by lia. change (2 ^ 1) with 2.
    replace (m * (2 ^ k * 2)) with (2 * m * 2 ^ k) by ring. replace (q - 1 - k) with (q - (k + 1)) by ring.
    split; [done|]. split; [lia|done].
Qed.

Lemma normalize_spec x :
  0 < f x < 2 ^ 64 ->
  exists k, normalize x = Ret (mkDiyfp (f x * 2 ^ k) (e x - k)) /\ 0 <= k /\ 2 ^ 63 <= f x * 2 ^ k < 2 ^ 64.
Proof.
  intros H. unfold normalize. destruct (Z.eqb_spec (f x) 0); [lia|]. cbn [negb assert_that mbind outcome_bind].
  apply normalize_loop_spec; [done|]. change (2 ^ Z.of_nat 63) with (2 ^ 63). nia.
Qed.

Lemma normalize_to_spec x k :
  0 < f x -> 0 <= k < 64 -> f x * 2 ^ k < 2 ^ 64 ->
  normalize_to x (e x - k) = Ret (mkDiyfp (f x * 2 ^ k) (e x - k)).
Proof.
  intros Hx Hk Hb. unfold normalize_to. replace (e x - (e x - k)) with k by ring.
  destruct (Z.leb_spec 0 k); [|lia]. cbn [assert_that mbind outcome_bind].
  destruct (Z.leb_spec 64 k); [lia|].
  assert (0 < 2 ^ k) by (apply Z.pow_pos_nonneg; lia).
  rewrite Z.shiftl_mul_pow2, uwrap_small by (first [lia | nia]).
  rewrite Z.shiftr_div_pow2, Z.div_mul by lia. rewrite Z.eqb_refl. done.
Qed.

(** The power of two that brings a number to its normal form is unique. *)
Lemma normal_unique m j k :
  0 < m -> 0 <= j -> 0 <= k -> 2 ^ 63 <= m * 2 ^ j < 2 ^ 64 -> 2 ^ 63 <= m * 2 ^ k < 2 ^ 64 -> j = k.
Proof.
  intros Hm Hj Hk H1 H2.
  assert (Hlt : forall a b, 0 <= a -> a < b -> 2 ^ 63 <= m * 2 ^ a -> m * 2 ^ b < 2 ^ 64 -> False).
  { intros a b Ha Hab G1 G2. assert (2 ^ (a + 1) <= 2 ^ b) by (apply Z.pow_le_mono_r; lia).
    rewrite Z.pow_add_r in * by lia. change (2 ^ 1) with 2 in *. change (2 ^ 64) with (2 * 2 ^ 63) in *. nia. }
  destruct (Z.lt_trichotomy j k) as [H|[H|H]]; [|done|]; exfalso; eapply Hlt; try exact H; lia.
Qed.

(** ** Boundaries *)

(** The parts of the representation. *)
Lemma parts bits :
  0 < bits < infinity ->
  isfinite bits = true /\ signbit bits = false /\ Z.shiftr bits (53 - 1) = bits / 2 ^ 52 /\
  Z.land bits (kHiddenBit - 1) = bits mod 2 ^ 52.
Proof.
  intros H. change infinity with (2047 * 2 ^ 52) in H. unfold isfinite, signbit.
  rewrite Z.shiftr_div_pow2 by lia. change (kHiddenBit - 1) with (Z.ones 52). rewrite Z.land_ones by lia.
  change 0x7FF with (Z.ones 11). rewrite Z.land_ones by lia.
  assert (Hd : 0 <= bits / 2 ^ 52 < 2047) by (split; [apply Z.div_pos; lia|apply Z.div_lt_upper_bound; lia]).
  rewrite Z.mod_small by lia. change (Z.ones 11) with 2047. split; [|split; [|split; [by rewrite Z.shiftr_div_pow2|done]]].
  - destruct (Z.eqb_spec (bits / 2 ^ 52) 2047); [lia|done].
  - apply Z.bits_above_log2; [lia|]. apply Z.log2_lt_pow2; lia.
Qed.

(** The interval of the double, brought to 64 bits at a common exponent. *)
Lemma compute_boundaries_spec bits :
  0 < bits < infinity ->
  exists j, 9 <= j <= 61 /\
    compute_boundaries bits = Ret (mkBoundaries
      (mkDiyfp (4 * significand bits * 2 ^ j) (exponent bits - 2 - j))
      (mkDiyfp (lower bits * 2 ^ j) (exponent bits - 2 - j))
      (mkDiyfp (upper bits * 2 ^ j) (exponent bits - 2 - j))) /\
    2 ^ 63 <= 4 * significand bits * 2 ^ j /\ upper bits * 2 ^ j < 2 ^ 64 /\ 2 ^ 9 <= 2 ^ j.
Proof.
  intros Hb. destruct (parts bits Hb) as (Hf & Hs & EE & EF).
  destruct (double_facts bits Hb) as (_ & Hq & Hm & _ & _).
  unfold compute_boundaries. rewrite Hf, Hs, EE, EF. destruct (Z.eqb_spec bits 0); [lia|].
  cbn [negb andb assert_that mbind outcome_bind].
  set (m := significand bits) in *. set (q := exponent bits) in *.
  assert (Ev : (if bits / 2 ^ 52 =? 0 then mkDiyfp (bits mod 2 ^ 52) kMinExp
                else mkDiyfp (u64 (bits mod 2 ^ 52 + kHiddenBit)) (bits / 2 ^ 52 - kBias)) = mkDiyfp m q).
  { unfold m, q, significand, exponent. pose proof (Z.mod_pos_bound bits (2 ^ 52) ltac:(lia)).
    destruct (bits / 2 ^ 52 =? 0); [done|]. change kHiddenBit with (2 ^ 52). rewrite uwrap_small by lia. done. }
  rewrite Ev. cbn [f e]. fold (closer bits).
  rewrite (uwrap_small 64 (2 * m + 1)), (uwrap_small 64 (4 * m - 1)), (uwrap_small 64 (2 * m - 1)) by lia.
  destruct (normalize_spec (mkDiyfp (2 * m + 1) (q - 1))) as (k & -> & Hk0 & Hk); cbn [f e] in *; [lia|].
  assert (Hk1 : 10 <= k <= 62).
  { split.
    - destruct (Z.le_gt_cases 10 k) as [|Hlt]; [done|]. assert (2 ^ k <= 2 ^ 9) by (apply Z.pow_le_mono_r; lia).
      change (2 ^ 63) with (2 ^ 54 * 2 ^ 9) in Hk. change (2 ^ 53) with 9007199254740992 in Hm. 
      change (2 ^ 54) with 18014398509481984 in Hk. nia.
    - destruct (Z.le_gt_cases k 62) as [|Hlt]; [done|]. assert (2 ^ 63 <= 2 ^ k) by (apply Z.pow_le_mono_r; lia).
      change (2 ^ 64) with (2 * 2 ^ 63) in Hk. nia. }
  cbn [mbind outcome_bind e f].
  assert (E2 : 2 ^ k = 2 * 2 ^ (k - 1)) by (rewrite <- Z.pow_succ_r by lia; f_equal; lia).
  assert (Hodd : 2 ^ 63 <= 2 * m * 2 ^ k).
  { assert (E63 : 2 ^ 63 = 2 * 2 ^ (62 - k) * 2 ^ k) by (rewrite <- Z.pow_succ_r, <- Z.pow_add_r by lia; f_equal; lia).
    rewrite E63 in Hk |- *. assert (0 < 2 ^ k) by lia. assert (2 * 2 ^ (62 - k) <= 2 * m + 1) by nia.
    assert (2 * 2 ^ (62 - k) <= 2 * m) by lia. nia. }
  assert (Hc : 4 * m * 2 ^ (k - 1) = m * 2 ^ (k + 1)).
  { replace (k + 1) with (2 + (k - 1)) by lia. rewrite Z.pow_add_r by lia. change (2 ^ 2) with 4. ring. }
  assert (Hm1 : normalize_to (if closer bits then mkDiyfp (4 * m - 1) (q - 2) else mkDiyfp (2 * m - 1) (q - 1)) (q - 1 - k) =
          Ret (mkDiyfp (lower bits * 2 ^ (k - 1)) (q - 2 - (k - 1)))).
  { unfold lower. fold m. destruct (closer bits).
    - replace (q - 1 - k) with (q - 2 - (k - 1)) by lia.
      apply (normalize_to_spec (mkDiyfp (4 * m - 1) (q - 2)) (k - 1)); cbn; [lia|lia|nia].
    - pose proof (normalize_to_spec (mkDiyfp (2 * m - 1) (q - 1)) k) as H. cbn [f e] in H.
      rewrite H by (first [lia | nia]). do 2 f_equal; [rewrite E2; ring|lia]. }
  exists (k - 1). split; [lia|].
  destruct (normalize_spec (mkDiyfp m q)) as (k' & Ek' & Hk0' & Hk'); cbn [f e] in *; [lia|].
  assert (k' = k + 1) as ->.
  { apply (normal_unique m); lia. }
  assert (H9 : 2 ^ 9 <= 2 ^ (k - 1)) by (apply Z.pow_le_mono_r; lia).
  split; [|split; [rewrite Hc; lia|split; [unfold upper; fold m; nia|done]]].
  assert (Hplus : upper bits * 2 ^ (k - 1) = (2 * m + 1) * 2 ^ k) by (unfold upper; fold m; rewrite E2; ring).
  rewrite Hplus, Hc. replace (q - 2 - (k - 1)) with (q - 1 - k) in * by lia.
  replace (q - (k + 1)) with (q - 1 - k) in Ek' by lia.
  rewrite Hm1. cbn [mbind outcome_bind]. by rewrite Ek'.
Qed.

(** ** Cached powers *)

(** [10 ^ k], in units of [10 ^ -400]. *)
Definition ten (k : Z) : Z := 10 ^ (k + 400).

(** Half a unit in the last place of the cached significand. *)
Definition accurate (c : cached_power) : bool :=
  Z.abs (2 * (cf c * two (ce c) * ten 0 - ten (ck c) * unit)) <=? two (ce c) * ten 0.

Lemma powers_accurate : forallb accurate kCachedPowers = true.
Proof. vm_compute. reflexivity. Qed.

Definition power_ok (x : Z) : bool :=
  match get_cached_power_for_binary_exponent x with
  | Ret c => (2 ^ 63 <=? cf c) && (cf c <? 2 ^ 64) && (-300 <=? ck c) && (ck c <=? 324) &&
             (-1060 <=? ce c) && (kAlpha <=? ce c + x + 64) && (ce c + x + 64 <=? kGamma)
  | _ => false
  end.

Lemma powers_ok : forallb power_ok (seqZ (-1137) 2098) = true.
Proof. vm_compute. reflexivity. Qed.

Lemma cached_power_in x c : get_cached_power_for_binary_exponent x = Ret c -> c ∈ kCachedPowers.
Proof.
  unfold get_cached_power_for_binary_exponent, load1. intros H.
  repeat match type of H with (_ ≫= _) = Ret _ => apply bind_Ret_inv in H as (? & ? & H) end.
  injection H as <-. destruct (_ <? 0); [done|]. destruct (kCachedPowers !! _) as [c'|] eqn:E; [|done].
  simplify_eq. by apply list_elem_of_lookup_2 in E.
Qed.

(** For the exponents of normalized doubles the index is in the table and the
    power brings the product into the range the digit generation needs. *)
Lemma cached_power_spec x :
  -1137 <= x <= 960 ->
  exists c, get_cached_power_for_binary_exponent x = Ret c /\ accurate c = true /\
    2 ^ 63 <= cf c < 2 ^ 64 /\ -300 <= ck c <= 324 /\ -1060 <= ce c /\ -60 <= ce c + x + 64 <= -32.
Proof.
  intros Hx. pose proof powers_ok as H. rewrite forallb_forall in H.
  specialize (H x ltac:(apply list_elem_of_In, elem_of_seqZ; lia)). unfold power_ok in H.
  destruct (get_cached_power_for_binary_exponent x) as [c| |] eqn:E; [|done..]. exists c. split; [done|].
  split; [|rewrite !andb_true_iff in H; unfold kAlpha, kGamma in H; lia].
  pose proof powers_accurate as Ha. rewrite forallb_forall in Ha. apply Ha, list_elem_of_In. by apply cached_power_in in E.
Qed.

(** ** The interval, scaled by a power of ten *)

Lemma ten_pos k : -400 <= k -> 0 < ten k.
Proof. intros H. apply Z.pow_pos_nonneg; lia. Qed.

Section Scaled.
Context (c : cached_power) (E : Z).
Context (Hacc : accurate c = true) (HE : -1200 <= E) (Hce : -1200 <= ce c) (Heps : E + ce c + 64 <= 0).
Abbreviation one := (2 ^ (- (E + ce c + 64))).

Lemma one_pos : 0 < one.
Proof. apply Z.pow_pos_nonneg; lia. Qed.

Lemma accuracy :
  2 * (ten (ck c) * unit) <= (2 * cf c + 1) * two (ce c) * ten 0 /\
  (2 * cf c - 1) * two (ce c) * ten 0 <= 2 * (ten (ck c) * unit).
Proof. unfold accurate in Hacc. apply Z.leb_le, Z.abs_le in Hacc. lia. Qed.

(** The scales on both sides of the comparisons below. *)
Lemma scales : two E * two (ce c) * one * 2 ^ 64 = unit * unit.
Proof. rewrite <- Z.mul_assoc, <- Z.pow_add_r by lia. apply two_two; lia. Qed.

(** A number no smaller than the scaled lower end is above the lower end. *)
Lemma scaled_above g M a b :
  0 <= g < 2 ^ 64 -> 2 * (g * cf c) + 2 ^ 64 <= 2 ^ 65 * M -> 0 < a -> M * a <= b * one ->
  g * two E * (a * ten (ck c)) < b * ten 0 * unit.
Proof.
  intros Hg HM Ha Hb. destruct accuracy as [H _]. pose proof scales as Hs. pose proof one_pos as H1.
  pose proof (two_pos E HE) as HtE. pose proof unit_pos as Hu. pose proof (ten_pos 0 ltac:(lia)) as HT.
  set (o := one) in *. clearbody o. set (t := two E) in *. set (s := two (ce c)) in *. set (u := unit) in *.
  set (T := ten 0) in *. set (K := ten (ck c)) in *. clearbody t s u T K.
  apply (Z.mul_lt_mono_pos_r (2 * u * o * 2 ^ 64)); [nia|].
  apply Z.le_lt_trans with (g * a * (2 * cf c + 1) * T * (u * u)).
  - rewrite <- Hs. replace (g * t * (a * K) * (2 * u * o * 2 ^ 64)) with ((g * a * t * o * 2 ^ 64) * (2 * (K * u))) by ring.
    replace (g * a * (2 * cf c + 1) * T * (t * s * o * 2 ^ 64)) with
      ((g * a * t * o * 2 ^ 64) * ((2 * cf c + 1) * s * T)) by ring.
    apply Z.mul_le_mono_nonneg_l; [|done]. repeat apply Z.mul_nonneg_nonneg; lia.
  - apply Z.lt_le_trans with (2 ^ 65 * M * a * T * (u * u)).
    + assert (Hlt : g * (2 * cf c + 1) < 2 ^ 65 * M) by lia.
      assert (0 < a * T * (u * u)) by (repeat apply Z.mul_pos_pos; done).
      replace (g * a * (2 * cf c + 1) * T * (u * u)) with (g * (2 * cf c + 1) * (a * T * (u * u))) by ring.
      replace (2 ^ 65 * M * a * T * (u * u)) with (2 ^ 65 * M * (a * T * (u * u))) by ring.
      by apply Z.mul_lt_mono_pos_r.
    + replace (2 ^ 65 * M * a * T * (u * u)) with (M * a * (2 ^ 65 * T * (u * u))) by ring.
      replace (b * T * u * (2 * u * o * 2 ^ 64)) with (b * o * (2 ^ 65 * T * (u * u))) by (change (2 ^ 65) with (2 * 2 ^ 64); ring).
      apply Z.mul_le_mono_nonneg_r; [|done]. repeat apply Z.mul_nonneg_nonneg; lia.
Qed.

(** A number no larger than the scaled upper end is below the upper end. *)
Lemma scaled_below g M a b :
  0 <= g < 2 ^ 64 -> 2 ^ 65 * M + 2 ^ 64 <= 2 * (g * cf c) -> 0 < a -> b * one <= M * a ->
  b * ten 0 * unit < g * two E * (a * ten (ck c)).
Proof.
  intros Hg HM Ha Hb. destruct accuracy as [_ H]. pose proof scales as Hs. pose proof one_pos as H1.
  pose proof (two_pos E HE) as HtE. pose proof unit_pos as Hu. pose proof (ten_pos 0 ltac:(lia)) as HT.
  set (o := one) in *. clearbody o. set (t := two E) in *. set (s := two (ce c)) in *. set (u := unit) in *.
  set (T := ten 0) in *. set (K := ten (ck c)) in *. clearbody t s u T K.
  apply (Z.mul_lt_mono_pos_r (2 * u * o * 2 ^ 64)); [nia|].
  apply Z.lt_le_trans with (g * a * (2 * cf c - 1) * T * (u * u)).
  - apply Z.le_lt_trans with (2 ^ 65 * M * a * T * (u * u)).
    + replace (2 ^ 65 * M * a * T * (u * u)) with (M * a * (2 ^ 65 * T * (u * u))) by ring.
      replace (b * T * u * (2 * u * o * 2 ^ 64)) with (b * o * (2 ^ 65 * T * (u * u))) by (change (2 ^ 65) with (2 * 2 ^ 64); ring).
      apply Z.mul_le_mono_nonneg_r; [|done]. repeat apply Z.mul_nonneg_nonneg; lia.
    + assert (Hlt : 2 ^ 65 * M < g * (2 * cf c - 1)) by lia.
      assert (0 < a * T * (u * u)) by (repeat apply Z.mul_pos_pos; done).
      replace (g * a * (2 * cf c - 1) * T * (u * u)) with (g * (2 * cf c - 1) * (a * T * (u * u))) by ring.
      replace (2 ^ 65 * M * a * T * (u * u)) with (2 ^ 65 * M * (a * T * (u * u))) by ring.
      by apply Z.mul_lt_mono_pos_r.
  - rewrite <- Hs. replace (g * t * (a * K) * (2 * u * o * 2 ^ 64)) with ((g * a * t * o * 2 ^ 64) * (2 * (K * u))) by ring.
    replace (g * a * (2 * cf c - 1) * T * (t * s * o * 2 ^ 64)) with
      ((g * a * t * o * 2 ^ 64) * ((2 * cf c - 1) * s * T)) by ring.
    apply Z.mul_le_mono_nonneg_l; [|done]. repeat apply Z.mul_nonneg_nonneg; lia.
Qed.
End Scaled.

(** ** The numbers the digits are generated from *)

(** What [grisu2] hands to the digit generation: the scaled interval [Mm .. Mp],
    narrowed by a unit at both ends, with the scaled value [W] in it. *)
Record scaled (bits : Z) (c : cached_power) (E Mm W Mp : Z) : Prop := mkScaled {
  sc_accurate : accurate c = true;
  sc_E : -1137 <= E <= 960;
  sc_ck : -300 <= ck c <= 324;
  sc_ce : -1060 <= ce c;
  sc_range : -60 <= ce c + E + 64 <= -32;
  sc_order : 0 < Mm /\ Mm <= W <= Mp /\ Mm < Mp /\ 2 ^ 61 <= Mp < 2 ^ 64;
  sc_wide : Mp <= 10 ^ 16 * (Mp - Mm);
  sc_lower : exists g, 0 <= g < 2 ^ 64 /\ g * two E = lower bits * two (exponent bits - 2) /\
    2 * (g * cf c) + 2 ^ 64 <= 2 ^ 65 * Mm;
  sc_upper : exists g, 0 <= g < 2 ^ 64 /\ g * two E = upper bits * two (exponent bits - 2) /\
    2 ^ 65 * Mp + 2 ^ 64 <= 2 * (g * cf c)
}.

Lemma ends bits :
  0 < bits < infinity ->
  0 < lower bits < 4 * significand bits /\ 4 * significand bits < upper bits /\ upper bits < 2 ^ 55 /\
  3 <= upper bits - lower bits /\ upper bits < 2 ^ 53 * (upper bits - lower bits).
Proof.
  intros Hb. destruct (double_facts bits Hb) as (_ & _ & Hm & _ & Hc). unfold lower, upper.
  change (2 ^ 53) with 9007199254740992 in *. change (2 ^ 52) with 4503599627370496 in *.
  change (2 ^ 55) with 36028797018963968. destruct (closer bits); [destruct Hc as [Hc _]; destruct (Hc eq_refl) as [-> _]|]; lia.
Qed.

(** The arithmetic of the three products. *)
Lemma products (l m h cc Wl W Wh : Z) :
  2 ^ 63 <= cc < 2 ^ 64 -> 0 < l -> l + 2 ^ 9 <= m -> m + 2 ^ 9 <= h -> 2 ^ 63 <= h < 2 ^ 64 -> h < 2 ^ 53 * (h - l) ->
  Wl = (l * cc + 2 ^ 63) / 2 ^ 64 -> W = (m * cc + 2 ^ 63) / 2 ^ 64 -> Wh = (h * cc + 2 ^ 63) / 2 ^ 64 ->
  (0 < Wl + 1 /\ Wl + 1 <= W <= Wh - 1 /\ Wl + 1 < Wh - 1 /\ 2 ^ 61 <= Wh - 1 < 2 ^ 64) /\
  Wh - 1 <= 10 ^ 16 * (Wh - 1 - (Wl + 1)) /\
  2 * (l * cc) + 2 ^ 64 <= 2 ^ 65 * (Wl + 1) /\ 2 ^ 65 * (Wh - 1) + 2 ^ 64 <= 2 * (h * cc).
Proof.
  intros Hc Hl Hlm Hmh Hh Hw El EW Eh.
  assert (H1 : l * cc + 2 ^ 9 * 2 ^ 63 <= m * cc) by nia.
  assert (H2 : m * cc + 2 ^ 9 * 2 ^ 63 <= h * cc) by nia.
  assert (H3 : 2 ^ 63 * 2 ^ 63 <= h * cc < 2 ^ 64 * 2 ^ 64 - 2 ^ 64) by nia.
  assert (H4 : h * cc <= 2 ^ 53 * (h * cc - l * cc)) by nia.
  assert (H5 : 0 <= l * cc) by nia.
  set (A := l * cc) in *. set (B := m * cc) in *. set (C := h * cc) in *. clearbody A B C.
  change (2 ^ 63) with 9223372036854775808 in *. change (2 ^ 64) with 18446744073709551616 in *.
  change (2 ^ 9) with 512 in *. change (2 ^ 53) with 9007199254740992 in *. change (2 ^ 61) with 2305843009213693952.
  change (2 ^ 65) with 36893488147419103232. change (10 ^ 16) with 10000000000000000.
  Z.to_euclidean_division_equations. lia.
Qed.

End Diyfp.
