(* ===== verification/JsonGrisu.v ===== *)
(** * The printer of doubles: Grisu2

    The digits Grisu2 generates for a positive finite double are at most 17, stay
    in the buffer, fail none of the assertions of the code, and are the decimal
    digits of a number in the rounding interval of the double: reading them gives
    the double back. *)
From S2P Require Import Prelude JsonFloat JsonLexer JsonLexing JsonIntegers JsonRounding JsonDiyfp.

Module Grisu.
Import Float dtoa_impl Rounding Diyfp Decimals.

(** ** A block that starts with a text *)
Definition block (size : Z) (t buf : bytes) : Prop := zlen buf = size /\ exists r, buf = t ++ r.

Lemma block_nil buf : block (zlen buf) [] buf.
Proof. split; [done|]. by exists buf. Qed.

Lemma block_prefix size t x buf : block size (t ++ x) buf -> block size t buf.
Proof. intros [H (r & ->)]. split; [done|]. exists (x ++ r). by rewrite app_assoc. Qed.

Lemma block_length size t buf : block size t buf -> zlen t <= size.
Proof. intros [<- (r & ->)]. rewrite zlen_app. pose proof (zlen_nonneg r). lia. Qed.

(** Bytes written over the end [x] of the text. *)
Lemma store_block size t x d buf :
  block size (t ++ x) buf -> zlen x <= zlen d -> zlen t + zlen d <= size ->
  exists buf', store (zlen t) d buf = Ret buf' /\ block size (t ++ d) buf'.
Proof.
  intros [Hs (r & ->)] Hx Hd. pose proof (zlen_nonneg t). rewrite store_ok by lia. eexists. split; [done|].
  split; [by rewrite zlen_splice by lia|]. eexists. unfold splice.
  rewrite <- !app_assoc. unfold zlen at 1. rewrite Nat2Z.id, take_app_length. reflexivity.
Qed.

Lemma store_end size t d buf p :
  block size t buf -> p = zlen t -> zlen t + zlen d <= size ->
  exists buf', store p d buf = Ret buf' /\ block size (t ++ d) buf'.
Proof.
  intros Hb -> Hd. apply (store_block _ _ []); [by rewrite app_nil_r| |done]. rewrite zlen_nil. apply zlen_nonneg.
Qed.

(** ** Digits *)

(** The digits of a number so far, none for zero. *)
Definition text (D : Z) : bytes := if D =? 0 then [] else decimal D.

Lemma text_decimal D : 0 < D -> text D = decimal D.
Proof. intros H. unfold text. by destruct (Z.eqb_spec D 0); [lia|]. Qed.

Lemma text_snoc D d : 0 <= D -> 0 <= d < 10 -> 0 < 10 * D + d -> text (10 * D + d) = text D ++ [digit_char d].
Proof.
  intros HD Hd Hp. rewrite (text_decimal (10 * D + d)) by done. unfold text.
  destruct (Z.eqb_spec D 0) as [->|Hne]; [by rewrite decimal_small|].
  rewrite decimal_step by lia. replace ((10 * D + d) / 10) with D by zdiv.
  by replace ((10 * D + d) mod 10) with d by zdiv.
Qed.

Lemma text_length D n : 0 <= D < 10 ^ n -> 1 <= n -> 0 <= zlen (text D) <= n.
Proof.
  intros HD Hn. unfold text. destruct (D =? 0); [by unfold zlen; cbn; lia|].
  pose proof (decimal_length D n HD Hn). lia.
Qed.

(** The state of the generation: the buffer holds the digits of [D] after [pre]. *)
Record written (size : Z) (pre : bytes) (D : Z) (s : digits) : Prop := mkWritten {
  wr_block : block size (pre ++ text D) (buffer s);
  wr_length : length s = zlen (text D)
}.

Lemma put_digit_spec size pre D s d :
  written size pre D s -> 0 <= D -> 0 <= d < 10 -> 0 < 10 * D + d -> D < 10 ^ 16 -> zlen pre + 17 <= size ->
  exists s', put_digit (zlen pre) d s = Ret s' /\ written size pre (10 * D + d) s' /\
    decimal_exponent s' = decimal_exponent s.
Proof.
  intros [Hb Hl] HD Hd Hp Hlt Hs. unfold put_digit. destruct (Z.leb_spec d 9); [|lia].
  cbn [assert_that mbind outcome_bind]. rewrite Hl.
  destruct (text_length D 16) as [H1 H2]; [lia|lia|].
  destruct (store_end size (pre ++ text D) [byte.of_Z (48 + d)] (buffer s) (zlen pre + zlen (text D))) as (b & E & Hb');
    [done|by rewrite zlen_app|rewrite zlen_app; change (zlen [_]) with 1; lia|].
  unfold put. rewrite E. cbn [mbind outcome_bind]. eexists. split; [done|]. split; [|done].
  split; cbn [buffer length]; rewrite text_snoc by lia; [by rewrite app_assoc|].
  rewrite zlen_app. done.
Qed.

(** ** Rounding *)

Lemma text_last D : 0 < D -> text D = text (D / 10) ++ [digit_char (D mod 10)].
Proof.
  intros H. rewrite <- text_snoc by zdiv. f_equal. zdiv.
Qed.

(** The loop takes the last digit down towards the value without leaving the
    interval, and never below one. *)
Lemma round_loop_spec fuel size pre D buf dist delta rest U T :
  block size (pre ++ text D) buf -> 0 < D -> 0 < U -> T = D * U + rest -> 0 <= rest <= delta ->
  delta < rest + (D mod 10) * U -> delta < 2 ^ 64 -> U < 2 ^ 64 -> D mod 10 < Z.of_nat fuel ->
  exists buf' D', round_loop fuel (zlen pre + zlen (text D) - 1) buf dist delta rest U = Ret buf' /\
    block size (pre ++ text D') buf' /\ 0 < D' /\ zlen (text D') = zlen (text D) /\ T - delta <= D' * U <= T.
Proof.
  revert D buf rest. induction fuel as [|fuel IH]; intros D buf rest Hb HD HU HT Hr Hprev Hdelta HU64 Hf; [lia|].
  cbn [round_loop].
  destruct ((rest <? dist) && (U <=? u64 (delta - rest)) && _) eqn:Hc.
  2: { exists buf, D. split; [done|]. split; [done|]. split; [done|]. split; [done|]. lia. }
  rewrite !andb_true_iff in Hc. destruct Hc as [[_ Hu] _]. rewrite uwrap_small in Hu by lia. apply Z.leb_le in Hu.
  rewrite (uwrap_small 64 (rest + U)) by lia.
  assert (H2 : 2 <= D mod 10 < 10) by (split; [nia|zdiv]).
  rewrite (text_last D) in Hb |- * by done. rewrite !zlen_app. change (zlen [_]) with 1.
  set (last := zlen pre + (zlen (text (D / 10)) + 1) - 1).
  assert (Hlast : last = zlen (pre ++ text (D / 10))) by (rewrite zlen_app; unfold last; lia).
  rewrite app_assoc in Hb.
  assert (El : load1 last buf = Ret (digit_char (D mod 10))).
  { destruct Hb as [_ (r & ->)]. rewrite <- app_assoc. by apply load1_mid. }
  rewrite El. cbn [mbind outcome_bind]. destruct (digit_char_digit (D mod 10)) as [_ Ed]; [lia|]. rewrite Ed.
  destruct (Z.eqb_spec (48 + D mod 10) 48); [lia|]. cbn [negb assert_that mbind outcome_bind]. unfold put.
  replace (48 + D mod 10 - 1) with (48 + (D mod 10 - 1)) by lia.
  rewrite Hlast. fold (digit_char (D mod 10 - 1)).
  destruct (store_block size (pre ++ text (D / 10)) [digit_char (D mod 10)] [digit_char (D mod 10 - 1)] buf Hb)
    as (buf' & -> & Hb'); [done|by apply block_length in Hb; rewrite zlen_app in Hb|].
  cbn [mbind outcome_bind].
  assert (E10 : (D - 1) / 10 = D / 10 /\ (D - 1) mod 10 = D mod 10 - 1) by zdiv. destruct E10 as [Eq Em].
  rewrite <- app_assoc in Hb'. rewrite <- Eq, <- Em, <- text_last in Hb' by zdiv.
  assert (Elast : zlen (pre ++ text (D / 10)) = zlen pre + zlen (text (D - 1)) - 1)
    by (rewrite (text_last (D - 1)), Eq, !zlen_app by zdiv; change (zlen [_]) with 1; lia).
  rewrite Elast.
  destruct (IH (D - 1) buf' (rest + U) Hb') as (b & D' & E & H1 & H3 & H4 & H5);
    [zdiv|done|lia|lia|nia|done|done|lia|].
  exists b, D'. split; [exact E|]. split; [done|]. split; [done|]. split; [|done].
  rewrite H4, (text_last (D - 1)), Eq, zlen_app by zdiv. done.
Qed.

Lemma grisu2_round_spec size pre D buf dist delta rest U T :
  block size (pre ++ text D) buf -> 0 < D -> 0 < U -> T = D * U + rest -> 0 <= rest <= delta ->
  delta < rest + (D mod 10) * U -> delta < 2 ^ 64 -> U < 2 ^ 64 -> dist <= delta ->
  exists buf' D', grisu2_round (zlen pre) buf (zlen (text D)) dist delta rest U = Ret buf' /\
    block size (pre ++ text D') buf' /\ 0 < D' /\ zlen (text D') = zlen (text D) /\ T - delta <= D' * U <= T.
Proof.
  intros Hb HD HU HT Hr Hprev Hdelta HU64 Hdist. unfold grisu2_round.
  pose proof (text_last D HD) as El. assert (1 <= zlen (text D)).
  { rewrite El, zlen_app. pose proof (zlen_nonneg (text (D / 10))). change (zlen [_]) with 1. lia. }
  destruct (Z.leb_spec 1 (zlen (text D))); [|lia]. destruct (Z.leb_spec dist delta); [|lia].
  destruct (Z.leb_spec rest delta); [|lia]. destruct (Z.ltb_spec 0 U); [|lia]. cbn [assert_that mbind outcome_bind].
  apply (round_loop_spec 10 size pre D buf dist delta rest U T); try done. zdiv.
Qed.

(** ** The two loops *)
Section Generation.
Context (size : Z) (pre : bytes) (k Mm W Mp K : Z).
Context (Hsize : zlen pre + 17 <= size) (Hk : 32 <= k <= 60)
  (Horder : 0 < Mm /\ Mm <= W <= Mp /\ Mm < Mp /\ Mp < 2 ^ 64) (Hwide : Mp <= 10 ^ 16 * (Mp - Mm)).
Abbreviation one := (2 ^ k).
Abbreviation delta := (Mp - Mm).
Abbreviation dist := (Mp - W).

Lemma one_bounds : 0 < one <= 2 ^ 60.
Proof. split; [apply Z.pow_pos_nonneg; lia|apply Z.pow_le_mono_r; lia]. Qed.

(** The digits are those of a number in the interval: [D], [n] zeros more or [m]
    digits after the point. *)
Definition generated (s : digits) : Prop :=
  exists D n m, 0 < D /\ written size pre D s /\ zlen (text D) <= 17 /\ 0 <= n <= 10 /\ 0 <= m <= 17 /\
    decimal_exponent s = K + n - m /\ Mm * 10 ^ m <= D * 10 ^ n * one <= Mp * 10 ^ m.

(** As long as the rest is outside of the interval there are at most 16 digits. *)
Lemma few_digits D U rest d T c :
  0 < c -> T = Mp * c -> d = delta * c -> T = D * U + rest -> 0 <= rest -> 0 <= D -> d < U -> D < 10 ^ 16.
Proof.
  intros Hc -> -> HT Hr HD Hd.
  assert (Mp * c <= 10 ^ 16 * (delta * c)) by nia.
  destruct (Z.lt_ge_cases D (10 ^ 16)) as [|Hge]; [done|]. exfalso.
  assert (10 ^ 16 * U <= D * U) by (apply Z.mul_le_mono_nonneg_r; nia). lia.
Qed.

Lemma mixed_radix a b x y : 0 <= a < x -> 0 <= b < y -> 0 <= a * y + b < x * y.
Proof.
  intros Ha Hb. assert (a * y <= (x - 1) * y) by (apply Z.mul_le_mono_nonneg_r; lia).
  assert (0 <= a * y) by (apply Z.mul_nonneg_nonneg; lia). lia.
Qed.

Lemma integral_loop_spec n p1 p2 s D :
  written size pre D s -> decimal_exponent s = K -> 0 <= D ->
  Mp = D * (10 ^ Z.of_nat n * one) + (p1 * one + p2) -> 0 <= p1 < 10 ^ Z.of_nat n -> 0 <= p2 < one ->
  (D = 0 -> (0 < n)%nat /\ 10 ^ (Z.of_nat n - 1) <= p1) -> (0 < D -> delta < p1 * one + p2) -> (n <= 10)%nat ->
  exists r, integral_loop n (zlen pre) (- k) delta dist p1 p2 (10 ^ (Z.of_nat n - 1)) s = Ret r /\
    match r with
    | inl s' => generated s'
    | inr s' => exists D', 0 < D' /\ written size pre D' s' /\ decimal_exponent s' = K /\
                  Mp = D' * one + p2 /\ delta < p2
    end.
Proof.
  pose proof one_bounds as H1. revert p1 s D.
  induction n as [|n IH]; intros p1 s D Hw Hexp HD HT Hp1 Hp2 Hfirst Hrest Hn.
  { assert (0 < D) by (destruct (Z.eq_dec D 0) as [E|]; [destruct (Hfirst E); lia|lia]).
    change (10 ^ Z.of_nat 0) with 1 in *. exists (inr s). split; [done|]. exists D.
    assert (p1 = 0) as -> by lia. split; [done|]. split; [done|]. split; [done|]. split; [lia|]. specialize (Hrest H). lia. }
  rewrite Nat2Z.inj_succ in *. rewrite Z.pow_succ_r in HT, Hp1 by lia.
  replace (Z.succ (Z.of_nat n) - 1) with (Z.of_nat n) in * by lia.
  assert (Hten : 0 < 10 ^ Z.of_nat n) by (apply Z.pow_pos_nonneg; lia). set (X := 10 ^ Z.of_nat n) in *.
  cbn [integral_loop]. set (d := p1 / X). set (r := p1 mod X).
  assert (Ep1 : p1 = X * d + r) by (apply Z.div_mod; lia). assert (Hr : 0 <= r < X) by (apply Z.mod_pos_bound; lia).
  assert (Hd : 0 <= d < 10) by (split; [apply Z.div_pos; lia|apply Z.div_lt_upper_bound; lia]).
  assert (Hpos : 0 < 10 * D + d).
  { destruct (Z.eq_dec D 0) as [E|]; [|lia]. destruct (Hfirst E) as [_ H]. destruct (Z.eq_dec d 0) as [E0|]; [|lia]. rewrite E0 in Ep1. lia. }
  assert (HD16 : D < 10 ^ 16).
  { destruct (Z.eq_dec D 0) as [->|]; [lia|]. specialize (Hrest ltac:(lia)).
    pose proof (mixed_radix p1 p2 (10 * X) one ltac:(lia) ltac:(lia)).
    eapply (few_digits D (10 * X * one) (p1 * one + p2) delta Mp 1); lia. }
  destruct (put_digit_spec size pre D s d Hw HD Hd Hpos HD16 Hsize) as (s1 & -> & Hw1 & He1).
  cbn [mbind outcome_bind]. rewrite Z.opp_involutive.
  assert (HT1 : Mp = (10 * D + d) * (X * one) + (r * one + p2)) by (rewrite HT, Ep1; ring).
  assert (Hlow : 0 <= r * one + p2 < X * one) by (apply mixed_radix; lia).
  assert (HU : X * one <= Mp).
  { assert (0 < X * one) by (apply Z.mul_pos_pos; lia).
    pose proof (Z.mul_le_mono_nonneg_r 1 (10 * D + d) (X * one) ltac:(lia) ltac:(lia)). lia. }
  assert (Hshift : forall x, 0 <= x * one < 2 ^ 64 -> u64 (Z.shiftl x k) = x * one)
    by (intros x Hx; rewrite Z.shiftl_mul_pow2 by lia; by apply uwrap_small).
  rewrite (Hshift r) by lia. rewrite (uwrap_small 64) by lia.
  destruct (Z.leb_spec (r * one + p2) delta) as [Hle|Hgt].
  - assert (H1000 : 0 <= X * one < 2 ^ 64) by lia. rewrite (Hshift X) by done.
    destruct (grisu2_round_spec size pre (10 * D + d) (buffer s1) dist delta (r * one + p2) (X * one) Mp)
      as (b & D' & E & Hb & HD' & Hl & Hin); try done; try lia.
    { apply (wr_block _ _ _ _ Hw1). }
    { replace ((10 * D + d) mod 10) with d by zdiv. destruct (Z.eq_dec D 0) as [E0|].
      - rewrite E0 in HT1. replace (10 * 0 + d) with d in HT1 by lia. lia.
      - specialize (Hrest ltac:(lia)). rewrite Ep1 in Hrest. lia. }
    rewrite (wr_length _ _ _ _ Hw1), E. cbn [mbind outcome_bind]. eexists. split; [done|].
    exists D', (Z.of_nat n), 0. split; [done|]. split; [by split|].
    destruct (text_length (10 * D + d) 17) as [_ H17]; [lia|lia|]. split; [lia|]. split; [lia|]. split; [lia|].
    cbn [decimal_exponent]. split; [lia|]. rewrite !Z.mul_1_r, <- Z.mul_assoc. fold X. lia.
  - replace (X / 10) with (10 ^ (Z.of_nat n - 1)).
    2: { unfold X. destruct n as [|n]; [done|]. rewrite Nat2Z.inj_succ, Z.pow_succ_r by lia.
         replace (Z.succ (Z.of_nat n) - 1) with (Z.of_nat n) by lia. rewrite Z.mul_comm, Z.div_mul by lia. done. }
    apply (IH r s1 (10 * D + d)); try done; lia.
Qed.

Lemma digits_16 D p2 m :
  0 < D -> 0 <= m -> Mp * 10 ^ m = D * one + p2 -> delta * 10 ^ m < p2 < one -> D < 10 ^ 16.
Proof.
  intros HD Hm HT Hp2. assert (0 < 10 ^ m) by (apply Z.pow_pos_nonneg; lia).
  assert (0 < delta * 10 ^ m) by (apply Z.mul_pos_pos; lia).
  eapply (few_digits D one p2 _ _ (10 ^ m)); try done; lia.
Qed.

(** The digits after the point; everything is scaled by ten in each round. *)
Lemma fractional_loop_spec fuel s D p2 m :
  written size pre D s -> decimal_exponent s = K -> 0 < D -> 0 <= m -> 10 ^ m <= D ->
  Mp * 10 ^ m = D * one + p2 -> delta * 10 ^ m < p2 < one -> 17 - m < Z.of_nat fuel ->
  exists s' m' p2' D', fractional_loop fuel (zlen pre) (mkDiyfp one (- k)) (delta * 10 ^ m) (dist * 10 ^ m) p2 m s =
      Ret (s', m', delta * 10 ^ m', dist * 10 ^ m', p2') /\
    0 < D' < 10 ^ 17 /\ written size pre D' s' /\ decimal_exponent s' = K /\ 0 <= m' <= 17 /\
    Mp * 10 ^ m' = D' * one + p2' /\ 0 <= p2' <= delta * 10 ^ m' /\
    delta * 10 ^ m' < p2' + (D' mod 10) * one /\ delta * 10 ^ m' < 2 ^ 64.
Proof.
  pose proof one_bounds as H1. revert s D p2 m.
  induction fuel as [|fuel IH]; intros s D p2 m Hw Hexp HD Hm HDm HT Hp2 Hf.
  { exfalso. assert (10 ^ 17 <= 10 ^ m) by (apply Z.pow_le_mono_r; lia).
    pose proof (digits_16 D p2 m HD Hm HT Hp2). lia. }
  assert (HD16 : D < 10 ^ 16) by (eapply digits_16; eassumption).
  assert (Hc : 0 < 10 ^ m) by (apply Z.pow_pos_nonneg; lia).
  assert (Hm16 : m < 16).
  { destruct (Z.lt_ge_cases m 16) as [|Hge]; [done|]. assert (10 ^ 16 <= 10 ^ m) by (apply Z.pow_le_mono_r; lia). lia. }
  assert (Hd0 : 0 <= dist * 10 ^ m <= delta * 10 ^ m)
    by (split; [apply Z.mul_nonneg_nonneg|apply Z.mul_le_mono_nonneg_r]; lia).
  cbn [fractional_loop f e]. change ((2 ^ 64 - 1) / 10) with 1844674407370955161.
  change (2 ^ 60) with 1152921504606846976 in H1.
  destruct (Z.leb_spec p2 1844674407370955161); [|lia]. cbn [assert_that mbind outcome_bind].
  change (2 ^ 64) with 18446744073709551616 in *.
  rewrite (uwrap_small 64 (p2 * 10)) by (change (2 ^ 64) with 18446744073709551616; lia).
  rewrite Z.opp_involutive, Z.shiftr_div_pow2 by lia.
  replace (one - 1) with (Z.ones k) by (rewrite Z.ones_equiv; lia). rewrite Z.land_ones by lia.
  set (d := p2 * 10 / one). set (r := p2 * 10 mod one).
  assert (Ep : p2 * 10 = one * d + r) by (apply Z.div_mod; lia). assert (Hr : 0 <= r < one) by (apply Z.mod_pos_bound; lia).
  assert (Hd : 0 <= d < 10) by (split; [apply Z.div_pos; lia|apply Z.div_lt_upper_bound; lia]).
  destruct (put_digit_spec size pre D s d Hw ltac:(lia) Hd ltac:(lia) HD16 Hsize) as (s1 & -> & Hw1 & He1).
  cbn [mbind outcome_bind].
  rewrite (uwrap_small 64 (delta * 10 ^ m * 10)), (uwrap_small 64 (dist * 10 ^ m * 10))
    by (change (2 ^ 64) with 18446744073709551616; lia).
  assert (Et : 10 ^ (m + 1) = 10 ^ m * 10) by (rewrite Z.pow_add_r by lia; done).
  rewrite <- !Z.mul_assoc, <- Et.
  assert (HT1 : Mp * 10 ^ (m + 1) = (10 * D + d) * one + r) by (rewrite Et, Z.mul_assoc, HT; lia).
  destruct (Z.leb_spec r (delta * 10 ^ (m + 1))) as [Hle|Hgt].
  - exists s1, (m + 1), r, (10 * D + d). split; [done|]. split; [lia|]. split; [done|]. split; [congruence|].
    split; [lia|]. split; [done|]. split; [lia|].
    replace ((10 * D + d) mod 10) with d by zdiv. rewrite Et. lia.
  - apply (IH s1 (10 * D + d) r (m + 1)); try done; lia.
Qed.

(** Both loops. *)
Lemma find_largest_pow10_spec x :
  0 < x < 2 ^ 32 -> exists n, find_largest_pow10 x = (Z.of_nat n, 10 ^ (Z.of_nat n - 1)) /\ (0 < n <= 10)%nat /\
    10 ^ (Z.of_nat n - 1) <= x < 10 ^ Z.of_nat n.
Proof.
  intros Hx. change (2 ^ 32) with 4294967296 in Hx. unfold find_largest_pow10.
  assert (Hgo : forall n a b, 10 ^ (Z.of_nat n - 1) = a -> 10 ^ Z.of_nat n = b -> (0 < n <= 10)%nat -> a <= x < b ->
    exists n', (Z.of_nat n, a) = (Z.of_nat n', 10 ^ (Z.of_nat n' - 1)) /\ (0 < n' <= 10)%nat /\
      10 ^ (Z.of_nat n' - 1) <= x < 10 ^ Z.of_nat n') by (intros n a b <- <- Hn Hab; by exists n).
  destruct (Z.leb_spec 1000000000 x); [apply (Hgo 10%nat _ _ eq_refl eq_refl); lia|].
  destruct (Z.leb_spec 100000000 x); [apply (Hgo 9%nat _ _ eq_refl eq_refl); lia|].
  destruct (Z.leb_spec 10000000 x); [apply (Hgo 8%nat _ _ eq_refl eq_refl); lia|].
  destruct (Z.leb_spec 1000000 x); [apply (Hgo 7%nat _ _ eq_refl eq_refl); lia|].
  destruct (Z.leb_spec 100000 x); [apply (Hgo 6%nat _ _ eq_refl eq_refl); lia|].
  destruct (Z.leb_spec 10000 x); [apply (Hgo 5%nat _ _ eq_refl eq_refl); lia|].
  destruct (Z.leb_spec 1000 x); [apply (Hgo 4%nat _ _ eq_refl eq_refl); lia|].
  destruct (Z.leb_spec 100 x); [apply (Hgo 3%nat _ _ eq_refl eq_refl); lia|].
  destruct (Z.leb_spec 10 x); [apply (Hgo 2%nat _ _ eq_refl eq_refl); lia|apply (Hgo 1%nat _ _ eq_refl eq_refl); lia].
Qed.

Lemma digit_gen_spec buf :
  block size pre buf -> one <= Mp ->
  exists s, grisu2_digit_gen (zlen pre) buf K (mkDiyfp Mm (- k)) (mkDiyfp W (- k)) (mkDiyfp Mp (- k)) = Ret s /\
    generated s.
Proof.
  intros Hb Hone. pose proof one_bounds as H1. unfold grisu2_digit_gen, sub. cbn [f e].
  unfold kAlpha, kGamma. destruct (Z.leb_spec (-60) (- k)), (Z.leb_spec (- k) (-32)); try lia.
  rewrite Z.eqb_refl. cbn [assert_that mbind outcome_bind].
  destruct (Z.leb_spec Mm Mp), (Z.leb_spec W Mp); try lia. cbn [assert_that mbind outcome_bind f].
  rewrite !(uwrap_small 64 (Mp - _)) by lia. rewrite Z.opp_involutive.
  rewrite Z.shiftl_mul_pow2, Z.mul_1_l by lia. change (2 ^ 60) with 1152921504606846976 in H1.
  rewrite (uwrap_small 64 one) by (change (2 ^ 64) with 18446744073709551616; lia).
  replace (one - 1) with (Z.ones k) by (rewrite Z.ones_equiv; lia). rewrite Z.land_ones, Z.shiftr_div_pow2 by lia.
  assert (Hp1 : 0 < Mp / one < 2 ^ 32).
  { split; [apply Z.div_str_pos; lia|]. apply Z.div_lt_upper_bound; [lia|].
    assert (2 ^ 32 <= one) by (apply Z.pow_le_mono_r; lia). change (2 ^ 64) with 18446744073709551616 in Horder.
    change (2 ^ 32) with 4294967296 in *. lia. }
  rewrite (uwrap_small 32) by lia. pose proof (Z.div_mod Mp one ltac:(lia)) as Ediv.
  pose proof (Z.mod_pos_bound Mp one ltac:(lia)) as Hp2.
  set (p1 := Mp / one) in *. set (p2 := Mp mod one) in *. destruct (Z.ltb_spec 0 p1); [|lia].
  cbn [assert_that mbind outcome_bind].
  destruct (find_largest_pow10_spec p1 Hp1) as (n & -> & Hn & Hlarge). rewrite Nat2Z.id.
  destruct (integral_loop_spec n p1 p2 (mkDigits buf 0 K) 0) as (r & E & Hr); try done; try lia.
  { split; [by rewrite app_nil_r|done]. }
  rewrite E. cbn [mbind outcome_bind]. destruct r as [s|s]; [by exists s|].
  destruct Hr as (D & HD & Hw & He & HT & Hrest). destruct (Z.ltb_spec delta p2); [|lia].
  cbn [assert_that mbind outcome_bind].
  destruct (fractional_loop_spec 20 s D p2 0) as (s' & m & q & D' & E2 & HD' & Hw' & He' & Hm & HT' & Hq & Hprev & H64);
    try done; try lia.
  rewrite Z.pow_0_r, !Z.mul_1_r in E2. rewrite E2. cbn [mbind outcome_bind f].
  assert (Hc : 0 < 10 ^ m) by (apply Z.pow_pos_nonneg; lia).
  destruct (grisu2_round_spec size pre D' (buffer s') (dist * 10 ^ m) (delta * 10 ^ m) q one (Mp * 10 ^ m))
    as (b & D2 & E3 & Hb3 & HD3 & Hl3 & Hin); try done; try lia.
  { apply (wr_block _ _ _ _ Hw'). }
  { apply Z.mul_le_mono_nonneg_r; lia. }
  rewrite (wr_length _ _ _ _ Hw'), E3. cbn [mbind outcome_bind]. eexists. split; [done|].
  exists D2, 0, m. split; [done|]. split; [by split|].
  destruct (text_length D' 17) as [_ H17]; [lia|lia|]. split; [lia|]. split; [lia|]. split; [lia|].
  cbn [decimal_exponent]. split; [lia|]. rewrite Z.pow_0_r, Z.mul_1_r. lia.
Qed.

End Generation.

(** ** The whole of Grisu2 *)

(** The magnitude [D * 10 ^ X] is in the rounding interval of the double. *)
Definition decimal_within (bits D X : Z) : Prop := within bits (D * 10 ^ Z.max 0 X) (10 ^ Z.max 0 (- X)).

Lemma scaled_within bits c E Mm W Mp D n m :
  scaled bits c E Mm W Mp -> 0 <= n -> 0 <= m ->
  Mm * 10 ^ m <= D * 10 ^ n * 2 ^ (- (E + ce c + 64)) <= Mp * 10 ^ m ->
  decimal_within bits D (- ck c + n - m).
Proof.
  intros [Hacc HE Hck Hce Hr _ _ (g & Hg & Eg & Hlo) (h & Hh & Eh & Hhi)] Hn Hm [H1 H2]. unfold decimal_within.
  assert (Hm10 : 0 < 10 ^ m) by (apply Z.pow_pos_nonneg; lia).
  apply (within_scale bits (D * 10 ^ n * ten 0) (10 ^ m * ten (ck c))).
  - apply Z.mul_pos_pos; [done|apply ten_pos; lia].
  - apply Z.pow_pos_nonneg; lia.
  - unfold ten. set (a := Z.max 0 (- (- ck c + n - m))). set (b := Z.max 0 (- ck c + n - m)).
    assert (Ep : 10 ^ n * 10 ^ (0 + 400) * 10 ^ a = 10 ^ b * (10 ^ m * 10 ^ (ck c + 400)))
      by (rewrite <- !Z.pow_add_r by lia; f_equal; lia).
    rewrite <- !Z.mul_assoc in *. rewrite Ep. ring.
  - unfold within. rewrite <- Eg, <- Eh. split.
    + apply (scaled_above c E Hacc ltac:(lia) ltac:(lia) ltac:(lia) g Mm (10 ^ m)); try done; lia.
    + apply (scaled_below c E Hacc ltac:(lia) ltac:(lia) ltac:(lia) h Mp (10 ^ m)); try done; lia.
Qed.

Lemma grisu2_spec size pre buf bits :
  0 < bits < infinity -> block size pre buf -> zlen pre + 17 <= size ->
  exists s D, grisu2 (zlen pre) buf bits = Ret s /\ 0 < D /\ written size pre D s /\ zlen (text D) <= 17 /\
    -400 < decimal_exponent s < 400 /\ decimal_within bits D (decimal_exponent s).
Proof.
  intros Hb Hblk Hsize. destruct (parts bits Hb) as (Hf & Hs & _ & _). unfold grisu2. rewrite Hf, Hs.
  destruct (Z.eqb_spec bits 0); [lia|]. cbn [negb andb assert_that mbind outcome_bind].
  destruct (compute_boundaries_spec bits Hb) as (j & Hj & -> & Hmid & Hhigh & H9).
  destruct (double_facts bits Hb) as (_ & Hq & Hm & _ & _). destruct (ends bits Hb) as (El & Eu & Eu55 & E3 & Ew).
  cbn [mbind outcome_bind w minus plus]. unfold grisu2_scaled. cbn [f e].
  set (E := exponent bits - 2 - j). rewrite !Z.eqb_refl. cbn [assert_that mbind outcome_bind].
  destruct (cached_power_spec E ltac:(unfold E; lia)) as (c & -> & Hacc & Hcf & Hck & Hce & Hrange).
  cbn [mbind outcome_bind].
  assert (Hpow : 0 < 2 ^ j) by (apply Z.pow_pos_nonneg; lia).
  set (l := lower bits * 2 ^ j) in *. set (m := 4 * significand bits * 2 ^ j) in *. set (h := upper bits * 2 ^ j) in *.
  assert (Hl : 0 < l) by (apply Z.mul_pos_pos; lia).
  assert (Hlm : l + 2 ^ 9 <= m).
  { assert ((lower bits + 1) * 2 ^ j <= m) by (apply Z.mul_le_mono_nonneg_r; lia). lia. }
  assert (Hmh : m + 2 ^ 9 <= h).
  { assert ((4 * significand bits + 1) * 2 ^ j <= h) by (apply Z.mul_le_mono_nonneg_r; lia). lia. }
  assert (Hw : h < 2 ^ 53 * (h - l)).
  { unfold h, l. replace (2 ^ 53 * (upper bits * 2 ^ j - lower bits * 2 ^ j)) with
      (2 ^ 53 * (upper bits - lower bits) * 2 ^ j) by ring. by apply Z.mul_lt_mono_pos_r. }
  rewrite !mul_spec by (cbn [f]; lia). cbn [f e].
  destruct (products l m h (cf c) _ _ _ ltac:(lia) Hl Hlm Hmh ltac:(lia) Hw eq_refl eq_refl eq_refl)
    as (Hord & Hwide & Hlow & Hup).
  set (Wl := (l * cf c + 2 ^ 63) / 2 ^ 64) in *. set (W := (m * cf c + 2 ^ 63) / 2 ^ 64) in *.
  set (Wh := (h * cf c + 2 ^ 63) / 2 ^ 64) in *.
  change (2 ^ 61) with 2305843009213693952 in Hord.
  rewrite (uwrap_small 64 (Wl + 1)), (uwrap_small 64 (Wh - 1)) by lia.
  assert (HE2 : two (exponent bits - 2) = 2 ^ j * two E).
  { rewrite <- two_plus by (unfold E; lia). f_equal. unfold E. lia. }
  assert (Hsc : scaled bits c E (Wl + 1) W (Wh - 1)).
  { constructor; [done|unfold E; lia|lia|lia|lia| |done| |].
    - change (2 ^ 61) with 2305843009213693952. lia.
    - exists l. split; [lia|]. split; [unfold l; rewrite HE2; ring|done].
    - exists h. split; [lia|]. split; [unfold h; rewrite HE2; ring|done]. }
  set (k := - (E + ce c + 64)). assert (Hk : 32 <= k <= 60) by (unfold k; lia).
  replace (E + ce c + 64) with (- k) by (unfold k; lia).
  assert (Hone : 2 ^ k <= Wh - 1).
  { assert (2 ^ k <= 2 ^ 60) by (apply Z.pow_le_mono_r; lia). change (2 ^ 60) with 1152921504606846976 in *. lia. }
  destruct (digit_gen_spec size pre k (Wl + 1) W (Wh - 1) (- ck c) Hsize Hk ltac:(lia) Hwide buf Hblk Hone)
    as (s & -> & (D & n' & m' & HD & Hwr & H17 & Hn' & Hm' & He & Hin)).
  exists s, D. split; [done|]. split; [done|]. split; [done|]. split; [done|]. split; [lia|].
  rewrite He. apply (scaled_within bits c E (Wl + 1) W (Wh - 1)); [done|lia|lia|exact Hin].
Qed.

End Grisu.
