(* ===== verification/JsonFloats.v ===== *)
(** * The printer of doubles: the texts

    [to_chars] writes, for every finite double, a number of the JSON grammar with
    a fraction or an exponent, within the bounds of the buffer and whatever the
    buffer held, and [strtod] reads that text back as the same double. *)
From S2P Require Import Prelude JsonFloat JsonLexer JsonLexing JsonIntegers JsonRounding JsonDiyfp JsonGrisu.

Module Floats.
Import Float dtoa_impl Rounding Decimals Lexer Lexing Grisu.

(** ** Numbers with a fraction or an exponent *)

Lemma run_any2 t : digits t -> number_run any2 value_float t = Some value_float.
Proof.
  induction 1 as [|b t Hb _ IH]; [done|]. cbn [number_run number_jump number_type_at].
  by rewrite digit_is_digit, Hb.
Qed.

Lemma run_exponent ty ex : exponent_part ex -> ex <> [] ->
  exists c t, ex = c :: t /\ is_e (uchar c) = true /\ number_run exponent ty t = Some value_float.
Proof.
  intros [->|(c & sg & ds & -> & He & Hsg & Hd & Hn)] Hne; [done|]. exists c, (sg ++ ds).
  split; [done|]. split; [done|]. destruct Hd as [|d ds Hd Hds]; [done|].
  assert (H2 : number_jump sign (uchar d) = Goto any2) by (cbn; by rewrite digit_is_digit, Hd).
  destruct Hsg as [-> |[-> | ->]]; cbn [app].
  - destruct (digits_head d ds) as (H43 & H45 & _); [by constructor|]. cbn [number_run number_jump number_type_at].
    destruct (Z.eqb_spec (uchar d) 43), (Z.eqb_spec (uchar d) 45); try done. cbn [orb].
    rewrite digit_is_digit, Hd. by apply run_any2.
  - cbn [number_run number_type_at]. change (number_jump exponent (uchar (byte.of_Z 43))) with (Goto sign).
    cbn [number_run number_type_at]. rewrite H2. by apply run_any2.
  - cbn [number_run number_type_at]. change (number_jump exponent (uchar (byte.of_Z 45))) with (Goto sign).
    cbn [number_run number_type_at]. rewrite H2. by apply run_any2.
Qed.

Lemma is_e_no_digit c : is_e c = true -> digit c = false /\ (c =? 46) = false.
Proof. unfold is_e, digit. lia. Qed.

Lemma run_decimal2 ds ex : digits ds -> exponent_part ex -> number_run decimal2 value_float (ds ++ ex) = Some value_float.
Proof.
  intros Hd Hex. induction Hd as [|b t Hb _ IH].
  - cbn [app]. destruct ex as [|c ex]; [done|].
    destruct (run_exponent value_float (c :: ex) Hex ltac:(done)) as (c' & t & [= <- <-] & He & Hrun).
    cbn [number_run number_jump number_type_at]. destruct (is_e_no_digit _ He) as [-> _]. by rewrite He.
  - cbn [app number_run number_jump number_type_at]. by rewrite digit_is_digit, Hb.
Qed.

(** After the integer part. *)
Lemma run_tail s ty fr ex :
  s = zero \/ s = any1 -> fraction_part fr -> exponent_part ex -> fr ++ ex <> [] ->
  number_run s ty (fr ++ ex) = Some value_float.
Proof.
  intros Hs [->|(fd & -> & Hd & Hn)] Hex Hne.
  - cbn [app] in *. destruct (run_exponent (number_type_at s ty) ex Hex Hne) as (c & t & -> & He & Hrun).
    destruct (is_e_no_digit _ He) as [Hnd H46].
    destruct Hs as [-> | ->]; cbn [number_run number_jump number_type_at] in *; by rewrite ?Hnd, H46, He.
  - destruct fd as [|b fd]; [done|]. apply digits_cons in Hd as [Hb Hd].
    assert (Hdot : number_run s ty ((byte.of_Z 46 :: b :: fd) ++ ex) = number_run decimal1 (number_type_at s ty) ((b :: fd) ++ ex))
      by (by destruct Hs as [-> | ->]).
    rewrite Hdot. cbn [app number_run number_jump number_type_at]. rewrite digit_is_digit, Hb. by apply run_decimal2.
Qed.

(** An integer part of the grammar. *)
Definition integer_part (t : bytes) : Prop :=
  t = [byte.of_Z 48] \/ exists c ds, t = c :: ds /\ nonzero_digit (uchar c) = true /\ digits ds.

Lemma run_any1 ds t ty : digits ds -> number_run any1 ty (ds ++ t) = number_run any1 ty t.
Proof.
  induction 1 as [|b ds Hb _ IH]; [done|]. cbn [app number_run number_jump number_type_at].
  by rewrite digit_is_digit, Hb.
Qed.

Lemma number_text_float negative ip fr ex :
  integer_part ip -> fraction_part fr -> exponent_part ex -> fr ++ ex <> [] ->
  number_text (sign_text negative ++ ip ++ fr ++ ex) = Some value_float.
Proof.
  intros Hip Hfr Hex Hne.
  assert (Hgo : forall ty, exists b t s, ip ++ fr ++ ex = b :: t /\ uchar b <> 45 /\
     number_run s ty t = Some value_float /\
     ((uchar b = 48 /\ s = zero) \/ (nonzero_digit (uchar b) = true /\ uchar b <> 48 /\ s = any1))).
  { intros ty. destruct Hip as [->|(c & ds & -> & Hc & Hd)].
    - eexists _, _, zero. split; [done|]. split; [done|]. split; [by apply run_tail; auto|]. by left.
    - eexists _, _, any1. split; [done|]. unfold nonzero_digit in *. split; [lia|].
      split; [rewrite run_any1 by done; by apply run_tail; auto|]. right. split; [done|]. split; [lia|done]. }
  destruct negative; cbn [sign_text app].
  - destruct (Hgo value_integer) as (b & t & s & -> & _ & Hrun & Hs).
    change (number_run minus value_unsigned (b :: t) = Some value_float).
    cbn [number_run number_jump number_type_at]. destruct Hs as [[E ->]|(Hb & Hb0 & ->)].
    + by rewrite E.
    + apply Z.eqb_neq in Hb0. by rewrite Hb0, Hb.
  - destruct (Hgo value_unsigned) as (b & t & s & -> & Hb & Hrun & Hs). cbn [number_text].
    apply Z.eqb_neq in Hb. rewrite Hb. destruct Hs as [[E ->]|(Hb1 & Hb0 & ->)].
    + by rewrite E.
    + apply Z.eqb_neq in Hb0. by rewrite Hb0, Hb1.
Qed.

(** ** The layout of the digits *)

Definition zeros (n : Z) : bytes := replicate (Z.to_nat n) (byte.of_Z 48).

Definition exponent_text (x : Z) : bytes :=
  byte.of_Z (if x <? 0 then 45 else 43) ::
  (if Z.abs x <? 10 then [byte.of_Z 48; digit_char (Z.abs x)] else decimal (Z.abs x)).

(** The text of the digits [ds] times [10 ^ x]. *)
Definition layout_text (ds : bytes) (x : Z) : bytes :=
  let k := zlen ds in
  let n := k + x in
  if (k <=? n) && (n <=? 15) then ds ++ zeros (n - k) ++ lit ".0"
  else if (0 <? n) && (n <=? 15) then take (Z.to_nat n) ds ++ byte.of_Z 46 :: drop (Z.to_nat n) ds
  else if (-4 <? n) && (n <=? 0) then lit "0." ++ zeros (- n) ++ ds
  else take 1 ds ++ (if k =? 1 then [] else byte.of_Z 46 :: drop 1 ds) ++ byte.of_Z 101 :: exponent_text (n - 1).

Lemma zeros_digits n : digits (zeros n).
Proof. apply Forall_replicate. done. Qed.

Lemma zeros_value acc n : 0 <= n -> digits_value acc (zeros n) = acc * 10 ^ n.
Proof.
  intros H. unfold zeros. revert n H acc. apply (natlike_ind (fun n => forall acc, digits_value acc (replicate (Z.to_nat n) (byte.of_Z 48)) = acc * 10 ^ n)).
  - intros acc. change (acc = acc * 1). lia.
  - intros n Hn IH acc. rewrite Z2Nat.inj_succ, Z.pow_succ_r by done. cbn [replicate].
    unfold digits_value in *. cbn [foldl]. rewrite IH. change (uchar (byte.of_Z 48)) with 48. lia.
Qed.

Lemma zlen_zeros n : 0 <= n -> zlen (zeros n) = n.
Proof. intros H. unfold zlen, zeros. rewrite length_replicate. lia. Qed.

Lemma exponent_text_value x : -1000 < x < 1000 -> exponent_value (byte.of_Z 101 :: exponent_text x) x.
Proof.
  intros Hx. right. exists (byte.of_Z 101), [byte.of_Z (if x <? 0 then 45 else 43)],
    (if Z.abs x <? 10 then [byte.of_Z 48; digit_char (Z.abs x)] else decimal (Z.abs x)).
  split; [done|]. split; [done|].
  assert (Hd : digits (if Z.abs x <? 10 then [byte.of_Z 48; digit_char (Z.abs x)] else decimal (Z.abs x)) /\
    digits_value 0 (if Z.abs x <? 10 then [byte.of_Z 48; digit_char (Z.abs x)] else decimal (Z.abs x)) = Z.abs x /\
    (if Z.abs x <? 10 then [byte.of_Z 48; digit_char (Z.abs x)] else decimal (Z.abs x)) <> []).
  { destruct (Z.ltb_spec (Z.abs x) 10); [|apply decimal_digits; lia].
    destruct (digit_char_digit (Z.abs x)) as [H1 H2]; [lia|]. split; [by repeat constructor|]. split; [|done].
    unfold digits_value. cbn [foldl]. rewrite H2. change (uchar (byte.of_Z 48)) with 48. lia. }
  destruct Hd as (H1 & H2 & H3). split; [done|]. split; [done|].
  destruct (Z.ltb_spec x 0); [right|left]; (split; [by auto|]); lia.
Qed.

(** A text as the parts of a number: its digits are those of [D] and [j] zeros, at
    the scale of [D * 10 ^ X]. *)
Record parts_of (t : bytes) (D X : Z) (ip fr fd ex : bytes) (x j : Z) : Prop := mkParts {
  pt_text : t = ip ++ fr ++ ex;
  pt_integer : integer_part ip;
  pt_fraction : fraction_digits fr fd;
  pt_digits : digits fd;
  pt_exponent : exponent_value ex x;
  pt_float : fr ++ ex <> [];
  pt_scale : 0 <= j;
  pt_value : digits_value 0 (ip ++ fd) = D * 10 ^ j;
  pt_power : x - zlen fd = X - j
}.

Lemma integer_part_digits ip : integer_part ip -> digits ip /\ ip <> [].
Proof.
  intros [->|(c & ds & -> & Hc & Hd)]; [by split; [repeat constructor|]|]. split; [|done].
  constructor; [|done]. unfold nonzero_digit, is_digit, Float.is_digit in *. lia.
Qed.

Lemma fraction_digits_part fr fd : fraction_digits fr fd -> digits fd -> fraction_part fr.
Proof. intros [[-> ->]|[-> Hn]] Hd; [by left|right; eauto]. Qed.

Lemma exponent_value_part ex x : exponent_value ex x -> exponent_part ex.
Proof.
  intros [[-> _]|(c & sg & ds & -> & He & Hd & Hn & H)]; [by left|]. right. exists c, sg, ds.
  split; [done|]. split; [done|]. split; [|done]. destruct H as [[[-> | ->] _]|[-> _]]; auto.
Qed.

Section Layout.
Context (D X : Z) (HD : 0 < D) (Hlen : zlen (decimal D) <= 17) (HX : -400 < X < 400).
Abbreviation ds := (decimal D).
Abbreviation k := (zlen (decimal D)).

Lemma ds_digits : digits ds /\ digits_value 0 ds = D /\ ds <> [].
Proof. apply decimal_digits. lia. Qed.

Lemma ds_length : 1 <= k.
Proof. destruct ds_digits as (_ & _ & H). apply zlen_pos in H. lia. Qed.

(** The front of the digits. *)
Lemma ds_integer n t : 0 < n -> digits t -> integer_part (take (Z.to_nat n) ds ++ t).
Proof.
  intros Hn Ht. destruct (decimal_head D HD) as (c & t' & -> & Hc & Hd). right.
  destruct (Z.to_nat n) as [|m] eqn:E; [lia|]. exists c, (take m t' ++ t). split; [done|]. split; [done|].
  apply Forall_app. split; [by apply Forall_take|done].
Qed.

Lemma ds_split n : digits (drop (Z.to_nat n) ds) /\ digits_value 0 (take (Z.to_nat n) ds ++ drop (Z.to_nat n) ds) = D.
Proof. destruct ds_digits as (H1 & H2 & _). split; [by apply Forall_drop|]. by rewrite take_drop. Qed.

Lemma zlen_drop n : 0 <= n <= k -> zlen (drop (Z.to_nat n) ds) = k - n.
Proof. unfold zlen. intros H. rewrite length_drop. lia. Qed.

Lemma layout_large :
  k <= k + X <= 15 ->
  parts_of (ds ++ zeros X ++ lit ".0") D X (ds ++ zeros X) (lit ".0") (lit "0") [] 0 (X + 1).
Proof.
  intros H. destruct ds_digits as (H1 & H2 & H3). constructor.
  - by rewrite <- app_assoc.
  - pose proof (ds_integer k (zeros X) ltac:(pose proof ds_length; lia) (zeros_digits X)) as Hi.
    unfold zlen in Hi. rewrite Nat2Z.id, take_ge in Hi by done. exact Hi.
  - by right.
  - by repeat constructor.
  - by left.
  - done.
  - lia.
  - assert (E0 : forall y, digits_value y (lit "0") = y * 10 + 0) by done.
    rewrite !digits_value_app, H2, zeros_value, E0 by lia. rewrite Z.pow_add_r by lia. change (10 ^ 1) with 10. lia.
  - change (zlen (lit "0")) with 1. lia.
Qed.

Lemma layout_middle n :
  n = k + X -> 0 < n < k ->
  parts_of (take (Z.to_nat n) ds ++ byte.of_Z 46 :: drop (Z.to_nat n) ds) D X
    (take (Z.to_nat n) ds) (byte.of_Z 46 :: drop (Z.to_nat n) ds) (drop (Z.to_nat n) ds) [] 0 0.
Proof.
  intros E H. destruct (ds_split n) as [H1 H2]. pose proof (zlen_drop n ltac:(lia)) as Hz. constructor.
  - by rewrite app_nil_r.
  - pose proof (ds_integer n [] ltac:(lia) (Forall_nil_2 _)) as Hi. by rewrite app_nil_r in Hi.
  - right. split; [done|]. intros E0. rewrite E0 in Hz. change (zlen []) with 0 in Hz. lia.
  - done.
  - by left.
  - done.
  - done.
  - rewrite H2. lia.
  - rewrite Hz. lia.
Qed.

Lemma layout_small n :
  n = k + X -> n <= 0 ->
  parts_of (lit "0." ++ zeros (- n) ++ ds) D X (lit "0") (byte.of_Z 46 :: zeros (- n) ++ ds) (zeros (- n) ++ ds) [] 0 0.
Proof.
  intros E H. destruct ds_digits as (H1 & H2 & H3). constructor.
  - by rewrite app_nil_r.
  - by left.
  - right. split; [done|]. intros [_ ?]%app_eq_nil. done.
  - apply Forall_app. split; [apply zeros_digits|done].
  - by left.
  - done.
  - done.
  - rewrite app_assoc, digits_value_app. assert (E0 : digits_value 0 (lit "0" ++ zeros (- n)) = 0).
    { rewrite digits_value_app, zeros_value by lia. change (digits_value 0 (lit "0")) with 0. lia. }
    rewrite E0, H2. lia.
  - rewrite zlen_app, zlen_zeros by lia. lia.
Qed.

Lemma layout_exponent n :
  n = k + X ->
  parts_of (take 1 ds ++ (if k =? 1 then [] else byte.of_Z 46 :: drop 1 ds) ++ byte.of_Z 101 :: exponent_text (n - 1)) D X
    (take 1 ds) (if k =? 1 then [] else byte.of_Z 46 :: drop 1 ds) (drop 1 ds)
    (byte.of_Z 101 :: exponent_text (n - 1)) (n - 1) 0.
Proof.
  intros E. destruct (ds_split 1) as [H1 H2]. change (Z.to_nat 1) with 1%nat in *. pose proof ds_length as Hk.
  pose proof (zlen_drop 1 ltac:(lia)) as Hz. change (Z.to_nat 1) with 1%nat in Hz. constructor.
  - done.
  - pose proof (ds_integer 1 [] ltac:(lia) (Forall_nil_2 _)) as Hi. by rewrite app_nil_r in Hi.
  - destruct (Z.eqb_spec k 1) as [Hk1|Hk1].
    + left. split; [done|]. apply nil_length_inv. unfold zlen in Hz, Hk1. lia.
    + right. split; [done|]. intros E0. rewrite E0 in Hz. change (zlen []) with 0 in Hz. lia.
  - done.
  - apply exponent_text_value. lia.
  - intros [_ ?]%app_eq_nil. done.
  - done.
  - rewrite H2. lia.
  - rewrite Hz. lia.
Qed.

Lemma layout_parts : exists ip fr fd ex x j, parts_of (layout_text ds X) D X ip fr fd ex x j.
Proof.
  pose proof ds_length as Hk. unfold layout_text. cbv zeta. set (n := k + X).
  destruct (Z.leb_spec k n), (Z.leb_spec n 15), (Z.ltb_spec 0 n), (Z.ltb_spec (-4) n), (Z.leb_spec n 0);
    cbn [andb]; try lia;
    first [ replace (n - k) with X by lia; do 6 eexists; apply layout_large; lia
          | do 6 eexists; apply layout_middle; lia
          | do 6 eexists; apply layout_small; lia
          | do 6 eexists; apply layout_exponent; lia ].
Qed.

(** Read back, it is the double whose interval the magnitude is in. *)
Lemma layout_read negative bits :
  0 < bits < infinity -> decimal_within bits D X ->
  number_text (sign_text negative ++ layout_text ds X) = Some value_float /\
  strtod (sign_text negative ++ layout_text ds X) = (signed negative bits, []).
Proof.
  intros Hb Hw. destruct layout_parts as (ip & fr & fd & ex & x & j & [-> Hip Hfr Hfd Hex Hne Hj Hv Hp]).
  destruct (integer_part_digits ip Hip) as [Hid Hin]. split.
  - apply number_text_float; [done|by eapply fraction_digits_part|by eapply exponent_value_part|done].
  - rewrite (strtod_spec negative ip fr fd ex x) by done. do 2 f_equal. rewrite Hv, Hp. unfold of_decimal.
    assert (H10 : forall y, 0 <= y -> 0 < 10 ^ y) by (intros; apply Z.pow_pos_nonneg; lia).
    apply nearest_within; [done| |apply H10; lia|].
    + repeat apply Z.mul_pos_pos; try done; apply H10; lia.
    + eapply within_scale; [| | |exact Hw]; [apply H10; lia..|].
      assert (Ep : 10 ^ Z.max 0 X * 10 ^ Z.max 0 (- (X - j)) = 10 ^ j * 10 ^ Z.max 0 (X - j) * 10 ^ Z.max 0 (- X))
        by (rewrite <- !Z.pow_add_r by lia; f_equal; lia).
      rewrite <- Z.mul_assoc, Ep. ring.
Qed.
End Layout.

(** ** Writing the layout into the buffer *)

Lemma put_end size t c buf p :
  block size t buf -> p = zlen t -> zlen t + 1 <= size ->
  exists buf', put p c buf = Ret buf' /\ block size (t ++ [byte.of_Z c]) buf'.
Proof. intros Hb Hp Hs. by apply store_end. Qed.

(** Bytes stored over bytes of the text, and some way after its end. *)
Lemma store_over size t x y d buf p :
  block size (t ++ x ++ y) buf -> p = zlen t -> zlen d = zlen x ->
  exists buf', store p d buf = Ret buf' /\ block size (t ++ d ++ y) buf'.
Proof.
  intros [Hs (r & ->)] -> Hd. pose proof (zlen_nonneg t). pose proof (zlen_nonneg y). pose proof (zlen_nonneg r).
  pose proof (zlen_nonneg x).
  rewrite store_ok by (rewrite ?zlen_app; lia). eexists. split; [done|].
  split; [rewrite zlen_splice by (rewrite ?zlen_app; lia); done|]. exists r. unfold splice.
  rewrite <- !app_assoc. unfold zlen at 1. rewrite Nat2Z.id, take_app_length. do 2 f_equal.
  replace (zlen t + zlen d) with (zlen (t ++ x)) by (rewrite zlen_app; lia).
  unfold zlen. rewrite Nat2Z.id, app_assoc. apply drop_app_length.
Qed.

Lemma store_far size t n d buf p :
  block size t buf -> 0 <= n -> p = zlen t + n -> p + zlen d <= size ->
  exists w buf', zlen w = n /\ store p d buf = Ret buf' /\ block size (t ++ w ++ d) buf'.
Proof.
  intros [Hs (r & ->)] Hn -> Hd. pose proof (zlen_nonneg t). pose proof (zlen_nonneg d).
  assert (Hr : n + zlen d <= zlen r) by (rewrite zlen_app in Hs; lia).
  exists (take (Z.to_nat n) r). eexists.
  assert (Hw : zlen (take (Z.to_nat n) r) = n) by (unfold zlen in *; rewrite length_take; lia).
  split; [done|]. rewrite store_ok by lia. split; [done|].
  split; [rewrite zlen_splice by lia; done|]. eexists. unfold splice.
  replace (Z.to_nat (zlen t + n)) with (base.length t + Z.to_nat n)%nat by (unfold zlen; lia).
  rewrite take_app_add, <- !app_assoc. reflexivity.
Qed.

Lemma memmove_spec size t d buf p q n m :
  block size (t ++ d) buf -> q = zlen t -> n = zlen d -> p = q + m -> 0 <= m -> p + n <= size ->
  exists w buf', zlen w = m /\ memmove p q n buf = Ret buf' /\ block size (t ++ w ++ d) buf'.
Proof.
  intros Hb -> -> -> Hm Hs. unfold memmove.
  assert (El : load (zlen t) (zlen d) buf = Ret d).
  { destruct Hb as [_ (r & ->)]. rewrite <- app_assoc. by apply load_mid. }
  rewrite El. cbn [mbind outcome_bind]. apply block_prefix in Hb. by apply store_far.
Qed.

Lemma append_exponent_spec size t x buf p :
  block size t buf -> p = zlen t -> zlen t + 4 <= size -> -1000 < x < 1000 ->
  exists buf', append_exponent p buf x = Ret (p + zlen (exponent_text x), buf') /\
    block size (t ++ exponent_text x) buf'.
Proof.
  intros Hb Hp Hs Hx. unfold append_exponent, exponent_text.
  destruct (Z.ltb_spec (-1000) x), (Z.ltb_spec x 1000); try lia. cbn [assert_that mbind outcome_bind].
  set (sg := if x <? 0 then 45 else 43).
  destruct (put_end size t sg buf p Hb Hp ltac:(lia)) as (b1 & -> & H1). cbn [mbind outcome_bind].
  set (a := Z.abs x). assert (Ha : 0 <= a < 1000) by lia.
  assert (Hput : forall t c b q, block size t b -> q = zlen t -> zlen t + 1 <= size ->
    exists b', put q c b = Ret b' /\ block size (t ++ [byte.of_Z c]) b') by (intros; by apply put_end).
  destruct (Hput (t ++ [byte.of_Z sg]) (if a <? 10 then 48 else if a <? 100 then 48 + a / 10 else 48 + a / 100) b1 (p + 1))
    as (b2 & E2 & H2); [done|by rewrite zlen_app, Hp|rewrite zlen_app; change (zlen [_]) with 1; lia|].
  destruct (Hput _ (if a <? 10 then 48 + a else if a <? 100 then 48 + a mod 10 else 48 + (a mod 100) / 10) b2 (p + 1 + 1) H2)
    as (b3 & E3 & H3); [by rewrite !zlen_app, Hp|rewrite !zlen_app; change (zlen [_]) with 1; lia|].
  rewrite <- !app_assoc in H3. cbn [app] in H3. rewrite zlen_cons.
  destruct (Z.ltb_spec a 10) as [H10|H10].
  - rewrite E2. cbn [mbind outcome_bind]. rewrite E3. cbn [mbind outcome_bind]. exists b3. split; [|done].
    do 2 f_equal. change (zlen [_; _]) with 2. lia.
  - destruct (Z.ltb_spec a 100) as [H100|H100].
    + rewrite E2. cbn [mbind outcome_bind]. rewrite E3. cbn [mbind outcome_bind]. exists b3.
      assert (Ed : decimal a = [digit_char (a / 10); digit_char (a mod 10)])
        by (rewrite decimal_step, decimal_small by zdiv; done).
      rewrite Ed. split; [|done]. do 2 f_equal. change (zlen [_; _]) with 2. lia.
    + rewrite E2. cbn [mbind outcome_bind]. rewrite E3. cbn [mbind outcome_bind].
      destruct (Hput _ (48 + (a mod 100) mod 10) b3 (p + 1 + 2) H3) as (b4 & E4 & H4);
        [rewrite zlen_app, Hp; change (zlen [_; _; _]) with 3; lia|rewrite zlen_app; change (zlen [_; _; _]) with 3; lia|].
      rewrite E4. cbn [mbind outcome_bind]. exists b4.
      assert (Ed : decimal a = [digit_char (a / 100); digit_char (a mod 100 / 10); digit_char (a mod 100 mod 10)])
        by (rewrite Integers.decimal_pair, decimal_small by zdiv; done).
      rewrite Ed. rewrite <- app_assoc in H4. split; [|done]. do 2 f_equal. change (zlen [_; _; _]) with 3. lia.
Qed.

Section Format.
Context (size : Z) (pre ds : bytes) (x : Z).
Context (Hds : 1 <= zlen ds <= 17) (Hx : -400 < x < 400) (Hsize : zlen pre + 24 <= size).
Abbreviation k := (zlen ds).

Lemma split_at n : 0 <= n <= k -> ds = take (Z.to_nat n) ds ++ drop (Z.to_nat n) ds /\
  zlen (take (Z.to_nat n) ds) = n /\ zlen (drop (Z.to_nat n) ds) = k - n.
Proof.
  intros H. split; [by rewrite take_drop|]. unfold zlen in *. rewrite length_take, length_drop. lia.
Qed.

Lemma format_large buf n :
  block size (pre ++ ds) buf -> n = k + x -> k <= n <= 15 ->
  exists buf', (buf ← memset (zlen pre + k) 48 (n - k) buf;
     buf ← put (zlen pre + n + 0) 46 buf;
     buf ← put (zlen pre + n + 1) 48 buf;
     Ret (zlen pre + (n + 2), buf)) = Ret (zlen pre + zlen (ds ++ zeros (n - k) ++ lit ".0"), buf') /\
    block size (pre ++ ds ++ zeros (n - k) ++ lit ".0") buf'.
Proof.
  intros Hb En Hn. unfold memset. fold (zeros (n - k)).
  pose proof (zlen_zeros (n - k) ltac:(lia)) as Hz.
  destruct (store_end size (pre ++ ds) (zeros (n - k)) buf (zlen pre + k)) as (b1 & -> & H1);
    [done|by rewrite zlen_app|rewrite zlen_app; lia|].
  cbn [mbind outcome_bind].
  destruct (put_end size _ 46 b1 (zlen pre + n + 0) H1) as (b2 & -> & H2); [rewrite !zlen_app; lia..|].
  cbn [mbind outcome_bind].
  destruct (put_end size _ 48 b2 (zlen pre + n + 1) H2) as (b3 & -> & H3);
    [rewrite !zlen_app; change (zlen [_]) with 1; lia..|].
  cbn [mbind outcome_bind]. exists b3. split; [|by rewrite <- !app_assoc in H3].
  do 2 f_equal. rewrite !zlen_app. change (zlen (lit ".0")) with 2. lia.
Qed.

Lemma format_middle buf n :
  block size (pre ++ ds) buf -> 0 < n < k ->
  exists buf', (buf ← memmove (zlen pre + (n + 1)) (zlen pre + n) (k - n) buf;
     buf ← put (zlen pre + n) 46 buf;
     Ret (zlen pre + (k + 1), buf)) =
       Ret (zlen pre + zlen (take (Z.to_nat n) ds ++ byte.of_Z 46 :: drop (Z.to_nat n) ds), buf') /\
    block size (pre ++ take (Z.to_nat n) ds ++ byte.of_Z 46 :: drop (Z.to_nat n) ds) buf'.
Proof.
  intros Hb Hn. destruct (split_at n ltac:(lia)) as (E & Ht & Hd).
  set (a := take (Z.to_nat n) ds) in *. set (z := drop (Z.to_nat n) ds) in *. rewrite E, app_assoc in Hb.
  destruct (memmove_spec size (pre ++ a) z buf (zlen pre + (n + 1)) (zlen pre + n) (k - n) 1)
    as (w & b1 & Hw & -> & H1); [done|rewrite zlen_app; lia|lia|lia|lia|lia|].
  cbn [mbind outcome_bind].
  destruct (store_over size (pre ++ a) w z [byte.of_Z 46] b1 (zlen pre + n) H1) as (b2 & E2 & H2);
    [rewrite zlen_app; lia|done|].
  unfold put. rewrite E2. cbn [mbind outcome_bind]. exists b2. split; [|by rewrite <- app_assoc in H2].
  do 2 f_equal. rewrite zlen_app, zlen_cons. lia.
Qed.

Lemma format_small buf n :
  block size (pre ++ ds) buf -> -4 < n <= 0 ->
  exists buf', (buf ← memmove (zlen pre + (2 + - n)) (zlen pre) k buf;
     buf ← put (zlen pre) 48 buf;
     buf ← put (zlen pre + 1) 46 buf;
     buf ← memset (zlen pre + 2) 48 (- n) buf;
     Ret (zlen pre + (2 + - n + k), buf)) = Ret (zlen pre + zlen (lit "0." ++ zeros (- n) ++ ds), buf') /\
    block size (pre ++ lit "0." ++ zeros (- n) ++ ds) buf'.
Proof.
  intros Hb Hn. unfold memset. fold (zeros (- n)). pose proof (zlen_zeros (- n) ltac:(lia)) as Hz.
  destruct (memmove_spec size pre ds buf (zlen pre + (2 + - n)) (zlen pre) k (2 + - n))
    as (w & b1 & Hw & -> & H1); [done|done|done|lia|lia|lia|].
  cbn [mbind outcome_bind].
  assert (Ew : exists c1 c2 w', w = c1 :: c2 :: w' /\ zlen w' = - n).
  { destruct w as [|c1 [|c2 w']]; [unfold zlen in Hw; cbn in Hw; lia..|]. rewrite !zlen_cons in Hw; eexists _, _, _; split; [done|lia]. }
  destruct Ew as (c1 & c2 & w' & -> & Hw'). cbn [app] in H1.
  destruct (store_over size pre [c1] (c2 :: w' ++ ds) [byte.of_Z 48] b1 (zlen pre) H1) as (b2 & E2 & H2); [done|done|].
  unfold put. rewrite E2. cbn [mbind outcome_bind app] in *.
  destruct (store_over size (pre ++ [byte.of_Z 48]) [c2] (w' ++ ds) [byte.of_Z 46] b2 (zlen pre + 1)) as (b3 & E3 & H3);
    [by rewrite <- app_assoc|by rewrite zlen_app|done|].
  rewrite E3. cbn [mbind outcome_bind app] in *.
  destruct (store_over size ((pre ++ [byte.of_Z 48]) ++ [byte.of_Z 46]) w' ds (zeros (- n)) b3 (zlen pre + 2)) as (b4 & E4 & H4);
    [by rewrite <- app_assoc|rewrite !zlen_app; change (zlen [_]) with 1; lia|lia|].
  rewrite E4. cbn [mbind outcome_bind]. exists b4. split; [|by rewrite <- !app_assoc in H4].
  do 2 f_equal. rewrite !zlen_app. change (zlen (lit "0.")) with 2. lia.
Qed.

Lemma format_exponent buf n :
  block size (pre ++ ds) buf -> n = k + x ->
  exists buf', (r ← (if k =? 1 then Ret (zlen pre + 1, buf)
         else buf ← memmove (zlen pre + 2) (zlen pre + 1) (k - 1) buf;
              buf ← put (zlen pre + 1) 46 buf;
              Ret (zlen pre + (1 + k), buf));
     let '(q, buf) := r in
     buf ← put q 101 buf;
     append_exponent (q + 1) buf (n - 1)) =
       Ret (zlen pre + zlen (take 1 ds ++ (if k =? 1 then [] else byte.of_Z 46 :: drop 1 ds) ++
                             byte.of_Z 101 :: exponent_text (n - 1)), buf') /\
    block size (pre ++ take 1 ds ++ (if k =? 1 then [] else byte.of_Z 46 :: drop 1 ds) ++
                byte.of_Z 101 :: exponent_text (n - 1)) buf'.
Proof.
  intros Hb En. destruct (split_at 1 ltac:(lia)) as (E & Ht & Hd). change (Z.to_nat 1) with 1%nat in *.
  set (a := take 1 ds) in *. set (z := drop 1 ds) in *. set (fr := if k =? 1 then [] else byte.of_Z 46 :: z).
  assert (H1 : exists q b1, (if k =? 1 then Ret (zlen pre + 1, buf)
         else buf ← memmove (zlen pre + 2) (zlen pre + 1) (k - 1) buf;
              buf ← put (zlen pre + 1) 46 buf;
              Ret (zlen pre + (1 + k), buf)) = Ret (q, b1) /\ block size (pre ++ a ++ fr) b1 /\
              q = zlen (pre ++ a ++ fr) /\ q <= zlen pre + 18).
  { rewrite E, app_assoc in Hb. unfold fr. destruct (Z.eqb_spec k 1) as [E1|E1].
    - exists (zlen pre + 1), buf. split; [done|]. rewrite app_nil_r. apply block_prefix in Hb.
      split; [done|]. rewrite zlen_app. lia.
    - destruct (memmove_spec size (pre ++ a) z buf (zlen pre + 2) (zlen pre + 1) (k - 1) 1)
        as (w & b1 & Hw & -> & H1); [done|rewrite zlen_app; lia|lia|lia|lia|lia|].
      cbn [mbind outcome_bind].
      destruct (store_over size (pre ++ a) w z [byte.of_Z 46] b1 (zlen pre + 1) H1) as (b2 & E2 & H2);
        [rewrite zlen_app; lia|done|].
      unfold put. rewrite E2. cbn [mbind outcome_bind]. eexists _, b2. split; [done|].
      rewrite <- app_assoc in H2. split; [done|]. rewrite !zlen_app, zlen_cons. lia. }
  destruct H1 as (q & b1 & -> & Hb1 & Hq & Hq18). cbn [mbind outcome_bind].
  destruct (put_end size _ 101 b1 q Hb1 Hq ltac:(lia)) as (b2 & -> & H2). cbn [mbind outcome_bind].
  destruct (append_exponent_spec size _ (n - 1) b2 (q + 1) H2) as (b3 & -> & H3);
    [rewrite zlen_app; change (zlen [_]) with 1; lia|rewrite zlen_app; change (zlen [_]) with 1; lia|lia|].
  exists b3. rewrite <- !app_assoc in H3. split; [|done]. do 2 f_equal. rewrite !zlen_app, zlen_cons in *. lia.
Qed.

Lemma format_buffer_spec buf :
  block size (pre ++ ds) buf ->
  exists buf', format_buffer (zlen pre) buf k x (-4) 15 = Ret (zlen pre + zlen (layout_text ds x), buf') /\
    block size (pre ++ layout_text ds x) buf'.
Proof.
  intros Hb. unfold format_buffer, layout_text. cbn [Z.ltb Z.compare assert_that mbind outcome_bind].
  set (n := k + x). destruct ((k <=? n) && (n <=? 15)) eqn:C1; [apply format_large; lia || done|].
  destruct ((0 <? n) && (n <=? 15)) eqn:C2.
  - destruct (Z.ltb_spec n k); [|lia]. cbn [assert_that mbind outcome_bind]. apply format_middle; lia || done.
  - destruct ((-4 <? n) && (n <=? 0)) eqn:C3; [apply format_small; lia || done|by apply format_exponent].
Qed.
End Format.

(** ** The digits do not depend on what the buffer held *)

Definition agree (n : Z) (b1 b2 : bytes) : Prop := window 0 n b1 = window 0 n b2.

Lemma agree_mono n m b1 b2 : agree n b1 b2 -> 0 <= m <= n -> agree m b1 b2.
Proof. unfold agree. intros H Hm. rewrite <- (take_window 0 n m), <- (take_window 0 n m), H by lia. done. Qed.

(** Two results, when both are there, are related. *)
Definition follows {A} (R : A -> A -> Prop) (m1 m2 : outcome A) : Prop :=
  forall a b, m1 = Ret a -> m2 = Ret b -> R a b.

Lemma follows_bind {A B} (R : A -> A -> Prop) (S : B -> B -> Prop) m1 m2 (f g : A -> outcome B) :
  follows R m1 m2 -> (forall a b, R a b -> follows S (f a) (g b)) -> follows S (m1 ≫= f) (m2 ≫= g).
Proof.
  intros Hm Hf a b (x & Ex & Ea)%bind_Ret_inv (y & Ey & Eb)%bind_Ret_inv. by apply (Hf x y (Hm _ _ Ex Ey)).
Qed.

Lemma follows_Ret {A} (R : A -> A -> Prop) a b : R a b -> follows R (Ret a) (Ret b).
Proof. intros H x y [= <-] [= <-]. done. Qed.

Lemma follows_same {A B} (S : B -> B -> Prop) (m : outcome A) (f g : A -> outcome B) :
  (forall a, follows S (f a) (g a)) -> follows S (m ≫= f) (m ≫= g).
Proof. intros H. apply (follows_bind eq); [intros a b; congruence|by intros a ? <-]. Qed.

Lemma follows_store n p d b1 b2 :
  agree n b1 b2 -> p <= n -> follows (agree (p + zlen d)) (store p d b1) (store p d b2).
Proof.
  unfold store, follows. intros H Hp c1 c2.
  destruct (in_block p (zlen d) b1) eqn:I1; [|done]. destruct (in_block p (zlen d) b2) eqn:I2; [|done].
  intros [= <-] [= <-]. apply in_block_true in I1 as (P1 & P2 & P3), I2 as (_ & _ & P4). unfold agree.
  pose proof (window_splice_prefix p 0 d b1) as W1. pose proof (window_splice_prefix p 0 d b2) as W2.
  rewrite Z.sub_0_r in W1, W2. rewrite W1, W2 by lia. f_equal. by apply (agree_mono n).
Qed.

Lemma agree_load1 n p b1 b2 : agree n b1 b2 -> p < n -> load1 p b1 = load1 p b2.
Proof.
  unfold agree, window, load1. intros H Hp. destruct (Z.ltb_spec p 0); [done|]. rewrite !drop_0 in H.
  assert (E : forall b : bytes, b !! Z.to_nat p = take (Z.to_nat n) b !! Z.to_nat p)
    by (intros b; rewrite lookup_take_lt by lia; done).
  by rewrite (E b1), (E b2), H.
Qed.

Lemma round_loop_follows fuel last b1 b2 dist delta rest ten_k :
  agree (last + 1) b1 b2 ->
  follows (agree (last + 1)) (round_loop fuel last b1 dist delta rest ten_k) (round_loop fuel last b2 dist delta rest ten_k).
Proof.
  revert b1 b2 rest. induction fuel as [|fuel IH]; intros b1 b2 rest H; cbn [round_loop]; [by intros a b|].
  destruct (_ && _); [|by apply follows_Ret]. rewrite (agree_load1 _ _ _ _ H) by lia.
  apply follows_same. intros c. apply follows_same. intros _.
  eapply follows_bind; [by apply (follows_store (last + 1)); [|lia]|]. intros c1 c2 Hc. by apply IH.
Qed.

Lemma grisu2_round_follows p b1 b2 len dist delta rest ten_k :
  agree (p + len) b1 b2 ->
  follows (agree (p + len)) (grisu2_round p b1 len dist delta rest ten_k) (grisu2_round p b2 len dist delta rest ten_k).
Proof.
  intros H. unfold grisu2_round. do 4 (apply follows_same; intros _).
  pose proof (round_loop_follows 10 (p + len - 1) b1 b2 dist delta rest ten_k) as Hr.
  replace (p + len - 1 + 1) with (p + len) in Hr by lia. auto.
Qed.

Definition same_digits (p : Z) (s1 s2 : dtoa_impl.digits) : Prop :=
  length s1 = length s2 /\ decimal_exponent s1 = decimal_exponent s2 /\ agree (p + length s1) (buffer s1) (buffer s2).

Lemma put_digit_follows p d s1 s2 : same_digits p s1 s2 -> follows (same_digits p) (put_digit p d s1) (put_digit p d s2).
Proof.
  intros (H1 & H2 & H3). unfold put_digit. apply follows_same. intros _. rewrite <- H1, <- H2.
  eapply follows_bind; [by eapply follows_store|]. intros b1 b2 Hb. apply follows_Ret.
  split; [done|]. split; [done|]. cbn [length buffer]. change (zlen [_]) with 1 in Hb. by rewrite Z.add_assoc.
Qed.

Definition same_step (p : Z) (r1 r2 : dtoa_impl.digits + dtoa_impl.digits) : Prop :=
  match r1, r2 with inl s1, inl s2 | inr s1, inr s2 => same_digits p s1 s2 | _, _ => False end.

Lemma integral_loop_follows n p one_e delta dist p1 p2 pow10 s1 s2 :
  same_digits p s1 s2 ->
  follows (same_step p) (integral_loop n p one_e delta dist p1 p2 pow10 s1) (integral_loop n p one_e delta dist p1 p2 pow10 s2).
Proof.
  revert p1 pow10 s1 s2. induction n as [|n IH]; intros p1 pow10 s1 s2 H; cbn [integral_loop]; [by apply follows_Ret|].
  eapply follows_bind; [by apply put_digit_follows|]. intros t1 t2 (H1 & H2 & H3).
  destruct (_ <=? _); [|by apply IH]. rewrite <- H1, <- H2.
  eapply follows_bind; [by apply grisu2_round_follows|]. intros b1 b2 Hb. by apply follows_Ret.
Qed.

Lemma fractional_loop_follows fuel p one delta dist p2 m s1 s2 :
  same_digits p s1 s2 ->
  follows (fun r1 r2 => same_digits p (fst (fst (fst (fst r1)))) (fst (fst (fst (fst r2)))) /\
             snd (fst (fst (fst r1))) = snd (fst (fst (fst r2))) /\ snd (fst (fst r1)) = snd (fst (fst r2)) /\
             snd (fst r1) = snd (fst r2) /\ snd r1 = snd r2)
    (fractional_loop fuel p one delta dist p2 m s1) (fractional_loop fuel p one delta dist p2 m s2).
Proof.
  revert delta dist p2 m s1 s2. induction fuel as [|fuel IH]; intros delta dist p2 m s1 s2 H;
    cbn [fractional_loop]; [by intros a b|].
  apply follows_same. intros _. eapply follows_bind; [by apply put_digit_follows|]. intros t1 t2 Ht.
  destruct (_ <=? _); [by apply follows_Ret|by apply IH].
Qed.

Lemma digit_gen_follows p b1 b2 x M_minus w M_plus :
  agree p b1 b2 ->
  follows (same_digits p) (grisu2_digit_gen p b1 x M_minus w M_plus) (grisu2_digit_gen p b2 x M_minus w M_plus).
Proof.
  intros H. unfold grisu2_digit_gen. do 2 (apply follows_same; intros _). apply follows_same. intros d.
  apply follows_same. intros t. apply follows_same. intros _. destruct (find_largest_pow10 _) as [k pow10].
  eapply follows_bind.
  { apply integral_loop_follows. split; [done|]. split; [done|]. cbn. by rewrite Z.add_0_r. }
  intros [s1|s1] [s2|s2] Hs; try done; [by apply follows_Ret|]. apply follows_same. intros _.
  eapply follows_bind; [by apply fractional_loop_follows|].
  intros [[[[t1 m1] d1] e1] q1] [[[[t2 m2] d2] e2] q2] ((H1 & H2 & H3) & [= ->] & [= ->] & [= ->] & [= ->]).
  cbn in H1, H2, H3. rewrite <- H1, <- H2.
  eapply follows_bind; [by apply grisu2_round_follows|]. intros c1 c2 Hc. by apply follows_Ret.
Qed.

Lemma grisu2_follows p b1 b2 value :
  agree p b1 b2 -> follows (same_digits p) (grisu2 p b1 value) (grisu2 p b2 value).
Proof.
  intros H. unfold grisu2. do 2 (apply follows_same; intros _). apply follows_same. intros b.
  unfold grisu2_scaled. do 2 (apply follows_same; intros _). apply follows_same. intros c.
  by apply digit_gen_follows.
Qed.

Lemma block_agree size t b1 b2 : block size t b1 -> block size t b2 -> agree (zlen t) b1 b2.
Proof.
  intros [_ (r1 & ->)] [_ (r2 & ->)]. unfold agree, window, zlen. rewrite !drop_0, Nat2Z.id.
  by rewrite !take_app_length.
Qed.

Lemma agree_block size t1 t2 b1 b2 :
  block size t1 b1 -> block size t2 b2 -> zlen t1 = zlen t2 -> agree (zlen t1) b1 b2 -> t1 = t2.
Proof.
  intros [_ (r1 & ->)] [_ (r2 & ->)] Hl H. unfold agree in H. rewrite Hl in H at 2. unfold window, zlen in H.
  rewrite !drop_0, !Nat2Z.id in H. by rewrite !take_app_length in H.
Qed.

(** ** The whole printer *)

Lemma neg_neg x : neg (neg x) = x.
Proof. unfold neg. by rewrite Z.lxor_assoc, Z.lxor_nilpotent, Z.lxor_0_r. Qed.

(** A finite double is a sign and a magnitude below infinity. *)
Lemma finite_parts x :
  0 <= x < 2 ^ 64 -> isfinite x = true ->
  exists negative m, x = signed negative m /\ signbit x = negative /\ 0 <= m < infinity /\
    (if negative then neg x else x) = m.
Proof.
  intros Hx Hf.
  assert (Hinf : forall m, 0 <= m < 2 ^ 63 -> (m = x \/ m + 2 ^ 63 = x) -> m < infinity).
  { intros m Hm Hmx. unfold isfinite in Hf. rewrite Z.shiftr_div_pow2 in Hf by lia.
    change 0x7FF with (Z.ones 11) in Hf. rewrite Z.land_ones in Hf by lia. change (Z.ones 11) with 2047 in Hf.
    apply negb_true_iff, Z.eqb_neq in Hf. change infinity with (2047 * 4503599627370496).
    change (2 ^ 52) with 4503599627370496 in Hf. change (2 ^ 11) with 2048 in Hf.
    change (2 ^ 63) with (2048 * 4503599627370496) in *. zdiv. }
  destruct (Z.lt_ge_cases x (2 ^ 63)) as [Hlt|Hge].
  - exists false, x. split; [done|]. split; [|split; [split; [lia|apply (Hinf x); [lia|by left]]|done]].
    unfold signbit. destruct (Z.eq_dec x 0) as [->|]; [done|]. apply Z.bits_above_log2; [lia|].
    apply Z.log2_lt_pow2; lia.
  - exists true, (x - 2 ^ 63). change (2 ^ 64) with (2 ^ 63 + 2 ^ 63) in Hx.
    pose proof (neg_high (x - 2 ^ 63) ltac:(lia)) as Hn. replace (x - 2 ^ 63 + 2 ^ 63) with x in Hn by lia.
    split; [by cbn [signed]; rewrite Hn|]. split; [|split].
    + unfold signbit. rewrite Z.testbit_true by lia. zdiv.
    + split; [lia|]. apply (Hinf (x - 2 ^ 63)); lia.
    + rewrite <- Hn at 1. apply neg_neg.
Qed.

(** What [to_chars] leaves in the buffer. *)
Definition writes_float (x : Z) (t buf : bytes) : Prop :=
  exists buf', to_chars 0 64 buf x = Ret (zlen t, buf') /\ block 64 t buf'.

Definition write_sign (negative : bool) (x : Z) (buf : bytes) : outcome (Z * Z * bytes) :=
  if negative then (b ← put 0 45 buf; Ret (neg x, 0 + 1, b)) else Ret (x, 0, buf).

Lemma sign_written (negative : bool) buf x m :
  zlen buf = 64 -> (if negative then neg x else x) = m ->
  exists b, write_sign negative x buf = Ret (m, zlen (sign_text negative), b) /\ block 64 (sign_text negative) b.
Proof.
  intros Hb Hm. unfold write_sign. assert (H0 : block 64 [] buf) by (rewrite <- Hb; apply block_nil). destruct negative; cbn [sign_text].
  - destruct (put_end 64 [] 45 buf 0 H0 eq_refl) as (b & -> & Hb'); [unfold zlen; cbn; lia|].
    cbn [mbind outcome_bind]. exists b. by rewrite Hm.
  - exists buf. by rewrite Hm.
Qed.

(** The text for one content of the buffer. *)
Lemma to_chars_text (negative : bool) m x buf :
  zlen buf = 64 -> isfinite x = true -> signbit x = negative -> (if negative then neg x else x) = m -> 0 <= m < infinity ->
  exists b t, block 64 (sign_text negative) b /\ writes_float x t buf /\
    (m = 0 /\ t = sign_text negative ++ lit "0.0" \/
     0 < m /\ exists s D, grisu2 (zlen (sign_text negative)) b m = Ret s /\ 0 < D /\
       written 64 (sign_text negative) D s /\ zlen (text D) <= 17 /\ -400 < decimal_exponent s < 400 /\
       decimal_within m D (decimal_exponent s) /\ t = sign_text negative ++ layout_text (text D) (decimal_exponent s)).
Proof.
  intros Hbuf Hf Hs Hm Hr. destruct (sign_written negative buf x m Hbuf Hm) as (b & Eb & Hb).
  assert (Hp : 0 <= zlen (sign_text negative) <= 1) by (by destruct negative; unfold zlen; cbn; lia).
  exists b. unfold writes_float, to_chars. rewrite Hf, Hs. cbn [assert_that mbind outcome_bind].
  set (p := zlen (sign_text negative)) in *.
  fold (write_sign negative x buf). rewrite Eb. cbn [mbind outcome_bind]. destruct (Z.eqb_spec m 0) as [E0|E0].
  - destruct (put_end 64 _ 48 b p Hb eq_refl ltac:(fold p; lia)) as (b1 & -> & H1). cbn [mbind outcome_bind].
    destruct (put_end 64 _ 46 b1 (p + 1) H1) as (b2 & -> & H2); [rewrite zlen_app; fold p; change (zlen [_]) with 1; lia..|].
    cbn [mbind outcome_bind].
    destruct (put_end 64 _ 48 b2 (p + 2) H2) as (b3 & -> & H3); [rewrite !zlen_app; fold p; change (zlen [_]) with 1; lia..|].
    cbn [mbind outcome_bind]. exists (sign_text negative ++ lit "0.0"). split; [done|]. rewrite <- !app_assoc in H3.
    split; [exists b3; split; [|done]|by left]. rewrite zlen_app. fold p. done.
  - destruct (grisu2_spec 64 (sign_text negative) b m) as (s & D & E & HD & Hw & H17 & Hx & Hin); [lia|done|fold p; lia|].
    fold p in E. rewrite E. destruct (Z.leb_spec 17 (64 - p)); [|lia]. cbn [assert_that mbind outcome_bind].
    rewrite (wr_length _ _ _ _ Hw). destruct (Z.leb_spec (zlen (text D)) 17); [|lia].
    destruct (Z.leb_spec (15 + 2) (64 - p)), (Z.leb_spec (2 + (- -4 - 1) + 17) (64 - p)), (Z.leb_spec (17 + 6) (64 - p)); try lia.
    cbn [assert_that mbind outcome_bind].
    assert (Hlen1 : 1 <= zlen (text D)).
    { rewrite text_decimal by done. destruct (decimal_digits D) as (_ & _ & Hn); [lia|]. apply zlen_pos in Hn. lia. }
    destruct (format_buffer_spec 64 (sign_text negative) (text D) (decimal_exponent s) ltac:(lia) ltac:(lia) ltac:(fold p; lia)
      (buffer s) (wr_block _ _ _ _ Hw)) as (b2 & E2 & Hb2).
    exists (sign_text negative ++ layout_text (text D) (decimal_exponent s)). split; [done|]. split.
    + exists b2. split; [|done]. rewrite zlen_app. exact E2.
    + right. split; [lia|]. by exists s, D.
Qed.

(** The text of a double: what is written into a buffer of zeros. *)
Definition float_text (x : Z) : bytes :=
  match to_chars 0 64 (replicate 64 Byte.x00) x with
  | Ret (n, buf) => window 0 n buf
  | _ => []
  end.

Lemma block_window size t buf : block size t buf -> window 0 (zlen t) buf = t.
Proof. intros [_ (r & ->)]. unfold window, zlen. rewrite drop_0, Nat2Z.id. apply take_app_length. Qed.

Lemma float_text_zeros x t : writes_float x t (replicate 64 Byte.x00) -> float_text x = t.
Proof. intros (b & E & Hb). unfold float_text. rewrite E. by apply (block_window 64). Qed.

(** The text is the same in every buffer. *)
Lemma to_chars_spec x buf :
  0 <= x < 2 ^ 64 -> isfinite x = true -> zlen buf = 64 -> writes_float x (float_text x) buf.
Proof.
  intros Hx Hf Hbuf. destruct (finite_parts x Hx Hf) as (negative & m & _ & Hs & Hr & Hm).
  destruct (to_chars_text negative m x buf Hbuf Hf Hs Hm Hr) as (b1 & t1 & Hb1 & Hw1 & C1).
  destruct (to_chars_text negative m x (replicate 64 Byte.x00) eq_refl Hf Hs Hm Hr) as (b2 & t2 & Hb2 & Hw2 & C2).
  rewrite (float_text_zeros _ _ Hw2). enough (t2 = t1) as -> by done.
  destruct C1 as [[E0 ->]|[Hp (s1 & D1 & E1 & HD1 & W1 & _ & _ & _ & ->)]],
    C2 as [[F0 ->]|[Fp (s2 & D2 & E2 & HD2 & W2 & _ & _ & _ & ->)]]; try lia; [done|].
  destruct (grisu2_follows _ _ _ m (block_agree _ _ _ _ Hb1 Hb2) s1 s2 E1 E2) as (L & X & A).
  rewrite <- X. do 2 f_equal. symmetry.
  pose proof (wr_length _ _ _ _ W1) as L1. pose proof (wr_length _ _ _ _ W2) as L2.
  rewrite L1 in A. rewrite <- zlen_app in A.
  eapply app_inv_head. eapply (agree_block 64); [apply (wr_block _ _ _ _ W1)|apply (wr_block _ _ _ _ W2)| |exact A].
  rewrite !zlen_app. lia.
Qed.

(** The text is a number with a fraction or an exponent, and [strtod] reads the
    double back from it, bit for bit. *)
Lemma float_text_read x :
  0 <= x < 2 ^ 64 -> isfinite x = true ->
  number_text (float_text x) = Some value_float /\ strtod (float_text x) = (x, []).
Proof.
  intros Hx Hf. destruct (finite_parts x Hx Hf) as (negative & m & -> & Hs & Hr & Hm).
  destruct (to_chars_text negative m _ (replicate 64 Byte.x00) eq_refl Hf Hs Hm Hr) as (b & t & Hb & Hw & C).
  rewrite (float_text_zeros _ _ Hw).
  destruct C as [[-> ->]|[Hp (s & D & E & HD & W & H17 & Hx' & Hin & ->)]].
  - by destruct negative.
  - rewrite text_decimal in H17 |- * by done. apply layout_read; done || lia.
Qed.

(** The length of the text: the null byte and all the intermediate states fit. *)
Lemma float_text_bound x : 0 <= x < 2 ^ 64 -> isfinite x = true -> zlen (float_text x) <= 64.
Proof.
  intros Hx Hf. destruct (to_chars_spec x (replicate 64 Byte.x00) Hx Hf eq_refl) as (b & _ & Hb).
  by eapply block_length.
Qed.

End Floats.
