(* ===== verification/JsonTexts.v ===== *)
(** * The texts of the printer are texts of the grammar

    Escaped strings, decimal numbers and containers, in the compact layout or
    with lines, are read as the tokens of the value they were printed for. *)
From S2P Require Import Prelude Json JsonUtf8 JsonFloat JsonLexer JsonDump JsonLexing JsonParser JsonParsing JsonGrammar.
From S2P Require Import JsonIntegers JsonEscaping JsonPrinting.

Module Texts.
Import Json Wf Lexer Lexing Grammar Decimals Integers Escaping Printing.

(** ** Strings *)

Lemma hexval_digit d : 0 <= d < 16 -> hexval (uchar (Serializer.hex_digit d)) = Some d.
Proof.
  intros H. unfold Serializer.hex_digit. rewrite uchar_of_Z. unfold hexval.
  destruct (Z.ltb_spec d 10); rewrite Z.mod_small by lia;
    repeat match goal with |- context [?a <=? ?b] => destruct (Z.leb_spec a b); try lia end; cbn [andb]; f_equal; lia.
Qed.

Lemma hex4_text x : 0 <= x < 2 ^ 16 -> hex_text 4 (Serializer.hex4 x) x.
Proof.
  intros H. change (2 ^ 16) with 65536 in H.
  assert (E : x = x / 4096 * 16 ^ Z.of_nat 3 + (x / 256 mod 16 * 16 ^ Z.of_nat 2 +
    (x / 16 mod 16 * 16 ^ Z.of_nat 1 + (x mod 16 * 16 ^ Z.of_nat 0 + 0)))).
  { change (16 ^ Z.of_nat 3) with 4096. change (16 ^ Z.of_nat 2) with 256. change (16 ^ Z.of_nat 1) with 16.
    change (16 ^ Z.of_nat 0) with 1. zdiv. }
  rewrite E at 2. unfold Serializer.hex4.
  rewrite <- (of_Z_uchar (Serializer.hex_digit (x / 4096))), <- (of_Z_uchar (Serializer.hex_digit (x / 256 mod 16))),
    <- (of_Z_uchar (Serializer.hex_digit (x / 16 mod 16))), <- (of_Z_uchar (Serializer.hex_digit (x mod 16))).
  repeat (constructor; [apply hexval_digit; zdiv|]). constructor.
Qed.

(** The two halves of a code point beyond the basic plane. *)
Lemma surrogates cp :
  0xFFFF < cp <= 0x10FFFF ->
  0xD800 <= u16 (u32 (0xD7C0 + Z.shiftr cp 10)) <= 0xDBFF /\
  0xDC00 <= u16 (u32 (0xDC00 + Z.land cp 0x3FF)) <= 0xDFFF /\
  surrogate_pair (u16 (u32 (0xD7C0 + Z.shiftr cp 10))) (u16 (u32 (0xDC00 + Z.land cp 0x3FF))) = cp.
Proof.
  intros H. rewrite Z.shiftr_div_pow2 by lia. change 0x3FF with (Z.ones 10). rewrite Z.land_ones by lia.
  change (2 ^ 10) with 1024.
  assert (0 <= cp / 1024 <= 1087) by zdiv. assert (0 <= cp mod 1024 < 1024) by zdiv.
  rewrite !(uwrap_small 32) by lia. rewrite !uwrap_small by lia.
  unfold surrogate_pair. repeat split; zdiv.
Qed.

Lemma unicode_escape_text cp :
  Utf8.scalar cp -> char_text (Serializer.unicode_escape cp) (byte.of_Z <$> Utf8.encode cp).
Proof.
  intros Hs. unfold Serializer.unicode_escape, Serializer.backslash. destruct (Z.leb_spec cp 0xFFFF).
  - assert (Hc : 0 <= cp < 2 ^ 16) by (unfold Utf8.scalar in Hs; lia).
    cbn [app]. rewrite uwrap_small by exact Hc. constructor; [by apply hex4_text|done].
  - destruct (surrogates cp) as (H1 & H2 & H3); [unfold Utf8.scalar in Hs; lia|].
    rewrite <- H3 at 3. cbn [app]. constructor; [apply hex4_text; lia..|done|done].
Qed.

Lemma char_escape_text ascii cp :
  Utf8.scalar cp -> char_text (char_escape ascii cp) (byte.of_Z <$> Utf8.encode cp).
Proof.
  intros Hs. unfold char_escape, escape_or. destruct (short_escape cp) as [c|] eqn:E.
  - assert (Hc : (c, cp) ∈ escapes /\ Utf8.encode cp = [cp]).
    { unfold short_escape in E. unfold escapes, Utf8.encode. revert E.
      repeat match goal with |- context [cp =? ?k] => destruct (Z.eqb_spec cp k) as [->|]; [intros [= <-];
        split; [set_solver|done]|] end. done. }
    destruct Hc as [Hc ->]. by apply char_short.
  - destruct (long_escape ascii cp) eqn:El; [by apply unicode_escape_text|].
    destruct (Utf8.scalar_chunk cp Hs) as (c0 & rs & cs & He & Hr & Hf & Hx). rewrite He.
    unfold long_escape in El. apply orb_false_iff in El as [El _].
    destruct (Z.ltb_spec cp 0x80) as [Hlt|Hge].
    + unfold Utf8.encode in He. destruct (Z.ltb_spec cp 128); [|lia]. injection He as <- <-.
      unfold short_escape in E.
      destruct (Z.eqb_spec cp 0x22); [repeat destruct (_ =? _); done|].
      destruct (Z.eqb_spec cp 0x5C); [repeat destruct (_ =? _); done|].
      eapply char_plain; [exact Hr|exact Hf|lia..].
    + assert (0x80 <= c0).
      { destruct (Z.ltb_spec c0 0x80) as [H|H]; [|lia]. destruct Hr; try lia. inversion Hf; subst.
        unfold Utf8.extend, Utf8.base in Hge. cbn in Hge. lia. }
      eapply char_plain; [exact Hr|exact Hf|lia..].
Qed.

Lemma escape_text_string ascii cps :
  Forall Utf8.scalar cps -> string_text (escape_text ascii cps) (Utf8.encode_all cps).
Proof.
  induction 1 as [|cp cps Hc _ IH]; [constructor|].
  unfold escape_text, Utf8.encode_all in *. cbn [fmap list_fmap concat]. rewrite fmap_app.
  constructor; [by apply char_escape_text|exact IH].
Qed.

Lemma quoted_text L s : Utf8.valid s = true -> token_text (quoted L s) (Text s).
Proof.
  intros (cps & Hc & ->)%Utf8.valid_iff_encoded. unfold quoted. rewrite code_points_all by done.
  constructor. by apply escape_text_string.
Qed.

(** ** Integers *)

Lemma run_digits t ty : digits t -> number_run any1 ty t = Some ty.
Proof.
  induction 1 as [|b t Hb _ IH]; [done|]. cbn [number_run number_jump number_type_at].
  by rewrite digit_is_digit, Hb.
Qed.

(** The run over the digits of a number, after the sign or not. *)
Lemma decimal_run x : 0 < x ->
  exists c t, decimal x = c :: t /\ nonzero_digit (uchar c) = true /\ number_run any1 value_unsigned t = Some value_unsigned /\
    number_run any1 value_integer t = Some value_integer.
Proof.
  intros Hx. destruct (decimal_head x Hx) as (c & t & E & Hc & Ht).
  exists c, t. repeat (split; [done|]). split; by apply run_digits.
Qed.

Definition int_token (z : Z) : token := if z <? 0 then Lexing.Integer z else Unsigned z.

Lemma integer_token_text z : - 2 ^ 63 <= z < 2 ^ 64 -> token_text (integer z) (int_token z).
Proof.
  intros Hz. unfold integer, int_token. destruct (Z.ltb_spec z 0) as [H|H].
  - destruct (decimal_run (- z) ltac:(lia)) as (c & t & E & Hc & _ & Hrun).
    destruct (decimal_digits (- z) ltac:(lia)) as (_ & Hv & _).
    assert (Hn : number_text (byte.of_Z 45 :: decimal (- z)) = Some value_integer).
    { rewrite E. unfold number_text. rewrite uchar_of_Z. cbn [Z.modulo Z.eqb Pos.eqb]. cbn.
      unfold nonzero_digit in *. destruct (Z.eqb_spec (uchar c) 48); [lia|]. by rewrite Hc. }
    pose proof (text_number _ _ Hn) as Ht. unfold number_token in Ht.
    change (drop 1 (byte.of_Z 45 :: decimal (- z))) with (decimal (- z)) in Ht. rewrite Hv in Ht. destruct (Z.ltb_spec (2 ^ 63) (- z)); [lia|].
    by rewrite Z.opp_involutive in Ht.
  - destruct (decimal_digits z H) as (_ & Hv & _).
    assert (Hn : number_text (decimal z) = Some value_unsigned).
    { destruct (Z.eq_dec z 0) as [->|]; [done|].
      destruct (decimal_run z ltac:(lia)) as (c & t & E & Hc & Hrun & _). rewrite E. unfold number_text.
      unfold nonzero_digit in *. destruct (Z.eqb_spec (uchar c) 45); [lia|].
      destruct (Z.eqb_spec (uchar c) 48); [lia|]. by rewrite Hc. }
    pose proof (text_number _ _ Hn) as Ht. unfold number_token in Ht. rewrite Hv in Ht.
    by destruct (Z.leb_spec (2 ^ 64) z); [lia|].
Qed.

(** ** Sequences of tokens *)

(** The text [t] is the tokens [ts], whatever follows; or before something that is
    no part of a number. *)
Definition closed (ts : list token) (t : bytes) : Prop :=
  forall ks t' r, lexes ks t' r -> lexes (ts ++ ks) (t ++ t') r.
Definition spells (ts : list token) (t : bytes) : Prop :=
  forall ks t' r, stops (next (t' ++ r)) = true -> lexes ks t' r -> lexes (ts ++ ks) (t ++ t') r.

Lemma closed_spells ts t : closed ts t -> spells ts t.
Proof. intros H ks t' r _. apply H. Qed.

Lemma closed_app ts1 t1 ts2 t2 : closed ts1 t1 -> closed ts2 t2 -> closed (ts1 ++ ts2) (t1 ++ t2).
Proof. intros H1 H2 ks t' r H. rewrite <- !app_assoc. auto. Qed.

Lemma closed_spells_app ts1 t1 ts2 t2 : closed ts1 t1 -> spells ts2 t2 -> spells (ts1 ++ ts2) (t1 ++ t2).
Proof. intros H1 H2 ks t' r Hs H. rewrite <- !app_assoc. auto. Qed.

(** What starts with a character that ends a number. *)
Definition halting (t : bytes) : Prop := exists b t', t = b :: t' /\ stops (uchar b) = true.

Lemma spells_app ts1 t1 ts2 t2 : spells ts1 t1 -> closed ts2 t2 -> halting t2 -> closed (ts1 ++ ts2) (t1 ++ t2).
Proof.
  intros H1 H2 (b & t & -> & Hb) ks t' r H. rewrite <- !app_assoc. apply H1; [done|by apply H2].
Qed.

Lemma token_spells t k : token_text t k -> spells [k] t.
Proof.
  intros Hk ks t' r Hs H. apply (lexes_cons [] t k ks t' r); [constructor|done| |done].
  unfold delimited. by destruct k.
Qed.

Lemma token_closed t k : token_text t k -> match k with Symbol _ | Text _ => True | _ => False end -> closed [k] t.
Proof.
  intros Hk Hn ks t' r H. apply (lexes_cons [] t k ks t' r); [constructor|done| |done]. by destruct k.
Qed.

Lemma lexes_space w k ks t r : space_text w -> lexes (k :: ks) t r -> lexes (k :: ks) (w ++ t) r.
Proof.
  intros Hw H. inversion H as [|w' s k' ks' t' r' Hw' Hs Hd Hl]; subst. rewrite app_assoc.
  constructor; try done. by apply Forall_app.
Qed.

Lemma closed_space w ts t : space_text w -> ts <> [] -> closed ts t -> closed ts (w ++ t).
Proof.
  intros Hw Hne H ks t' r Hl. rewrite <- app_assoc. specialize (H ks t' r Hl). destruct ts; [done|].
  by apply lexes_space.
Qed.
Lemma spells_space w ts t : space_text w -> ts <> [] -> spells ts t -> spells ts (w ++ t).
Proof.
  intros Hw Hne H ks t' r Hs Hl. rewrite <- app_assoc. specialize (H ks t' r Hs Hl). destruct ts; [done|].
  by apply lexes_space.
Qed.

Lemma halting_space w t : space_text w -> halting t -> halting (w ++ t).
Proof.
  intros Hw (b & t' & -> & Hb). destruct Hw as [|c w Hc Hw]; [by exists b, t'|].
  exists c, (w ++ b :: t'). split; [done|]. revert Hc. unfold is_space, stops, digit, is_e. lia.
Qed.

Lemma punctuation_closed c t : (c, t) ∈ punctuation -> closed [Symbol t] [byte.of_Z c].
Proof. intros H. apply token_closed; [by constructor|done]. Qed.

(** ** Members in the order of the map *)

Lemma sorted_before acc k v m :
  sorted (acc ++ (k, v) :: m) = true -> Forall (fun p => string_lt (fst p) k = true) acc.
Proof.
  induction acc as [|[k' v'] acc IH]; [constructor|]. cbn [app]. rewrite sorted_cons, andb_true_iff.
  intros [Hb Hs]. specialize (IH Hs). constructor; [|done]. destruct acc as [|[k2 v2] acc]; [done|].
  apply Forall_cons in IH as [H _]. cbn in *. by eapply string_lt_trans.
Qed.

(** Members that come in their order are added at the end. *)
Lemma emplace_last acc k v m :
  sorted (acc ++ (k, v) :: m) = true -> assign k v (emplace k JNull acc) = acc ++ [(k, v)].
Proof.
  intros H%sorted_before. assert (Hf : find k acc = None).
  { induction H as [|[k' v'] acc Hk _ IH]; [done|]. cbn in *. rewrite bool_decide_false; [done|].
    intros ->. by rewrite string_lt_irrefl in Hk. }
  unfold emplace. rewrite Hf. clear Hf. induction H as [|[k' v'] acc Hk _ IH]; cbn in *.
  - by rewrite bool_decide_true.
  - assert (Hlt : string_lt k k' = false).
    { destruct (string_lt k k') eqn:E; [|done]. pose proof (string_lt_trans _ _ _ Hk E) as H.
      by rewrite string_lt_irrefl in H. }
    rewrite Hlt. cbn. rewrite bool_decide_false; [by rewrite IH|]. intros ->. by rewrite string_lt_irrefl in Hk.
Qed.

(** ** Values *)
Section Print.
Context (float_text : Z -> bytes) (L : layout).
Context (layout_ok : pretty L = true -> is_space (uchar (ichar L)) = true)
  (float_reads : forall x, float_ok x = true -> token_text (float_text x) (Real x)).

Lemma newline_space n : space_text (newline L n).
Proof.
  unfold newline. destruct (pretty L); [|constructor]. constructor; [done|]. apply Forall_replicate. auto.
Qed.

Definition spelled (v : json) (t : bytes) : Prop := exists ts, value_tokens v ts /\ spells ts t.

Lemma value_tokens_ne v ts : value_tokens v ts -> ts <> [].
Proof. intros (k & ks & -> & _)%value_first. done. Qed.

Lemma closing w c t : space_text w -> (c, t) ∈ punctuation -> stops c = true -> 0 <= c < 256 ->
  closed [Symbol t] (w ++ [byte.of_Z c]) /\ halting (w ++ [byte.of_Z c]).
Proof.
  intros Hw Hc Hs Hr. split; [apply closed_space; [done|done|by apply punctuation_closed]|].
  apply halting_space; [done|]. eexists _, []. split; [done|]. by rewrite uchar_of_Z, Z.mod_small.
Qed.

Lemma comma_closed ts t : closed ts t -> closed (Symbol value_separator :: ts) (byte.of_Z 44 :: t).
Proof. intros H. apply (closed_app [_] [_]); [apply punctuation_closed; set_solver|done]. Qed.
Lemma comma_halting t : halting (byte.of_Z 44 :: t).
Proof. by exists (byte.of_Z 44), t. Qed.

Lemma items_spelled w w' (text : json -> bytes) l acc :
  space_text w -> space_text w' -> l <> [] -> Forall (fun v => spelled v (text v)) l ->
  exists ts, items_tokens acc ts (acc ++ l) /\
    closed ts (w ++ join (byte.of_Z 44 :: w) (text <$> l) ++ w' ++ [byte.of_Z 93]).
Proof.
  intros Hw Hw'. revert acc. induction l as [|v l IH]; intros acc Hne Hl; [done|].
  apply Forall_cons in Hl as [(ts & Hv & Ht) Hl]. pose proof (value_tokens_ne _ _ Hv) as Hts.
  destruct l as [|v' l].
  - exists (ts ++ [Symbol end_array]). split; [by constructor|]. rewrite app_assoc. cbn [fmap list_fmap join].
    destruct (closing w' 93 end_array) as [H1 H2]; [done|set_solver|done|lia|].
    apply spells_app; [by apply spells_space|done|done].
  - destruct (IH (acc ++ [v]) ltac:(done) Hl) as (ts' & Hi & Hc).
    exists (ts ++ Symbol value_separator :: ts'). split; [|].
    + replace (acc ++ v :: v' :: l) with ((acc ++ [v]) ++ v' :: l) by by rewrite <- app_assoc. by eapply i_more.
    + cbn [fmap list_fmap]. rewrite join_cons, <- !app_assoc, (app_assoc w). apply spells_app;
        [by apply spells_space|by apply comma_closed|apply comma_halting].
Qed.

(** A member: the key, the colon and the value. *)
Lemma member_spells k v ts t :
  Utf8.valid k = true -> value_tokens v ts -> spells ts t ->
  spells (Text k :: Symbol name_separator :: ts) (quoted L k ++ colon L ++ t).
Proof.
  intros Hk Hv Ht.
  assert (Hc : spells (Symbol name_separator :: ts) (colon L ++ t)).
  { assert (Hcol : exists w, colon L = [byte.of_Z 58] ++ w /\ space_text w).
    { unfold colon. destruct (pretty L); eexists; (split; [reflexivity|]); repeat constructor. }
    destruct Hcol as (w & -> & Hw). rewrite <- app_assoc.
    apply (closed_spells_app [Symbol name_separator]); [apply punctuation_closed; set_solver|].
    apply spells_space; [done|by eapply value_tokens_ne|done]. }
  apply (closed_spells_app [Text k]); [|exact Hc]. apply token_closed; [by apply quoted_text|done].
Qed.

Lemma members_spelled w w' (text : json -> bytes) m acc :
  space_text w -> space_text w' -> m <> [] -> sorted (acc ++ m) = true ->
  Forall (fun p => Utf8.valid (fst p) = true /\ spelled (snd p) (text (snd p))) m ->
  exists ts, members_tokens acc ts (acc ++ m) /\
    closed ts (w ++ join (byte.of_Z 44 :: w) ((fun p => quoted L (fst p) ++ colon L ++ text (snd p)) <$> m) ++
               w' ++ [byte.of_Z 125]).
Proof.
  intros Hw Hw'. revert acc. induction m as [|[k v] m IH]; intros acc Hne Hs Hm; [done|].
  apply Forall_cons in Hm as [(Hk & ts & Hv & Ht) Hm]. cbn [fst snd] in *.
  pose proof (member_spells k v ts _ Hk Hv Ht) as Hmem. pose proof (emplace_last _ _ _ _ Hs) as He.
  destruct m as [|p m].
  - exists (Text k :: Symbol name_separator :: ts ++ [Symbol end_object]). split; [rewrite <- He; by constructor|].
    rewrite app_assoc. cbn [fmap list_fmap join fst snd].
    destruct (closing w' 125 end_object) as [H1 H2]; [done|set_solver|done|lia|].
    apply (spells_app (Text k :: Symbol name_separator :: ts)); [by apply spells_space|done|done].
  - destruct (IH (acc ++ [(k, v)]) ltac:(done)) as (ts' & Hi & Hc); [by rewrite <- app_assoc|done|].
    exists (Text k :: Symbol name_separator :: ts ++ Symbol value_separator :: ts'). split.
    + replace (acc ++ (k, v) :: p :: m) with ((acc ++ [(k, v)]) ++ p :: m) by by rewrite <- app_assoc.
      eapply m_more; [exact Hv|]. by rewrite He.
    + cbn [fmap list_fmap fst snd]. rewrite join_cons, (app_assoc w). set (x := quoted L k ++ _) in *.
      rewrite <- !app_assoc, (app_assoc w). apply (spells_app (Text k :: Symbol name_separator :: ts));
        [by apply spells_space|by apply comma_closed|apply comma_halting].
Qed.

(** The text of a container, of its brackets and its items. *)
Lemma bracketed_cons o c n x l :
  bracketed L o c n (x :: l) = [byte.of_Z o] ++ newline L (inner L n) ++
    join (byte.of_Z 44 :: newline L (inner L n)) (x :: l) ++ newline L n ++ [byte.of_Z c].
Proof. done. Qed.

Lemma literal_spelled v t s : value_tokens v [Symbol t] -> (s, t) ∈ literals -> spelled v s.
Proof. intros Hv H. exists [Symbol t]. split; [done|]. by apply token_spells, text_literal. Qed.

Lemma print_spelled j n : wf j = true -> spelled j (print float_text L n j).
Proof.
  revert n. induction j as [|b|z|x|s|l IH|m IH] using json_nested_ind; intros n Hw; cbn [print].
  - apply (literal_spelled _ literal_null); [constructor|set_solver].
  - destruct b; [apply (literal_spelled _ literal_true)|apply (literal_spelled _ literal_false)];
      solve [constructor | set_solver].
  - cbn in Hw. exists [int_token z]. split; [unfold int_token; destruct (z <? 0); constructor|].
    apply token_spells, integer_token_text. lia.
  - exists [Real x]. split; [constructor|by apply token_spells, float_reads].
    cbn in Hw. unfold float_ok in Hw. by apply andb_true_iff in Hw as [_ ?].
  - exists [Text s]. split; [constructor|]. by apply token_spells, quoted_text.
  - destruct l as [|v l].
    + exists [Symbol begin_array; Symbol end_array]. split; [constructor|]. apply closed_spells.
      apply (closed_app [_] [_] [_] [_]); apply punctuation_closed; set_solver.
    + assert (Hi : Forall (fun v => spelled v (print float_text L (inner L n) v)) (v :: l)).
      { eapply Forall_guarded; [exact IH|exact Hw|]. intros x _ H Hx. by apply H. }
      destruct (items_spelled (newline L (inner L n)) (newline L n) _ (v :: l) [] (newline_space _) (newline_space _) ltac:(done) Hi)
        as (ts & Hts & Hc).
      exists (Symbol begin_array :: ts). split; [by constructor|]. apply closed_spells.
      cbn [fmap list_fmap] in *. rewrite bracketed_cons. apply (closed_app [_]); [apply punctuation_closed; set_solver|done].
  - destruct m as [|p m].
    + exists [Symbol begin_object; Symbol end_object]. split; [constructor|]. apply closed_spells.
      apply (closed_app [_] [_] [_] [_]); apply punctuation_closed; set_solver.
    + cbn [wf] in Hw. apply andb_true_iff in Hw as [Hs Hw].
      assert (Hi : Forall (fun p => Utf8.valid (fst p) = true /\ spelled (snd p) (print float_text L (inner L n) (snd p))) (p :: m)).
      { eapply Forall_guarded; [exact IH|exact Hw|]. intros [k v] _ H [Hk Hv]%andb_true_iff. auto. }
      destruct (members_spelled (newline L (inner L n)) (newline L n) _ (p :: m) [] (newline_space _) (newline_space _)
        ltac:(done) Hs Hi) as (ts & Hts & Hc).
      exists (Symbol begin_object :: ts). split; [by constructor|]. apply closed_spells.
      cbn [fmap list_fmap] in *. rewrite bracketed_cons. apply (closed_app [_]); [apply punctuation_closed; set_solver|done].
Qed.

(** The text of a value is a text of the grammar for it. *)
Lemma print_json_text j n : wf j = true -> json_text j (print float_text L n j).
Proof.
  intros Hw. destruct (print_spelled j n Hw) as (ts & Hv & Hs).
  exists [], ts, (print float_text L n j), [], []. split; [by left|]. split; [by rewrite !app_nil_r|].
  split; [done|]. split; [|split; [constructor|by left]].
  specialize (Hs [] [] [] eq_refl (lexes_nil _)). by rewrite !app_nil_r in Hs.
Qed.
End Print.

End Texts.
