(* ===== verification/JsonRoundtrip.v ===== *)
(** * Printing and parsing together

    The whole printer against its reference, and the round trip: what the library
    prints, it reads back to the same value. *)
From S2P Require Import Prelude Json JsonUtf8 JsonFloat JsonLexer JsonDump JsonLexing JsonParser JsonParsing JsonGrammar.
From S2P Require Import JsonIntegers JsonEscaping JsonPrinting JsonTexts JsonGrisu JsonFloats.

Module Roundtrip.
Import Json Wf Serializer Printing.

(** ** The floating-point numbers *)

Lemma outputs_float L x : float_ok x = true -> outputs L (dump_float x) (Some (Floats.float_text x)).
Proof.
  unfold float_ok. rewrite !andb_true_iff. intros [Hx Hf]. apply outputs_Ret. intros S Hr.
  unfold dump_float. rewrite Hf. cbn [negb bindM gets lift].
  destruct (Floats.to_chars_spec x (number_buffer S) ltac:(lia) Hf (rd_number _ _ Hr)) as (b & -> & Hb).
  pose proof (Floats.block_window _ _ _ Hb) as Hw. destruct Hb as [Hl _].
  pose proof (Floats.float_text_bound x ltac:(lia) Hf).
  assert (El : load 0 (zlen (Floats.float_text x)) b = Ret (Floats.float_text x))
    by (rewrite load_ok, Hw; [done|lia|apply zlen_nonneg|lia]).
  cbn [mbind outcome_bind set_number_buffer modify bindM lift fst snd]. rewrite El.
  cbn [mbind outcome_bind write_characters modify]. eexists. split; [done|].
  split; [constructor; cbn; try done|done]. by rewrite Hl, (rd_number _ _ Hr).
Qed.

Lemma float_reads x : float_ok x = true -> Lexing.token_text (Floats.float_text x) (Lexing.Real x).
Proof.
  unfold float_ok. rewrite !andb_true_iff. intros [Hx Hf].
  destruct (Floats.float_text_read x ltac:(lia) Hf) as [Hn Hs].
  pose proof (Lexing.text_number _ _ Hn) as H. unfold Lexing.number_token in H. by rewrite Hs in H.
Qed.

(** ** Printing *)

(** The reference: the text of a value in the layout of [dump(indent, ...)]. *)
Definition layout_of (indent : Z) (c : Byte.byte) (ensure_ascii : bool) : layout :=
  mkLayout (0 <=? indent) (if 0 <=? indent then indent else 0) c ensure_ascii.
Definition printed (j : json) (indent : Z) (c : Byte.byte) (ensure_ascii : bool) : bytes :=
  print Floats.float_text (layout_of indent c ensure_ascii) 0 j.

(** The indentation of the deepest line is within the 512 characters the
    serializer starts with. *)
Definition narrow (j : json) (indent : Z) : Prop := 0 <= indent -> indent * depth j <= 512 /\ indent < 2 ^ 32.

Lemma dump_outputs j indent c ensure_ascii handler :
  typed j = true -> narrow j indent ->
  let r := basic_json_dump j indent c ensure_ascii handler in
  if utf8 j then r = Ret (printed j indent c ensure_ascii)
  else if decide (handler = strict) then r = Throw JsonTypeError else exists s, r = Ret s.
Proof.
  intros Ht Hn. cbv zeta. unfold basic_json_dump, printed. set (L := layout_of indent c ensure_ascii).
  assert (Hb : bounded L 0 j).
  { unfold bounded, L, layout_of. cbn. intros Hi. rewrite Hi. destruct (Hn ltac:(lia)). lia. }
  pose proof (outputs_dump Floats.float_text L (outputs_float L) j 0 Ht Hb (make c handler)
    (ready_make c handler L eq_refl)) as H.
  assert (E : (if 0 <=? indent then dump j true ensure_ascii (u32 indent) 0 (make c handler)
               else dump j false ensure_ascii 0 0 (make c handler)) =
              dump j (pretty L) (ascii L) (step L) 0 (make c handler)).
  { unfold L, layout_of. cbn [pretty ascii step]. destruct (Z.leb_spec 0 indent) as [Hi|Hi]; [|done].
    destruct (Hn Hi). by rewrite uwrap_small by lia. }
  rewrite E. destruct (utf8 j).
  - destruct H as (S & -> & _ & _ & Ho). cbn [mbind outcome_bind snd]. by rewrite Ho.
  - cbn [make error_handler] in H. destruct (decide _); [by rewrite H|].
    destruct H as (S & -> & _). cbn [mbind outcome_bind snd]. eauto.
Qed.

(** What the deepest line is indented by when there is no indentation. *)
Lemma narrow_compact j : narrow j (-1).
Proof. intros H. lia. Qed.


(** A value that needs escapes, a surrogate pair and a number of each kind. *)
Definition demo_value : json :=
  JObject [(lit "a", JArray [JInt (-7); JInt (2 ^ 64 - 1); JFloat 0x3FB999999999999A; JNull]);
           (lit "b", JString (byte.of_Z <$> [10; 34; 0xC3; 0xA9; 0xF0; 0x9F; 0x98; 0x80]))].


(** Beyond the 512 characters of indentation the string is enlarged once, to twice
    its size, and the write reads past it. *)
Example wide_indent_overruns :
  basic_json_dump (JArray [JInt 1]) 1100 (byte.of_Z 32) false strict = Undef OutOfBounds.
Proof. vm_compute. reflexivity. Qed.

(** From 513 characters on the enlarged string has spaces, whatever the indentation
    character is. *)
Example wide_indent_mixes :
  basic_json_dump (JArray [JInt 1]) 513 (byte.of_Z 9) false strict =
  Ret (lit "[" ++ [Byte.x0a] ++ replicate 512 (byte.of_Z 9) ++ lit " 1" ++ [Byte.x0a] ++ lit "]").
Proof. vm_compute. reflexivity. Qed.

(** ** The round trip *)

Lemma parse_printed j indent c ensure_ascii allow ignore :
  wf j = true -> (0 <= indent -> Lexer.is_space (uchar c) = true) ->
  Parser.basic_json_parse (printed j indent c ensure_ascii) allow ignore = Ret (Some j).
Proof.
  intros Hw Hc. apply Grammar.parse_text. apply Texts.print_json_text; [|exact float_reads|done].
  unfold layout_of. cbn. intros H. apply Hc. lia.
Qed.

(** C8: every well-formed value is printed, in the compact layout or on lines, with
    or without [ensure_ascii], and the parser reads the text back to the same
    value: integers of 64 bits, doubles bit for bit (what Grisu2 prints, [strtod]
    reads), strings byte for byte. *)
Theorem dump_parse_roundtrip (j : json) (indent : Z) (c : Byte.byte) (ensure_ascii : bool) (handler : error_handler_t)
    (allow ignore : bool) :
  wf j = true -> narrow j indent -> (0 <= indent -> Lexer.is_space (uchar c) = true) ->
  exists s, basic_json_dump j indent c ensure_ascii handler = Ret s /\
    Parser.basic_json_parse s allow ignore = Ret (Some j).
Proof.
  intros Hw Hn Hc. destruct (wf_typed_utf8 j Hw) as [Ht Hu].
  pose proof (dump_outputs j indent c ensure_ascii handler Ht Hn) as H. cbv zeta in H. rewrite Hu in H.
  eexists. split; [exact H|]. by apply parse_printed.
Qed.

Lemma dump_parse_roundtrip_witness :
  exists s, basic_json_dump demo_value 2 (byte.of_Z 9) false strict = Ret s /\
    Parser.basic_json_parse s true false = Ret (Some demo_value).
Proof.
  apply (dump_parse_roundtrip demo_value 2 (byte.of_Z 9) false strict true false);
    [reflexivity|intros _; vm_compute; done|intros _; reflexivity].
Defined.

(** A null byte between tokens ends the input, whatever follows. *)
Example nul_ends_input :
  Parser.basic_json_parse (lit "1 " ++ [Byte.x00] ++ lit "junk") true false = Ret (Some (JInt 1)).
Proof. vm_compute. reflexivity. Qed.

(** C11: [parse] on any bytes at all, with or without exceptions and comments: it ends
    with a well-formed value (keys sorted and unique, numbers in range, strings
    UTF-8), with the discarded value, or with one of the two exceptions it
    documents; and a value it gives can be printed and is read again as itself. *)
Theorem parse_every_input (s : bytes) (allow ignore : bool) :
  match Parser.basic_json_parse s allow ignore with
  | Ret (Some j) => wf j = true /\ exists t, basic_json_dump j (-1) (byte.of_Z 32) false strict = Ret t /\
                      Parser.basic_json_parse t allow ignore = Ret (Some j)
  | Ret None => allow = false
  | Throw e => allow = true /\ (e = JsonParseError \/ e = JsonOutOfRange)
  | Undef _ => False
  end.
Proof.
  pose proof (Parsing.basic_json_parse_total s allow ignore) as H.
  destruct (Parser.basic_json_parse s allow ignore) as [[j|]|e|]; try done. split; [done|].
  destruct (wf_typed_utf8 j H) as [Ht Hu].
  pose proof (dump_outputs j (-1) (byte.of_Z 32) false strict Ht (narrow_compact j)) as Hd. cbv zeta in Hd.
  rewrite Hu in Hd. eexists. split; [exact Hd|]. by apply parse_printed; [|lia].
Qed.

(** C10: the printer of doubles on every finite double and whatever its buffer held: no
    assertion of Grisu2 fails, no access leaves the 64 bytes, and the text is a
    JSON number with a fraction or an exponent that [strtod] reads, to its end, as
    the same bits (the sign of zero included). *)
Theorem float_roundtrip (x : Z) (buf : bytes) :
  0 <= x < 2 ^ 64 -> Float.isfinite x = true -> zlen buf = 64 ->
  exists n buf', to_chars 0 64 buf x = Ret (n, buf') /\ zlen buf' = 64 /\ 0 <= n <= 64 /\
    Lexing.number_text (window 0 n buf') = Some Lexer.value_float /\
    Float.strtod (window 0 n buf') = (x, []).
Proof.
  intros Hx Hf Hb. destruct (Floats.to_chars_spec x buf Hx Hf Hb) as (b & E & Hblk).
  destruct (Floats.float_text_read x Hx Hf) as [Hn Hs]. rewrite <- (Floats.block_window _ _ _ Hblk) in Hn, Hs.
  exists (zlen (Floats.float_text x)), b. split; [done|]. split; [apply Hblk|].
  split; [split; [apply zlen_nonneg|by apply Floats.float_text_bound]|done].
Qed.

(** The smallest denormal number. *)
Lemma float_roundtrip_witness :
  exists n buf', to_chars 0 64 (replicate 64 Byte.xff) 1 = Ret (n, buf') /\ zlen buf' = 64 /\ 0 <= n <= 64 /\
    Lexing.number_text (window 0 n buf') = Some Lexer.value_float /\
    Float.strtod (window 0 n buf') = (1, []).
Proof. apply (float_roundtrip 1 (replicate 64 Byte.xff)); [lia|reflexivity|reflexivity]. Defined.

End Roundtrip.
