(* ===== verification/JsonText.v ===== *)
(** * The text side of the JSON library, as the program calls it

    [json::parse(text)] and [value.dump()] with their default arguments, and what
    the clients need to know of them. *)
From S2P Require Import Prelude Json JsonUtf8 JsonFloat JsonDump JsonParser JsonParsing JsonGrammar JsonPrinting JsonRoundtrip.

Module JsonText.
Import Json Wf Printing Roundtrip.

(** [basic_json::parse(i, nullptr, true, false)]: with exceptions it never returns the
    discarded value. *)
Definition json_parse (s : bytes) : outcome json :=
  r ← Parser.basic_json_parse s true false;
  match r with Some j => Ret j | None => Throw JsonParseError end.

(** [dump(-1, ' ', false, error_handler_t::strict)] *)
Definition json_dump (j : json) : outcome bytes :=
  Serializer.basic_json_dump j (-1) (byte.of_Z 32) false Serializer.strict.

(** The text of a value, without buffers. *)
Definition compact (j : json) : bytes := printed j (-1) (byte.of_Z 32) false.

(** The exceptions of the parser. *)
Definition parse_failure (e : exn) : Prop := e = JsonParseError \/ e = JsonOutOfRange.

Lemma json_parse_cases s :
  match json_parse s with
  | Ret j => wf j = true
  | Throw e => parse_failure e
  | Undef _ => False
  end.
Proof.
  unfold json_parse. pose proof (Parsing.basic_json_parse_total s true false) as H.
  destruct (Parser.basic_json_parse s true false) as [[j|]|e|]; cbn [mbind outcome_bind]; try done. by destruct H.
Qed.

Lemma json_dump_cases j :
  typed j = true -> json_dump j = if utf8 j then Ret (compact j) else Throw JsonTypeError.
Proof.
  intros Ht. pose proof (dump_outputs j (-1) (byte.of_Z 32) false Serializer.strict Ht (narrow_compact j)) as H.
  cbv zeta in H. by destruct (utf8 j).
Qed.

Lemma json_dump_wf j : wf j = true -> json_dump j = Ret (compact j).
Proof. intros Hw. destruct (wf_typed_utf8 j Hw) as [Ht Hu]. by rewrite json_dump_cases, Hu. Qed.

Lemma json_parse_compact j : wf j = true -> json_parse (compact j) = Ret j.
Proof. intros Hw. unfold json_parse, compact. by rewrite parse_printed by (done || lia). Qed.

(** What is read is exactly the grammar. *)
Lemma json_parse_iff s j : json_parse s = Ret j <-> Syntax.json_text j s.
Proof.
  assert (Parser.basic_json_parse s true false = Ret (Some j) <-> Syntax.json_text j s) as H.
  { split; [|apply Grammar.parse_text]. intros E.
    pose proof (Parsing.basic_json_parse_result s true false) as Hr. rewrite E in Hr.
    by apply Grammar.read_as_text, Hr. }
  rewrite <- H. unfold json_parse.
  destruct (Parser.basic_json_parse s true false) as [[j'|]|e|]; cbn [mbind outcome_bind]; split; congruence.
Qed.

(** The clients reason with the lemmas; examples still evaluate. *)
#[global] Opaque json_parse json_dump compact.

End JsonText.
Export JsonText.
