(* ===== verification/RedisClient.v ===== *)
(** * The redis client

    What include/sw/redis++ gives the message history.  Only the headers of that
    library are in the repository: [rpush] of a range, [lrange], the arguments of a
    command and the walk over an array reply are templates and translated here; the
    compiled part ([exists], [del], [rpush] of one value, connections, replies of one
    value) and hiredis are operations of [RedisApi]. *)
From S2P Require Import Prelude Protocol.


(** The arguments of a format of hiredis: ["%b"] and ["%lld"]. *)
Inductive format_arg : Type := Binary (s : bytes) | LongLong (z : Z).

(** A command may throw [sw::redis::Error], and then its result is [None].  The
    first argument is the URL of the server; [redis] is the state of the server and
    of the connections to it.  [redis_argv] and [redis_format] send a command on a
    connection of the pool, with the arrays of its arguments or with a format, and
    receive the reply; [reply_element] is the array of pointers in a reply, and
    [None] is the null pointer an empty array has. *)
Class RedisApi : Type := {
  redis : Type;
  redisReply : Type;
  redis_exists : bytes -> bytes -> redis -> option bool * redis;
  redis_del : bytes -> bytes -> redis -> option Z * redis;
  redis_rpush_one : bytes -> bytes -> bytes -> redis -> option Z * redis;
  redis_argv : bytes -> list bytes -> list Z -> redis -> option redisReply * redis;
  redis_format : bytes -> bytes -> list format_arg -> redis -> option redisReply * redis;
  reply_type : redisReply -> Z;
  reply_element : redisReply -> option (list (option redisReply));
  reply_string : redisReply -> option bytes;
  reply_long_long : redisReply -> option Z
}.

(** The types of hiredis; maps and sets are of version 3 of the protocol. *)
Definition REDIS_REPLY_ARRAY : Z := 2.
Definition REDIS_REPLY_MAP : Z := 9.
Definition REDIS_REPLY_SET : Z := 10.

Module CmdArgs.

(** The two vectors that are given to hiredis. *)
Record CmdArgs : Type := mkCmdArgs { argv : list bytes; argv_len : list Z }.
Definition empty : CmdArgs := mkCmdArgs [] [].

(** [operator<<] of a view and of a range of them. *)
Definition append (arg : bytes) (a : CmdArgs) : CmdArgs := mkCmdArgs (argv a ++ [arg]) (argv_len a ++ [zlen arg]).
Fixpoint append_range (args : list bytes) (a : CmdArgs) : CmdArgs :=
  match args with
  | [] => a
  | arg :: args' => append_range args' (append arg a)
  end.

Lemma append_range_eq args a :
  append_range args a = mkCmdArgs (argv a ++ args) (argv_len a ++ (zlen <$> args)).
Proof.
  revert a. induction args as [|arg args IH]; intros a; cbn; [by rewrite !app_nil_r; destruct a|].
  rewrite IH. cbn. by rewrite <- !app_assoc.
Qed.

End CmdArgs.

Section Api.
Context `{rapi : RedisApi}.

(** The commands, as functions of the state like the operations above. *)
Definition rpush_range (url key : bytes) (vs : list bytes) : redis -> option redisReply * redis :=
  let args := CmdArgs.append_range vs (CmdArgs.append key (CmdArgs.append (lit "RPUSH") CmdArgs.empty)) in
  redis_argv url (CmdArgs.argv args) (CmdArgs.argv_len args).
Definition lrange_format (url key : bytes) (start stop : Z) : redis -> option redisReply * redis :=
  redis_format url (lit "LRANGE %b %lld %lld") [Binary key; LongLong start; LongLong stop].

(** [Redis::rpush(key, first, last)]; [range_check] refuses an empty range. *)
Definition redis_rpush (url key : bytes) (vs : list bytes) (r : redis) : option Z * redis :=
  match vs with
  | [] => (None, r)
  | _ => let '(reply, r') := rpush_range url key vs r in (reply ≫= reply_long_long, r')
  end.

Definition is_array (reply : redisReply) : bool := reply_type reply =? REDIS_REPLY_ARRAY.
Definition is_map (reply : redisReply) : bool := reply_type reply =? REDIS_REPLY_MAP.
Definition is_set (reply : redisReply) : bool := reply_type reply =? REDIS_REPLY_SET.

(** The loop of [to_array]: what was written to the output iterator, and whether no
    exception was thrown. *)
Fixpoint to_array_loop (element : list (option redisReply)) : list bytes * bool :=
  match element with
  | [] => ([], true)
  | sub_reply :: element' =>
      match sub_reply ≫= reply_string with
      | Some s => let '(l, ok) := to_array_loop element' in (s :: l, ok)
      | None => ([], false)
      end
  end.
Definition to_array (reply : redisReply) : list bytes * bool :=
  if negb (is_array reply) && negb (is_map reply) && negb (is_set reply) then ([], false)
  else match reply_element reply with None => ([], true) | Some element => to_array_loop element end.

(** [Redis::lrange(key, start, stop, std::back_inserter(list))]: what is in the list
    afterwards, also after an exception. *)
Definition redis_lrange (url key : bytes) (start stop : Z) (r : redis) : (list bytes * bool) * redis :=
  let '(reply, r') := lrange_format url key start stop r in
  (match reply with None => ([], false) | Some reply => to_array reply end, r').

(** On an exception the elements before the one that could not be read are in the
    list. *)
Lemma to_array_loop_prefix l :
  exists l1 l2, l = l1 ++ l2 /\ (fun o => o ≫= reply_string) <$> l1 = Some <$> fst (to_array_loop l) /\
    if snd (to_array_loop l) then l2 = [] else exists o l3, l2 = o :: l3 /\ o ≫= reply_string = None.
Proof.
  induction l as [|o l (l1 & l2 & -> & IH1 & IH2)]; [by exists [], []|].
  cbn [to_array_loop]. destruct (o ≫= reply_string) as [s|] eqn:E.
  - exists (o :: l1), l2. destruct (to_array_loop (l1 ++ l2)) as [t ok]. cbn in *. by rewrite E, IH1.
  - exists [], (o :: l1 ++ l2). split; [done|]. split; [done|]. by eexists _, _.
Qed.

End Api.

(** What a server keeps under a key, and what the commands do to it, when they are
    answered. *)
Class RedisLaws (api : RedisApi) : Type := {
  redis_list : bytes -> bytes -> redis -> list bytes;
  redis_exists_law : forall url key r b r',
    redis_exists url key r = (Some b, r') ->
    b = negb (bool_decide (redis_list url key r = [])) /\
    redis_list url key r' = redis_list url key r;
  redis_del_law : forall url key r n r',
    redis_del url key r = (Some n, r') -> redis_list url key r' = [];
  redis_rpush_one_law : forall url key v r n r',
    redis_rpush_one url key v r = (Some n, r') -> redis_list url key r' = redis_list url key r ++ [v];
  redis_rpush_command_law : forall url key vs r reply r',
    redis_argv url (lit "RPUSH" :: key :: vs) (zlen <$> lit "RPUSH" :: key :: vs) r = (Some reply, r') ->
    redis_list url key r' = redis_list url key r ++ vs;
  redis_lrange_command_law : forall url key r reply r',
    redis_format url (lit "LRANGE %b %lld %lld") [Binary key; LongLong 0; LongLong (-1)] r = (Some reply, r') ->
    reply_type reply = REDIS_REPLY_ARRAY /\
    (fun o => o ≫= reply_string) <$> default [] (reply_element reply) = Some <$> redis_list url key r /\
    redis_list url key r' = redis_list url key r
}.

Section Laws.
Context `{rapi : RedisApi} `{laws : !RedisLaws rapi}.

Lemma redis_rpush_law url key vs r n r' :
  redis_rpush url key vs r = (Some n, r') -> vs <> [] /\ redis_list url key r' = redis_list url key r ++ vs.
Proof.
  unfold redis_rpush. destruct vs as [|v vs]; [done|].
  unfold rpush_range. rewrite CmdArgs.append_range_eq.
  change (CmdArgs.argv (CmdArgs.mkCmdArgs _ _)) with (lit "RPUSH" :: key :: v :: vs).
  change (CmdArgs.argv_len (CmdArgs.mkCmdArgs _ _)) with (zlen <$> (lit "RPUSH" :: key :: v :: vs)).
  destruct (redis_argv _ _ _ r) as [[reply|] r1] eqn:E; [|done]. cbn [mbind option_bind].
  intros [= _ <-]. split; [done|]. exact (redis_rpush_command_law _ _ _ _ _ _ E).
Qed.

Lemma to_array_loop_all l vs :
  (fun o => o ≫= reply_string) <$> l = Some <$> vs -> to_array_loop l = (vs, true).
Proof.
  revert vs. induction l as [|o l IH]; intros [|v vs] H; try done. cbn in H. injection H as H1 H2.
  cbn [to_array_loop]. by rewrite H1, (IH vs).
Qed.

(** An answer to [lrange] of the whole list is the whole list. *)
Lemma redis_lrange_law url key r vs r' :
  redis_lrange url key 0 (-1) r = ((vs, true), r') ->
  vs = redis_list url key r /\ redis_list url key r' = redis_list url key r.
Proof.
  unfold redis_lrange, lrange_format. destruct (redis_format _ _ _ r) as [[reply|] r1] eqn:E; [|done].
  destruct (redis_lrange_command_law _ _ _ _ _ E) as (Ht & Hl & Hr). intros [= Hv <-]. split; [|done].
  unfold to_array, is_array in Hv. rewrite Ht in Hv. cbn in Hv.
  destruct (reply_element reply) as [l|]; cbn in Hl.
  - rewrite (to_array_loop_all _ _ Hl) in Hv. by injection Hv.
  - injection Hv as <-. by destruct (redis_list url key r).
Qed.

End Laws.

(** ** A concrete server, for the examples

    It has one list, which can be made read-only. *)
Module DemoRedis.

Inductive reply : Type := Number (z : Z) | Text (s : bytes) | Texts (l : list bytes).

Definition server : RedisApi := {|
  redis := bool * list bytes;
  redisReply := reply;
  redis_exists := fun _ _ r => (Some (negb (bool_decide (snd r = []))), r);
  redis_del := fun _ _ r => if fst r : bool then (Some 1, (true, [])) else (None, r);
  redis_rpush_one := fun _ _ v r =>
    if fst r : bool then (Some (zlen (snd r ++ [v])), (true, snd r ++ [v])) else (None, r);
  redis_argv := fun _ args _ r =>
    if fst r : bool then (Some (Number (zlen (snd r ++ drop 2 args))), (true, snd r ++ drop 2 args)) else (None, r);
  redis_format := fun _ _ _ r => (Some (Texts (snd r)), r);
  reply_type := fun x => match x with Number _ => 3 | Text _ => 1 | Texts _ => REDIS_REPLY_ARRAY end;
  reply_element := fun x =>
    match x with Texts ((_ :: _) as l) => Some (Some <$> (Text <$> l)) | _ => None end;
  reply_string := fun x => match x with Text s => Some s | _ => None end;
  reply_long_long := fun x => match x with Number z => Some z | _ => None end
|}.

Program Definition laws : RedisLaws server := {| redis_list := fun _ _ r => snd r |}.
Next Obligation. intros url key r b r'; cbn; by intros [= <- <-]. Qed.
Next Obligation. intros url key [[] l] b r'; cbn; by intros [= <- <-]. Qed.
Next Obligation. intros url key v [[] l] n r'; cbn; by intros [= <- <-]. Qed.
Next Obligation. intros url key vs [[] l] n r'; cbn; by intros [= <- <-]. Qed.
Next Obligation.
  intros url key [w l] x r'; cbn; intros [= <- <-]. split; [done|]. split; [|done].
  destruct l as [|s l]; [done|]. cbn. f_equal. induction l as [|t l IH]; [done|]. cbn. by f_equal.
Qed.

Lemma reads_all url key start stop (r : bool * list bytes) :
  redis_lrange (rapi := server) url key start stop r = ((snd r, true), r).
Proof.
  destruct r as [w [|s l]]; [done|]. unfold redis_lrange, to_array. cbn.
  by rewrite (to_array_loop_all (rapi := server) _ l) by
    (induction l as [|t l IH]; [done|]; cbn; by f_equal).
Qed.

End DemoRedis.
