(* ===== verification/Stores.v ===== *)
(** * Users and messages

    [UserManager] is chatserversrc/UserManager.*: the users read from MySQL at
    start-up.  [MsgCacheManager] is chatserversrc/MsgCacheManager.*: the chat
    history, copied from MySQL to a redis list at start-up and kept there.
    Redis is the parameter [RedisApi]; [RedisLaws] is what its documentation
    says of the list commands. *)
From S2P Require Import Prelude Protocol Mysql RedisClient Json JsonParsing JsonPrinting JsonText.

(** [strValues[i]] on a [std::vector]: no bounds check. *)
Definition at_index (l : list bytes) (i : nat) : outcome bytes :=
  match l !! i with Some s => Ret s | None => Undef OutOfBounds end.

(** A [CDatabaseMysql] owned by a [unique_ptr] for the duration of a call. *)
Definition with_database `{MysqlApi} {S A} (view : S -> CDatabaseMysql.Client)
    (update : CDatabaseMysql.Client -> S -> S)
    (body : M (S * CDatabaseMysql.CDatabaseMysql) A) : M S A := fun s =>
  p ← body (s, CDatabaseMysql.make);
  let '(a, (s', db)) := p in
  cl ← CDatabaseMysql.destroy (db, view s');
  Ret (a, update cl s').

Module UserManager.

Record User : Type := mkUser { userid : Z; username : bytes; password : bytes }.

#[export] Instance User_eq_dec : EqDecision User.
Proof. solve_decision. Defined.

Section Api.
Context `{api : MysqlApi}.

Record UserManager : Type := mkUserManager {
  m_allCachedUsers : list User;
  m_info : CDatabaseMysql.DatabaseInfo
}.
Definition make : UserManager := mkUserManager [] (CDatabaseMysql.mkInfo [] [] [] []).

Abbreviation State := (UserManager * CDatabaseMysql.Client)%type.

(** A call on the local database object. *)
Definition on_db {A} (f : M (CDatabaseMysql.CDatabaseMysql * CDatabaseMysql.Client) A)
    : M (State * CDatabaseMysql.CDatabaseMysql) A := fun s =>
  let '((u, cl), db) := s in
  p ← f (db, cl);
  let '(a, (db', cl')) := p in Ret (a, ((u, cl'), db')).

Definition user_of_row (r : Row.Row) : outcome User :=
  let strValues := Row.getStrValues r in
  v0 ← at_index strValues 0;
  id ← ConvertString.convertFromString_int v0;
  name ← at_index strValues 1;
  pwd ← at_index strValues 2;
  Ret (mkUser id name pwd).

Definition add_user (u : User) : M (State * CDatabaseMysql.CDatabaseMysql) unit :=
  modify (fun s => let '((m, cl), db) := s in
    ((mkUserManager (m_allCachedUsers m ++ [u]) (m_info m), cl), db)).

Definition select_users : bytes := lit "SELECT f_user_id, f_username, f_password FROM t_user".

Definition load_body (info : CDatabaseMysql.DatabaseInfo)
    : M (State * CDatabaseMysql.CDatabaseMysql) bool :=
  let! ok := on_db (CDatabaseMysql.initialize info) in
  if negb ok then ret false
  else
    let! res_ptr := on_db (CDatabaseMysql.query select_users) in
    match res_ptr with
    | None => ret false
    | Some q =>
        do! for_each (QueryResult.getRows q)
              (fun r => let! u := lift (user_of_row r) in add_user u) in
        ret true
    end.

Definition loadUsersFromDb : M State bool :=
  let! s := get in
  with_database snd (fun cl s => (fst s, cl)) (load_body (m_info (fst s))).

Definition set_info (i : CDatabaseMysql.DatabaseInfo) : M State unit :=
  modify (fun s => (mkUserManager (m_allCachedUsers (fst s)) i, snd s)).

(** [dbPassword] may be null; a null [dbServer], [dbUserName] or [dbName] is
    assigned to a [std::string]. *)
Definition init (dbServer dbUserName dbPassword dbName : option bytes) : M State bool :=
  let! s := get in
  match dbServer, dbUserName, dbName with
  | Some server, Some user, Some name =>
      do! set_info (CDatabaseMysql.mkInfo server user
                      (default (CDatabaseMysql.strPwd (m_info (fst s))) dbPassword) name) in
      loadUsersFromDb
  | _, _, _ => undefined NullPointer
  end.

(** *** Loading *)

(** The values of one row as a user. *)
Definition user_of_columns (values : list bytes) : outcome User :=
  user_of_row (Row.mkRow values []).

Lemma user_of_row_columns r : user_of_row r = user_of_columns (Row.m_strValues r).
Proof. done. Qed.

Lemma add_users_ok rows us st :
  user_of_row <$> rows = Ret <$> us ->
  for_each rows (fun r => let! u := lift (user_of_row r) in add_user u) st =
  Ret (tt, let '((m, cl), db) := st in
    ((mkUserManager (m_allCachedUsers m ++ us) (m_info m), cl), db)).
Proof.
  revert us st. induction rows as [|r rows IH]; intros [|u us] [[[l i] cl] db]; try done.
  { cbn. by rewrite app_nil_r. }
  cbn [fmap list_fmap]. intros [= Hu Hus]. cbn [for_each]. rewrite M_bind_eq, M_bind_eq, Hu.
  cbn [lift mbind outcome_bind add_user modify]. rewrite (IH us) by done.
  cbn. by rewrite <- app_assoc.
Qed.

Lemma users_of_rows (rs : list mysql_row) :
  Forall (fun row => exists u, user_of_columns (Row.column <$> row) = Ret u) rs ->
  exists us : list User,
    (fun row => user_of_columns (Row.column <$> row)) <$> rs = Ret <$> us.
Proof.
  induction 1 as [|row rs [u Hu] _ [us IH]]; [by exists []|].
  exists (u :: us). cbn. by rewrite Hu, IH.
Qed.

Lemma map_values_users (rows : list mysql_row) rs (us : list User) :
  Row.m_strValues <$> rs = (fun row => Row.column <$> row) <$> rows ->
  (fun row => user_of_columns (Row.column <$> row)) <$> rows = Ret <$> us ->
  user_of_row <$> rs = Ret <$> us.
Proof.
  intros Hv Hu. rewrite <- Hu.
  transitivity (user_of_columns <$> (Row.m_strValues <$> rs)).
  - by rewrite <- list_fmap_compose.
  - by rewrite Hv, <- list_fmap_compose.
Qed.

Section Load.
Hypothesis stays : forall h d, mysql_errno h d <> CR_SERVER_GONE_ERROR.
Hypothesis rectangular : forall h d r d', mysql_store_result h d = (Some r, d') -> QueryResult.rectangular r.
Hypothesis users : forall r, CDatabaseMysql.served select_users r ->
  Forall (fun row => exists u, user_of_columns (Row.column <$> row) = Ret u) (QueryResult.rows r).

Lemma load_users (s : State) :
  CDatabaseMysql.clean (snd s) ->
  exists ok s', loadUsersFromDb s = Ret (ok, s') /\ CDatabaseMysql.clean (snd s') /\ m_info (fst s') = m_info (fst s) /\
    if ok : bool then
      exists r us, CDatabaseMysql.served select_users r /\
        (fun row => user_of_columns (Row.column <$> row)) <$> QueryResult.rows r = Ret <$> us /\
        m_allCachedUsers (fst s') = m_allCachedUsers (fst s) ++ us
    else m_allCachedUsers (fst s') = m_allCachedUsers (fst s).
Proof.
  intros Hc. destruct s as [m cl]. unfold loadUsersFromDb, with_database. rewrite M_bind_eq. cbn [get].
  unfold load_body. rewrite M_bind_eq. unfold on_db at 1.
  destruct (CDatabaseMysql.fetch_ok stays rectangular (m_info m) select_users cl Hc) as (ok & [db1 cl1] & E & Hh & Hq).
  cbn [fst snd] in *. rewrite E. cbn [mbind outcome_bind].
  destruct (CDatabaseMysql.destroy_ok _ Hh) as (cl2 & Hd & Hc2). destruct ok; cbn [negb].
  2:{ cbn [ret mbind outcome_bind snd]. rewrite Hd. by eexists false, _. }
  destruct (Hq eq_refl) as (q & d & Eq & Hr). rewrite M_bind_eq. unfold on_db at 1. cbn [snd fst]. rewrite Eq.
  destruct (CDatabaseMysql.destroy_ok (CDatabaseMysql.with_server d (db1, cl1)) Hh) as (cl3 & Hd3 & Hc3).
  unfold CDatabaseMysql.with_server in *. cbn [mbind outcome_bind fst snd] in *. destruct q as [qr|].
  2:{ cbn [ret mbind outcome_bind snd]. rewrite Hd3. by eexists false, _. }
  destruct (Hr qr eq_refl) as (r & Hs & Hv). destruct (users_of_rows _ (users r Hs)) as [us Hus].
  rewrite M_bind_eq, (add_users_ok _ us) by (by eapply map_values_users).
  cbn [ret mbind outcome_bind fst snd]. rewrite Hd3. eexists true, _. split_and!; [reflexivity|done|done|]. by exists r, us.
Qed.

End Load.


End Api.

Definition getUserListInfo (users : list User) : list User := users.

(** The first user of that name, if there is one. *)
Fixpoint getUserInfoByUsername (name : bytes) (users : list User) (u : User) : bool * User :=
  match users with
  | [] => (false, u)
  | v :: users' =>
      if bool_decide (username v = name) then (true, v) else getUserInfoByUsername name users' u
  end.

Lemma getUserInfoByUsername_spec name users u :
  getUserInfoByUsername name users u =
  match List.find (fun v => bool_decide (username v = name)) users with
  | Some v => (true, v)
  | None => (false, u)
  end.
Proof. induction users as [|v users IH]; [done|]. cbn. by case_bool_decide. Qed.

(** A server with one user. *)
Definition one_user : list mysql_row := [[Some (lit "1"); Some (lit "alice"); Some (lit "pw")]].
Definition demo_users : MysqlApi := {|
  db := unit;
  mysql_real_connect := fun _ _ _ _ _ d => (true, d);
  mysql_real_query := fun _ _ d => (0, d);
  mysql_errno := fun _ _ => 0;
  mysql_store_result := fun _ d =>
    (Some (QueryResult.mkRes
       [(lit "f_user_id", QueryResult.FIELD_TYPE_LONG);
        (lit "f_username", QueryResult.FIELD_TYPE_STRING);
        (lit "f_password", QueryResult.FIELD_TYPE_STRING)] one_user), d);
  mysql_field_count := fun _ _ => 3
|}.
Definition demo_state : @UserManager * @CDatabaseMysql.Client demo_users :=
  (make, CDatabaseMysql.mkClient (api := demo_users) ∅ 1 ()).


Example users_loaded_one :
  (fun p => m_allCachedUsers (fst (snd p))) <$> loadUsersFromDb (api := demo_users) demo_state =
  Ret [mkUser 1 (lit "alice") (lit "pw")].
Proof. vm_compute. reflexivity. Qed.

End UserManager.

Module MsgCacheManager.

Section Api.
Context `{api : MysqlApi} `{rapi : RedisApi}.

Record ChatMsg : Type := mkChatMsg {
  msgid : Z; senderid : Z; senderusername : bytes; msgcontent : bytes; sendtime_str : bytes
}.

Record MsgCacheManager : Type := mkMsgCacheManager {
  m_info : CDatabaseMysql.DatabaseInfo;
  m_strRedisUrl : bytes
}.
Definition make : MsgCacheManager := mkMsgCacheManager (CDatabaseMysql.mkInfo [] [] [] []) [].

Record State : Type := mkState {
  manager : MsgCacheManager;
  client : CDatabaseMysql.Client;
  store : redis
}.

Definition key : bytes := lit "414chatmsgs".

Definition set_manager (m : MsgCacheManager) : M State unit :=
  modify (fun s => mkState m (client s) (store s)).

(** A redis command: [None] is an exception of type [Error]. *)
Definition command {A} (f : redis -> A * redis) : M State A := fun s =>
  let p := f (store s) in Ret (fst p, mkState (manager s) (client s) (snd p)).

Definition msg_of_row (r : Row.Row) : outcome ChatMsg :=
  let strValues := Row.getStrValues r in
  v0 ← at_index strValues 0;
  id ← ConvertString.convertFromString_int v0;
  v1 ← at_index strValues 1;
  sender ← ConvertString.convertFromString_int v1;
  name ← at_index strValues 2;
  content ← at_index strValues 3;
  time ← at_index strValues 4;
  Ret (mkChatMsg id sender name content time).

Definition json_of_msg (m : ChatMsg) : outcome Json.json :=
  j1 ← Json.set_key (lit "msgid") (Json.JInt (msgid m)) Json.JNull;
  j2 ← Json.set_key (lit "senderid") (Json.JInt (senderid m)) j1;
  j3 ← Json.set_key (lit "senderusername") (Json.JString (senderusername m)) j2;
  j4 ← Json.set_key (lit "msgcontent") (Json.JString (msgcontent m)) j3;
  Json.set_key (lit "sendtime_str") (Json.JString (sendtime_str m)) j4.

(** The loop over the rows: the texts pushed to the list. *)
Fixpoint texts_of_rows (rs : list Row.Row) : outcome (list bytes) :=
  match rs with
  | [] => Ret []
  | r :: rs' =>
      m ← msg_of_row r;
      j ← json_of_msg m;
      t ← json_dump j;
      ts ← texts_of_rows rs';
      Ret (t :: ts)
  end.

Definition select_msgs : bytes := lit
  "SELECT t_chatmsg.f_msg_id, t_chatmsg.f_senderid, t_user.f_username, t_chatmsg.f_msgcontent, t_chatmsg.f_create_time FROM t_chatmsg JOIN t_user ON t_chatmsg.f_senderid = t_user.f_user_id".

Definition on_db {A} (f : M (CDatabaseMysql.CDatabaseMysql * CDatabaseMysql.Client) A)
    : M (State * CDatabaseMysql.CDatabaseMysql) A := fun s =>
  p ← f (snd s, client (fst s));
  let '(a, (db', cl')) := p in
  Ret (a, (mkState (manager (fst s)) cl' (store (fst s)), db')).

(** The guarded block: the list is replaced by the texts. *)
Definition replace_list (url : bytes) (msgs : list bytes) : M State bool :=
  let! e := command (redis_exists url key) in
  match e with
  | None => ret false
  | Some there =>
      let! d := (if there : bool then command (redis_del url key) else ret (Some 0)) in
      match d with
      | None => ret false
      | Some _ =>
          let! p := command (redis_rpush url key msgs) in
          match p with None => ret false | Some _ => ret true end
      end
  end.

Definition load_body (info : CDatabaseMysql.DatabaseInfo) (url : bytes)
    : M (State * CDatabaseMysql.CDatabaseMysql) bool :=
  let! ok := on_db (CDatabaseMysql.initialize info) in
  if negb ok then ret false
  else
    let! res_ptr := on_db (CDatabaseMysql.query select_msgs) in
    match res_ptr with
    | None => ret false
    | Some q =>
        let! msgs := lift (texts_of_rows (QueryResult.getRows q)) in
        zoom fst (fun s' s => (s', snd s)) (replace_list url msgs)
    end.

Definition loadMsgFromDbAndStoreInRedis : M State bool :=
  let! s := get in
  with_database client (fun cl s => mkState (manager s) cl (store s))
    (load_body (m_info (manager s)) (m_strRedisUrl (manager s))).

Definition init (dbServer dbUserName dbPassword dbName redisUrl : option bytes)
    : M State bool :=
  let! s := get in
  match dbServer, dbUserName, dbName, redisUrl with
  | Some server, Some user, Some name, Some url =>
      do! set_manager (mkMsgCacheManager (CDatabaseMysql.mkInfo server user
            (default (CDatabaseMysql.strPwd (m_info (manager s))) dbPassword) name) url) in
      loadMsgFromDbAndStoreInRedis
  | _, _, _, _ => undefined NullPointer
  end.

(** The handler of an exception returns what was read so far. *)
Definition loadMsgsFromRedis : M State (list bytes) :=
  let! s := get in
  let url := m_strRedisUrl (manager s) in
  let! e := command (redis_exists url key) in
  match e with
  | None => ret []
  | Some there =>
      if there : bool then
        let! l := command (redis_lrange url key 0 (-1)) in ret (fst l)
      else ret []
  end.

(** The handler of a redis error passes a [std::string] to [printf]. *)
Definition addChatMsgToRedis (cache : bytes) : M State bool :=
  let! s := get in
  let! p := command (redis_rpush_one (m_strRedisUrl (manager s)) key cache) in
  match p with None => undefined VarArgs | Some _ => ret true end.

Lemma replace_list_spec `{laws : !RedisLaws rapi} (url : bytes) (msgs : list bytes)
    (s s' : State) (ok : bool) :
  replace_list url msgs s = Ret (ok, s') ->
  (ok = true -> redis_list url key (store s') = msgs) /\
  (msgs = [] -> ok = false) /\
  manager s' = manager s /\ client s' = client s.
Proof.
  unfold replace_list, command. run.
  destruct (redis_exists url key (store s)) as [[there|] r1] eqn:E1; run; cbn [store manager client];
    [|by intros [= <- <-]].
  apply redis_exists_law in E1 as [Hb Hl1].
  assert (forall r, redis_list url key r = [] ->
    (let! p := command (redis_rpush url key msgs) in
     match p with None => ret false | Some _ => ret true end) (mkState (manager s) (client s) r) =
    Ret (ok, s') ->
    (ok = true -> redis_list url key (store s') = msgs) /\ (msgs = [] -> ok = false) /\
    manager s' = manager s /\ client s' = client s) as Hpush.
  { intros r Hr. unfold command. run. cbn [store manager client].
    destruct (redis_rpush url key msgs r) as [[n|] r2] eqn:E3; run; intros [= <- <-]; [|done].
    apply redis_rpush_law in E3 as [Hne Hl]. cbn [store]. rewrite Hl, Hr. done. }
  unfold command in Hpush. destruct there; run; cbn [store manager client].
  - destruct (redis_del url key r1) as [[n|] r2] eqn:E2; run; cbn [store manager client];
      [|by intros [= <- <-]].
    apply Hpush. by eapply redis_del_law.
  - apply Hpush. symmetry in Hb. apply negb_false_iff, bool_decide_eq_true in Hb. congruence.
Qed.

Lemma replace_list_total url msgs s : exists ok s', replace_list url msgs s = Ret (ok, s').
Proof.
  unfold replace_list, command. run. destruct (redis_exists url key _) as [[there|] r1]; run; [|by eexists _, _].
  cbn [store]. destruct there; run; cbn [store].
  - destruct (redis_del url key _) as [[n|] r2]; run; [|by eexists _, _]. cbn [store].
    destruct (redis_rpush url key msgs _) as [[|] ?]; run; by eexists _, _.
  - destruct (redis_rpush url key msgs _) as [[|] ?]; run; by eexists _, _.
Qed.

(** The text a row becomes. *)
Definition text_of_row (r : Row.Row) : outcome bytes :=
  m ← msg_of_row r; j ← json_of_msg m; json_dump j.
Definition text_of_columns (values : list bytes) : outcome bytes := text_of_row (Row.mkRow values []).
Lemma texts_of_rows_ok rs ts : text_of_row <$> rs = Ret <$> ts -> texts_of_rows rs = Ret ts.
Proof.
  revert ts. induction rs as [|r rs IH]; intros [|t ts]; [done..|]. cbn [fmap list_fmap]. intros [= Ht Hts].
  cbn [texts_of_rows]. unfold text_of_row in Ht.
  apply bind_Ret_inv in Ht as (m & -> & Ht). apply bind_Ret_inv in Ht as (j & Ej & Ht).
  cbn [mbind outcome_bind]. rewrite Ej. cbn [mbind outcome_bind]. rewrite Ht. cbn [mbind outcome_bind].
  by rewrite (IH ts).
Qed.
Lemma texts_of_results rows rs ts :
  Row.m_strValues <$> rs = (fun row : mysql_row => Row.column <$> row) <$> rows ->
  (fun row : mysql_row => text_of_columns (Row.column <$> row)) <$> rows = Ret <$> ts -> texts_of_rows rs = Ret ts.
Proof.
  intros Hv Ht. apply texts_of_rows_ok. rewrite <- Ht. transitivity (text_of_columns <$> (Row.m_strValues <$> rs)).
  - by rewrite <- list_fmap_compose.
  - by rewrite Hv, <- list_fmap_compose.
Qed.

(** The object of a message, with its members in the order of the map. *)
Definition msg_json (m : ChatMsg) : Json.json :=
  Json.JObject [(lit "msgcontent", Json.JString (msgcontent m)); (lit "msgid", Json.JInt (msgid m));
    (lit "senderid", Json.JInt (senderid m)); (lit "senderusername", Json.JString (senderusername m));
    (lit "sendtime_str", Json.JString (sendtime_str m))].
Lemma json_of_msg_ok m : json_of_msg m = Ret (msg_json m).
Proof. reflexivity. Qed.

Lemma msg_of_row_range r m : msg_of_row r = Ret m -> srange 32 (msgid m) /\ srange 32 (senderid m).
Proof.
  unfold msg_of_row. intros H.
  repeat match type of H with (_ ≫= _) = Ret _ => apply bind_Ret_inv in H as (? & ? & H) end.
  injection H as <-. cbn. split; eapply ConvertString.convertFromString_int_range; eassumption.
Qed.

(** A text that is stored is read back to the message it was made from. *)
Lemma text_readable r t :
  text_of_row r = Ret t -> exists m, msg_of_row r = Ret m /\ json_parse t = Ret (msg_json m).
Proof.
  unfold text_of_row. intros (m & Hm & H)%bind_Ret_inv. exists m. split; [done|].
  rewrite json_of_msg_ok in H. cbn [mbind outcome_bind] in H.
  destruct (msg_of_row_range r m Hm) as [H1 H2]. unfold srange in *. cbn in H1, H2.
  assert (Ht : Printing.typed (msg_json m) = true) by (cbn; lia).
  rewrite json_dump_cases in H by done. destruct (Printing.utf8 (msg_json m)) eqn:Hu; [|done]. injection H as <-.
  apply json_parse_compact. rewrite Printing.wf_split, Ht, Hu. reflexivity.
Qed.

Lemma texts_readable (rs : list mysql_row) ts :
  (fun row : mysql_row => text_of_columns (Row.column <$> row)) <$> rs = Ret <$> ts ->
  Forall (fun t => exists j, json_parse t = Ret j) ts.
Proof.
  revert ts. induction rs as [|r rs IH]; intros [|t ts]; try done. cbn. intros [= Ht Hts].
  constructor; [|by apply IH]. apply text_readable in Ht as (m & _ & Hp). eauto.
Qed.

Lemma texts_exist (rs : list mysql_row) :
  Forall (fun row => exists t, text_of_columns (Row.column <$> row) = Ret t) rs ->
  exists ts : list bytes, (fun row => text_of_columns (Row.column <$> row)) <$> rs = Ret <$> ts.
Proof.
  induction 1 as [|row rs [t Ht] _ [ts IH]]; [by exists []|]. exists (t :: ts). cbn. by rewrite Ht, IH.
Qed.

Section Load.
Context `{laws : !RedisLaws rapi}.
Hypothesis stays : forall h d, mysql_errno h d <> CR_SERVER_GONE_ERROR.
Hypothesis rectangular : forall h d r d', mysql_store_result h d = (Some r, d') -> QueryResult.rectangular r.
Hypothesis texts : forall r, CDatabaseMysql.served select_msgs r ->
  Forall (fun row => exists t, text_of_columns (Row.column <$> row) = Ret t) (QueryResult.rows r).

Lemma load_msgs (s : State) :
  CDatabaseMysql.clean (client s) ->
  exists ok s', loadMsgFromDbAndStoreInRedis s = Ret (ok, s') /\ CDatabaseMysql.clean (client s') /\
    manager s' = manager s /\
    (ok = true -> exists r ts, CDatabaseMysql.served select_msgs r /\ ts <> [] /\
       (fun row => text_of_columns (Row.column <$> row)) <$> QueryResult.rows r = Ret <$> ts /\
       redis_list (m_strRedisUrl (manager s)) key (store s') = ts /\
       Forall (fun t => exists j, json_parse t = Ret j) ts).
Proof.
  intros Hc. destruct s as [m cl st]. unfold loadMsgFromDbAndStoreInRedis, with_database. rewrite M_bind_eq. cbn [get].
  unfold load_body. rewrite M_bind_eq. unfold on_db at 1. cbn [manager client store fst snd] in *.
  destruct (CDatabaseMysql.fetch_ok stays rectangular (m_info m) select_msgs cl Hc) as (ok & [db1 cl1] & E & Hh & Hq).
  rewrite E. cbn [mbind outcome_bind].
  destruct (CDatabaseMysql.destroy_ok _ Hh) as (cl2 & Hd & Hc2). destruct ok; cbn [negb].
  2:{ cbn [ret mbind outcome_bind client fst snd]. rewrite Hd. by eexists false, _. }
  destruct (Hq eq_refl) as (q & d & Eq & Hr). rewrite M_bind_eq. unfold on_db at 1. cbn [client snd fst]. rewrite Eq.
  destruct (CDatabaseMysql.destroy_ok (CDatabaseMysql.with_server d (db1, cl1)) Hh) as (cl3 & Hd3 & Hc3).
  unfold CDatabaseMysql.with_server in *. cbn [mbind outcome_bind fst snd manager store] in *. destruct q as [qr|].
  2:{ cbn [ret mbind outcome_bind client snd]. rewrite Hd3. by eexists false, _. }
  destruct (Hr qr eq_refl) as (r & Hs & Hv). destruct (texts_exist _ (texts r Hs)) as [ts Hts].
  rewrite M_bind_eq. unfold lift. rewrite (texts_of_results _ _ _ Hv Hts). cbn [mbind outcome_bind]. unfold zoom.
  cbn [fst]. match goal with |- context [replace_list _ _ ?s0] => set (s1 := s0) end.
  destruct (replace_list_total (m_strRedisUrl m) ts s1) as (ok & s' & E').
  destruct (replace_list_spec _ _ _ _ _ E') as (Hl & Hne & Hm & Hcl). rewrite E'. cbn [mbind outcome_bind fst snd].
  rewrite Hcl. cbn [client s1]. rewrite Hd3. eexists ok, _. split_and!; [reflexivity|done|by rewrite Hm|].
  intros ->. exists r, ts. split_and!;
    [done|intros ->; by specialize (Hne eq_refl)|done|by apply Hl|by eapply texts_readable].
Qed.

End Load.


End Api.

(** A database with two messages. *)
Definition demo_msgs : MysqlApi := {|
  db := unit;
  mysql_real_connect := fun _ _ _ _ _ d => (true, d);
  mysql_real_query := fun _ _ d => (0, d);
  mysql_errno := fun _ _ => 0;
  mysql_store_result := fun _ d =>
    (Some (QueryResult.mkRes (replicate 5 (lit "c", QueryResult.FIELD_TYPE_STRING))
       [[Some (lit "1"); Some (lit "7"); Some (lit "alice"); Some (lit "hi"); None];
        [Some (lit "2"); Some (lit "8"); Some (lit "bob"); Some (lit "hello"); None]]), d);
  mysql_field_count := fun _ _ => 5
|}.
Definition demo_store : @State demo_msgs DemoRedis.server :=
  mkState (api := demo_msgs) (rapi := DemoRedis.server) make (CDatabaseMysql.mkClient (api := demo_msgs) ∅ 1 ()) (true, [lit "old"]).

Example history_of_two :
  (fun p => redis_list (RedisLaws := DemoRedis.laws) (lit "u") key (store (snd p))) <$> loadMsgFromDbAndStoreInRedis demo_store =
  Ret (compact <$> [msg_json (mkChatMsg 1 7 (lit "alice") (lit "hi") []);
                    msg_json (mkChatMsg 2 8 (lit "bob") (lit "hello") [])]).
Proof. vm_compute. reflexivity. Qed.

End MsgCacheManager.
