(* ===== verification/Chat.v ===== *)
(** * The chat server

    [Msg] is chatserversrc/Msg.h, [TcpSession] is chatserversrc/TcpSession.*,
    [ChatSession] chatserversrc/ChatSession.* and [ChatServer]
    chatserversrc/ChatServer.*.  Sessions are objects of a heap, shared by the
    list of the server, the callbacks of the connections and the handlers; a
    session calls its connection, and those calls are the log [calls]. *)
From S2P Require Import Prelude Buffers Protocol Mysql RedisClient Json JsonText Stores.

Module Msg.

Definition msg_type_unknown : Z := 0.
Definition msg_type_heartbeat : Z := 1000.
Definition msg_type_register : Z := 1001.
Definition msg_type_login : Z := 1002.
Definition msg_type_getuserlist : Z := 1003.
Definition msg_type_getMsgs : Z := 1004.
Definition msg_type_chat : Z := 1100.
Definition msg_type_multichat : Z := 1101.
Definition msg_type_kickuser : Z := 1102.
Definition msg_type_remotedesktop : Z := 1103.
Definition msg_type_updateteaminfo : Z := 1104.
Definition msg_type_modifyfriendmarkname : Z := 1105.
Definition msg_type_movefriendtootherteam : Z := 1106.

Definition error_code_ok : Z := 0.
Definition error_code_unknown : Z := 1.
Definition error_code_notlogin : Z := 2.
Definition error_code_invalidpassword : Z := 103.

(** [chat_msg_header]: [originsize] in the byte order of the host. *)
Definition header_size : Z := 4.
Definition header_of (originsize : Z) : bytes := int_bytes 4 originsize.
Definition originsize (mem : bytes) : Z := i32 (bytes_int mem).

Definition CLIENT_TYPE_UNKOWN : Z := 0.
Definition CLIENT_TYPE_PC : Z := 1.
Definition CLIENT_TYPE_ANDROID : Z := 2.
Definition CLIENT_TYPE_IOS : Z := 3.
Definition CLIENT_TYPE_MAC : Z := 4.

End Msg.

(** ** The state shared by the sessions *)
Module World.

(** [OnlineUserInfo] and the fields of [ChatSession] and [TcpSession].  The
    constructor leaves [clienttype] and [status] uninitialised.  [tmpConn] is
    the connection the weak pointer was made from. *)
Record ChatSession : Type := mkSession {
  tmpConn : Z;
  m_id : Z;
  userid : Z;
  username : bytes;
  nickname : bytes;
  password : bytes;
  clienttype : option Z;
  status : option Z;
  m_seq : Z;
  m_isLogin : bool;
  m_lastPackageTime : Z
}.

Record ChatServer : Type := mkServer {
  m_sessions : list Z;          (* pointers into the heap *)
  m_sessionId : Z;
  m_logPackageBinary : bool
}.

(** What a session asks of its connection. *)
Inductive call : Type := Send (d : bytes) | ForceClose.

#[export] Instance call_eq_dec : EqDecision call.
Proof. solve_decision. Defined.

Section Api.
Context `{api : MysqlApi} `{rapi : RedisApi}.

(** [alive] are the connections some [shared_ptr] still owns. *)
Record World : Type := mkWorld {
  heap : gmap Z ChatSession;
  next_ptr : Z;
  server : ChatServer;
  alive : gset Z;
  users : list UserManager.User;
  messages : MsgCacheManager.State;
  calls : list (Z * call)
}.

Definition deref (p : Z) : M World ChatSession := fun w =>
  match heap w !! p with Some s => Ret (s, w) | None => Undef DanglingPointer end.
Definition set_heap (h : gmap Z ChatSession) (w : World) : World :=
  mkWorld h (next_ptr w) (server w) (alive w) (users w) (messages w) (calls w).
Definition set_server (v : ChatServer) (w : World) : World :=
  mkWorld (heap w) (next_ptr w) v (alive w) (users w) (messages w) (calls w).
Definition set_messages (m : MsgCacheManager.State) (w : World) : World :=
  mkWorld (heap w) (next_ptr w) (server w) (alive w) (users w) m (calls w).

(** An assignment to a field of the session [p] points to. *)
Definition update (p : Z) (f : ChatSession -> ChatSession) : M World unit :=
  let! s := deref p in modify (fun w => set_heap (<[p := f s]> (heap w)) w).
Definition call_conn (conn : Z) (c : call) : M World unit :=
  modify (fun w => mkWorld (heap w) (next_ptr w) (server w) (alive w) (users w)
                     (messages w) (calls w ++ [(conn, c)])).
Definition on_messages {A} (m : M MsgCacheManager.State A) : M World A :=
  zoom messages set_messages m.

End Api.

Definition set_userid (v : Z) (s : ChatSession) : ChatSession :=
  mkSession (tmpConn s) (m_id s) v (username s) (nickname s) (password s) (clienttype s)
    (status s) (m_seq s) (m_isLogin s) (m_lastPackageTime s).
Definition set_username (v : bytes) (s : ChatSession) : ChatSession :=
  mkSession (tmpConn s) (m_id s) (userid s) v (nickname s) (password s) (clienttype s)
    (status s) (m_seq s) (m_isLogin s) (m_lastPackageTime s).
Definition set_seq (v : Z) (s : ChatSession) : ChatSession :=
  mkSession (tmpConn s) (m_id s) (userid s) (username s) (nickname s) (password s)
    (clienttype s) (status s) v (m_isLogin s) (m_lastPackageTime s).
Definition set_isLogin (v : bool) (s : ChatSession) : ChatSession :=
  mkSession (tmpConn s) (m_id s) (userid s) (username s) (nickname s) (password s)
    (clienttype s) (status s) (m_seq s) v (m_lastPackageTime s).
Definition set_lastPackageTime (v : Z) (s : ChatSession) : ChatSession :=
  mkSession (tmpConn s) (m_id s) (userid s) (username s) (nickname s) (password s)
    (clienttype s) (status s) (m_seq s) (m_isLogin s) v.

End World.
Import World.

Module TcpSession.

Section Api.
Context `{api : MysqlApi} `{rapi : RedisApi}.

(** [uninit n] is what the six bytes of the writer's uninitialised array hold
    when [n] calls have been made. *)
Variable uninit : nat -> bytes.

Definition getConnectionPtr (p : Z) : M World (option Z) :=
  let! s := deref p in
  let! w := get in
  ret (if decide (tmpConn s ∈ alive w) then Some (tmpConn s) else None).

(** [std::string(p, length)] with an [int32_t] length: a negative one is a size
    beyond [max_size]. *)
Definition string_of (mem : bytes) (length : Z) : outcome bytes :=
  if u64 length <=? ByteBuffer.string_max_size then load 0 (u64 length) mem
  else Throw LengthError.

Definition sendPackage (p : Z) (mem : bytes) (length : Z) : M World unit :=
  let! srcbuf := lift (string_of mem length) in
  let strPackageData := Msg.header_of length ++ srcbuf in
  let! conn := getConnectionPtr p in
  match conn with
  | None => ret tt
  | Some c => call_conn c (Send strPackageData)
  end.

(** [send(p)] of a packet that is already made. *)
Definition send_packet (p : Z) (packet : bytes) : M World unit :=
  sendPackage p packet (i32 (zlen packet)).

(** A writer on an empty string: [cmd], [seq], [data], [Flush]. *)
Definition make_packet (str : bytes) (cmd seq : Z) (data : bytes) (dataLength : Z)
    : outcome bytes :=
  let outbuf := BinaryStreamWriter.make str in
  let outbuf := BinaryStreamWriter.WriteInt32 cmd false outbuf in
  let outbuf := BinaryStreamWriter.WriteInt32 seq false outbuf in
  outbuf ← BinaryStreamWriter.WriteCString data (u64 dataLength) outbuf;
  BinaryStreamWriter.Flush outbuf.

(** [send(cmd, seq, data, dataLength)] *)
Definition send_data (p : Z) (cmd seq : Z) (data : bytes) (dataLength : Z) : M World unit :=
  let! w := get in
  let! outbuf := lift (make_packet (uninit (length (calls w))) cmd seq data dataLength) in
  sendPackage p outbuf (i32 (zlen outbuf)).

(** [send(cmd, seq, data)] *)
Definition send (p : Z) (cmd seq : Z) (data : bytes) : M World unit :=
  send_data p cmd seq data (i32 (zlen data)).

End Api.
End TcpSession.

(** ** The list of sessions of the server *)
Module ChatServer.

Definition make : World.ChatServer := mkServer [] 0 false.
Definition enableLogPackageBinary (enable : bool) (v : World.ChatServer) : World.ChatServer :=
  mkServer (m_sessions v) (m_sessionId v) enable.
Definition isLogPackageBinaryEnabled (v : World.ChatServer) : bool := m_logPackageBinary v.

Section Api.
Context `{api : MysqlApi} `{rapi : RedisApi}.

Definition sessions : M World (list Z) := gets (fun w => m_sessions (server w)).
Definition set_sessions (l : list Z) : M World unit :=
  modify (fun w => set_server (mkServer l (m_sessionId (server w))
                                 (m_logPackageBinary (server w))) w).

Definition getSessions : M World (list Z) := sessions.

(** The first session of the list that satisfies [f]; the copies of the
    [shared_ptr] keep what they point to alive. *)
Fixpoint find_session (f : ChatSession -> bool) (l : list Z) : M World (option (Z * ChatSession)) :=
  match l with
  | [] => ret None
  | p :: l' =>
      let! s := deref p in
      if f s then ret (Some (p, s)) else find_session f l'
  end.

Definition has_user (id : Z) (s : ChatSession) : bool := userid s =? id.

Definition getSessionByUserId (id : Z) : M World (option Z) :=
  let! l := sessions in
  let! r := find_session (has_user id) l in
  ret (option_map fst r).

(** Returns after the first match. *)
Definition getSessionsByUserId (out : list Z) (id : Z) : M World (bool * list Z) :=
  let! l := sessions in
  let! r := find_session (has_user id) l in
  ret (match r with Some (p, _) => (true, out ++ [p]) | None => (false, out) end).

(** [status] and [clienttype] are never written. *)
Definition read_field (v : option Z) : outcome Z :=
  match v with Some z => Ret z | None => Undef Uninitialised end.

Definition getUserStatusByUserId (id : Z) : M World Z :=
  let! l := sessions in
  let! r := find_session (has_user id) l in
  match r with Some (_, s) => lift (read_field (status s)) | None => ret 0 end.

Fixpoint clienttype_loop (id : Z) (l : list Z) (bMobileOnline : bool) (clientType : Z)
    : M World Z :=
  match l with
  | [] => ret (if bMobileOnline then clientType else Msg.CLIENT_TYPE_UNKOWN)
  | p :: l' =>
      let! s := deref p in
      if has_user id s then
        let! t := lift (read_field (clienttype s)) in
        if t =? Msg.CLIENT_TYPE_PC then ret t
        else if (t =? Msg.CLIENT_TYPE_ANDROID) || (t =? Msg.CLIENT_TYPE_IOS)
             then clienttype_loop id l' true t
             else clienttype_loop id l' bMobileOnline t
      else clienttype_loop id l' bMobileOnline clientType
  end.
Definition getUserClientTypeByUserId (id : Z) : M World Z :=
  let! l := sessions in clienttype_loop id l false Msg.CLIENT_TYPE_UNKOWN.

(** [new ChatSession(conn, m_sessionId)]; its address is the callback's. *)
Definition new_session (conn id now : Z) : M World Z :=
  let! w := get in
  let s := mkSession conn id 0 [] [] [] None None 0 false now in
  do! modify (fun w => mkWorld (<[next_ptr w := s]> (heap w)) (next_ptr w + 1) (server w)
                         (alive w) (users w) (messages w) (calls w)) in
  ret (next_ptr w).

(** The loop of [onDisconnected] over the rest of the list; [kept] is what it
    has passed.  Erasing the last [shared_ptr] frees the session. *)
Fixpoint disconnect_loop (conn : Z) (kept rest : list Z) : M World unit :=
  match rest with
  | [] => ret tt
  | p :: rest' =>
      let! c := TcpSession.getConnectionPtr p in
      if bool_decide (c = Some conn) then
        let! s := deref p in
        do! when (0 <? userid s)
              (for_each (kept ++ rest) (fun q => let! _ := deref q in ret tt)) in
        do! set_sessions (kept ++ rest') in
        do! modify (fun w => set_heap (delete p (heap w)) w) in
        disconnect_loop conn kept rest'
      else disconnect_loop conn (kept ++ [p]) rest'
  end.
Definition onDisconnected (conn : Z) : M World unit :=
  let! l := sessions in disconnect_loop conn [] l.

(** [up] is [conn->connected()].  The result is the session whose [onRead]
    becomes the message callback of the connection. *)
Definition onConnected (conn : Z) (up : bool) (now : Z) : M World (option Z) :=
  if up then
    do! modify (fun w => set_server (mkServer (m_sessions (server w))
                    (i32 (m_sessionId (server w) + 1)) (m_logPackageBinary (server w))) w) in
    let! w := get in
    let! p := new_session conn (m_sessionId (server w)) now in
    let! l := sessions in
    do! set_sessions (l ++ [p]) in
    ret (Some p)
  else
    do! onDisconnected conn in ret None.

End Api.
End ChatServer.

(** ** A session: the requests of one client *)
Module ChatSession.

Definition MAX_PACKAGE_SIZE : Z := 10 * 1024 * 1024.

Definition isSessionValid (s : ChatSession) : bool := 0 <? userid s.
Definition quoted (s : bytes) : bytes := Byte.x22 :: s ++ [Byte.x22].
Definition brace (s : bytes) : bytes := Byte.x7b :: s ++ [Byte.x7d].

(** The texts of the responses. *)
Definition not_login : bytes :=
  brace (quoted (lit "code") ++ lit ": 2, " ++ quoted (lit "msg") ++ lit ": " ++
         quoted (lit "not login, please login first!")).
Definition incorrect_password : bytes :=
  brace (quoted (lit "code") ++ lit ": 1, " ++ quoted (lit "msg") ++ lit ": " ++
         quoted (lit "incorrect password")).
Definition ok_prefix : bytes :=
  quoted (lit "code") ++ lit ": 0, " ++ quoted (lit "msg") ++ lit ": " ++ quoted (lit "ok").
Definition login_ok (id : Z) (name : bytes) : bytes :=
  brace (ok_prefix ++ lit ", " ++ quoted (lit "userid") ++ lit ": " ++ Decimal.format_d id ++
         lit "," ++ quoted (lit "username") ++ lit ":" ++ quoted name).
Definition userlist_ok (userlist : bytes) : bytes :=
  brace (ok_prefix ++ lit ", " ++ quoted (lit "userlistinfo") ++ lit ":" ++ userlist).
Definition msgs_ok (data : bytes) : bytes :=
  brace (ok_prefix ++ lit ", " ++ quoted (lit "msgs") ++ lit ":" ++ data).
Definition chat_ok (data : bytes) : bytes :=
  brace (ok_prefix ++ lit ", " ++ quoted (lit "msg") ++ lit ": " ++ data).

Section Api.
Context `{api : MysqlApi} `{rapi : RedisApi}.
Variable uninit : nat -> bytes.

Abbreviation send := (TcpSession.send uninit).

(** [this] is the session [p]; its fields are read when they are used. *)
Definition field {A} (p : Z) (f : ChatSession -> A) : M World A :=
  let! s := deref p in ret (f s).

Definition makeSessionInvalid (p : Z) : M World unit := update p (set_userid 0).

(** The session that is logged in as [id] is told and made invalid. *)
Definition kick (p : Z) (id : Z) : M World unit :=
  let! target := ChatServer.getSessionByUserId id in
  match target with
  | None => ret tt
  | Some q =>
      let! seq := field p m_seq in
      do! send q Msg.msg_type_kickuser seq [] in
      do! makeSessionInvalid q in
      let! _ := deref q in ret tt
  end.

Definition onLoginResponse (p : Z) (data : bytes) : M World unit :=
  let! j := lift (json_parse data) in
  let! n := lift (Json.string_member (lit "username") j) in
  let! k := lift (Json.string_member (lit "password") (snd n)) in
  let name := fst n in
  let! w := get in
  let cachedUser := snd (UserManager.getUserInfoByUsername name (users w)
                           (UserManager.mkUser 0 [] [])) in
  let! os := (
    if negb (bool_decide (UserManager.password cachedUser = fst k)) then ret incorrect_password
    else
      do! kick p (UserManager.userid cachedUser) in
      do! update p (set_userid (UserManager.userid cachedUser)) in
      do! update p (set_username name) in
      let! id := field p userid in
      ret (login_ok id (UserManager.username cachedUser))) in
  let! seq := field p m_seq in
  do! send p Msg.msg_type_login seq os in
  update p (set_isLogin true).

(** One member of [user_array]. *)
Definition json_of_user (u : UserManager.User) : outcome Json.json :=
  j1 ← Json.set_key (lit "userid") (Json.JInt (UserManager.userid u)) Json.JNull;
  Json.set_key (lit "username") (Json.JString (UserManager.username u)) j1.
Fixpoint push_users (us : list UserManager.User) (user_array : Json.json) : outcome Json.json :=
  match us with
  | [] => Ret user_array
  | usr :: us' =>
      u ← json_of_user usr;
      a ← Json.push_back u user_array;
      push_users us' a
  end.
Definition makeUpUserListInfo (us : list UserManager.User) : outcome bytes :=
  user_array ← push_users us Json.JNull;
  json_dump user_array.

Definition onGetUserListResponse (p : Z) : M World unit :=
  let! w := get in
  let! userlist := lift (makeUpUserListInfo (UserManager.getUserListInfo (users w))) in
  let! seq := field p m_seq in
  send p Msg.msg_type_getuserlist seq (userlist_ok userlist).

Fixpoint push_msgs (msgs : list bytes) (msgArray : Json.json) : outcome Json.json :=
  match msgs with
  | [] => Ret msgArray
  | msg :: msgs' =>
      msg_j ← json_parse msg;
      a ← Json.push_back msg_j msgArray;
      push_msgs msgs' a
  end.

Definition onGetMsgsResponse (p : Z) : M World unit :=
  let! msgs := on_messages MsgCacheManager.loadMsgsFromRedis in
  let! msgArray := lift (push_msgs msgs Json.JNull) in
  let! data := lift (json_dump msgArray) in
  let! seq := field p m_seq in
  send p Msg.msg_type_getMsgs seq (msgs_ok data).

Definition onChatResponse (p : Z) (data : bytes) : M World unit :=
  let os := chat_ok data in
  let! w := get in
  let! seq := field p m_seq in
  let! outbuf := lift (TcpSession.make_packet (uninit (length (calls w)))
                         Msg.msg_type_chat seq os (zlen os)) in
  let! _ := on_messages (MsgCacheManager.addChatMsgToRedis data) in
  let! targetSessions := ChatServer.getSessions in
  for_each targetSessions (fun q => TcpSession.send_packet q outbuf).

(** The two [switch] statements. *)
Definition dispatch (p : Z) (cmd : Z) (data : bytes) : M World bool :=
  if cmd =? Msg.msg_type_login then do! onLoginResponse p data in ret true
  else
    let! login := field p m_isLogin in
    if login : bool then
      if cmd =? Msg.msg_type_getuserlist then do! onGetUserListResponse p in ret true
      else if cmd =? Msg.msg_type_getMsgs then do! onGetMsgsResponse p in ret true
      else if cmd =? Msg.msg_type_chat then do! onChatResponse p data in ret true
      else ret false
    else
      let! seq := field p m_seq in
      do! send p cmd seq not_login in ret true.

(** [++m_seq] *)
Definition next_seq (p : Z) : M World unit :=
  let! seq := field p m_seq in
  if seq =? 2 ^ 31 - 1 then undefined SignedOverflow else update p (set_seq (seq + 1)).

(** [inbuf] is the [c_str()] of the body: a NUL follows it. *)
Definition process (p : Z) (inbuf : bytes) (buflength : Z) : M World bool :=
  let readStream := BinaryStreamReader.make (inbuf ++ [Byte.x00]) buflength in
  let! r1 := lift (BinaryStreamReader.ReadInt32 readStream) in
  match fst r1 with
  | None => ret false
  | Some cmd =>
      let! r2 := lift (BinaryStreamReader.ReadInt32 (snd r1)) in
      match fst r2 with
      | None => ret false
      | Some seq =>
          do! update p (set_seq seq) in
          let! r3 := lift (BinaryStreamReader.ReadString 0 (snd r2)) in
          match fst r3 with
          | BinaryStreamReader.FieldOk data =>
              let! ok := dispatch p cmd data in
              if ok : bool then do! next_seq p in ret true else ret false
          | _ => ret false
          end
      end
  end.

(** [conn->forceClose()] on the connection of the callback. *)
Definition forceClose (conn : Z) : M World unit := call_conn conn ForceClose.

(** [onRead]: the callback of [conn] with its input buffer.  [clock n] is what
    [time] answers when [n] rounds are left; each round takes a header at least,
    so a round per byte of input is enough. *)
Fixpoint read_loop (fuel : nat) (clock : nat -> Z) (p conn : Z) (buf : ByteBuffer.ByteBuffer)
    : M World (option ByteBuffer.ByteBuffer) :=
  match fuel with
  | O => ret None
  | S fuel' =>
      let readable := ByteBuffer.readableBytes buf in
      if readable <? Msg.header_size then ret (Some buf)
      else
        let! mem := lift (load (ByteBuffer.peek buf) Msg.header_size (ByteBuffer.m_buffer buf)) in
        let originsize := Msg.originsize mem in
        if MAX_PACKAGE_SIZE <? originsize then do! forceClose conn in ret (Some buf)
        else if readable <? u64 (u64 originsize + Msg.header_size) then ret (Some buf)
        else
          let buf1 := snd (ByteBuffer.retrieve Msg.header_size buf) in
          let! inbuf := lift (
            if ByteBuffer.string_max_size <? u64 originsize then Throw LengthError
            else load (ByteBuffer.peek buf1) (u64 originsize) (ByteBuffer.m_buffer buf1)) in
          let buf2 := snd (ByteBuffer.retrieve (u64 originsize) buf1) in
          let! ok := process p inbuf (zlen inbuf) in
          if ok : bool then
            do! update p (set_lastPackageTime (clock fuel')) in
            read_loop fuel' clock p conn buf2
          else do! forceClose conn in ret (Some buf2)
  end.

Definition onRead (clock : nat -> Z) (p conn : Z) (buf : ByteBuffer.ByteBuffer)
    : M World (option ByteBuffer.ByteBuffer) :=
  read_loop (S (Z.to_nat (ByteBuffer.readableBytes buf))) clock p conn buf.

End Api.
End ChatSession.

(** ** Concrete parameters, for the examples *)
Module Demo.

#[export] Instance redis_api : RedisApi := DemoRedis.server.
#[export] Instance redis_laws : RedisLaws redis_api := DemoRedis.laws.

(** The text of a value, as the library prints it. *)
Definition print (j : Json.json) : bytes := compact j.

Definition credentials (name pwd : bytes) : Json.json :=
  Json.JObject [(lit "password", Json.JString pwd); (lit "username", Json.JString name)].
#[export] Instance mysql_api : MysqlApi := CDatabaseMysql.demo_api [].

Definition uninit (n : nat) : bytes := replicate 6 Byte.xaa.

Definition messages (up : bool) (l : list bytes) : MsgCacheManager.State :=
  MsgCacheManager.mkState MsgCacheManager.make (CDatabaseMysql.mkClient ∅ 1 true) (up, l).

Definition session (conn id : Z) (login : bool) : ChatSession :=
  mkSession conn id (if login then id else 0) [] [] [] None None 0 login 0.

Definition alice : UserManager.User := UserManager.mkUser 1 (lit "alice") (lit "pw").

(** Connections 11 and 12 with sessions 1 (logged in as user 1) and 2. *)
Definition world : World :=
  mkWorld {[1 := session 11 1 true; 2 := session 12 2 false]} 3 (mkServer [1; 2] 2 false)
    {[11; 12]} [alice] (messages true [print (Json.JInt 7)]) [].

End Demo.
