(* ===== verification/Framing.v ===== *)
(** * Framing: the byte stream of a connection as a sequence of packages

    What [ChatSession::onRead] makes of the input buffer of a connection, as a
    function of the bytes alone; and what [TcpSession::sendPackage] writes. *)
From S2P Require Import Prelude Buffers Protocol Mysql Json JsonText RedisClient Stores Chat.
Import World ChatSession.

Module Framing.

(** The head of a byte stream. *)
Inductive verdict : Type :=
| NeedMore
| Illegal                              (* a body larger than the maximum *)
| NegativeSize                         (* sizes -4 to -1: [std::length_error] *)
| Frame (body rest : bytes).

Definition next_frame (l : bytes) : verdict :=
  if zlen l <? Msg.header_size then NeedMore
  else
    let n := Msg.originsize (take 4 l) in
    if MAX_PACKAGE_SIZE <? n then Illegal
    else if n <? -4 then NeedMore
    else if n <? 0 then NegativeSize
    else if zlen l <? n + Msg.header_size then NeedMore
    else Frame (take (Z.to_nat n) (drop 4 l)) (drop (Z.to_nat (n + 4)) l).

Lemma originsize_range mem : srange 32 (Msg.originsize mem).
Proof. by apply swrap_range. Qed.

Lemma next_frame_shorter l body rest :
  next_frame l = Frame body rest -> zlen rest + 4 + zlen body = zlen l /\ l = take 4 l ++ body ++ rest.
Proof.
  unfold next_frame, Msg.header_size. repeat case_match; try done. intros [= <- <-].
  set (n := Msg.originsize (take 4 l)) in *. rewrite !Z.ltb_ge in *.
  unfold zlen in *. rewrite !length_drop, length_take, length_drop. split; [lia|].
  replace (Z.to_nat (n + 4)) with (4 + Z.to_nat n)%nat by lia.
  rewrite <- drop_drop, take_drop. by rewrite take_drop.
Qed.

(** More bytes behind a decided head change nothing. *)
Lemma next_frame_app l l' :
  match next_frame l with
  | NeedMore => True
  | Frame body rest => next_frame (l ++ l') = Frame body (rest ++ l')
  | v => next_frame (l ++ l') = v
  end.
Proof.
  unfold next_frame, Msg.header_size. pose proof (zlen_nonneg l').
  destruct (Z.ltb_spec (zlen l) 4); [done|]. zsimpl.
  rewrite (proj2 (Z.ltb_ge _ 4)) by lia. rewrite take_app_le by (unfold zlen in *; lia).
  set (n := Msg.originsize (take 4 l)). destruct (MAX_PACKAGE_SIZE <? n); [done|].
  destruct (n <? -4); [done|]. destruct (Z.ltb_spec n 0); [done|].
  destruct (Z.ltb_spec (zlen l) (n + 4)); [done|].
  rewrite (proj2 (Z.ltb_ge _ (n + 4))) by lia. unfold zlen in *.
  rewrite !drop_app_le, take_app_le by (rewrite ?length_drop; lia). done.
Qed.

(** The frame [sendPackage] makes of a body that fits is the one read back. *)
Lemma next_frame_header body rest :
  zlen body <= MAX_PACKAGE_SIZE ->
  next_frame (Msg.header_of (zlen body) ++ body ++ rest) = Frame body rest.
Proof.
  unfold MAX_PACKAGE_SIZE. intros Hmax. pose proof (zlen_nonneg body). pose proof (zlen_nonneg rest).
  unfold next_frame, Msg.header_size, Msg.header_of.
  assert (length (int_bytes 4 (zlen body)) = 4%nat) as H4 by apply length_le_split.
  zsimpl. rewrite (proj2 (Z.ltb_ge _ 4)) by lia.
  rewrite take_app_length' by lia.
  assert (Msg.originsize (int_bytes 4 (zlen body)) = zlen body) as ->.
  { unfold Msg.originsize. rewrite bytes_int_bytes.
    rewrite (swrap_congr 32 _ (zlen body)) by (by rewrite Z.mod_mod by lia).
    apply swrap_small; [lia|]. unfold srange. lia. }
  rewrite (proj2 (Z.ltb_ge MAX_PACKAGE_SIZE _)) by (unfold MAX_PACKAGE_SIZE; lia).
  rewrite (proj2 (Z.ltb_ge _ (-4))), (proj2 (Z.ltb_ge _ 0)) by lia.
  rewrite (proj2 (Z.ltb_ge _ (zlen body + 4))) by lia.
  rewrite (drop_app_length' (int_bytes 4 (zlen body))) by lia.
  rewrite take_app_length' by (unfold zlen; lia).
  rewrite app_assoc, drop_app_length'; [done|]. rewrite length_app. unfold zlen in *. lia.
Qed.

Section Api.
Context `{api : MysqlApi} `{rapi : RedisApi}.
Variable uninit : nat -> bytes.

(** [onRead] on the bytes: [true] when it asked to close the connection. *)
Fixpoint serve_loop (fuel : nat) (now p conn : Z) (l : bytes) : M World (option (bool * bytes)) :=
  match fuel with
  | O => ret None
  | S fuel' =>
      match next_frame l with
      | NeedMore => ret (Some (false, l))
      | Illegal => do! forceClose conn in ret (Some (true, l))
      | NegativeSize => throw LengthError
      | Frame body rest =>
          let! ok := process uninit p body (zlen body) in
          if ok : bool then
            do! update p (set_lastPackageTime now) in serve_loop fuel' now p conn rest
          else do! forceClose conn in ret (Some (true, rest))
      end
  end.
Definition serve (now p conn : Z) (l : bytes) : M World (option (bool * bytes)) :=
  serve_loop (S (length l)) now p conn l.

Lemma next_frame_length l body rest :
  next_frame l = Frame body rest -> (length rest < length l)%nat.
Proof. intros [H _]%next_frame_shorter. pose proof (zlen_nonneg body). unfold zlen in *. lia. Qed.

(** Fuel beyond the length of the input does not matter. *)
Lemma serve_fuel fuel fuel' now p conn l w :
  (length l < fuel)%nat -> (length l < fuel')%nat ->
  serve_loop fuel now p conn l w = serve_loop fuel' now p conn l w.
Proof.
  revert fuel' l w. induction fuel as [|fuel IH]; intros [|fuel'] l w Hf Hf'; [lia..|].
  cbn [serve_loop]. destruct (next_frame l) as [| | |body rest] eqn:E; try done.
  apply next_frame_length in E. unfold bindM.
  destruct (process uninit p body (zlen body) w) as [[[] w1]|e|u]; [|done..].
  destruct (update p (set_lastPackageTime now) w1) as [[[] w2]|e|u]; [|done..].
  apply IH; lia.
Qed.

Lemma serve_loop_done fuel now p conn l w r w' :
  (length l < fuel)%nat -> serve_loop fuel now p conn l w = Ret (r, w') -> r <> None.
Proof.
  revert l w. induction fuel as [|fuel IH]; intros l w Hf; [lia|]. cbn [serve_loop].
  destruct (next_frame l) as [| | |body rest] eqn:E; try by (intros [= <- _]).
  apply next_frame_length in E. unfold bindM.
  destruct (process uninit p body (zlen body) w) as [[[] w1]|e|u]; try done.
  - destruct (update p (set_lastPackageTime now) w1) as [[[] w2]|e|u]; [|done..].
    apply IH. lia.
  - by intros [= <- _].
Qed.

(** Input that arrives in two pieces is served like the whole of it. *)
Lemma serve_loop_app fuel now p conn l l' w r w1 :
  (length (l ++ l') < fuel)%nat ->
  serve_loop fuel now p conn l w = Ret (Some (false, r), w1) ->
  serve_loop fuel now p conn (l ++ l') w = serve_loop fuel now p conn (r ++ l') w1.
Proof.
  revert l w. induction fuel as [|fuel IH]; intros l w Hf; [lia|].
  pose proof (next_frame_app l l') as Happ. intros Hs.
  cbn [serve_loop] in Hs.
  destruct (next_frame l) as [| | |body rest] eqn:E; [by injection Hs as -> ->|done..|].
  pose proof (next_frame_length _ _ _ E) as Hlen.
  transitivity ((let! ok := process uninit p body (zlen body) in
    if ok : bool then
      do! update p (set_lastPackageTime now) in serve_loop fuel now p conn (rest ++ l')
    else do! forceClose conn in ret (Some (true, rest ++ l'))) w);
    [cbn [serve_loop]; by rewrite Happ|]. revert Hs. unfold bindM.
  destruct (process uninit p body (zlen body) w) as [[[] w2]|e|u]; [|done..].
  destruct (update p (set_lastPackageTime now) w2) as [[[] w3]|e|u]; [|done..].
  intros Hs. rewrite length_app in Hf. rewrite (IH rest w3) by (rewrite ?length_app; lia || done).
  (* the rest fits the fuel of the outer round too *)
  assert (length r <= length rest)%nat as Hr.
  { clear -Hs. revert rest w3 Hs. induction fuel as [|fuel IH]; intros rest w3; [done|].
    cbn [serve_loop]. destruct (next_frame rest) as [| | |b rest'] eqn:E; [by intros [= -> _]|done..|].
    apply next_frame_length in E. unfold bindM.
    destruct (process uninit p b (zlen b) w3) as [[[] w4]|e|u]; [|done..].
    destruct (update p (set_lastPackageTime now) w4) as [[[] w5]|e|u]; [|done..].
    intros H%IH. lia. }
  change (serve_loop fuel now p conn (r ++ l') w1 = serve_loop (S fuel) now p conn (r ++ l') w1).
  apply serve_fuel; rewrite length_app; lia.
Qed.

(** The two agree: on the bytes, and on the buffer that holds them. *)
Definition result_rel (o : outcome (option ByteBuffer.ByteBuffer * World))
    (o' : outcome (option (bool * bytes) * World)) : Prop :=
  match o, o' with
  | Ret (Some b, w), Ret (Some (_, l), w') =>
      ByteBuffer.wf b /\ ByteBuffer.contents b = l /\ w = w'
  | Ret (None, w), Ret (None, w') => w = w'
  | Throw e, Throw e' => e = e'
  | Undef u, Undef u' => u = u'
  | _, _ => False
  end.

(** One round's header: the decision of the code is [next_frame]. *)
Lemma read_round fuel now p conn b w :
  ByteBuffer.wf b ->
  match next_frame (ByteBuffer.contents b) with
  | NeedMore => read_loop uninit (S fuel) (fun _ => now) p conn b w = Ret (Some b, w)
  | Illegal => read_loop uninit (S fuel) (fun _ => now) p conn b w =
      (do! forceClose conn in ret (Some b)) w
  | NegativeSize => read_loop uninit (S fuel) (fun _ => now) p conn b w = Throw LengthError
  | Frame body rest => exists b2, ByteBuffer.wf b2 /\ ByteBuffer.contents b2 = rest /\
      read_loop uninit (S fuel) (fun _ => now) p conn b w =
      (let! ok := process uninit p body (zlen body) in
       if ok : bool then
         do! update p (set_lastPackageTime now) in read_loop uninit fuel (fun _ => now) p conn b2
       else do! forceClose conn in ret (Some b2)) w
  end.
Proof.
  intros Hwf.
  remember (read_loop uninit (S fuel) (fun _ => now) p conn b w) as R eqn:HR.
  cbn [read_loop] in HR. rewrite ByteBuffer.readable_contents in HR by done.
  assert (zlen (ByteBuffer.contents b) < 2 ^ 63) as Hmax.
  { rewrite ByteBuffer.zlen_contents by done. destruct Hwf. unfold ByteBuffer.vector_max_size in *. lia. }
  set (l := ByteBuffer.contents b) in *. unfold next_frame.
  unfold Msg.header_size in *. destruct (Z.ltb_spec (zlen l) 4) as [|H4]; [done|].
  rewrite ByteBuffer.load_contents in HR by (done || (fold l; lia)). fold l in HR.
  change (Z.to_nat 4) with 4%nat in HR. set (n := Msg.originsize (take 4 l)) in *.
  pose proof (originsize_range (take 4 l)) as Hn. fold n in Hn. unfold srange in Hn.
  cbv [bindM lift] in HR. cbn [mbind outcome_bind] in HR. fold n in HR.
  destruct (Z.ltb_spec MAX_PACKAGE_SIZE n) as [|Hn1]; [done|]. unfold MAX_PACKAGE_SIZE in Hn1.
  assert (forall k, - 2 ^ 31 <= k < 0 -> u64 k = k + 2 ^ 64) as Hneg.
  { intros k Hk. unfold uwrap. symmetry. apply (Z.mod_unique_pos _ _ (-1)); lia. }
  destruct (Z.ltb_spec n (-4)) as [Hm|Hm].
  { rewrite (Hneg n), (uwrap_small 64) in HR by lia.
    destruct (Z.ltb_spec (zlen l) (n + 2 ^ 64 + 4)); [done|lia]. }
  destruct (Z.ltb_spec n 0) as [H0|H0].
  { rewrite (Hneg n) in HR by lia. assert (u64 (n + 2 ^ 64 + 4) = n + 4) as E.
    { unfold uwrap. symmetry. apply (Z.mod_unique_pos _ _ 1); lia. }
    rewrite E in HR. destruct (Z.ltb_spec (zlen l) (n + 4)); [lia|].
    destruct (Z.ltb_spec ByteBuffer.string_max_size (n + 2 ^ 64)) as [|Hbig]; [done|].
    unfold ByteBuffer.string_max_size in Hbig. lia. }
  rewrite (uwrap_small 64 n), (uwrap_small 64) in HR by lia.
  destruct (Z.ltb_spec (zlen l) (n + 4)) as [|Hfit]; [done|].
  destruct (ByteBuffer.retrieve_ok 4 b Hwf) as (b1 & Hb1 & Hwf1 & Hc1); [fold l; lia|].
  fold l in Hc1. change (Z.to_nat 4) with 4%nat in Hc1.
  assert (zlen (ByteBuffer.contents b1) = zlen l - 4) as Hl1
    by (rewrite Hc1; unfold zlen in *; rewrite length_drop; lia).
  destruct (ByteBuffer.retrieve_ok n b1 Hwf1) as (b2 & Hb2 & Hwf2 & Hc2); [lia|].
  exists b2. split_and!; [done|..].
  { rewrite Hc2, Hc1, drop_drop. f_equal. lia. }
  rewrite Hb1 in HR. cbn [snd] in HR. rewrite Hb2 in HR. cbn [snd] in HR.
  rewrite ByteBuffer.load_contents in HR by (done || lia). rewrite Hc1 in HR.
  destruct (Z.ltb_spec ByteBuffer.string_max_size n); [unfold ByteBuffer.string_max_size in *; lia|].
  exact HR.
Qed.

Lemma read_loop_serve fuel now p conn b w :
  ByteBuffer.wf b ->
  result_rel (read_loop uninit fuel (fun _ => now) p conn b w)
    (serve_loop fuel now p conn (ByteBuffer.contents b) w).
Proof.
  revert b w. induction fuel as [|fuel IH]; intros b w Hwf; [done|].
  pose proof (read_round fuel now p conn b w Hwf) as Hround. cbn [serve_loop].
  destruct (next_frame (ByteBuffer.contents b)) as [| | |body rest] eqn:E;
    [by rewrite Hround..|].
  destruct Hround as (b2 & Hwf2 & <- & ->). unfold bindM.
  destruct (process uninit p body (zlen body) w) as [[[] w1]|e|u]; [|done..].
  destruct (update p (set_lastPackageTime now) w1) as [[[] w2]|e|u]; [|done..].
  by apply IH.
Qed.

(** *** Packets inside frames *)

(** The fields of every request and response. *)
Definition fields (cmd seq : Z) (data : bytes) : list Packet.pfield :=
  [Packet.FInt32 cmd; Packet.FInt32 seq; Packet.FString data].
Definition body_of (hdr : bytes) (cmd seq : Z) (data : bytes) : bytes :=
  hdr ++ concat (Packet.encode <$> fields cmd seq data).

Lemma fields_ok cmd seq data :
  srange 32 cmd -> srange 32 seq -> zlen data < 2 ^ 32 ->
  Forall Packet.field_ok (fields cmd seq data).
Proof. intros. by do 3 (apply Forall_cons; split; [done|]). Qed.

Lemma zlen_packet_header str z :
  zlen str = 6 -> zlen (Endian.be_bytes 4 z ++ drop 4 str) = 6.
Proof.
  intros Hs. rewrite zlen_app. unfold zlen in *. rewrite Endian.length_be_bytes, length_drop. lia.
Qed.

(** The packet a session sends: its length, two bytes the writer never set, and
    the fields. *)
Definition packet_of (str : bytes) (cmd seq : Z) (data : bytes) : bytes :=
  let fs := concat (Packet.encode <$> fields cmd seq data) in
  body_of (Endian.be_bytes 4 (6 + zlen fs) ++ drop 4 str) cmd seq data.

Lemma make_packet_ok str cmd seq data :
  zlen str = 6 -> srange 32 cmd -> srange 32 seq -> zlen data < 2 ^ 31 ->
  TcpSession.make_packet str cmd seq data (zlen data) = Ret (packet_of str cmd seq data).
Proof.
  intros Hs Hc Hq Hd. pose proof (zlen_nonneg data).
  transitivity (Packet.write_packet str (fields cmd seq data)).
  - unfold TcpSession.make_packet, Packet.write_packet, fields. cbn [Packet.write_fields].
    cbn [Packet.write_field mbind outcome_bind]. rewrite uwrap_small by lia.
    unfold BinaryStreamWriter.WriteString.
    by destruct (BinaryStreamWriter.WriteCString _ _ _).
  - rewrite Packet.write_packet_ok by (done || (apply fields_ok; done || lia)).
    unfold packet_of, body_of. by rewrite <- app_assoc.
Qed.

Lemma zlen_packet str cmd seq data :
  zlen str = 6 -> 0 <= zlen data < 2 ^ 31 -> 0 <= zlen (packet_of str cmd seq data) <= zlen data + 24.
Proof.
  intros Hs Hd. unfold packet_of, body_of, fields. cbn [fmap list_fmap concat].
  cbn [Packet.encode]. assert (zlen (drop 4 str) = 2) as H2 by (unfold zlen in *; rewrite length_drop; lia).
  destruct (Codec.write7_shape 5 (zlen data)) as (hs & t & He & _ & _ & Hl); [lia|lia|].
  unfold Codec.write7BitEncoded_u32. rewrite He.
  assert (forall z, zlen (Endian.be_bytes 4 z) = 4) as H4.
  { intros z. unfold zlen. by rewrite Endian.length_be_bytes. }
  rewrite !zlen_app, !H4, H2. unfold zlen in *. cbn [length]. lia.
Qed.

(** What the server does with a packet a client's writer made. *)
Lemma process_packet hdr cmd seq data p w :
  zlen hdr = 6 -> srange 32 cmd -> srange 32 seq -> zlen data < 2 ^ 32 ->
  process uninit p (body_of hdr cmd seq data) (zlen (body_of hdr cmd seq data)) w =
  (do! update p (set_seq seq) in
   let! ok := dispatch uninit p cmd data in
   if ok : bool then do! next_seq p in ret true else ret false) w.
Proof.
  intros Hh Hc Hq Hd. unfold process, body_of, fields.
  cbn [fmap list_fmap concat]. rewrite app_nil_r.
  set (e1 := Packet.encode (Packet.FInt32 cmd)). set (e2 := Packet.encode (Packet.FInt32 seq)).
  set (e3 := Packet.encode (Packet.FString data)).
  unfold BinaryStreamReader.make. change (0 + (BINARY_PACKLEN_LEN_2 + CHECKSUM_LEN)) with 6.
  rewrite <- Hh. rewrite <- !app_assoc.
  pose proof (zlen_nonneg e1). pose proof (zlen_nonneg e2). pose proof (zlen_nonneg e3).
  assert (forall f pre rest n, Packet.field_ok f -> zlen pre + zlen (Packet.encode f) <= n ->
    Packet.read_field_like f (BinaryStreamReader.mkReader (pre ++ Packet.encode f ++ rest) n (zlen pre)) =
    Ret (Some f, BinaryStreamReader.mkReader (pre ++ Packet.encode f ++ rest) n
           (zlen (pre ++ Packet.encode f)))) as Hread.
  { intros. rewrite zlen_app. by apply Packet.read_field_like_ok. }
  pose proof (Hread (Packet.FInt32 cmd) hdr (e2 ++ e3 ++ [Byte.x00])
    (zlen (hdr ++ e1 ++ e2 ++ e3)) Hc ltac:(fold e1; rewrite !zlen_app; lia)) as Hr1.
  pose proof (Hread (Packet.FInt32 seq) (hdr ++ e1) (e3 ++ [Byte.x00])
    (zlen (hdr ++ e1 ++ e2 ++ e3)) Hq ltac:(fold e2; rewrite !zlen_app; lia)) as Hr2.
  pose proof (Hread (Packet.FString data) ((hdr ++ e1) ++ e2) [Byte.x00]
    (zlen (hdr ++ e1 ++ e2 ++ e3)) Hd ltac:(fold e3; rewrite !zlen_app; lia)) as Hr3.
  fold e1 in Hr1. fold e2 in Hr2. fold e3 in Hr3. rewrite <- !app_assoc in Hr2, Hr3.
  rewrite <- ?app_assoc in Hr1.
  cbn [Packet.read_field_like] in Hr1, Hr2, Hr3. clear Hread. clearbody e1 e2 e3.
  rewrite <- ?app_assoc in Hr2. rewrite <- ?app_assoc in Hr3.
  destruct (BinaryStreamReader.ReadInt32 _) as [[[c|] s1]| |] in Hr1 |- *; try done.
  injection Hr1 as -> ->. cbv [bindM lift]. cbn [mbind outcome_bind fst snd option_map].
  destruct (BinaryStreamReader.ReadInt32 _) as [[[c|] s2]| |] in Hr2 |- *; try done.
  injection Hr2 as -> ->. cbn [mbind outcome_bind fst snd option_map].
  destruct (update p (set_seq seq) w) as [[[] w1]| |]; [|done..].
  destruct (BinaryStreamReader.ReadString 0 _) as [[[d| |] s3]| |] in Hr3 |- *; try done.
  by injection Hr3 as -> ->.
Qed.

(** C1: [onRead] always ends, and what it does depends on the bytes received
    alone, not on how TCP cut them into reads: on a buffer that holds [l] it
    behaves as the reference loop over the frames of [l], leaving the bytes that
    do not make a frame yet; and when it is called on a first part of the
    stream without closing, and again when more bytes were appended to what it
    left, the second call ends as one call on the whole stream would. *)
Theorem onRead_stream (now p conn : Z) (b b1 b2 : ByteBuffer.ByteBuffer) (more r : bytes)
    (w w1 : World) :
  ByteBuffer.wf b -> ByteBuffer.wf b1 -> ByteBuffer.wf b2 ->
  ByteBuffer.contents b = ByteBuffer.contents b1 ++ more ->
  serve now p conn (ByteBuffer.contents b1) w = Ret (Some (false, r), w1) ->
  ByteBuffer.contents b2 = r ++ more ->
  result_rel (onRead uninit (fun _ => now) p conn b1 w)
    (serve now p conn (ByteBuffer.contents b1) w) /\
  result_rel (onRead uninit (fun _ => now) p conn b2 w1)
    (serve now p conn (ByteBuffer.contents b) w) /\
  result_rel (onRead uninit (fun _ => now) p conn b w)
    (serve now p conn (ByteBuffer.contents b) w) /\
  (forall w', onRead uninit (fun _ => now) p conn b w <> Ret (None, w')).
Proof.
  intros Hwf Hwf1 Hwf2 Hc Hs Hc2.
  assert (forall b w, ByteBuffer.wf b ->
    result_rel (onRead uninit (fun _ => now) p conn b w) (serve now p conn (ByteBuffer.contents b) w))
    as Href.
  { intros b0 w0 Hwf0. unfold onRead, serve. rewrite ByteBuffer.readable_contents by done.
    unfold zlen. rewrite Nat2Z.id. by apply read_loop_serve. }
  split_and!; [by apply Href| |by apply Href|].
  2:{ intros w' E. pose proof (Href b w Hwf) as H. rewrite E in H.
      destruct (serve now p conn (ByteBuffer.contents b) w) as [[[[]|] w2]| |] eqn:Hs2; try done.
      apply serve_loop_done in Hs2; [done|lia]. }
  replace (serve now p conn (ByteBuffer.contents b) w)
    with (serve now p conn (ByteBuffer.contents b2) w1); [by apply Href|].
  rewrite Hc, Hc2. unfold serve in *.
  set (f := S (length (ByteBuffer.contents b1 ++ more) + length (r ++ more))).
  rewrite (serve_fuel (S (length (r ++ more))) f),
    (serve_fuel (S (length (ByteBuffer.contents b1 ++ more))) f) by (unfold f; lia).
  symmetry. apply serve_loop_app; [unfold f; lia|].
  rewrite <- Hs. apply serve_fuel; [unfold f; rewrite !length_app; lia|lia].
Qed.

(** What [send] asks of the connection of a session that is connected. *)
Lemma sendPackage_ok p packet s w :
  heap w !! p = Some s -> tmpConn s ∈ alive w -> zlen packet < 2 ^ 31 ->
  TcpSession.sendPackage p packet (zlen packet) w =
  call_conn (tmpConn s) (Send (Msg.header_of (zlen packet) ++ packet)) w.
Proof.
  intros Hp Ha Hlen. pose proof (zlen_nonneg packet).
  unfold TcpSession.sendPackage, TcpSession.string_of, TcpSession.getConnectionPtr, deref.
  rewrite uwrap_small by lia. rewrite (proj2 (Z.leb_le _ _)) by (unfold ByteBuffer.string_max_size; lia).
  rewrite load_ok, window_all by lia. run. rewrite Hp. run. by rewrite decide_True.
Qed.

(** A session whose connection is gone sends nothing. *)
Lemma sendPackage_gone p packet s w :
  heap w !! p = Some s -> tmpConn s ∉ alive w -> zlen packet < 2 ^ 31 ->
  TcpSession.sendPackage p packet (zlen packet) w = Ret (tt, w).
Proof.
  intros Hp Ha Hlen. pose proof (zlen_nonneg packet).
  unfold TcpSession.sendPackage, TcpSession.string_of, TcpSession.getConnectionPtr, deref.
  rewrite uwrap_small by lia. rewrite (proj2 (Z.leb_le _ _)) by (unfold ByteBuffer.string_max_size; lia).
  rewrite load_ok, window_all by lia. run. rewrite Hp. run. by rewrite decide_False.
Qed.

Lemma session_send_ok p cmd seq data s w :
  heap w !! p = Some s -> tmpConn s ∈ alive w -> (forall n, zlen (uninit n) = 6) ->
  srange 32 cmd -> srange 32 seq -> zlen data < 2 ^ 31 - 24 ->
  let packet := packet_of (uninit (length (calls w))) cmd seq data in
  TcpSession.send uninit p cmd seq data w =
  call_conn (tmpConn s) (Send (Msg.header_of (zlen packet) ++ packet)) w.
Proof.
  intros Hp Ha Hu Hc Hq Hd packet. pose proof (zlen_nonneg data).
  pose proof (zlen_packet (uninit (length (calls w))) cmd seq data (Hu _) ltac:(lia)) as Hl.
  fold packet in Hl. unfold TcpSession.send, TcpSession.send_data. run.
  rewrite (swrap_small 32 (zlen data)) by (unfold srange; lia).
  rewrite make_packet_ok by (done || lia). fold packet. run.
  rewrite swrap_small by (unfold srange; lia). apply sendPackage_ok; [done..|lia].
Qed.

(** C2: package round trip: what a connected session sends as
    [(cmd, seq, data)] reaches the connection as one frame; whoever reads that
    frame from the stream, whatever follows it, gets one body and finds in it
    exactly [cmd], [seq] and [data]; read by a session of this server, it is
    dispatched with that command and those data under that sequence number. *)
Theorem package_roundtrip (p cmd seq : Z) (data rest : bytes) (s : ChatSession) (w : World) :
  heap w !! p = Some s -> tmpConn s ∈ alive w -> (forall n, zlen (uninit n) = 6) ->
  srange 32 cmd -> srange 32 seq -> zlen data + 24 <= MAX_PACKAGE_SIZE ->
  exists pkg body,
    TcpSession.send uninit p cmd seq data w = call_conn (tmpConn s) (Send pkg) w /\
    next_frame (pkg ++ rest) = Frame body rest /\
    (exists s', Packet.read_fields_like (fields cmd seq data)
       (BinaryStreamReader.make (body ++ [Byte.x00]) (zlen body)) =
       Ret (Some <$> fields cmd seq data, s')) /\
    forall q w', process uninit q body (zlen body) w' =
      (do! update q (set_seq seq) in
       let! ok := dispatch uninit q cmd data in
       if ok : bool then do! next_seq q in ret true else ret false) w'.
Proof.
  unfold MAX_PACKAGE_SIZE. intros Hp Ha Hu Hc Hq Hd. pose proof (zlen_nonneg data).
  set (str := uninit (length (calls w))). set (body := packet_of str cmd seq data).
  pose proof (zlen_packet str cmd seq data (Hu _) ltac:(lia)) as Hl. fold body in Hl.
  exists (Msg.header_of (zlen body) ++ body), body. split_and!.
  - apply session_send_ok; [done..|lia].
  - rewrite <- app_assoc. apply next_frame_header. unfold MAX_PACKAGE_SIZE. lia.
  - unfold body, packet_of, body_of. set (fs := concat (Packet.encode <$> fields cmd seq data)).
    set (hdr := Endian.be_bytes 4 (6 + zlen fs) ++ drop 4 str).
    assert (zlen hdr = 6) as Hh by apply zlen_packet_header, Hu.
    eexists. unfold BinaryStreamReader.make. rewrite <- app_assoc.
    change (0 + (BINARY_PACKLEN_LEN_2 + CHECKSUM_LEN)) with 6. rewrite <- Hh.
    apply Packet.read_fields_like_ok; [apply fields_ok; done || lia|]. fold fs. zsimpl. lia.
  - intros q w'. unfold body, packet_of. apply process_packet; [apply zlen_packet_header, Hu|done..|lia].
Qed.

End Api.

(** *** Witnesses *)
Import Demo.
Abbreviation demo_text := (Demo.print (Json.JObject [(lit "text", Json.JString (lit "hi"))])).

Lemma package_roundtrip_witness :
  exists pkg body,
    TcpSession.send Demo.uninit 1 1100 5 demo_text Demo.world = call_conn 11 (Send pkg) Demo.world /\
    next_frame (pkg ++ lit "next") = Frame body (lit "next") /\
    (exists s', Packet.read_fields_like (fields 1100 5 demo_text)
       (BinaryStreamReader.make (body ++ [Byte.x00]) (zlen body)) =
       Ret (Some <$> fields 1100 5 demo_text, s')) /\
    forall q (w' : World), process Demo.uninit q body (zlen body) w' =
      (do! update q (set_seq 5) in
       let! ok := dispatch Demo.uninit q 1100 demo_text in
       if ok : bool then do! next_seq q in ret true else ret false) w'.
Proof.
  apply (package_roundtrip Demo.uninit 1 1100 5 demo_text (lit "next") (Demo.session 11 1 true));
    [reflexivity|set_solver|done|unfold srange; lia..|vm_compute; congruence].
Defined.

(** A frame of the sample client: the request that lists the users. *)
Definition request (cmd seq : Z) (data : bytes) : bytes :=
  let body := packet_of (replicate 6 Byte.x00) cmd seq data in
  Msg.header_of (zlen body) ++ body.

Definition buffer_of (l : bytes) : ByteBuffer.ByteBuffer :=
  ByteBuffer.mkByteBuffer (replicate 8 Byte.x00 ++ l) 8 (8 + zlen l).
Lemma buffer_of_ok l :
  zlen l < 2 ^ 31 -> ByteBuffer.wf (buffer_of l) /\ ByteBuffer.contents (buffer_of l) = l.
Proof.
  intros Hl. pose proof (zlen_nonneg l). split.
  - split; unfold buffer_of, ByteBuffer.kCheapPrepend, ByteBuffer.vector_max_size; cbn [ByteBuffer.m_readerIndex ByteBuffer.m_writerIndex ByteBuffer.m_buffer]; zsimpl;
      change (zlen (replicate 8 Byte.x00)) with 8; lia.
  - unfold ByteBuffer.contents, buffer_of. cbn [ByteBuffer.m_readerIndex ByteBuffer.m_writerIndex ByteBuffer.m_buffer].
    change 8 with (zlen (replicate 8 Byte.x00)) at 1. rewrite window_app_r.
    apply take_ge. unfold zlen. lia.
Qed.

Definition stream : bytes := request 1003 1 [] ++ request 1004 2 [].
Definition first_part : bytes := take 30 stream.
Definition served : World :=
  match serve Demo.uninit 9 1 11 first_part Demo.world with Ret (_, w) => w | _ => Demo.world end.
Definition left_over : bytes :=
  match serve Demo.uninit 9 1 11 first_part Demo.world with Ret (Some (_, r), _) => r | _ => [] end.

Example served_first : length (calls served) = 1%nat /\ length left_over = 11%nat.
Proof. vm_compute. done. Qed.

Lemma onRead_stream_witness :
  result_rel (onRead Demo.uninit (fun _ => 9) 1 11 (buffer_of first_part) Demo.world)
    (serve Demo.uninit 9 1 11 (ByteBuffer.contents (buffer_of first_part)) Demo.world) /\
  result_rel (onRead Demo.uninit (fun _ => 9) 1 11 (buffer_of (left_over ++ drop 30 stream)) served)
    (serve Demo.uninit 9 1 11 (ByteBuffer.contents (buffer_of stream)) Demo.world) /\
  result_rel (onRead Demo.uninit (fun _ => 9) 1 11 (buffer_of stream) Demo.world)
    (serve Demo.uninit 9 1 11 (ByteBuffer.contents (buffer_of stream)) Demo.world) /\
  (forall w', onRead Demo.uninit (fun _ => 9) 1 11 (buffer_of stream) Demo.world <> Ret (None, w')).
Proof.
  apply (onRead_stream Demo.uninit 9 1 11 (buffer_of stream) (buffer_of first_part)
    (buffer_of (left_over ++ drop 30 stream)) (drop 30 stream) left_over);
    [by apply buffer_of_ok; vm_compute..|vm_compute; reflexivity|vm_compute; reflexivity|vm_compute; reflexivity].
Defined.

End Framing.
