(* ===== verification/Handlers.v ===== *)
(** * The requests of the clients and the state of the server

    What the handlers of a session do to the state all sessions share. *)
From S2P Require Import Prelude Buffers Protocol Mysql Json JsonText RedisClient Stores Chat Framing Connections.
Import World ChatSession.

Module Handlers.

Section Api.
Context `{api : MysqlApi} `{rapi : RedisApi}.
Variable uninit : nat -> bytes.

(** ** What no handler changes *)
Definition is_send (c : Z * call) : bool :=
  match snd c with Send _ => true | ForceClose => false end.

(** The list of the server, the users, the living connections and the identity
    of every session stay; the calls grow. *)
Record keeps (w w' : World) : Prop := {
  keeps_server : server w' = server w;
  keeps_alive : alive w' = alive w;
  keeps_users : users w' = users w;
  keeps_next : next_ptr w' = next_ptr w;
  keeps_conns : tmpConn <$> heap w' = tmpConn <$> heap w;
  keeps_ids : m_id <$> heap w' = m_id <$> heap w;
  keeps_calls : exists cs, calls w' = calls w ++ cs
}.

#[export] Instance keeps_preorder : PreOrder keeps.
Proof.
  split.
  - intros w. split; try done. exists []. by rewrite app_nil_r.
  - intros w1 w2 w3 [] []. split; try congruence.
    destruct keeps_calls0 as [c1 E1], keeps_calls1 as [c2 E2]. exists (c1 ++ c2).
    by rewrite E2, E1, app_assoc.
Qed.

(** Nor, for handlers other than the login, who is logged in as whom. *)
Definition same_login (w w' : World) : Prop :=
  userid <$> heap w' = userid <$> heap w /\ m_isLogin <$> heap w' = m_isLogin <$> heap w.
#[export] Instance same_login_preorder : PreOrder same_login.
Proof. split; [done|]. intros w1 w2 w3 [] []. split; congruence. Qed.

Lemma update_inv p f w w' :
  update p f w = Ret (tt, w') ->
  exists s, heap w !! p = Some s /\ w' = set_heap (<[p := f s]> (heap w)) w.
Proof.
  unfold update, deref. run. destruct (heap w !! p) as [s|] eqn:E; [|done].
  intros [= <-]. by exists s.
Qed.

Lemma update_ok p f s w :
  heap w !! p = Some s -> update p f w = Ret (tt, set_heap (<[p := f s]> (heap w)) w).
Proof. intros Hp. unfold update, deref. run. by rewrite Hp. Qed.

Lemma fmap_insert_same {B} (g : ChatSession -> B) p s s' (h : gmap Z ChatSession) :
  h !! p = Some s -> g s' = g s -> g <$> <[p := s']> h = g <$> h.
Proof. intros Hp Hg. rewrite fmap_insert, Hg. apply insert_id. by rewrite lookup_fmap, Hp. Qed.

Lemma keeps_update p f :
  (forall s, tmpConn (f s) = tmpConn s /\ m_id (f s) = m_id s) -> respects keeps (update p f).
Proof.
  intros Hf w [] w' (s & Hp & ->)%update_inv. destruct (Hf s) as [Hc Hi].
  split; try done; cbn; [by eapply fmap_insert_same..|]. exists []. by rewrite app_nil_r.
Qed.

Lemma same_login_update p f :
  (forall s, userid (f s) = userid s /\ m_isLogin (f s) = m_isLogin s) ->
  respects same_login (update p f).
Proof.
  intros Hf w [] w' (s & Hp & ->)%update_inv. destruct (Hf s) as [Hc Hi].
  split; by eapply fmap_insert_same.
Qed.

Lemma keeps_deref p : respects keeps (deref p).
Proof. intros w s w' H. unfold deref in H. destruct (heap w !! p); by simplify_eq. Qed.
Lemma same_login_deref p : respects same_login (deref p).
Proof. intros w s w' H. unfold deref in H. destruct (heap w !! p); by simplify_eq. Qed.
Lemma keeps_call c d : respects keeps (call_conn c d).
Proof. apply respects_modify. intros w. split; try done. by eexists. Qed.
Lemma same_login_call c d : respects same_login (call_conn c d).
Proof. by apply respects_modify. Qed.
Lemma keeps_on_messages {A} (m : M MsgCacheManager.State A) : respects keeps (on_messages m).
Proof.
  intros w a w' H. unfold on_messages, zoom in H. inv_bind. split; try done.
  exists []. by rewrite app_nil_r.
Qed.
Lemma same_login_on_messages {A} (m : M MsgCacheManager.State A) :
  respects same_login (on_messages m).
Proof. intros w a w' H. unfold on_messages, zoom in H. by inv_bind. Qed.

#[local] Hint Resolve keeps_deref keeps_call keeps_on_messages same_login_deref
  same_login_call same_login_on_messages : respects.
#[local] Hint Extern 1 (respects keeps (update _ _)) => by apply keeps_update : respects.
#[local] Hint Extern 1 (respects same_login (update _ (set_seq _))) =>
  by apply same_login_update : respects.
#[local] Hint Extern 1 (respects same_login (update _ (set_lastPackageTime _))) =>
  by apply same_login_update : respects.

Lemma find_session_respects (R : World -> World -> Prop) `{!PreOrder R} f l :
  (forall p, respects R (deref p)) -> respects R (ChatServer.find_session f l).
Proof. intros Hd. induction l as [|p l IH]; cbn; respects. Qed.

Lemma send_respects (R : World -> World -> Prop) `{!PreOrder R} p cmd seq data :
  (forall p, respects R (deref p)) -> (forall c d, respects R (call_conn c d)) ->
  respects R (TcpSession.send uninit p cmd seq data).
Proof.
  intros. unfold TcpSession.send, TcpSession.send_data, TcpSession.sendPackage,
    TcpSession.getConnectionPtr. respects.
Qed.
#[local] Hint Resolve find_session_respects send_respects : respects.

Lemma keeps_login p data : respects keeps (onLoginResponse uninit p data).
Proof.
  unfold onLoginResponse, kick, ChatServer.getSessionByUserId, ChatServer.sessions,
    makeSessionInvalid, field. respects.
Qed.

(** Every other command. *)
Lemma others_respect (R : World -> World -> Prop) `{!PreOrder R} p cmd data :
  (forall p, respects R (deref p)) -> (forall c d, respects R (call_conn c d)) ->
  (forall A (m : M MsgCacheManager.State A), respects R (on_messages m)) ->
  cmd <> Msg.msg_type_login -> respects R (dispatch uninit p cmd data).
Proof.
  intros Hd Hc Hm Hcmd. unfold dispatch. rewrite (proj2 (Z.eqb_neq _ _)) by done.
  unfold onGetUserListResponse, onGetMsgsResponse, onChatResponse, ChatServer.getSessions,
    ChatServer.sessions, field. respects.
  unfold TcpSession.send_packet, TcpSession.sendPackage, TcpSession.getConnectionPtr. respects.
Qed.

Lemma keeps_dispatch p cmd data : respects keeps (dispatch uninit p cmd data).
Proof.
  destruct (decide (cmd = Msg.msg_type_login)) as [->|Hc].
  - unfold dispatch. rewrite Z.eqb_refl. respects. apply keeps_login.
  - apply others_respect; auto with respects.
Qed.

(** ** The invariant of the server

    The list and the heap hold the same sessions, each once; every session has
    a living connection of its own; and no user is logged in twice. *)
Record inv (w : World) : Prop := {
  inv_nodup : NoDup (m_sessions (server w));
  inv_heap : forall p, p ∈ m_sessions (server w) <-> is_Some (heap w !! p);
  inv_next : forall p, is_Some (heap w !! p) -> p < next_ptr w;
  inv_conns : forall p q s t, heap w !! p = Some s -> heap w !! q = Some t ->
    tmpConn s = tmpConn t -> p = q;
  inv_alive : forall p s, heap w !! p = Some s -> tmpConn s ∈ alive w;
  inv_users : forall p q s t, heap w !! p = Some s -> heap w !! q = Some t ->
    userid s = userid t -> userid s <> 0 -> p = q
}.

Definition preserves_inv (w w' : World) : Prop := inv w -> inv w'.
#[export] Instance preserves_inv_preorder : PreOrder preserves_inv.
Proof. split; [intros w H; exact H|]. intros w1 w2 w3 H1 H2 H. exact (H2 (H1 H)). Qed.

Lemma fmap_lookup_eq {B} (g : ChatSession -> B) (h h' : gmap Z ChatSession) p s' :
  g <$> h' = g <$> h -> h' !! p = Some s' -> exists s, h !! p = Some s /\ g s = g s'.
Proof.
  intros Heq Hp. assert ((g <$> h) !! p = Some (g s')) as H by (by rewrite <- Heq, lookup_fmap, Hp).
  rewrite lookup_fmap in H. destruct (h !! p) as [s|]; [|done]. cbn in H. exists s. by simplify_eq.
Qed.

(** Who is logged in may change as long as nobody is logged in twice. *)
Lemma inv_keeps w w' :
  keeps w w' -> inv w ->
  (forall p q s t, heap w' !! p = Some s -> heap w' !! q = Some t ->
    userid s = userid t -> userid s <> 0 -> p = q) ->
  inv w'.
Proof.
  intros [Hs Ha _ Hn Hc _ _] [Hnd Hh Hnx Hcs Hal _] Hu.
  assert (forall p, is_Some (heap w' !! p) <-> is_Some (heap w !! p)) as Hdom.
  { intros p. rewrite <- !(fmap_is_Some tmpConn), <- !lookup_fmap. by rewrite Hc. }
  split; rewrite ?Hs, ?Hn, ?Ha; [done|..|done].
  - intros p. by rewrite Hdom.
  - intros p Hp. by apply Hnx, Hdom.
  - intros p q s t Hp Hq Heq.
    destruct (fmap_lookup_eq _ _ _ _ _ Hc Hp) as (s0 & Hs0 & E1).
    destruct (fmap_lookup_eq _ _ _ _ _ Hc Hq) as (t0 & Ht0 & E2).
    apply (Hcs p q s0 t0); congruence.
  - intros p s Hp. destruct (fmap_lookup_eq _ _ _ _ _ Hc Hp) as (s0 & Hs0 & <-). by eapply Hal.
Qed.

Lemma inv_same_login w w' : keeps w w' -> same_login w w' -> preserves_inv w w'.
Proof.
  intros Hk [Hu _] Hinv. apply (inv_keeps w w' Hk Hinv). intros p q s t Hp Hq Heq Hne.
  destruct (fmap_lookup_eq _ _ _ _ _ Hu Hp) as (s0 & Hs0 & E1).
  destruct (fmap_lookup_eq _ _ _ _ _ Hu Hq) as (t0 & Ht0 & E2).
  apply (inv_users w Hinv p q s0 t0); congruence.
Qed.

Lemma preserves_of {A} (m : M World A) :
  respects keeps m -> respects same_login m -> respects preserves_inv m.
Proof. intros H1 H2 w a w' H. eapply inv_same_login; eauto. Qed.

Lemma find_session_spec f l w :
  (forall p, p ∈ l -> is_Some (heap w !! p)) ->
  exists r, ChatServer.find_session f l w = Ret (r, w) /\
    match r with
    | Some (p, s) => p ∈ l /\ heap w !! p = Some s /\ f s = true
    | None => forall p s, p ∈ l -> heap w !! p = Some s -> f s = false
    end.
Proof.
  induction l as [|p l IH]; intros Hl.
  { exists None. split; [done|]. by intros p s Hp%elem_of_nil. }
  destruct (Hl p) as [s Hs]; [apply list_elem_of_here|]. cbn. unfold deref. rewrite Hs.
  destruct (f s) eqn:Hf.
  - exists (Some (p, s)). split_and!; [done|apply list_elem_of_here|done|done].
  - destruct IH as (r & -> & Hr); [intros; by apply Hl, list_elem_of_further|].
    exists r. split; [done|]. destruct r as [[q t]|].
    + destruct Hr as (? & ? & ?). split_and!; [by apply list_elem_of_further|done|done].
    + intros q t [->|Hq]%elem_of_cons Ht; [congruence|eauto].
Qed.

(** Of a user other than 0 there is one session at most: the one found. *)
Lemma getSession_spec id w :
  inv w -> exists r, ChatServer.getSessionByUserId id w = Ret (r, w) /\
    match r with
    | Some q => exists t, q ∈ m_sessions (server w) /\ heap w !! q = Some t /\ userid t = id
    | None => forall q t, heap w !! q = Some t -> userid t <> id
    end.
Proof.
  intros Hinv. unfold ChatServer.getSessionByUserId, ChatServer.sessions. run.
  destruct (find_session_spec (ChatServer.has_user id) (m_sessions (server w)) w) as (r & -> & Hr).
  { intros p Hp. by apply (inv_heap w Hinv). }
  exists (option_map fst r). split; [done|]. unfold ChatServer.has_user in Hr.
  destruct r as [[q t]|]; cbn.
  - destruct Hr as (Hq & Ht & E%Z.eqb_eq). by exists t.
  - intros q t Ht. apply Z.eqb_neq, (Hr q t); [|done]. apply (inv_heap w Hinv). by rewrite Ht.
Qed.

(** Sending leaves the heap alone. *)
Definition same_heap (w w' : World) : Prop := heap w' = heap w.
#[export] Instance same_heap_preorder : PreOrder same_heap.
Proof. split; [done|]. intros w1 w2 w3 H1 H2. unfold same_heap in *. congruence. Qed.

Lemma send_heap p cmd seq data : respects same_heap (TcpSession.send uninit p cmd seq data).
Proof.
  apply send_respects; [apply _|..].
  - intros q w s w' H. unfold deref in H. destruct (heap w !! q); by simplify_eq.
  - intros c d. by apply respects_modify.
Qed.

Lemma deref_inv p s w w' : deref p w = Ret (s, w') -> heap w !! p = Some s /\ w' = w.
Proof. unfold deref. destruct (heap w !! p) as [t|]; [|done]. by intros [= -> ->]. Qed.
Lemma field_inv {A} p (f : ChatSession -> A) a w w' :
  field p f w = Ret (a, w') -> exists s, heap w !! p = Some s /\ a = f s /\ w' = w.
Proof.
  unfold field, deref. run. destruct (heap w !! p) as [s|]; [|done]. intros [= <- <-]. by exists s.
Qed.
Lemma lift_inv {A} (o : outcome A) a (w w' : World) : lift o w = Ret (a, w') -> o = Ret a /\ w' = w.
Proof. unfold lift. intros H. by inv_bind. Qed.

(** The two ways [kick] ends. *)
Lemma kick_heap p id w w' :
  inv w -> kick uninit p id w = Ret (tt, w') ->
  (heap w' = heap w /\ forall q t, heap w !! q = Some t -> userid t <> id) \/
  exists q t, heap w !! q = Some t /\ userid t = id /\ heap w' = <[q := set_userid 0 t]> (heap w).
Proof.
  intros Hinv. destruct (getSession_spec id w Hinv) as (r & Hget & Hr).
  unfold kick. rewrite M_bind_eq, Hget. destruct r as [q|]; [|intros [= <-]; by left].
  destruct Hr as (t & _ & Ht & Hid). intros (seq & w1 & (s & _ & _ & ->)%field_inv & (u & w2 & Hsend & Hend)%M_bind_inv)%M_bind_inv.
  apply send_heap in Hsend.
  apply M_bind_inv in Hend as ([] & w3 & (t' & Ht' & ->)%update_inv & Hend).
  apply M_bind_inv in Hend as (t'' & w4 & [_ ->]%deref_inv & [= <-]).
  unfold same_heap in Hsend. rewrite Hsend in *. assert (t' = t) as -> by congruence.
  right. by exists q, t.
Qed.

(** Who is logged in after a login request: nobody new, or [p] as a user whom
    no other session has. *)
Lemma login_users p data w w' :
  inv w -> onLoginResponse uninit p data w = Ret (tt, w') ->
  exists id, forall q s, heap w' !! q = Some s -> userid s <> 0 ->
    (exists s0, heap w !! q = Some s0 /\ userid s0 = userid s /\ (userid s = id -> q = p)) \/
    (q = p /\ userid s = id).
Proof.
  intros Hinv. unfold onLoginResponse.
  intros (j & w0 & [_ ->]%lift_inv & H)%M_bind_inv.
  apply M_bind_inv in H as (n & w1 & [_ ->]%lift_inv & H).
  apply M_bind_inv in H as (k & w1 & [_ ->]%lift_inv & H).
  apply M_bind_inv in H as (ww & w1 & [= <- <-] & H).
  set (u := snd _) in H. apply M_bind_inv in H as (os & w1 & Hbranch & H).
  apply M_bind_inv in H as (seq & w2 & (s1 & _ & _ & ->)%field_inv & H).
  apply M_bind_inv in H as ([] & w2 & Hsend%send_heap & (s2 & Hs2 & ->)%update_inv).
  unfold same_heap in Hsend. rewrite Hsend in Hs2 |- *.
  assert (forall q s, heap (set_heap (<[p := set_isLogin true s2]> (heap w1)) w1) !! q = Some s ->
    exists t, heap w1 !! q = Some t /\ userid t = userid s) as Hlast.
  { cbn. intros q s [[-> <-]|[_ Hq]]%lookup_insert_Some; [by exists s2|by exists s]. }
  case_bool_decide; cbn [negb] in Hbranch.
  2:{ injection Hbranch as <- <-. exists 0. intros q s (t & Ht & Hu)%Hlast Hne. left. exists t.
    split_and!; congruence. }
  apply M_bind_inv in Hbranch as ([] & wk & Hk & Hbranch).
  apply M_bind_inv in Hbranch as ([] & wb & (s3 & Hs3 & ->)%update_inv & Hbranch).
  apply M_bind_inv in Hbranch as ([] & wc & (s4 & Hs4 & ->)%update_inv & Hbranch).
  apply M_bind_inv in Hbranch as (i & wd & (s5 & Hs5 & _ & ->)%field_inv & [= <- <-]).
  exists (UserManager.userid u). intros q s (t & Ht & Hu)%Hlast Hne. cbn in Ht, Hs4.
  apply lookup_insert_Some in Hs4 as [[_ <-]|[? _]]; [|done].
  apply lookup_insert_Some in Ht as [[<- <-]|[Hqp Ht]]; [by right|].
  rewrite lookup_insert_ne in Ht by done. left.
  apply kick_heap in Hk as [[E Hno]|(r & t0 & Hr & Hid & Hheap)]; [| |done].
  - rewrite E in Ht. exists t. split_and!; [done..|]. intros Heq. exfalso. eapply Hno; [done|congruence].
  - rewrite Hheap in Ht. apply lookup_insert_Some in Ht as [[<- <-]|[Hrq Ht]]; [by cbn in Hu|].
    exists t. split_and!; [done..|]. intros Heq. exfalso. apply Hrq.
    apply (inv_users w Hinv r q t0 t Hr Ht); congruence.
Qed.

Lemma inv_login p data : respects preserves_inv (onLoginResponse uninit p data).
Proof.
  intros w [] w' H Hinv. apply (inv_keeps w w'); [by eapply keeps_login|done|].
  destruct (login_users p data w w' Hinv H) as (id & Hid). intros q r s t Hq Hr Heq Hne.
  pose proof (Hid q s Hq Hne) as Hs. pose proof (Hid r t Hr ltac:(congruence)) as Ht.
  destruct Hs as [(s0 & Hs0 & Es & Hs)|[-> Es]], Ht as [(t0 & Ht0 & Et & Ht)|[-> Et]].
  - apply (inv_users w Hinv q r s0 t0); congruence.
  - symmetry in Heq. rewrite Et in Heq. auto.
  - rewrite Es in Heq. symmetry. auto.
  - done.
Qed.

(** ** Every input leaves the invariant true *)
Lemma inv_dispatch p cmd data : respects preserves_inv (dispatch uninit p cmd data).
Proof.
  destruct (decide (cmd = Msg.msg_type_login)) as [->|Hc].
  - unfold dispatch. rewrite Z.eqb_refl. respects. apply inv_login.
  - apply preserves_of; apply others_respect; auto with respects.
Qed.
#[local] Hint Resolve inv_dispatch : respects.
#[local] Hint Extern 1 (respects preserves_inv (deref _)) =>
  apply preserves_of; auto with respects : respects.
#[local] Hint Extern 1 (respects preserves_inv (update _ _)) =>
  apply preserves_of; auto with respects : respects.
#[local] Hint Extern 1 (respects preserves_inv (call_conn _ _)) =>
  apply preserves_of; auto with respects : respects.

Lemma inv_process p inbuf n : respects preserves_inv (process uninit p inbuf n).
Proof. unfold process, next_seq, field. respects. Qed.
#[local] Hint Resolve inv_process : respects.

Lemma inv_read_loop fuel clock p conn buf :
  respects preserves_inv (read_loop uninit fuel clock p conn buf).
Proof.
  revert buf. induction fuel as [|fuel IH]; intros buf; cbn [read_loop]; unfold forceClose; respects.
Qed.

(** ** Connections come and go *)
Definition connected_to (conn : Z) (w : World) (p : Z) : bool :=
  match heap w !! p with Some s => tmpConn s =? conn | None => false end.

Lemma onConnected_ok conn now w :
  inv w -> conn ∈ alive w -> (forall p, connected_to conn w p = false) ->
  exists w', ChatServer.onConnected conn true now w = Ret (Some (next_ptr w), w') /\ inv w' /\
    m_sessions (server w') = m_sessions (server w) ++ [next_ptr w] /\
    heap w' = <[next_ptr w := mkSession conn (i32 (m_sessionId (server w) + 1)) 0 [] [] [] None None
                                0 false now]> (heap w) /\
    alive w' = alive w /\ users w' = users w /\ calls w' = calls w.
Proof.
  intros [Hnd Hh Hnx Hcs Hal Hus] Hc Hfresh. eexists. split; [reflexivity|].
  split_and!; try done.
  assert (heap w !! next_ptr w = None) as Hnone.
  { apply eq_None_not_Some. intros H. apply Hnx in H. lia. }
  assert (forall p s, heap w !! p = Some s -> tmpConn s <> conn) as Hne.
  { intros p s Hp E. specialize (Hfresh p). unfold connected_to in Hfresh. rewrite Hp in Hfresh.
    by apply Z.eqb_neq in Hfresh. }
  split; cbn.
  - apply NoDup_app. split_and!; [done| |apply NoDup_singleton].
    intros p Hp ->%list_elem_of_singleton. apply Hh in Hp as [s Hs]. congruence.
  - intros p. rewrite elem_of_app, list_elem_of_singleton, Hh, lookup_insert_is_Some'.
    intuition.
  - intros p. rewrite lookup_insert_is_Some'. intros [<-|Hp%Hnx]; lia.
  - intros p q s t [[<- <-]|[? Hp]]%lookup_insert_Some [[<- <-]|[? Hq]]%lookup_insert_Some E;
      cbn in E; [done|by destruct (Hne _ _ Hq)|by destruct (Hne _ _ Hp)|by eapply Hcs].
  - intros p s [[<- <-]|[? Hp]]%lookup_insert_Some; [done|by eapply Hal].
  - intros p q s t [[<- <-]|[? Hp]]%lookup_insert_Some [[<- <-]|[? Hq]]%lookup_insert_Some E Hz;
      cbn in E, Hz; [done..|by eapply Hus].
Qed.

Lemma getConnectionPtr_ok p s w :
  heap w !! p = Some s -> tmpConn s ∈ alive w ->
  TcpSession.getConnectionPtr p w = Ret (Some (tmpConn s), w).
Proof.
  intros Hp Ha. unfold TcpSession.getConnectionPtr, deref. run. rewrite Hp. run.
  by rewrite decide_True.
Qed.

Lemma read_all_ok l w :
  (forall p, p ∈ l -> is_Some (heap w !! p)) ->
  for_each l (fun q => let! _ := deref q in ret tt) w = Ret (tt, w).
Proof.
  induction l as [|p l IH]; intros Hl; [done|]. cbn.
  destruct (Hl p) as [s Hs]; [apply list_elem_of_here|]. unfold deref. rewrite Hs.
  apply IH. intros q Hq. by apply Hl, list_elem_of_further.
Qed.

(** One round of the loop of [onDisconnected]. *)
Definition erased (p : Z) (l : list Z) (w : World) : World :=
  let w1 := set_server (mkServer l (m_sessionId (server w)) (m_logPackageBinary (server w))) w in
  set_heap (delete p (heap w)) w1.
Lemma disconnect_round conn kept p rest w s :
  heap w !! p = Some s -> tmpConn s ∈ alive w -> (forall q, q ∈ kept ++ p :: rest -> is_Some (heap w !! q)) ->
  ChatServer.disconnect_loop conn kept (p :: rest) w =
    if tmpConn s =? conn then ChatServer.disconnect_loop conn kept rest (erased p (kept ++ rest) w)
    else ChatServer.disconnect_loop conn (kept ++ [p]) rest w.
Proof.
  intros Hs Hal Hh. cbn [ChatServer.disconnect_loop]. rewrite M_bind_eq, (getConnectionPtr_ok p s) by done.
  case_bool_decide as E; [|by rewrite (proj2 (Z.eqb_neq _ _)) by congruence].
  injection E as E. rewrite (proj2 (Z.eqb_eq _ _) E), M_bind_eq. unfold deref at 1. rewrite Hs, M_bind_eq.
  assert ((when (0 <? userid s) (for_each (kept ++ p :: rest)
    (fun q => let! _ := deref q in ret tt))) w = Ret (tt, w)) as ->; [|done].
  destruct (0 <? userid s); [by apply read_all_ok|done].
Qed.

(** The loop of [onDisconnected] takes the sessions of the connection out of the
    rest of the list and frees them. *)
Lemma disconnect_loop_ok conn rest : forall kept w,
  m_sessions (server w) = kept ++ rest -> NoDup (kept ++ rest) ->
  (forall p, p ∈ kept ++ rest -> is_Some (heap w !! p)) ->
  (forall p s, heap w !! p = Some s -> tmpConn s ∈ alive w) ->
  exists w', ChatServer.disconnect_loop conn kept rest w = Ret (tt, w') /\
    m_sessions (server w') = kept ++ List.filter (fun p => negb (connected_to conn w p)) rest /\
    (forall p, heap w' !! p =
       if bool_decide (p ∈ rest) && connected_to conn w p then None else heap w !! p) /\
    next_ptr w' = next_ptr w /\ alive w' = alive w /\ users w' = users w /\
    calls w' = calls w /\ messages w' = messages w.
Proof.
  induction rest as [|p rest IH]; intros kept w Hl Hnd Hh Hal.
  { exists w. split_and!; try done. }
  destruct (Hh p) as [s Hs]; [set_solver|]. rewrite (disconnect_round conn kept p rest w s) by eauto.
  assert (connected_to conn w p = (tmpConn s =? conn)) as Hct by (unfold connected_to; by rewrite Hs).
  assert (p ∉ rest) as Hp.
  { apply NoDup_app in Hnd as (_ & _ & Hnd). by apply NoDup_cons in Hnd as [? _]. }
  destruct (Z.eqb_spec (tmpConn s) conn) as [E|E].
  - set (w1 := erased p (kept ++ rest) w).
    assert (forall q, q ∈ rest -> connected_to conn w1 q = connected_to conn w q) as Hsame.
    { intros q Hq. unfold connected_to, w1. cbn. rewrite lookup_delete_ne; [done|]. by intros ->. }
    destruct (IH kept w1) as (w' & -> & Hl' & Hh' & Hrest); [done|..].
    + apply NoDup_app in Hnd as (H1 & H2 & H3). apply NoDup_app. split_and!; [done| |by apply NoDup_cons in H3 as [_ ?]].
      intros q Hq Hq'. apply (H2 q Hq). by apply list_elem_of_further.
    + intros q Hq. unfold w1. cbn. rewrite lookup_delete_ne; [apply Hh; set_solver|].
      intros ->. apply elem_of_app in Hq as [Hq|Hq]; [|done].
      apply NoDup_app in Hnd as (_ & H2 & _). apply (H2 q Hq). apply list_elem_of_here.
    + intros q t. unfold w1. cbn. intros [_ Hq]%lookup_delete_Some. by eapply Hal.
    + exists w'. split_and!; [done| | |apply Hrest..].
      * rewrite Hl'. f_equal. cbn [List.filter]. rewrite Hct. cbn [negb].
        apply List.filter_ext_in. intros q Hq%list_elem_of_In. by rewrite Hsame.
      * intros q. rewrite Hh'. destruct (decide (q = p)) as [->|Hqp].
        { rewrite (bool_decide_false (p ∈ rest)), bool_decide_true by set_solver.
          rewrite Hct. cbn. by rewrite lookup_delete_eq. }
        rewrite (bool_decide_ext (q ∈ p :: rest) (q ∈ rest)) by set_solver.
        case_bool_decide as Hq; cbn [andb]; [rewrite Hsame by done|]; unfold w1; cbn;
          by rewrite lookup_delete_ne.
  - destruct (IH (kept ++ [p]) w) as (w' & -> & Hl' & Hh' & Hrest); rewrite <- ?app_assoc; try done.
    exists w'. split_and!; [done| | |apply Hrest..].
    + rewrite Hl', <- app_assoc. cbn [List.filter app]. by rewrite Hct.
    + intros q. rewrite Hh'. destruct (decide (q = p)) as [->|Hqp].
      { by rewrite Hct, !andb_false_r. }
      by rewrite (bool_decide_ext (q ∈ p :: rest) (q ∈ rest)) by set_solver.
Qed.

(** *** The server as a state machine *)
Definition set_alive (a : gset Z) (w : World) : World :=
  mkWorld (heap w) (next_ptr w) (server w) a (users w) (messages w) (calls w).

Definition initial (w : World) : Prop := m_sessions (server w) = [] /\ heap w = ∅.

(** A connection object is made and reported as connected; reported as lost; its
    last owner lets it go; it delivers input to the session of its callback. *)
Inductive step : World -> World -> Prop :=
| step_accept conn now w p w' :
    conn ∉ alive w ->
    ChatServer.onConnected conn true now (set_alive ({[conn]} ∪ alive w) w) = Ret (p, w') ->
    step w w'
| step_lost conn now w r w' :
    conn ∈ alive w ->
    ChatServer.onConnected conn false now w = Ret (r, w') -> step w w'
| step_free conn w :
    (forall p, connected_to conn w p = false) -> step w (set_alive (alive w ∖ {[conn]}) w)
| step_read clock p conn buf r w w' :
    onRead uninit clock p conn buf w = Ret (r, w') -> step w w'.

Lemma inv_disconnected conn w w' :
  inv w -> ChatServer.onDisconnected conn w = Ret (tt, w') ->
  inv w' /\ m_sessions (server w') =
    List.filter (fun p => negb (connected_to conn w p)) (m_sessions (server w)) /\
  (forall p, heap w' !! p = if connected_to conn w p then None else heap w !! p) /\
  alive w' = alive w.
Proof.
  intros [Hnd Hh Hnx Hcs Hal Hus]. unfold ChatServer.onDisconnected, ChatServer.sessions. run.
  destruct (disconnect_loop_ok conn (m_sessions (server w)) [] w) as
    (w2 & -> & Hl & Hheap & Hn & Ha & _); [done|done|intros p; apply Hh|done|].
  intros [= <-]. cbn [app] in Hl.
  assert (forall p, heap w2 !! p = if connected_to conn w p then None else heap w !! p) as Hheap'.
  { intros p. rewrite Hheap. destruct (connected_to conn w p) eqn:E; [|by rewrite andb_false_r].
    rewrite bool_decide_true; [done|]. apply Hh. unfold connected_to in E.
    destruct (heap w !! p); [by eexists|done]. }
  assert (forall p s, heap w2 !! p = Some s -> heap w !! p = Some s) as Hsub.
  { intros p s. rewrite Hheap'. by destruct (connected_to conn w p). }
  split_and!; [|done..]. split.
  - rewrite Hl. apply NoDup_ListNoDup, List.NoDup_filter, NoDup_ListNoDup, Hnd.
  - intros p. rewrite Hl, list_elem_of_In, List.filter_In, <- list_elem_of_In, Hh, Hheap'.
    destruct (connected_to conn w p) eqn:E; cbn; [|tauto].
    split; [intros [_ ?]; done|by intros [? ?]].
  - intros p. rewrite Hheap', Hn. destruct (connected_to conn w p); [by intros [? ?]|apply Hnx].
  - intros p q s t Hp%Hsub Hq%Hsub. by apply Hcs.
  - intros p s Hp%Hsub. rewrite Ha. by eapply Hal.
  - intros p q s t Hp%Hsub Hq%Hsub. by apply Hus.
Qed.

Lemma server_step_inv w w' : step w w' -> inv w -> inv w'.
Proof.
  intros [conn now w1 p w2 Hc H|conn now w1 r w2 Hc H|conn w1 Hc|clock p conn buf r w1 w2 H] Hinv.
  - pose proof Hinv as [Hnd Hh Hnx Hcs Hal Hus].
    assert (inv (set_alive ({[conn]} ∪ alive w1) w1)) as Hinv1.
    { split; cbn; try done. intros q s Hq%Hal. set_solver. }
    destruct (onConnected_ok conn now _ Hinv1) as (w3 & H3 & Hinv3 & _); [cbn; set_solver|..].
    + intros q. unfold connected_to. cbn. destruct (heap w1 !! q) as [s|] eqn:E; [|done].
      apply Z.eqb_neq. intros <-. apply Hc. by eapply Hal.
    + rewrite H in H3. injection H3 as _ ->. done.
  - unfold ChatServer.onConnected in H. apply M_bind_inv in H as ([] & w3 & H & [= <- <-]).
    by eapply inv_disconnected.
  - destruct Hinv as [Hnd Hh Hnx Hcs Hal Hus]. split; cbn; try done.
    intros q s Hq. apply elem_of_difference. split; [by eapply Hal|].
    intros E%elem_of_singleton. specialize (Hc q). unfold connected_to in Hc.
    rewrite Hq, E, Z.eqb_refl in Hc. done.
  - revert H. unfold onRead. intros H. by eapply inv_read_loop.
Qed.

Lemma inv_reachable w w' : rtc step w w' -> inv w -> inv w'.
Proof. induction 1; eauto using server_step_inv. Qed.

Lemma inv_initial w : initial w -> inv w.
Proof.
  intros [Hl Hh]. split; rewrite ?Hl, ?Hh; [constructor|..].
  - intros p. rewrite lookup_empty. split; [by intros ?%elem_of_nil|by intros [? ?]].
  - intros p. rewrite lookup_empty. by intros [? ?].
  - intros p q s t. by rewrite lookup_empty.
  - intros p s. by rewrite lookup_empty.
  - intros p q s t. by rewrite lookup_empty.
Qed.


(** C23: a lost connection takes exactly its own sessions out of the list, the
    others stay in order and untouched, and its sessions are freed: the next
    request delivered to one of them uses a dangling pointer. *)
Theorem disconnect_frees (conn now : Z) (w : World) :
  inv w -> conn ∈ alive w ->
  exists w', ChatServer.onConnected conn false now w = Ret (None, w') /\
    m_sessions (server w') =
      List.filter (fun p => negb (connected_to conn w p)) (m_sessions (server w)) /\
    (forall p, connected_to conn w p = false -> heap w' !! p = heap w !! p) /\
    (forall p hdr cmd seq data, connected_to conn w p = true ->
       zlen hdr = 6 -> srange 32 cmd -> srange 32 seq -> zlen data < 2 ^ 32 ->
       process uninit p (Framing.body_of hdr cmd seq data)
         (zlen (Framing.body_of hdr cmd seq data)) w' = Undef DanglingPointer).
Proof.
  intros Hinv Hc. pose proof Hinv as [Hnd Hh Hnx Hcs Hal Hus].
  destruct (disconnect_loop_ok conn (m_sessions (server w)) [] w) as (w' & E & _);
    [done|done|intros p; apply Hh|done|].
  destruct (inv_disconnected conn w w' Hinv) as (_ & Hl & Hheap & _); [exact E|].
  exists w'. split_and!; [|done| |].
  - unfold ChatServer.onConnected, ChatServer.onDisconnected, ChatServer.sessions. run. by rewrite E.
  - intros p Hp. by rewrite Hheap, Hp.
  - intros p hdr cmd seq data Hp Hhdr Hcmd Hseq Hd. rewrite Framing.process_packet by done.
    rewrite M_bind_eq. unfold update, deref. run. by rewrite Hheap, Hp.
Qed.

End Api.
(** *** Witnesses *)
Import Demo.

Lemma uninit_ok n : zlen (uninit n) = 6.
Proof. done. Qed.

Lemma demo_inv : inv Demo.world.
Proof.
  assert (forall p s, heap Demo.world !! p = Some s ->
    (p = 1 /\ s = session 11 1 true) \/ (p = 2 /\ s = session 12 2 false)) as Hh.
  { intros p s. unfold Demo.world. cbn [heap]. intros [[<- <-]|[_ [<- <-]%lookup_singleton_Some]]%lookup_insert_Some; auto. }
  split.
  - apply NoDup_cons. split; [|apply NoDup_singleton]. by intros ?%list_elem_of_singleton.
  - intros p. split.
    + intros [->|[->|[]%elem_of_nil]%elem_of_cons]%elem_of_cons; vm_compute; eauto.
    + intros [s [[-> _]|[-> _]]%Hh]; cbn; set_solver.
  - intros p [s [[-> _]|[-> _]]%Hh]; done.
  - intros p q s t [[-> ->]|[-> ->]]%Hh [[-> ->]|[-> ->]]%Hh; done.
  - intros p s [[-> ->]|[-> ->]]%Hh; cbn; set_solver.
  - intros p q s t [[-> ->]|[-> ->]]%Hh [[-> ->]|[-> ->]]%Hh; done.
Qed.

(** A server that starts, accepts two connections and serves a login. *)
Definition start : World :=
  mkWorld ∅ 1 ChatServer.make ∅ [alice] (messages true []) [].
Definition accepted (conn : Z) (w : World) : World :=
  match ChatServer.onConnected conn true 0 (set_alive ({[conn]} ∪ alive w) w) with
  | Ret (_, w') => w'
  | _ => w
  end.
Definition login_request : ByteBuffer.ByteBuffer :=
  Framing.buffer_of (Framing.request 1002 1 (print (credentials (lit "alice") (lit "pw")))).
Definition logged_in : World :=
  match onRead uninit (fun _ => 5) 2 12 login_request (accepted 12 (accepted 11 start)) with
  | Ret (_, w') => w'
  | _ => start
  end.

Example logged_in_user : userid <$> (heap logged_in !! 2) = Some 1.
Proof. vm_compute. reflexivity. Qed.


Lemma disconnect_frees_witness :
  exists w', ChatServer.onConnected 11 false 0 Demo.world = Ret (None, w') /\
    m_sessions (server w') = [2] /\
    (forall p, connected_to 11 Demo.world p = false -> heap w' !! p = heap Demo.world !! p) /\
    (forall p hdr cmd seq data, connected_to 11 Demo.world p = true ->
       zlen hdr = 6 -> srange 32 cmd -> srange 32 seq -> zlen data < 2 ^ 32 ->
       process uninit p (Framing.body_of hdr cmd seq data)
         (zlen (Framing.body_of hdr cmd seq data)) w' = Undef DanglingPointer).
Proof. apply (disconnect_frees uninit 11 0 Demo.world demo_inv). set_solver. Defined.

(** A channel that reports an error and input together closes its connection
    first and then reads: the connection reports that it is lost, which frees
    the session, and then delivers the input to it. *)
Example error_then_read :
  exists w, TcpConnection.run [TcpConnection.OpEstablished true; TcpConnection.OpError;
      TcpConnection.OpRead (ByteBuffer.ReadBytes (lit "x")) 0] TcpConnection.sample_world
    = Ret (tt, w) /\
    TcpConnection.log w = [TcpConnection.EvConnection true; TcpConnection.EvConnection false;
                           TcpConnection.EvClose; TcpConnection.EvMessage].
Proof. vm_compute. eexists. split; reflexivity. Qed.

End Handlers.
