(* ===== verification/Requests.v ===== *)
(** * What each request does

    The effect of the requests of the protocol on the sessions, the history and
    the connections, from any state that satisfies the invariant of the server. *)
From S2P Require Import Prelude Buffers Protocol Mysql Json JsonParsing JsonPrinting JsonText RedisClient Stores Chat Framing Handlers.
Import World ChatSession Handlers.

Module Requests.

Section Api.
Context `{api : MysqlApi} `{rapi : RedisApi}.
Variable uninit : nat -> bytes.
Hypothesis uninit_size : forall n, zlen (uninit n) = 6.

(** The frame of the [n]-th call. *)
Definition framed (n : nat) (cmd seq : Z) (data : bytes) : bytes :=
  let packet := Framing.packet_of (uninit n) cmd seq data in
  Msg.header_of (zlen packet) ++ packet.

Definition with_calls (cs : list (Z * call)) (w : World) : World :=
  mkWorld (heap w) (next_ptr w) (server w) (alive w) (users w) (messages w) (calls w ++ cs).

Lemma with_calls_calls cs ds w : with_calls ds (with_calls cs w) = with_calls (cs ++ ds) w.
Proof. unfold with_calls. cbn. by rewrite app_assoc. Qed.

Lemma send_call p cmd seq data s w :
  tmpConn s ∈ alive w -> heap w !! p = Some s -> srange 32 cmd -> srange 32 seq ->
  zlen data < 2 ^ 31 - 24 ->
  TcpSession.send uninit p cmd seq data w =
  Ret (tt, with_calls [(tmpConn s, Send (framed (length (calls w)) cmd seq data))] w).
Proof. intros Ha Hp Hc Hq Hd. by rewrite (Framing.session_send_ok uninit p cmd seq data s). Qed.

Lemma field_ok {A} p (f : ChatSession -> A) s w :
  heap w !! p = Some s -> field p f w = Ret (f s, w).
Proof. intros Hp. unfold field, deref. run. by rewrite Hp. Qed.

Lemma inv_with_calls cs w : inv w -> inv (with_calls cs w).
Proof. by intros []. Qed.

(** ** The gate

    C5: before the login request nothing else is served: any other command of
    a session that has not logged in changes no session, no user, no message and
    no list; its only effect is one response, on that session's own connection,
    with the command and the sequence number of the request. *)
Theorem login_gate (p cmd : Z) (data : bytes) (s : ChatSession) (w : World) :
  inv w -> heap w !! p = Some s -> m_isLogin s = false ->
  cmd <> Msg.msg_type_login -> srange 32 cmd -> srange 32 (m_seq s) ->
  dispatch uninit p cmd data w =
  Ret (true, with_calls [(tmpConn s, Send (framed (length (calls w)) cmd (m_seq s) not_login))] w).
Proof.
  intros Hinv Hp Hl Hcmd Hc Hq. unfold dispatch. rewrite (proj2 (Z.eqb_neq _ _)) by done.
  rewrite M_bind_eq, (field_ok p m_isLogin s), Hl by done.
  rewrite M_bind_eq, (field_ok p m_seq s) by done.
  rewrite M_bind_eq, (send_call p cmd (m_seq s) not_login s); [done|by eapply inv_alive|done..|]. by vm_compute.
Qed.

(** ** Login *)

(** Who the request names, and who holds that user's session. *)
Definition user_named (name : bytes) (w : World) : UserManager.User :=
  match List.find (fun v => bool_decide (UserManager.username v = name)) (users w) with
  | Some v => v
  | None => UserManager.mkUser 0 [] []
  end.
Fixpoint first_holder (id : Z) (h : gmap Z ChatSession) (l : list Z) : option (Z * ChatSession) :=
  match l with
  | [] => None
  | p :: l' =>
      match h !! p with
      | Some s => if userid s =? id then Some (p, s) else first_holder id h l'
      | None => first_holder id h l'
      end
  end.
Definition holder (id : Z) (w : World) : option (Z * ChatSession) :=
  first_holder id (heap w) (m_sessions (server w)).

Lemma find_session_holder id w l :
  (forall p, p ∈ l -> is_Some (heap w !! p)) ->
  ChatServer.find_session (ChatServer.has_user id) l w = Ret (first_holder id (heap w) l, w).
Proof.
  induction l as [|p l IH]; intros Hl; [done|]. cbn.
  destruct (Hl p) as [s Hs]; [apply list_elem_of_here|]. unfold deref. rewrite Hs.
  unfold ChatServer.has_user at 1. destruct (userid s =? id); [done|].
  apply IH. intros q Hq. by apply Hl, list_elem_of_further.
Qed.

Lemma holder_some id w q t : holder id w = Some (q, t) -> heap w !! q = Some t /\ userid t = id.
Proof.
  unfold holder. induction (m_sessions (server w)) as [|p l IH]; [done|]. cbn.
  destruct (heap w !! p) as [s|] eqn:E; [|done]. destruct (Z.eqb_spec (userid s) id); [|done].
  by intros [= <- <-].
Qed.

(** The session that had the user: made invalid, and told so. *)
Definition kicked (id : Z) (h : gmap Z ChatSession) (w : World) : gmap Z ChatSession :=
  match holder id w with Some (q, t) => <[q := set_userid 0 t]> h | None => h end.
Definition kick_calls (id seq : Z) (w : World) : list (Z * call) :=
  match holder id w with
  | Some (_, t) => [(tmpConn t, Send (framed (length (calls w)) Msg.msg_type_kickuser seq []))]
  | None => []
  end.

Lemma kick_ok p id s w :
  inv w -> heap w !! p = Some s -> srange 32 (m_seq s) ->
  kick uninit p id w =
  Ret (tt, with_calls (kick_calls id (m_seq s) w) (set_heap (kicked id (heap w) w) w)).
Proof.
  intros Hinv Hp Hq. unfold kick, ChatServer.getSessionByUserId, ChatServer.sessions.
  rewrite M_bind_eq. cbn [gets bindM]. rewrite find_session_holder by (intros q; apply (inv_heap w Hinv)).
  cbn [ret]. fold (holder id w). unfold kicked, kick_calls.
  destruct (holder id w) as [[q t]|] eqn:Hh; cbn [option_map fst].
  - apply holder_some in Hh as [Ht _].
    rewrite M_bind_eq, (field_ok p m_seq s) by done.
    rewrite M_bind_eq, (send_call q _ _ [] t) by (by eapply inv_alive || done || (unfold srange, Msg.msg_type_kickuser; lia)).
    unfold makeSessionInvalid. rewrite M_bind_eq, (update_ok q _ t) by done.
    rewrite M_bind_eq. unfold deref. cbn. rewrite lookup_insert_eq. done.
  - unfold with_calls. destruct w; cbn. by rewrite app_nil_r.
Qed.

Lemma kicked_lookup id p s w :
  heap w !! p = Some s ->
  exists v, kicked id (heap w) w !! p = Some (set_userid v s).
Proof.
  intros Hp. unfold kicked. destruct (holder id w) as [[q t]|] eqn:Hh.
  - apply holder_some in Hh as [Hq _]. destruct (decide (q = p)) as [->|Hne].
    + exists 0. rewrite lookup_insert_eq. congruence.
    + exists (userid s). rewrite lookup_insert_ne by done. rewrite Hp. by destruct s.
  - exists (userid s). rewrite Hp. by destruct s.
Qed.

(** C6: login, on every branch.  Text that the JSON parser rejects, or without string
    members [username] and [password], throws (and nothing catches it).
    A wrong password changes no user of any session and is answered with
    "incorrect password", yet the session counts as logged in from then on.  The right password makes the session
    that user's; if another session of the list has that user it is told, on its
    own connection, and loses it.  A name nobody has is user 0 with the empty
    password. *)
Theorem login_outcomes (p : Z) (data : bytes) (s : ChatSession) (w : World) :
  inv w -> heap w !! p = Some s -> srange 32 (m_seq s) ->
  (forall u, u ∈ UserManager.mkUser 0 [] [] :: users w ->
     zlen (login_ok (UserManager.userid u) (UserManager.username u)) < 2 ^ 31 - 24) ->
  match json_parse data with
  | Undef _ => False
  | Throw e => parse_failure e /\ onLoginResponse uninit p data w = Throw e
  | Ret j =>
      match Json.lookup (lit "username") j, Json.lookup (lit "password") j with
      | Some (Json.JString name), Some (Json.JString pwd) =>
          let u := user_named name w in
          let id := UserManager.userid u in
          exists w', onLoginResponse uninit p data w = Ret (tt, w') /\
            if decide (UserManager.password u = pwd) then
              let cs := kick_calls id (m_seq s) w in
              heap w' = <[p := set_isLogin true (set_username name (set_userid id s))]>
                          (kicked id (heap w) w) /\
              calls w' = calls w ++ cs ++
                [(tmpConn s, Send (framed (length (calls w) + length cs) Msg.msg_type_login (m_seq s)
                                     (login_ok id (UserManager.username u))))]
            else
              heap w' = <[p := set_isLogin true s]> (heap w) /\
              calls w' = calls w ++
                [(tmpConn s, Send (framed (length (calls w)) Msg.msg_type_login (m_seq s)
                                     incorrect_password))]
      | _, _ => onLoginResponse uninit p data w = Throw JsonTypeError
      end
  end.
Proof.
  intros Hinv Hp Hseq Hsize. pose proof (json_parse_cases data) as Hcases. unfold onLoginResponse.
  destruct (json_parse data) as [j|e|]; [|done|done]. cbn [lift bindM mbind outcome_bind].
  pose proof (Json.string_member_cases (lit "username") j) as Hn.
  pose proof (Json.string_member_cases (lit "password") j) as Hk.
  destruct (Json.lookup (lit "username") j) as [[]|]; rewrite Hn; try done.
  cbn [lift bindM mbind outcome_bind snd fst].
  destruct (Json.lookup (lit "password") j) as [[]|]; rewrite Hk; try done.
  cbn [lift bindM mbind outcome_bind snd fst get].
  rewrite UserManager.getUserInfoByUsername_spec.
  set (u := snd _). assert (u = user_named s0 w) as Hu
    by (unfold u, user_named; by destruct (List.find _ _)).
  rewrite <- Hu. clearbody u. clear Hn Hk.
  assert (u ∈ UserManager.mkUser 0 [] [] :: users w) as Hin.
  { rewrite Hu. unfold user_named. destruct (List.find _ _) as [v|] eqn:E;
      apply elem_of_cons; [right; apply list_elem_of_In; by apply List.find_some in E as [? _]|by left]. }
  destruct (decide (UserManager.password u = s1)) as [Hpw|Hpw].
  - rewrite bool_decide_true by done. cbn [negb].
    rewrite M_bind_eq, (kick_ok p _ s) by done. set (id := UserManager.userid u) in *.
    set (cs := kick_calls id (m_seq s) w).
    destruct (kicked_lookup id p s w Hp) as [v Hv].
    rewrite M_bind_eq, (update_ok p _ (set_userid v s)) by done.
    rewrite M_bind_eq, (update_ok p _ (set_userid id s)) by (cbn; by rewrite lookup_insert_eq).
    rewrite M_bind_eq, (field_ok p _ (set_username s0 (set_userid id s)))
      by (cbn; by rewrite lookup_insert_eq). cbn [ret].
    rewrite (field_ok p _ (set_username s0 (set_userid id s))) by (cbn; by rewrite lookup_insert_eq).
    rewrite (send_call p _ _ _ (set_username s0 (set_userid id s)));
      [|by apply (inv_alive w Hinv p s)|cbn; by rewrite lookup_insert_eq
       |unfold srange; vm_compute; done|done|by apply Hsize].
    rewrite (update_ok p _ (set_username s0 (set_userid id s))) by (cbn; by rewrite lookup_insert_eq).
    eexists. split; [reflexivity|]. cbn. rewrite !insert_insert_eq, length_app, <- app_assoc. done.
  - rewrite bool_decide_false by done. cbn [negb ret].
    rewrite (field_ok p _ s) by done.
    rewrite (send_call p _ _ _ s); [|by eapply inv_alive|done|unfold srange; vm_compute; done|done|].
    2:{ vm_compute. done. }
    rewrite (update_ok p _ s) by done. eexists. split; [reflexivity|]. done.
Qed.

(** ** Chat *)
Definition conn_of (w : World) (q : Z) : Z :=
  match heap w !! q with Some t => tmpConn t | None => 0 end.

Lemma broadcast_ok packet l : forall w,
  (forall q, q ∈ l -> exists t, heap w !! q = Some t /\ tmpConn t ∈ alive w) ->
  zlen packet < 2 ^ 31 ->
  for_each l (fun q => TcpSession.send_packet q packet) w =
  Ret (tt, with_calls (map (fun q => (conn_of w q, Send (Msg.header_of (zlen packet) ++ packet))) l) w).
Proof.
  intros w Hl Hlen. revert w Hl. induction l as [|q l IH]; intros w Hl.
  { destruct w; unfold with_calls; cbn. by rewrite app_nil_r. }
  destruct (Hl q) as (t & Ht & Ha); [apply list_elem_of_here|]. cbn [for_each].
  pose proof (zlen_nonneg packet).
  rewrite M_bind_eq. unfold TcpSession.send_packet at 1.
  rewrite swrap_small by (unfold srange; lia).
  rewrite (Framing.sendPackage_ok q packet t) by done. cbn [call_conn modify].
  rewrite IH by (intros r Hr; apply Hl, list_elem_of_further, Hr).
  unfold with_calls, conn_of. cbn. rewrite Ht, <- app_assoc. done.
Qed.

Definition url (w : World) : bytes :=
  MsgCacheManager.m_strRedisUrl (MsgCacheManager.manager (messages w)).
Definition store (w : World) : redis := MsgCacheManager.store (messages w).

(** The chat request on both answers of redis. *)
Lemma chat_cases `{laws : !RedisLaws rapi} (p : Z) (data : bytes) (s : ChatSession)
    (w : World) :
  inv w -> heap w !! p = Some s -> m_isLogin s = true -> srange 32 (m_seq s) ->
  zlen (chat_ok data) < 2 ^ 31 - 24 ->
  match redis_rpush_one (url w) MsgCacheManager.key data (store w) with
  | (None, _) => dispatch uninit p Msg.msg_type_chat data w = Undef VarArgs
  | (Some _, _) =>
      exists w', dispatch uninit p Msg.msg_type_chat data w = Ret (true, w') /\
        heap w' = heap w /\ server w' = server w /\ alive w' = alive w /\ users w' = users w /\
        url w' = url w /\
        redis_list (url w) MsgCacheManager.key (store w') =
          redis_list (url w) MsgCacheManager.key (store w) ++ [data] /\
        calls w' = calls w ++
          map (fun q => (conn_of w q,
                 Send (framed (length (calls w)) Msg.msg_type_chat (m_seq s) (chat_ok data))))
              (m_sessions (server w))
  end.
Proof.
  intros Hinv Hp Hl Hq Hsize. pose proof (zlen_nonneg (chat_ok data)).
  unfold dispatch. change (Msg.msg_type_chat =? Msg.msg_type_login) with false. cbv iota.
  rewrite M_bind_eq, (field_ok p m_isLogin s), Hl by done.
  change (Msg.msg_type_chat =? Msg.msg_type_getuserlist) with false.
  change (Msg.msg_type_chat =? Msg.msg_type_getMsgs) with false.
  change (Msg.msg_type_chat =? Msg.msg_type_chat) with true. cbv iota.
  rewrite M_bind_eq. unfold onChatResponse. rewrite M_bind_eq. cbn [get].
  rewrite M_bind_eq, (field_ok p m_seq s) by done. rewrite M_bind_eq.
  rewrite Framing.make_packet_ok by (done || lia || (unfold srange, Msg.msg_type_chat; lia)).
  cbn [lift mbind outcome_bind]. rewrite M_bind_eq. unfold on_messages, zoom.
  unfold MsgCacheManager.addChatMsgToRedis. rewrite M_bind_eq. cbn [get]. rewrite M_bind_eq.
  unfold MsgCacheManager.command. fold (url w) (store w).
  destruct (redis_rpush_one (url w) MsgCacheManager.key data (store w)) as [[n|] r'] eqn:E; [|done].
  cbn [fst snd ret mbind outcome_bind]. rewrite M_bind_eq.
  cbn [ChatServer.getSessions ChatServer.sessions gets server set_messages].
  pose proof (Framing.zlen_packet (uninit (length (calls w))) Msg.msg_type_chat (m_seq s)
    (chat_ok data) (uninit_size _) ltac:(lia)) as Hlen.
  rewrite broadcast_ok; [|cbn|lia].
  - eexists. split; [reflexivity|]. split_and!; try done.
    exact (redis_rpush_one_law _ _ _ _ _ _ E).
  - intros q Hin%(inv_heap w Hinv). destruct Hin as [t Ht]. exists t. split; [done|].
    by eapply inv_alive.
Qed.

(** C7: a chat message of a session that is logged in is appended to the
    history and reaches every session of the server, the sender included: one
    frame, the same bytes for all, is sent on each session's own connection, in
    the order of the list, and no session changes.  When redis refuses the
    message, a [std::string] is passed to [printf]. *)
Theorem chat_broadcast `{laws : !RedisLaws rapi} (p : Z) (data : bytes) (s : ChatSession)
    (w : World) :
  inv w -> heap w !! p = Some s -> m_isLogin s = true -> srange 32 (m_seq s) ->
  zlen (chat_ok data) < 2 ^ 31 - 24 ->
  match redis_rpush_one (url w) MsgCacheManager.key data (store w) with
  | (None, _) => dispatch uninit p Msg.msg_type_chat data w = Undef VarArgs
  | (Some _, _) =>
      exists w', dispatch uninit p Msg.msg_type_chat data w = Ret (true, w') /\
        heap w' = heap w /\ server w' = server w /\ alive w' = alive w /\ users w' = users w /\
        url w' = url w /\
        redis_list (url w) MsgCacheManager.key (store w') =
          redis_list (url w) MsgCacheManager.key (store w) ++ [data] /\
        calls w' = calls w ++
          map (fun q => (conn_of w q,
                 Send (framed (length (calls w)) Msg.msg_type_chat (m_seq s) (chat_ok data))))
              (m_sessions (server w))
  end.
Proof. apply chat_cases. Qed.

(** ** The history *)
Fixpoint parse_all (msgs : list bytes) : outcome (list Json.json) :=
  match msgs with
  | [] => Ret []
  | m :: msgs' => j ← json_parse m; js ← parse_all msgs'; Ret (j :: js)
  end.

(** All texts are read to well-formed values, or the first that is not throws. *)
Lemma parse_all_cases msgs :
  match parse_all msgs with
  | Ret js => Forall (fun j => Wf.wf j = true) js
  | Throw e => parse_failure e
  | Undef _ => False
  end.
Proof.
  induction msgs as [|m msgs IH]; [constructor|]. cbn [parse_all]. pose proof (json_parse_cases m) as Hm.
  destruct (json_parse m) as [j|e|]; [|exact Hm|destruct Hm]. cbn [mbind outcome_bind].
  destruct (parse_all msgs) as [js|e|]; [by constructor|exact IH|destruct IH].
Qed.

Lemma parse_all_app l k : parse_all (l ++ k) = js ← parse_all l; ks ← parse_all k; Ret (js ++ ks).
Proof.
  induction l as [|m l IH]; cbn [app parse_all].
  - by destruct (parse_all k).
  - destruct (json_parse m) as [j|e|]; cbn [mbind outcome_bind]; [|reflexivity..]. rewrite IH.
    destruct (parse_all l) as [js|e|]; cbn [mbind outcome_bind]; [|reflexivity..].
    by destruct (parse_all k).
Qed.

(** What the loop makes of the texts: an array, or [null] when there are none. *)
Definition array_of (js : list Json.json) : Json.json :=
  match js with [] => Json.JNull | _ => Json.JArray js end.

Lemma wf_array_of js : Forall (fun j => Wf.wf j = true) js -> Wf.wf (array_of js) = true.
Proof.
  intros H. destruct js as [|j js]; [done|]. cbn [array_of Wf.wf]. apply forallb_forall.
  intros x Hx%list_elem_of_In. by eapply Forall_forall in H.
Qed.

Lemma push_msgs_ok msgs l :
  push_msgs msgs (Json.JArray l) = js ← parse_all msgs; Ret (Json.JArray (l ++ js)).
Proof.
  revert l. induction msgs as [|m msgs IH]; intros l; cbn [push_msgs parse_all]; [by cbn; rewrite app_nil_r|].
  destruct (json_parse m) as [j|e|]; cbn [mbind outcome_bind]; [|reflexivity..].
  cbn [Json.push_back mbind outcome_bind]. rewrite IH.
  destruct (parse_all msgs); cbn [mbind outcome_bind]; [|reflexivity..]. by rewrite <- app_assoc.
Qed.

Lemma push_msgs_array msgs : push_msgs msgs Json.JNull = js ← parse_all msgs; Ret (array_of js).
Proof.
  destruct msgs as [|m msgs]; [done|]. cbn [push_msgs parse_all].
  destruct (json_parse m) as [j|e|]; cbn [mbind outcome_bind]; [|reflexivity..].
  cbn [Json.push_back mbind outcome_bind]. rewrite push_msgs_ok. by destruct (parse_all msgs).
Qed.

(** Reading the history while redis answers: all of it, in order. *)
Definition redis_reads (w : World) : Prop := forall r,
  is_Some (fst (redis_exists (url w) MsgCacheManager.key r)) /\
  snd (fst (redis_lrange (url w) MsgCacheManager.key 0 (-1) r)) = true.

Lemma load_ok_history `{laws : !RedisLaws rapi} w :
  redis_reads w ->
  exists m, on_messages MsgCacheManager.loadMsgsFromRedis w =
      Ret (redis_list (url w) MsgCacheManager.key (store w), set_messages m w) /\
    MsgCacheManager.manager m = MsgCacheManager.manager (messages w) /\
    redis_list (url w) MsgCacheManager.key (MsgCacheManager.store m) =
    redis_list (url w) MsgCacheManager.key (store w).
Proof.
  intros Hup. unfold on_messages, zoom, MsgCacheManager.loadMsgsFromRedis.
  rewrite M_bind_eq. cbn [get]. rewrite M_bind_eq. unfold MsgCacheManager.command at 1.
  fold (url w) (store w).
  destruct (redis_exists (url w) MsgCacheManager.key (store w)) as [e r1] eqn:E1.
  destruct (Hup (store w)) as [[b Hb] _]. rewrite E1 in Hb. cbn in Hb. subst e.
  cbn [fst snd]. destruct (redis_exists_law _ _ _ _ _ E1) as [Hb Hr1]. destruct b.
  - rewrite M_bind_eq. unfold MsgCacheManager.command. cbn [MsgCacheManager.store].
    destruct (redis_lrange (url w) MsgCacheManager.key 0 (-1) r1) as [[l ok] r2] eqn:E2.
    destruct (Hup r1) as [_ Hl]. rewrite E2 in Hl. cbn in Hl. subst ok.
    destruct (redis_lrange_law _ _ _ _ _ E2) as [-> Hr2].
    rewrite <- Hr1. eexists. split; [reflexivity|]. split; [reflexivity|exact Hr2].
  - symmetry in Hb. apply negb_false_iff, bool_decide_eq_true in Hb.
    eexists. split; [rewrite Hb; reflexivity|]. split; [reflexivity|]. by rewrite <- Hb.
Qed.

(** The request for the history on every branch. *)
Lemma getMsgs_cases `{laws : !RedisLaws rapi} (p : Z) (data : bytes) (s : ChatSession) (w : World) :
  inv w -> heap w !! p = Some s -> m_isLogin s = true -> srange 32 (m_seq s) -> redis_reads w ->
  let texts := redis_list (url w) MsgCacheManager.key (store w) in
  match parse_all texts with
  | Undef _ => False
  | Throw e => parse_failure e /\ dispatch uninit p Msg.msg_type_getMsgs data w = Throw e
  | Ret js =>
      let d := compact (array_of js) in
      zlen (msgs_ok d) < 2 ^ 31 - 24 ->
      json_parse d = Ret (array_of js) /\
      exists m, dispatch uninit p Msg.msg_type_getMsgs data w =
        Ret (true, with_calls [(tmpConn s, Send (framed (length (calls w)) Msg.msg_type_getMsgs
                                 (m_seq s) (msgs_ok d)))] (set_messages m w)) /\
        redis_list (url w) MsgCacheManager.key (MsgCacheManager.store m) = texts
  end.
Proof.
  intros Hinv Hp Hl Hq Hup texts. unfold dispatch.
  change (Msg.msg_type_getMsgs =? Msg.msg_type_login) with false. cbv iota.
  rewrite M_bind_eq, (field_ok p m_isLogin s), Hl by done.
  change (Msg.msg_type_getMsgs =? Msg.msg_type_getuserlist) with false.
  change (Msg.msg_type_getMsgs =? Msg.msg_type_getMsgs) with true. cbv iota.
  rewrite M_bind_eq. unfold onGetMsgsResponse. rewrite M_bind_eq.
  destruct (load_ok_history w Hup) as (m & -> & Hm & Hlist). fold texts. fold texts in Hlist.
  rewrite M_bind_eq, push_msgs_array. pose proof (parse_all_cases texts) as Hcases.
  destruct (parse_all texts) as [js|e|]; [|done|done]. cbn [lift mbind outcome_bind].
  pose proof (wf_array_of js Hcases) as Hwf. rewrite M_bind_eq, (json_dump_wf _ Hwf).
  intros Hd. split; [by apply json_parse_compact|]. cbn [lift mbind outcome_bind].
  rewrite M_bind_eq, (field_ok p m_seq s) by done.
  rewrite (send_call p _ _ _ s); [|by eapply (inv_alive w)|done|unfold srange; vm_compute; done|done|done].
  exists m. done.
Qed.


(** ** The user list *)
Definition json_user (u : UserManager.User) : Json.json :=
  Json.JObject [(lit "userid", Json.JInt (UserManager.userid u));
                (lit "username", Json.JString (UserManager.username u))].

Lemma json_of_user_ok u : json_of_user u = Ret (json_user u).
Proof. reflexivity. Qed.

Lemma push_users_ok us l : push_users us (Json.JArray l) = Ret (Json.JArray (l ++ map json_user us)).
Proof.
  revert l. induction us as [|u us IH]; intros l; [by rewrite app_nil_r|].
  cbn [push_users]. rewrite json_of_user_ok. cbn [mbind outcome_bind Json.push_back].
  rewrite IH, <- app_assoc. done.
Qed.

Lemma makeUpUserListInfo_eq us : makeUpUserListInfo us = json_dump (array_of (map json_user us)).
Proof.
  unfold makeUpUserListInfo. destruct us as [|u us]; [reflexivity|]. cbn [push_users].
  rewrite json_of_user_ok. cbn [mbind outcome_bind Json.push_back]. by rewrite push_users_ok.
Qed.

Lemma typed_users us :
  Forall (fun u => srange 32 (UserManager.userid u)) us -> Printing.typed (array_of (map json_user us)) = true.
Proof.
  intros H. assert (Hl : forallb Printing.typed (map json_user us) = true).
  { induction H as [|u us Hu _ IH]; [done|]. cbn. rewrite IH. unfold srange in Hu. cbn in Hu. lia. }
  by destruct us.
Qed.

Lemma ordered_users us : Printing.ordered (array_of (map json_user us)) = true.
Proof.
  assert (Hl : forallb Printing.ordered (map json_user us) = true) by (induction us; [done|by cbn]).
  by destruct us.
Qed.

(** C37: the user list: a logged-in session gets, in one response on its own
    connection, a text that the JSON parser reads as the array of all users the
    server cached, in order, each with its id and name and never a password
    ([null] when there are none); when a name is not UTF-8, the request throws. *)
Theorem userlist_response (p : Z) (data : bytes) (s : ChatSession) (w : World) :
  inv w -> heap w !! p = Some s -> m_isLogin s = true -> srange 32 (m_seq s) ->
  Forall (fun u => srange 32 (UserManager.userid u)) (users w) ->
  let list := array_of (map json_user (users w)) in
  if Printing.utf8 list then
    zlen (userlist_ok (compact list)) < 2 ^ 31 - 24 ->
    json_parse (compact list) = Ret list /\
    dispatch uninit p Msg.msg_type_getuserlist data w =
    Ret (true, with_calls [(tmpConn s, Send (framed (length (calls w)) Msg.msg_type_getuserlist
                              (m_seq s) (userlist_ok (compact list))))] w)
  else dispatch uninit p Msg.msg_type_getuserlist data w = Throw JsonTypeError.
Proof.
  intros Hinv Hp Hl Hq Hids list.
  assert (E : forall r, json_dump list = r -> dispatch uninit p Msg.msg_type_getuserlist data w =
    bindM (lift r) (fun userlist => do! (let! seq := field p m_seq in
      TcpSession.send uninit p Msg.msg_type_getuserlist seq (userlist_ok userlist)) in ret true) w).
  { intros r Hr. unfold dispatch. change (Msg.msg_type_getuserlist =? Msg.msg_type_login) with false. cbv iota.
    rewrite M_bind_eq, (field_ok p m_isLogin s), Hl by done.
    change (Msg.msg_type_getuserlist =? Msg.msg_type_getuserlist) with true. cbv iota.
    rewrite M_bind_eq. unfold onGetUserListResponse. rewrite M_bind_eq. cbn [get].
    unfold UserManager.getUserListInfo. rewrite makeUpUserListInfo_eq. fold list. rewrite Hr, !M_bind_eq.
    destruct r; [|reflexivity..]. reflexivity. }
  rewrite (E _ (json_dump_cases list (typed_users _ Hids))). clear E.
  destruct (Printing.utf8 list) eqn:Hu; [|reflexivity]. intros Hsize.
  assert (Hwf : Wf.wf list = true)
    by (rewrite Printing.wf_split, Hu; unfold list; by rewrite typed_users, ordered_users).
  split; [by apply json_parse_compact|]. cbn [lift bindM mbind outcome_bind].
  rewrite (field_ok p m_seq s) by done.
  by rewrite (send_call p _ _ _ s) by
    (done || by eapply inv_alive || (unfold srange, Msg.msg_type_getuserlist; lia)).
Qed.

End Api.
(** *** Witnesses *)
Import Demo.

Lemma login_gate_witness :
  dispatch uninit 2 1004 [] Demo.world =
  Ret (true, with_calls [(12, Send (framed uninit 0 1004 0 not_login))] Demo.world).
Proof.
  apply (login_gate uninit uninit_ok 2 1004 [] (session 12 2 false) Demo.world demo_inv);
    [reflexivity|reflexivity|done|unfold srange; lia|unfold srange; cbn; lia].
Defined.

(** Session 2 logs in as alice, and session 1 loses her. *)
Lemma login_outcomes_witness :
  exists w', onLoginResponse uninit 2 (print (credentials (lit "alice") (lit "pw"))) Demo.world
      = Ret (tt, w') /\
    heap w' = <[2 := set_isLogin true (set_username (lit "alice") (set_userid 1 (session 12 2 false)))]>
                (kicked 1 (heap Demo.world) Demo.world) /\
    calls w' = [] ++ kick_calls uninit 1 0 Demo.world ++
      [(12, Send (framed uninit (0 + 1) 1002 0 (login_ok 1 (lit "alice"))))].
Proof.
  refine (login_outcomes uninit uninit_ok 2 (print (credentials (lit "alice") (lit "pw")))
    (session 12 2 false) Demo.world demo_inv _ _ _).
  - reflexivity.
  - unfold srange; cbn; lia.
  - intros u [->|[->|[]%elem_of_nil]%elem_of_cons]%elem_of_cons; vm_compute; done.
Defined.

Definition greeting : Json.json := Json.JObject [(lit "text", Json.JString (lit "hi"))].
Definition hi : bytes := print greeting.

Lemma chat_broadcast_witness :
  exists w', dispatch uninit 1 Msg.msg_type_chat hi Demo.world = Ret (true, w') /\
    heap w' = heap Demo.world /\ server w' = server Demo.world /\ alive w' = alive Demo.world /\
    users w' = users Demo.world /\ url w' = url Demo.world /\
    redis_list (url Demo.world) MsgCacheManager.key (store w') =
      redis_list (url Demo.world) MsgCacheManager.key (store Demo.world) ++ [hi] /\
    calls w' = calls Demo.world ++
      map (fun q => (conn_of Demo.world q, Send (framed uninit 0 Msg.msg_type_chat 0 (chat_ok hi))))
        (m_sessions (server Demo.world)).
Proof.
  apply (chat_broadcast uninit uninit_ok 1 hi (session 11 1 true) Demo.world demo_inv);
    [reflexivity|reflexivity|unfold srange; cbn; lia|vm_compute; done].
Defined.

(** Two sessions that are logged in, and the state after one of them spoke. *)
Definition world2 : World :=
  mkWorld {[1 := session 11 1 true; 2 := session 12 2 true]} 3 (mkServer [1; 2] 2 false)
    {[11; 12]} [alice] (messages true [print (Json.JInt 7)]) [].
Definition spoke (data : bytes) : World :=
  match dispatch uninit 1 Msg.msg_type_chat data world2 with Ret (_, w) => w | _ => world2 end.

Lemma world2_inv : inv world2.
Proof.
  pose proof demo_inv as [Hnd Hh Hnx Hcs Hal Hus].
  assert (forall p s, heap world2 !! p = Some s ->
    (p = 1 /\ s = session 11 1 true) \/ (p = 2 /\ s = session 12 2 true)) as Hw.
  { intros p s. unfold world2. cbn [heap].
    intros [[<- <-]|[_ [<- <-]%lookup_singleton_Some]]%lookup_insert_Some; auto. }
  split.
  - exact Hnd.
  - intros p. split.
    + intros [->|[->|[]%elem_of_nil]%elem_of_cons]%elem_of_cons; vm_compute; eauto.
    + intros [s [[-> _]|[-> _]]%Hw]; cbn; set_solver.
  - intros p [s [[-> _]|[-> _]]%Hw]; done.
  - intros p q s t [[-> ->]|[-> ->]]%Hw [[-> ->]|[-> ->]]%Hw; done.
  - intros p s [[-> ->]|[-> ->]]%Hw; cbn; set_solver.
  - intros p q s t [[-> ->]|[-> ->]]%Hw [[-> ->]|[-> ->]]%Hw; done.
Qed.


Lemma userlist_response_witness :
  json_parse (compact (Json.JArray [json_user alice])) = Ret (Json.JArray [json_user alice]) /\
  dispatch uninit 1 Msg.msg_type_getuserlist [] Demo.world =
  Ret (true, with_calls [(11, Send (framed uninit 0 Msg.msg_type_getuserlist 0
    (userlist_ok (compact (Json.JArray [json_user alice])))))] Demo.world).
Proof.
  refine (userlist_response uninit uninit_ok 1 [] (session 11 1 true) Demo.world demo_inv
    eq_refl eq_refl _ _ _); [unfold srange; cbn; lia|constructor; [unfold srange; cbn; lia|done]|vm_compute; done].
Defined.

(** A wrong password is answered with an error, and yet the next command of that
    session is served; so is one after a login as a name nobody has. *)
Definition after_login (name pwd : bytes) : World :=
  match onLoginResponse uninit 2 (print (credentials name pwd)) Demo.world with
  | Ret (_, w) => w
  | _ => Demo.world
  end.
Example login_bypass :
  (exists w, dispatch uninit 2 Msg.msg_type_getMsgs [] (after_login (lit "alice") (lit "no"))
    = Ret (true, w) /\ last (calls w) = Some (12, Send (framed uninit 1 Msg.msg_type_getMsgs 0
        (msgs_ok (lit "[7]"))))) /\
  (exists w, dispatch uninit 2 Msg.msg_type_getMsgs [] (after_login (lit "mallory") [])
    = Ret (true, w) /\ last (calls w) = Some (12, Send (framed uninit 2 Msg.msg_type_getMsgs 0
        (msgs_ok (lit "[7]"))))).
Proof. vm_compute. split; eexists; split; reflexivity. Qed.

End Requests.
