(* ===== verification/Loops.v ===== *)
(** * Event loops

    [EventLoop] is net/EventLoop.*: the loop of one thread as a state machine
    that interleaves with other threads.  A callback (a timer, a channel, a
    functor) is arbitrary code; what it asks of its loop while it runs is the
    list of [action]s the schedule gives it.  [EventLoopThreadPool] is
    net/EventLoopThreadPool.*. *)
From S2P Require Import Prelude Protocol.

Module EventLoop.

Definition kPollTimeMs : Z := 1.

Section Functors.
(** A functor is known by its identity. *)
Context {Functor : Type}.

Record EventLoop : Type := mkLoop {
  m_looping : bool;
  m_quit : bool;
  m_eventHandling : bool;
  m_doingOtherTasks : bool;
  m_iteration : Z;
  m_activeChannels : list Z;
  currentActiveChannel_ : option Z;
  m_pendingFunctors : list Functor;
  m_frameFunctor : option Functor;
  m_wakeupFd : Z                      (* the counter of the eventfd *)
}.

(** The constructor, on a thread without a loop. *)
Definition make : EventLoop := mkLoop false false false false 0 [] None [] None 0.

(** [fd] is what [eventfd] answers; without a descriptor, and on a thread that has a
    loop ([t_loopInThisThread], afterwards [self]), the record of the log is fatal. *)
Definition createWakeupfd (fd : Z) : outcome bool := if fd <? 0 then Undef NullPointer else Ret true.
Definition construct (self fd : Z) (t_loopInThisThread : option Z) : outcome (EventLoop * option Z) :=
  _ ← createWakeupfd fd;
  match t_loopInThisThread with Some _ => Undef NullPointer | None => Ret (make, Some self) end.
(** [t_loopInThisThread] after [~EventLoop()], which closes the descriptor. *)
Definition destroy (inLoop : bool) : outcome (option Z) := if inLoop then Ret None else Undef NullPointer.

Definition set_quit (b : bool) (l : EventLoop) : EventLoop :=
  mkLoop (m_looping l) b (m_eventHandling l) (m_doingOtherTasks l) (m_iteration l)
    (m_activeChannels l) (currentActiveChannel_ l) (m_pendingFunctors l) (m_frameFunctor l)
    (m_wakeupFd l).
Definition set_looping (b : bool) (l : EventLoop) : EventLoop :=
  mkLoop b (m_quit l) (m_eventHandling l) (m_doingOtherTasks l) (m_iteration l)
    (m_activeChannels l) (currentActiveChannel_ l) (m_pendingFunctors l) (m_frameFunctor l)
    (m_wakeupFd l).
Definition set_handling (b : bool) (cur : option Z) (l : EventLoop) : EventLoop :=
  mkLoop (m_looping l) (m_quit l) b (m_doingOtherTasks l) (m_iteration l)
    (m_activeChannels l) cur (m_pendingFunctors l) (m_frameFunctor l) (m_wakeupFd l).
Definition set_polled (active : list Z) (l : EventLoop) : EventLoop :=
  mkLoop (m_looping l) (m_quit l) true (m_doingOtherTasks l) (m_iteration l + 1)
    active (currentActiveChannel_ l) (m_pendingFunctors l) (m_frameFunctor l) (m_wakeupFd l).
Definition set_tasks (doing : bool) (pending : list Functor) (l : EventLoop) : EventLoop :=
  mkLoop (m_looping l) (m_quit l) (m_eventHandling l) doing (m_iteration l)
    (m_activeChannels l) (currentActiveChannel_ l) pending (m_frameFunctor l) (m_wakeupFd l).
Definition set_wakeupFd (n : Z) (l : EventLoop) : EventLoop :=
  mkLoop (m_looping l) (m_quit l) (m_eventHandling l) (m_doingOtherTasks l) (m_iteration l)
    (m_activeChannels l) (currentActiveChannel_ l) (m_pendingFunctors l) (m_frameFunctor l) n.
Definition setFrameFunctor (f : option Functor) (l : EventLoop) : EventLoop :=
  mkLoop (m_looping l) (m_quit l) (m_eventHandling l) (m_doingOtherTasks l) (m_iteration l)
    (m_activeChannels l) (currentActiveChannel_ l) (m_pendingFunctors l) f (m_wakeupFd l).

(** An eventfd holds at most [2^64 - 2]; a non-blocking write past it fails.
    Reading takes the counter, and fails when it is 0. *)
Definition wakeup (l : EventLoop) : bool * EventLoop :=
  if m_wakeupFd l + 1 <=? 2 ^ 64 - 2 then (true, set_wakeupFd (m_wakeupFd l + 1) l) else (false, l).
Definition handleRead (l : EventLoop) : bool * EventLoop :=
  if m_wakeupFd l =? 0 then (false, l) else (true, set_wakeupFd 0 l).

(** [inLoop] is [isInLoopThread()]. *)
Definition quit (inLoop : bool) (l : EventLoop) : EventLoop :=
  let l1 := set_quit true l in if inLoop then l1 else snd (wakeup l1).

Definition queueInLoop (inLoop : bool) (cb : Functor) (l : EventLoop) : EventLoop :=
  let l1 := set_tasks (m_doingOtherTasks l) (m_pendingFunctors l ++ [cb]) l in
  if negb inLoop || m_doingOtherTasks l then snd (wakeup l1) else l1.

(** [Some cb]: the functor runs at once, in the caller. *)
Definition runInLoop (inLoop : bool) (cb : Functor) (l : EventLoop)
    : option Functor * EventLoop :=
  if inLoop then (Some cb, l) else (None, queueInLoop inLoop cb l).

(** What code asks of a loop; [ASetFrame] and [ARead] (the callback of the wakeup
    channel) belong to the loop's own thread. *)
Inductive action : Type :=
| AQueue (cb : Functor)
| ARun (cb : Functor)
| AQuit
| ASetFrame (cb : option Functor)
| ARead.

Definition act (inLoop : bool) (l : EventLoop) (a : action) : EventLoop :=
  match a with
  | AQueue cb => queueInLoop inLoop cb l
  | ARun cb => snd (runInLoop inLoop cb l)
  | AQuit => quit inLoop l
  | ASetFrame cb => setFrameFunctor cb l
  | ARead => snd (handleRead l)
  end.
Definition acts (inLoop : bool) (l : EventLoop) (als : list action) : EventLoop :=
  foldl (act inLoop) l als.

(** Where the thread of the loop is in [loop()]. *)
Inductive point : Type :=
| AtTop                              (* while (!m_quit) *)
| AtPoll
| AtChannels (rest : list Z)
| AtSwap
| AtFunctors (rest : list Functor)
| AtFrame
| Stopped.

(** [executed] is what [doOtherTasks] has called, [queued] what was ever pushed
    to [m_pendingFunctors]. *)
Record State : Type := mkState {
  loop : EventLoop;
  at_ : point;
  executed : list Functor;
  queued : list Functor
}.

(** The functors an action pushes. *)
Definition pushed (inLoop : bool) (a : action) : list Functor :=
  match a with
  | AQueue cb => [cb]
  | ARun cb => if inLoop then [] else [cb]
  | _ => []
  end.

Definition goto (l : EventLoop) (p : point) (ran : list Functor) (als : list action) (s : State)
    : State :=
  mkState (acts true l als) p (executed s ++ ran) (queued s ++ concat (map (pushed true) als)).

(** One step of the loop's thread: [als] is what the callbacks it runs ask for,
    [active] what [poll] answers. *)
Definition loop_step (als : list action) (active : list Z) (s : State) : State :=
  let l := loop s in
  match at_ s with
  | AtTop =>
      if m_quit l then goto (set_looping false l) Stopped [] [] s
      else goto l AtPoll [] als s                                   (* doTimer *)
  | AtPoll => goto (set_polled active l) (AtChannels active) [] [] s
  | AtChannels [] => goto (set_handling false None l) AtSwap [] [] s
  | AtChannels (c :: rest) =>
      goto (set_handling true (Some c) l) (AtChannels rest) [] als s (* handleEvent *)
  | AtSwap => goto (set_tasks true [] l) (AtFunctors (m_pendingFunctors l)) [] [] s
  | AtFunctors [] =>
      goto (set_tasks false (m_pendingFunctors l) l) AtFrame [] [] s
  | AtFunctors (f :: rest) => goto l (AtFunctors rest) [f] als s
  | AtFrame =>
      goto l AtTop [] (match m_frameFunctor l with Some _ => als | None => [] end) s
  | Stopped => s
  end.

(** A step of the schedule: the loop's thread moves, or another thread calls the
    loop. *)
Inductive event : Type :=
| LoopStep (als : list action) (active : list Z)
| Other (a : action).

Definition step (s : State) (e : event) : State :=
  match e with
  | LoopStep als active => loop_step als active s
  | Other a =>
      mkState (act false (loop s) a) (at_ s) (executed s) (queued s ++ pushed false a)
  end.
Definition run (es : list event) (s : State) : State := foldl step s es.

(** [loop()] is entered. *)
Definition enter (l : EventLoop) : State :=
  mkState (set_quit false (set_looping true l)) AtTop [] (m_pendingFunctors l).

Definition batch (p : point) : list Functor :=
  match p with AtFunctors rest => rest | _ => [] end.

(** ** Facts *)
Lemma act_pending inLoop l a :
  m_pendingFunctors (act inLoop l a) = m_pendingFunctors l ++ pushed inLoop a.
Proof.
  destruct a as [cb|cb| |cb|]; cbn; rewrite ?app_nil_r; try done.
  - unfold queueInLoop, wakeup. by repeat case_match.
  - unfold runInLoop. destruct inLoop; cbn; [by rewrite app_nil_r|].
    unfold queueInLoop, wakeup. by repeat case_match.
  - unfold quit, wakeup. by repeat case_match.
  - unfold handleRead. by case_match.
Qed.

Lemma acts_pending inLoop als l :
  m_pendingFunctors (acts inLoop l als) =
  m_pendingFunctors l ++ concat (map (pushed inLoop) als).
Proof.
  unfold acts. revert l. induction als as [|a als IH]; intros l; cbn; [by rewrite app_nil_r|].
  by rewrite IH, act_pending, <- app_assoc.
Qed.

(** What is outstanding, in the order it will run. *)
Definition ledger (s : State) : list Functor :=
  executed s ++ batch (at_ s) ++ m_pendingFunctors (loop s).

Lemma goto_ledger l p ran als s :
  executed s ++ batch (at_ s) ++ m_pendingFunctors (loop s) =
    (executed s ++ ran) ++ batch p ++ m_pendingFunctors l ->
  ledger (goto l p ran als s) = ledger s ++ concat (map (pushed true) als).
Proof.
  intros E. unfold ledger, goto. cbn [executed at_ loop]. by rewrite acts_pending, E, <- !app_assoc.
Qed.

Lemma step_ledger s e :
  exists new, ledger (step s e) = ledger s ++ new /\ queued (step s e) = queued s ++ new.
Proof.
  destruct e as [als active|a]; cbn [step]; cycle 1.
  { exists (pushed false a). unfold ledger. cbn. by rewrite act_pending, <- !app_assoc. }
  assert (forall l p ran als', executed s ++ batch (at_ s) ++ m_pendingFunctors (loop s) =
      (executed s ++ ran) ++ batch p ++ m_pendingFunctors l ->
    exists new, ledger (goto l p ran als' s) = ledger s ++ new /\
      queued (goto l p ran als' s) = queued s ++ new) as Hgo.
  { intros l p ran als' E. eexists. split; [by apply goto_ledger|done]. }
  unfold loop_step. destruct (at_ s) as [| |[|c rest]| |[|f rest]| |] eqn:Ha; cbn [batch] in Hgo.
  8:{ apply Hgo. cbn. by rewrite app_nil_r. }
  8:{ exists []. by rewrite !app_nil_r. }
  1: destruct (m_quit (loop s)).
  all: apply Hgo; cbn; rewrite ?app_nil_r; try done.
  by rewrite <- app_assoc.
Qed.

Lemma run_ledger es s :
  exists new, ledger (run es s) = ledger s ++ new /\ queued (run es s) = queued s ++ new.
Proof.
  unfold run. revert s. induction es as [|e es IH]; intros s; [exists []; by rewrite !app_nil_r|].
  cbn. destruct (step_ledger s e) as (n1 & E1 & Q1), (IH (step s e)) as (n2 & E2 & Q2).
  exists (n1 ++ n2). by rewrite E2, E1, Q2, Q1, !app_assoc.
Qed.

(** C21: tasks of a loop run in the order they were queued, each once, and none
    is lost: under every interleaving of the loop's thread with other threads,
    whatever callbacks do, everything ever pushed is exactly what has run,
    followed by the rest of the batch being run, followed by what is pending. *)
Theorem tasks_fifo (l : EventLoop) (es : list event) :
  let s := run es (enter l) in
  queued s = executed s ++ batch (at_ s) ++ m_pendingFunctors (loop s).
Proof.
  cbn zeta. destruct (run_ledger es (enter l)) as (new & E & Q).
  change (queued (run es (enter l)) = ledger (run es (enter l))). rewrite E, Q. done.
Qed.

(** Not later than the swap of the next iteration. *)
Definition before_swap (i : Z) (s : State) : Prop :=
  m_iteration (loop s) = i \/
  (m_iteration (loop s) = i + 1 /\
   match at_ s with AtChannels _ | AtSwap => True | _ => False end).

Lemma act_iteration inLoop l a : m_iteration (act inLoop l a) = m_iteration l.
Proof.
  destruct a; cbn; unfold queueInLoop, runInLoop, quit, wakeup, handleRead;
    try done; repeat case_match; try done; cbn; unfold queueInLoop, wakeup; by repeat case_match.
Qed.
Lemma acts_iteration inLoop l als : m_iteration (acts inLoop l als) = m_iteration l.
Proof.
  unfold acts. revert l. induction als as [|a als IH]; intros l; [done|].
  cbn. by rewrite IH, act_iteration.
Qed.

(** [k] will have run once the batch is done, if the swap has been passed. *)
Definition promised (i : Z) (k : list Functor) (s : State) : Prop :=
  i <= m_iteration (loop s) /\ k `prefix_of` ledger s /\
  (before_swap i s /\ (m_iteration (loop s) = i -> at_ s = AtTop \/ at_ s = AtPoll \/ at_ s = Stopped)
   \/ k `prefix_of` executed s ++ batch (at_ s)).

Lemma prefix_extend (k l m : list Functor) : k `prefix_of` l -> k `prefix_of` l ++ m.
Proof. intros [x ->]. exists (x ++ m). by rewrite app_assoc. Qed.

Lemma promised_step i k s e : promised i k s -> promised i k (step s e).
Proof.
  intros (Hi & Hk & Hor). destruct (step_ledger s e) as (new & E & _).
  assert (k `prefix_of` ledger (step s e)) as Hk' by (rewrite E; by apply prefix_extend).
  assert (i <= m_iteration (loop (step s e))) as Hi'.
  { destruct e as [als active|a]; cbn; [|by rewrite act_iteration].
    unfold loop_step, goto. repeat case_match; cbn; rewrite ?acts_iteration; cbn; lia. }
  split_and!; [done..|].
  destruct e as [als active|a]; cbn [step] in *.
  2:{ destruct Hor as [[Hb Ht]|?]; [left|by right]. unfold before_swap in *. cbn.
      rewrite act_iteration. done. }
  unfold before_swap in *. unfold loop_step, goto in *.
  destruct (at_ s) as [| |[|c rest]| |[|f rest]| |] eqn:Ha; cbn [batch at_ loop executed] in *.
  - destruct (m_quit (loop s)); cbn [at_ loop executed batch]; rewrite ?acts_iteration; cbn; rewrite app_nil_r;
      (destruct Hor as [[Hb Ht]|?]; [left; split; [|auto]; destruct Hb as [?|[? []]]; auto|by right]).
  - rewrite acts_iteration. cbn. rewrite app_nil_r.
    destruct Hor as [[[?|[? []]] Ht]|?]; [left|by right]. split; [right; split; [lia|done]|lia].
  - rewrite acts_iteration. cbn. rewrite app_nil_r.
    destruct Hor as [[[?|[? ?]] Ht]|?]; [|left; split; [by right|lia]|by right].
    destruct (Ht ltac:(done)) as [?|[?|?]]; done.
  - rewrite acts_iteration. cbn. rewrite app_nil_r.
    destruct Hor as [[[?|[? ?]] Ht]|?]; [|left; split; [by right|lia]|by right].
    destruct (Ht ltac:(done)) as [?|[?|?]]; done.
  - right. unfold ledger in Hk. rewrite Ha in Hk. cbn [batch app] in Hk. by rewrite app_nil_r.
  - rewrite app_nil_r. destruct Hor as [[[?|[? []]] Ht]|?]; [|by right].
    destruct (Ht ltac:(done)) as [?|[?|?]]; done.
  - destruct Hor as [[[?|[? []]] Ht]|Hp]; [|right; by rewrite <- app_assoc].
    destruct (Ht ltac:(done)) as [?|[?|?]]; done.
  - rewrite app_nil_r. destruct Hor as [[[?|[? []]] Ht]|?]; [|by right].
    destruct (Ht ltac:(done)) as [?|[?|?]]; done.
  - rewrite Ha. destruct Hor as [[[?|[? []]] Ht]|?]; [left; split; [by left|auto]|by right].
Qed.

(** C29: a queued task runs within one iteration: whatever was pending when the
    loop was at the top has run, in order, by the time the loop is at the top of
    a later iteration. *)
Theorem tasks_served (s : State) (es : list event) :
  at_ s = AtTop -> at_ (run es s) = AtTop ->
  m_iteration (loop s) < m_iteration (loop (run es s)) ->
  (executed s ++ m_pendingFunctors (loop s)) `prefix_of` executed (run es s).
Proof.
  intros Htop Htop' Hlt. set (k := executed s ++ m_pendingFunctors (loop s)).
  assert (promised (m_iteration (loop s)) k (run es s)) as (_ & _ & Hor).
  { assert (promised (m_iteration (loop s)) k s) as Hs.
    { split_and!; [done| |].
      - unfold ledger. rewrite Htop. done.
      - left. split; [by left|auto]. }
    clear Htop Htop' Hlt. revert Hs. generalize (m_iteration (loop s)) k. clear k.
    unfold run. revert s. induction es as [|e es IH]; intros s i k Hs; [done|].
    cbn. by apply IH, promised_step. }
  destruct Hor as [[[?|[_ H]] _]|H]; [lia|by rewrite Htop' in H|].
  rewrite Htop' in H. cbn in H. by rewrite app_nil_r in H.
Qed.

End Functors.

Arguments EventLoop : clear implicits.
Arguments State : clear implicits.
Arguments action : clear implicits.
Arguments event : clear implicits.

(** A schedule: another thread queues 1 and 2, a channel's callback queues 3, task
    1 queues 4, and the loop is at the top again. *)
Definition schedule : list (event Z) :=
  [Other (AQueue 1); LoopStep [] []; Other (AQueue 2); LoopStep [] [9];
   LoopStep [ARead; AQueue 3] []; LoopStep [] []; LoopStep [] []; LoopStep [AQueue 4] [];
   LoopStep [] []; LoopStep [] []; LoopStep [] []; LoopStep [] []].
Example schedule_runs :
  executed (run schedule (enter make)) = [1; 2; 3] /\
  m_pendingFunctors (loop (run schedule (enter make))) = [4] /\
  m_wakeupFd (loop (run schedule (enter make))) = 1.
Proof. vm_compute. done. Qed.

Lemma tasks_served_witness :
  [5] `prefix_of` executed (run (drop 1 schedule) (enter (queueInLoop false 5 make))).
Proof. apply (tasks_served (enter (queueInLoop false 5 make)) (drop 1 schedule)); vm_compute; done. Defined.

End EventLoop.

(** ** The pool of loops *)
Module EventLoopThreadPool.

(** Loops are known by their address; 0 threads leave everything to the base
    loop.  [m_threads], the owners of the threads, has one entry per loop. *)
Record EventLoopThreadPool : Type := mkPool {
  m_baseLoop : option Z;
  m_started : bool;
  m_numThreads : Z;
  m_next : Z;
  m_loops : list Z
}.
Definition make : EventLoopThreadPool := mkPool None false 0 0 [].
Definition init (baseLoop : option Z) (numThreads : Z) (t : EventLoopThreadPool)
    : EventLoopThreadPool :=
  mkPool baseLoop (m_started t) numThreads (m_next t) (m_loops t).

(** [newLoop i] is what [startLoop] of the [i]-th thread returns; [cb] says
    whether a callback was given.  The result is the loops it is called with: a
    thread calls it on its own loop. *)
Fixpoint start_threads (n : nat) (i : nat) (newLoop : nat -> Z) : list Z :=
  match n with O => [] | S n' => newLoop i :: start_threads n' (S i) newLoop end.
Definition start (newLoop : nat -> Z) (cb : bool) (t : EventLoopThreadPool)
    : list Z * EventLoopThreadPool :=
  match m_baseLoop t with
  | None => ([], t)
  | Some base =>
      if m_started t then ([], t)
      else
        let fresh := start_threads (Z.to_nat (m_numThreads t)) 0 newLoop in
        (if cb then if m_numThreads t =? 0 then [base] else fresh else [],
         mkPool (Some base) true (m_numThreads t) (m_next t) (m_loops t ++ fresh))
  end.

(** [m_loops[i]] with an [int] or [size_t] index. *)
Definition at_index (i : Z) (l : list Z) : outcome Z :=
  if i <? 0 then Undef OutOfBounds
  else match l !! Z.to_nat i with Some x => Ret x | None => Undef OutOfBounds end.

Definition base (t : EventLoopThreadPool) : outcome Z :=
  match m_baseLoop t with Some b => Ret b | None => Undef NullPointer end.

(** A null loop is [None]. *)
Definition getNextLoop (t : EventLoopThreadPool) : outcome (option Z * EventLoopThreadPool) :=
  b ← base t;
  if negb (m_started t) then Ret (None, t)
  else
    match m_loops t with
    | [] => Ret (Some b, t)
    | _ =>
        loop ← at_index (m_next t) (m_loops t);
        let next := m_next t + 1 in
        Ret (Some loop, mkPool (m_baseLoop t) true (m_numThreads t)
               (if zlen (m_loops t) <=? u64 next then 0 else next) (m_loops t))
    end.

Definition getLoopForHash (hashCode : Z) (t : EventLoopThreadPool) : outcome Z :=
  b ← base t;
  match m_loops t with [] => Ret b | _ => at_index (hashCode mod zlen (m_loops t)) (m_loops t) end.

Definition getAllLoops (t : EventLoopThreadPool) : outcome (list Z) :=
  b ← base t;
  Ret (match m_loops t with [] => [b] | _ => m_loops t end).

(** A line for each loop; [threadID] is the text of the id of a loop's thread. *)
Definition info (threadID : Z -> bytes) (t : EventLoopThreadPool) : bytes :=
  lit "print threads id info " ++ [Byte.x0a] ++
  concat (imap (fun i loop => Decimal.format_d (Z.of_nat i) ++ lit ": id = " ++ threadID loop ++ [Byte.x0a]) (m_loops t)).

(** [n] successive calls. *)
Fixpoint next_loops (n : nat) (t : EventLoopThreadPool) : outcome (list (option Z)) :=
  match n with
  | O => Ret []
  | S n' => p ← getNextLoop t; l ← next_loops n' (snd p); Ret (fst p :: l)
  end.

Lemma length_start_threads n i f : length (start_threads n i f) = n.
Proof. revert i. induction n as [|n IH]; intros i; [done|]. cbn. by rewrite IH. Qed.

(** A pool that was started with threads: the calls go round. *)
Definition running (t : EventLoopThreadPool) : Prop :=
  is_Some (m_baseLoop t) /\ m_started t = true /\ m_loops t <> [] /\
  zlen (m_loops t) < 2 ^ 31 /\ 0 <= m_next t < zlen (m_loops t).

Lemma getNextLoop_ok t :
  running t -> exists x t', getNextLoop t = Ret (Some x, t') /\
    m_loops t !! Z.to_nat (m_next t) = Some x /\ running t' /\ m_loops t' = m_loops t /\
    m_next t' = (m_next t + 1) mod zlen (m_loops t).
Proof.
  intros ([b Hb] & Hs & Hne & Hmax & Hn). unfold getNextLoop, base. rewrite Hb, Hs.
  cbn [mbind outcome_bind negb].
  destruct (lookup_lt_is_Some_2 (m_loops t) (Z.to_nat (m_next t))) as [x Hx];
    [unfold zlen in Hn; lia|].
  assert (at_index (m_next t) (m_loops t) = Ret x) as Hat.
  { unfold at_index. destruct (Z.ltb_spec (m_next t) 0); [lia|]. by rewrite Hx. }
  exists x. eexists. split.
  - destruct (m_loops t) eqn:E; [done|]. rewrite <- E in *. rewrite Hat. reflexivity.
  - split; [done|]. rewrite uwrap_small by lia.
    assert ((if zlen (m_loops t) <=? m_next t + 1 then 0 else m_next t + 1) =
      (m_next t + 1) mod zlen (m_loops t)) as E.
    { destruct (Z.leb_spec (zlen (m_loops t)) (m_next t + 1)).
      - replace (m_next t + 1) with (zlen (m_loops t)) by lia. by rewrite Z.mod_same by lia.
      - by rewrite Z.mod_small by lia. }
    rewrite E. split_and!; [|done..]. unfold running. cbn.
    pose proof (Z.mod_pos_bound (m_next t + 1) (zlen (m_loops t)) ltac:(lia)).
    split_and!; [by eexists|done|done|done|lia|lia].
Qed.

Lemma next_loops_ok n t :
  running t -> exists l, next_loops n t = Ret l /\ forall i, (i < n)%nat ->
    l !! i = Some (m_loops t !! Z.to_nat ((m_next t + Z.of_nat i) mod zlen (m_loops t))).
Proof.
  revert t. induction n as [|n IH]; intros t Ht; [exists []; split; [done|lia]|].
  pose proof Ht as (_ & _ & _ & _ & Hn).
  destruct (getNextLoop_ok t Ht) as (x & t' & E & Hx & Ht' & Hl & Hnext).
  destruct (IH t' Ht') as (l & El & Hi). exists (Some x :: l). cbn [next_loops].
  rewrite E. cbn [mbind outcome_bind snd fst]. rewrite El. split; [done|]. intros [|i] Hin; cbn.
  - rewrite Z.add_0_r, Z.mod_small by lia. by rewrite Hx.
  - rewrite Hi, Hl, Hnext by lia. do 3 f_equal. rewrite Z.add_mod_idemp_l by lia. f_equal. lia.
Qed.

(** The loops of a pool are handed out in turn: on a pool started with [n]
    threads, [n] at least 1, the [i]-th call of [getNextLoop] returns the loop of
    thread [i mod n], so that any [n] successive calls use each loop once. *)
Theorem round_robin (base n calls : Z) (newLoop : nat -> Z) (cb : bool) :
  1 <= n < 2 ^ 31 -> 0 <= calls ->
  let t := snd (start newLoop cb (init (Some base) n make)) in
  exists l, next_loops (Z.to_nat calls) t = Ret l /\
    forall i, 0 <= i < calls -> l !! Z.to_nat i = Some (Some (newLoop (Z.to_nat (i mod n)))).
Proof.
  intros Hn Hc t.
  assert (m_loops t = start_threads (Z.to_nat n) 0 newLoop) as Hl by done.
  assert (zlen (m_loops t) = n) as Hlen.
  { rewrite Hl. unfold zlen. rewrite length_start_threads. lia. }
  assert (forall m i k, (k < m)%nat -> start_threads m i newLoop !! k = Some (newLoop (i + k)%nat)) as Hat.
  { induction m as [|m IH]; intros i [|k] Hk; [lia|lia|cbn; by rewrite Nat.add_0_r|].
    cbn. rewrite IH by lia. do 2 f_equal. lia. }
  destruct (next_loops_ok (Z.to_nat calls) t) as (l & El & Hi).
  { split_and!; [by eexists|done| |lia|done|rewrite Hlen; change (m_next t) with 0; lia].
    intros E. rewrite E in Hlen. unfold zlen in Hlen. cbn in Hlen. lia. }
  exists l. split; [done|]. intros i Hir. rewrite Hi by lia. rewrite Hlen, Hl.
  change (m_next t) with 0. rewrite Z.add_0_l, Z2Nat.id by lia.
  pose proof (Z.mod_pos_bound i n ltac:(lia)). by rewrite Hat by lia.
Qed.

Lemma round_robin_witness :
  let t := snd (start (fun i => 100 + Z.of_nat i) true (init (Some 7) 6 make)) in
  exists l, next_loops (Z.to_nat 8) t = Ret l /\
    forall i, 0 <= i < 8 -> l !! Z.to_nat i = Some (Some (100 + Z.of_nat (Z.to_nat (i mod 6)))).
Proof. apply (round_robin 7 6 8 (fun i => 100 + Z.of_nat i) true); lia. Defined.

End EventLoopThreadPool.
