(* ===== verification/Threads.v ===== *)
(** * Threads with a loop

    [EventLoopThread] is net/EventLoopThread.*: the thread that owns the object
    and the thread that runs the loop, each at a point of its code, with the mutex
    and the condition variable between them.  [CountDownLatch] is
    base/CountDownLatch.*. *)
From S2P Require Import Prelude Loops.

Module EventLoopThread.

Abbreviation Loop := (@EventLoop.EventLoop unit).

Inductive who : Type := Owner | Worker.
(** [startLoop], [stopLoop] and the destructor, statement by statement. *)
Inductive owner_at : Type :=
| Idle
| Spawn | Acquire | Test | Asleep | Woken | Release | Return
| StopTest | StopQuit | StopJoin
| DtorTest | DtorQuit | DtorJoin | Destroy | Destroyed.
(** [threadFunc]. *)
Inductive worker_at : Type :=
| NoThread | Construct | Callback | Lock | Publish | Unlock | Enter | Looping | Clear | Destruct | Ended.
#[export] Instance who_eq_dec : EqDecision who.
Proof. solve_decision. Defined.
#[export] Instance owner_at_eq_dec : EqDecision owner_at.
Proof. solve_decision. Defined.
#[export] Instance worker_at_eq_dec : EqDecision worker_at.
Proof. solve_decision. Defined.

(** [m_thread] is null, or a thread that can be joined or was; [loop] the local
    variable of [threadFunc] while it lives; [returned] the last result of
    [startLoop]. *)
Record World : Type := mkWorld {
  m_loop : option Z;
  m_exiting : bool;
  m_thread : option bool;
  m_mutex : option who;
  loop : option Loop;
  owner : owner_at;
  worker : worker_at;
  returned : option (option Z)
}.
Definition make : World := mkWorld None false None None None Idle NoThread None.

Definition at_owner (o : owner_at) : M World unit := modify (fun w =>
  mkWorld (m_loop w) (m_exiting w) (m_thread w) (m_mutex w) (loop w) o (worker w) (returned w)).
Definition at_worker (k : worker_at) : M World unit := modify (fun w =>
  mkWorld (m_loop w) (m_exiting w) (m_thread w) (m_mutex w) (loop w) (owner w) k (returned w)).
Definition set_loop (p : option Z) : M World unit := modify (fun w =>
  mkWorld p (m_exiting w) (m_thread w) (m_mutex w) (loop w) (owner w) (worker w) (returned w)).
Definition set_mutex (x : option who) : M World unit := modify (fun w =>
  mkWorld (m_loop w) (m_exiting w) (m_thread w) x (loop w) (owner w) (worker w) (returned w)).
Definition set_thread (t : option bool) : M World unit := modify (fun w =>
  mkWorld (m_loop w) (m_exiting w) t (m_mutex w) (loop w) (owner w) (worker w) (returned w)).
Definition set_local (l : option Loop) : M World unit := modify (fun w =>
  mkWorld (m_loop w) (m_exiting w) (m_thread w) (m_mutex w) l (owner w) (worker w) (returned w)).
Definition set_returned (r : option Z) : M World unit := modify (fun w =>
  mkWorld (m_loop w) (m_exiting w) (m_thread w) (m_mutex w) (loop w) (owner w) (worker w) (Some r)).
Definition set_exiting : M World unit := modify (fun w =>
  mkWorld (m_loop w) true (m_thread w) (m_mutex w) (loop w) (owner w) (worker w) (returned w)).

Section Thread.
(** Where the loop of the thread lies. *)
Variable address : Z.

(** [m_loop->quit()]. *)
Definition quit_loop : M World unit :=
  let! w := get in
  match m_loop w, loop w with
  | None, _ => undefined NullPointer
  | Some _, None => undefined DanglingPointer
  | Some _, Some l => set_local (Some (EventLoop.quit false l))
  end.
(** [m_thread->join()]; it waits for the thread, see [owner_ready]. *)
Definition join : M World unit :=
  let! w := get in
  match m_thread w with
  | None => undefined NullPointer
  | Some false => throw SystemError
  | Some true => set_thread (Some false)
  end.

(** One statement of the owner. *)
Definition owner_step : M World unit :=
  let! w := get in
  match owner w with
  | Spawn =>
      match m_thread w with
      | Some true => throw Terminate
      | _ => do! set_thread (Some true) in do! at_worker Construct in at_owner Acquire
      end
  | Acquire | Woken => do! set_mutex (Some Owner) in at_owner Test
  | Test =>
      match m_loop w with
      | None => do! set_mutex None in at_owner Asleep
      | Some _ => at_owner Release
      end
  | Release => do! set_mutex None in at_owner Return
  | Return => do! set_returned (m_loop w) in at_owner Idle
  | StopTest => at_owner (match m_loop w with Some _ => StopQuit | None => StopJoin end)
  | StopQuit => do! quit_loop in at_owner StopJoin
  | StopJoin => do! join in at_owner Idle
  | DtorTest => at_owner (match m_loop w with Some _ => DtorQuit | None => Destroy end)
  | DtorQuit => do! quit_loop in at_owner DtorJoin
  | DtorJoin => do! join in at_owner Destroy
  | Destroy => match m_thread w with Some true => throw Terminate | _ => at_owner Destroyed end
  | Idle | Asleep | Destroyed => ret tt
  end.
Definition notify_all : M World unit :=
  let! w := get in when (bool_decide (owner w = Asleep)) (at_owner Woken).

(** One statement of the thread.  The callback of a new thread and the iterations of
    the loop do not change what is kept here; nobody but the owner quits the loop of a
    pool. *)
Definition worker_step : M World unit :=
  let! w := get in
  match worker w with
  | Construct => do! set_local (Some EventLoop.make) in at_worker Callback
  | Callback => at_worker Lock
  | Lock => do! set_mutex (Some Worker) in at_worker Publish
  | Publish => do! set_loop (Some address) in do! notify_all in at_worker Unlock
  | Unlock => do! set_mutex None in at_worker Enter
  | Enter =>
      match loop w with
      | None => undefined DanglingPointer
      | Some l => do! set_local (Some (EventLoop.set_quit false (EventLoop.set_looping true l))) in at_worker Looping
      end
  | Looping =>
      match loop w with
      | None => undefined DanglingPointer
      | Some l => when (EventLoop.m_quit l) (do! set_local (Some (EventLoop.set_looping false l)) in at_worker Clear)
      end
  | Clear => do! set_loop None in at_worker Destruct
  | Destruct => do! set_local None in at_worker Ended
  | NoThread | Ended => ret tt
  end.

(** Who does not wait: for the mutex, for a notification or for the other thread. *)
Definition owner_ready (w : World) : bool :=
  match owner w with
  | Idle | Asleep | Destroyed => false
  | Acquire | Woken => bool_decide (m_mutex w = None)
  | StopJoin | DtorJoin => bool_decide (m_thread w <> Some true) || bool_decide (worker w = Ended)
  | _ => true
  end.
Definition quitting (w : World) : bool := match loop w with Some l => EventLoop.m_quit l | None => false end.
Definition worker_ready (w : World) : bool :=
  match worker w with
  | NoThread | Ended => false
  | Lock => bool_decide (m_mutex w = None)
  | Looping => quitting w
  | _ => true
  end.

(** The pool calls [startLoop] on a new object, and [stopLoop] at most once. *)
Inductive call : Type := StartLoop | StopLoop | Delete.
Definition allowed (k : call) (w : World) : bool :=
  bool_decide (owner w = Idle) &&
  match k with
  | StartLoop => bool_decide (m_thread w = None)
  | StopLoop => bool_decide (m_thread w = Some true)
  | Delete => true
  end.
Definition begin (k : call) : M World unit :=
  match k with
  | StartLoop => at_owner Spawn
  | StopLoop => at_owner StopTest
  | Delete => do! set_exiting in at_owner DtorTest
  end.

(** The two threads in any order. *)
Inductive advance : World -> World -> Prop :=
| advance_owner w w' : owner_ready w = true -> owner_step w = Ret (tt, w') -> advance w w'
| advance_worker w w' : worker_ready w = true -> worker_step w = Ret (tt, w') -> advance w w'.
(** Calls begin, and a wait may end for no reason. *)
Inductive step : World -> World -> Prop :=
| step_advance w w' : advance w w' -> step w w'
| step_call k w w' : allowed k w = true -> begin k w = Ret (tt, w') -> step w w'
| step_spurious w w' : owner w = Asleep -> at_owner Woken w = Ret (tt, w') -> step w w'.

(** ** Where the two threads can be together *)
Definition published (k : worker_at) : bool := bool_decide (k ∈ [Unlock; Enter; Looping; Clear]).
Definition exists_loop (k : worker_at) : bool :=
  bool_decide (k ∈ [Callback; Lock; Publish; Unlock; Enter; Looping; Clear; Destruct]).
Definition joining (o : owner_at) : bool := bool_decide (o ∈ [StopJoin; DtorJoin]).
Definition together (o : owner_at) (k : worker_at) : bool :=
  match o with
  | Idle | DtorTest => bool_decide (k ∈ [NoThread; Enter; Looping; Ended])
  | Spawn => bool_decide (k = NoThread)
  | Acquire | Woken => bool_decide (k ∈ [Construct; Callback; Lock; Publish; Unlock; Enter; Looping])
  | Test => bool_decide (k ∈ [Construct; Callback; Lock; Enter; Looping])
  | Asleep => bool_decide (k ∈ [Construct; Callback; Lock; Publish])
  | Release | Return | StopTest | StopQuit | DtorQuit => bool_decide (k ∈ [Enter; Looping])
  | StopJoin | DtorJoin => bool_decide (k ∈ [Enter; Looping; Clear; Destruct; Ended])
  | Destroy | Destroyed => bool_decide (k ∈ [NoThread; Ended])
  end.
Definition holder (o : owner_at) (k : worker_at) : option who :=
  match o, k with
  | (Test | Release), _ => Some Owner
  | _, (Publish | Unlock) => Some Worker
  | _, _ => None
  end.
Definition thread_of (o : owner_at) (k : worker_at) : option bool :=
  match k with NoThread => None | Ended => Some (joining o) | _ => Some true end.

Record inv (w : World) : Prop := {
  inv_together : together (owner w) (worker w) = true;
  inv_mutex : m_mutex w = holder (owner w) (worker w);
  inv_thread : m_thread w = thread_of (owner w) (worker w);
  inv_loop : m_loop w = if published (worker w) then Some address else None;
  inv_local : bool_decide (is_Some (loop w)) = exists_loop (worker w);
  inv_quit : quitting w = true -> joining (owner w) = true;
  inv_returned : forall r, returned w = Some r -> r = Some address
}.

Lemma thread_inv_make : inv make.
Proof. by split. Qed.

(** Nothing the owner or the thread does next is undefined or throws. *)
Lemma owner_inv w : inv w -> owner_ready w = true -> exists w', owner_step w = Ret (tt, w') /\ inv w'.
Proof.
  destruct w as [p x t m l o k r]. intros [Ht Hm Hth Hl Hlo Hq Hr]. cbn in *. subst m t p.
  destruct o; try done; destruct k; try done; cbn; intros _; destruct l as [l|]; try done;
    (eexists; split; [reflexivity|]; split; cbn; try done; intros; by simplify_eq).
Qed.

Lemma worker_inv w : inv w -> worker_ready w = true -> exists w', worker_step w = Ret (tt, w') /\ inv w'.
Proof.
  destruct w as [p x t m l o k r]. intros [Ht Hm Hth Hl Hlo Hq Hr]. cbn in *. subst m t p.
  destruct k; try done; destruct o; try done; destruct l as [l|]; try done; unfold quitting in *; cbn in *;
    intros Hrd; rewrite ?Hrd in *; cbn; try (by specialize (Hq eq_refl));
    (eexists; split; [reflexivity|]; split; cbn; try done; intros; by simplify_eq).
Qed.

Lemma call_inv k w w' : allowed k w = true -> begin k w = Ret (tt, w') -> inv w -> inv w'.
Proof.
  destruct w as [p x t m l o kk r]. intros Ha E [Ht Hm Hth Hl Hlo Hq Hr]. cbn in *. subst m t p.
  unfold allowed in Ha. cbn in Ha. destruct o; try done. destruct k, kk; try done; injection E as <-; split; cbn in *; try done;
    intros Hx; by specialize (Hq Hx).
Qed.

Lemma thread_step_inv w w' : step w w' -> inv w -> inv w'.
Proof.
  intros [v v' [u u' Hr E|u u' Hr E]|k v v' Ha E|v v' Hs E] Hi.
  - destruct (owner_inv u Hi Hr) as (z & E' & Hz). rewrite E in E'. by injection E' as ->.
  - destruct (worker_inv u Hi Hr) as (z & E' & Hz). rewrite E in E'. by injection E' as ->.
  - by eapply call_inv.
  - destruct v as [p x t m l o k r]. destruct Hi as [Ht Hm Hth Hl Hlo Hq Hrt]. cbn in *. subst o. injection E as <-.
    split; cbn in *; destruct k; try done; intros Hx; by specialize (Hq Hx).
Qed.
Lemma thread_always w : rtc step make w -> inv w.
Proof.
  assert (inv make) as H0 by exact thread_inv_make. revert H0. generalize make. intros v Hv.
  induction 1; [done|]. eauto using thread_step_inv.
Qed.

(** ** Both threads get on *)
Definition worker_rank (k : worker_at) : nat :=
  match k with
  | NoThread => 10 | Construct => 9 | Callback => 8 | Lock => 7 | Publish => 6 | Unlock => 5 | Enter => 4
  | Looping => 3 | Clear => 2 | Destruct => 1 | Ended => 0
  end.
Definition owner_rank (o : owner_at) : nat :=
  match o with
  | Idle | Destroyed => 0 | Return => 1 | Release => 2 | Asleep => 3 | Test => 4 | Acquire | Woken => 5 | Spawn => 6
  | StopJoin => 7 | StopQuit => 8 | StopTest => 9 | Destroy => 10 | DtorJoin => 11 | DtorQuit => 12 | DtorTest => 13
  end.
Definition measure (w : World) : nat := 20 * worker_rank (worker w) + owner_rank (owner w).
Definition starting (o : owner_at) : bool :=
  bool_decide (o ∈ [Spawn; Acquire; Test; Asleep; Woken; Release; Return]).
(** The flag that the owner set is cleared again when the loop begins. *)
Definition lost (w : World) : bool :=
  joining (owner w) && (bool_decide (worker w = Enter) || bool_decide (worker w = Looping) && negb (quitting w)).

Lemma advance_inv w w' : inv w -> advance w w' -> inv w'.
Proof. intros Hi Ha. exact (thread_step_inv _ _ (step_advance _ _ Ha) Hi). Qed.

Lemma advance_down w w' : inv w -> advance w w' -> (measure w' < measure w)%nat.
Proof.
  intros Hi Ha. revert Hi. destruct Ha as [v v' Hrd E|v v' Hrd E]; intros [Ht Hm Hth Hl Hlo Hq Hr];
    destruct v as [p x t m l o k r]; cbn in *; subst m t p.
  - destruct o; try done; destruct k; try done; destruct l as [l|]; try done; cbn in E; injection E as <-; cbn; lia.
  - destruct k; try done; destruct o; try done; destruct l as [l|]; try done; unfold worker_ready, quitting in Hrd;
      cbn in Hrd, E; rewrite ?Hrd in E; injection E as <-; cbn; lia.
Qed.
Lemma advance_bounded n w w' : inv w -> nsteps advance n w w' -> (n + measure w' <= measure w)%nat /\ inv w'.
Proof.
  intros Hi Hn. induction Hn as [|n x y z Ha _ IH]; [by split; [lia|]|].
  pose proof (advance_down x y Hi Ha). destruct (IH (advance_inv x y Hi Ha)). split; [lia|done].
Qed.

Lemma owner_advances w : inv w -> owner_ready w = true -> exists w', advance w w'.
Proof. intros Hi Hr. destruct (owner_inv w Hi Hr) as (w' & E & _). exists w'. by apply advance_owner. Qed.
Lemma worker_advances w : inv w -> worker_ready w = true -> exists w', advance w w'.
Proof. intros Hi Hr. destruct (worker_inv w Hi Hr) as (w' & E & _). exists w'. by apply advance_worker. Qed.

(** While the owner is in [startLoop] somebody can go on, and it comes out with the loop. *)
Lemma starting_advances w : inv w -> starting (owner w) = true -> exists w', advance w w'.
Proof.
  intros Hi Hs. assert (owner_ready w = true \/ worker_ready w = true) as [?|?];
    [|by apply owner_advances|by apply worker_advances].
  destruct w as [p x t m l o k r]. destruct Hi as [Ht Hm _ _ _ _ _]. cbn in *. subst m.
  destruct o; try discriminate Hs; destruct k; try discriminate Ht; solve [left; reflexivity|right; reflexivity].
Qed.
Lemma starting_leaves w w' :
  inv w -> starting (owner w) = true -> advance w w' ->
  starting (owner w') = true \/ owner w' = Idle /\ returned w' = Some (Some address).
Proof.
  intros Hi Hs Ha. revert Hi Hs. destruct Ha as [v v' Hrd E|v v' Hrd E]; intros [Ht Hm Hth Hl Hlo Hq Hr] Hs;
    destruct v as [p x t m l o k r]; cbn in *; subst m t p.
  - destruct o; try done; destruct k; try done; cbn in E; injection E as <-; cbn; by (left + right).
  - destruct k; try done; destruct o; try done; destruct l as [l|]; try done; cbn in E;
      solve [injection E as <-; by left|by specialize (Hq Hrd)].
Qed.
Lemma start_returns w :
  inv w -> starting (owner w) = true ->
  exists w', rtc advance w w' /\ owner w' = Idle /\ returned w' = Some (Some address).
Proof.
  remember (measure w) as n eqn:Hn. revert w Hn. induction n as [n IH] using lt_wf_ind. intros w -> Hi Hs.
  destruct (starting_advances w Hi Hs) as [w1 Ha]. pose proof (advance_inv _ _ Hi Ha) as Hi1.
  destruct (starting_leaves w w1 Hi Hs Ha) as [Hs1|[? ?]]; [|exists w1; by split; [apply rtc_once|]].
  destruct (IH (measure w1) (advance_down _ _ Hi Ha) w1 eq_refl Hi1 Hs1) as (w2 & H2 & ?).
  exists w2. split; [by eapply rtc_l|done].
Qed.

(** The owner waits for the thread: until it has ended, or for ever. *)
Lemma joining_advances w :
  inv w -> joining (owner w) = true -> lost w = false ->
  exists w', advance w w' /\ (joining (owner w') = true -> lost w' = false).
Proof.
  intros Hi Hj Hl. destruct (bool_decide (worker w = Ended)) eqn:He.
  - assert (owner_ready w = true) as Hrd by (unfold owner_ready; rewrite He; destruct (owner w); try done; apply orb_true_r).
    destruct (owner_inv w Hi Hrd) as (w' & E & _). exists w'. split; [by apply advance_owner|]. intros _.
    destruct w as [p x t m l o k r]. destruct Hi as [_ _ Hth _ _ _ _]. cbn in *. subst t. destruct k; try done.
    destruct o; try done; cbn in E; injection E as <-; done.
  - assert (worker_ready w = true) as Hrd.
    { pose proof (inv_together w Hi) as Ht. unfold worker_ready. unfold lost in Hl. rewrite Hj in Hl.
      destruct (owner w); try done; destruct (worker w); try done; cbn in Hl; by destruct (quitting w). }
    destruct (worker_inv w Hi Hrd) as (w' & E & _). exists w'. split; [by apply advance_worker|]. intros _.
    destruct w as [p x t m l o k r]. destruct Hi as [Ht _ _ _ Hlo _ _]. cbn in *.
    destruct o; try done; destruct k; try done; destruct l as [l|]; try done; unfold worker_ready, quitting in Hrd; cbn in *;
      rewrite ?Hrd in E; injection E as <-; done.
Qed.
Lemma join_returns w :
  inv w -> joining (owner w) = true -> lost w = false -> exists w', rtc advance w w' /\ joining (owner w') = false.
Proof.
  remember (measure w) as n eqn:Hn. revert w Hn. induction n as [n IH] using lt_wf_ind. intros w -> Hi Hj Hl.
  destruct (joining_advances w Hi Hj Hl) as (w1 & Ha & Hl1).
  destruct (joining (owner w1)) eqn:Hj1; [|exists w1; by split; [apply rtc_once|]].
  destruct (IH (measure w1) (advance_down _ _ Hi Ha) w1 eq_refl (advance_inv _ _ Hi Ha) Hj1 (Hl1 eq_refl)) as (w2 & H2 & ?).
  exists w2. split; [by eapply rtc_l|done].
Qed.
Lemma lost_stays w w' : inv w -> lost w = true -> step w w' -> lost w' = true /\ owner w' = owner w.
Proof.
  intros Hi Hlost Hs. revert Hi Hlost.
  destruct Hs as [v v' [u u' Hrd E|u u' Hrd E]|k v v' Ha E|v v' Hs E]; intros [Ht Hm Hth Hl Hlo Hq Hr] Hlost.
  - destruct u as [p x t m l o k r]. cbn in *. subst m t p. destruct o; try done; destruct k; done.
  - destruct u as [p x t m l o k r]. cbn in *. subst m t p. destruct o; try done; destruct k; try done;
      destruct l as [l|]; try done; unfold lost, worker_ready, quitting in *; cbn in *; rewrite ?Hrd in *; try done;
      by injection E as <-.
  - unfold allowed in Ha. unfold lost in Hlost. by destruct (owner v).
  - unfold lost in Hlost. by rewrite Hs in Hlost.
Qed.
Lemma lost_for_ever w w' : inv w -> lost w = true -> rtc step w w' -> owner w' = owner w.
Proof.
  intros Hi Hl H. revert Hi Hl. induction H as [|x y z Hs _ IH]; [done|]. intros Hi Hl.
  destruct (lost_stays x y Hi Hl Hs) as [Hl' <-]. by apply IH; [eapply thread_step_inv|].
Qed.

(** C28: a thread and its loop.  In every state that the owner and the thread reach
    in any order, with wake-ups for no reason, what either does next is defined:
    [quit] meets a loop that lives, no joined thread is joined and none is dropped
    that runs.  What [m_loop] points to lives, and [startLoop] has returned the
    loop of its thread.  The two take a bounded number of steps, and while the
    owner is in [startLoop] one of them can take one, so that no notification is
    missed and it returns.  [stopLoop] and the destructor wait until the thread has
    ended, unless the thread had not entered its loop yet when it was told to quit:
    then they wait for ever. *)
Theorem loop_thread (w : World) :
  rtc step make w ->
  (owner_ready w = true -> exists w', owner_step w = Ret (tt, w')) /\
  (worker_ready w = true -> exists w', worker_step w = Ret (tt, w')) /\
  (forall p, m_loop w = Some p -> p = address /\ is_Some (loop w)) /\
  (forall r, returned w = Some r -> r = Some address) /\
  (forall n w', nsteps advance n w w' -> (n <= measure w)%nat /\
     (starting (owner w') = true -> exists w'', advance w' w'')) /\
  (starting (owner w) = true -> exists w', rtc advance w w' /\ owner w' = Idle /\ returned w' = Some (Some address)) /\
  (joining (owner w) = true -> lost w = false -> exists w', rtc advance w w' /\ joining (owner w') = false) /\
  (lost w = true -> forall w', rtc step w w' -> owner w' = owner w).
Proof.
  intros Hr. pose proof (thread_always w Hr) as Hi. split_and!.
  - intros Hrd. destruct (owner_inv w Hi Hrd) as (w' & ? & _). by exists w'.
  - intros Hrd. destruct (worker_inv w Hi Hrd) as (w' & ? & _). by exists w'.
  - intros p Hp. destruct Hi as [_ _ _ Hl Hlo _ _]. rewrite Hp in Hl. destruct (worker w); try done.
    all: injection Hl as ->; by apply bool_decide_eq_true in Hlo.
  - apply Hi.
  - intros n w' Hn. destruct (advance_bounded n w w' Hi Hn) as [Hb Hi']. split; [lia|by apply starting_advances].
  - by apply start_returns.
  - by apply join_returns.
  - intros Hl w'. by apply lost_for_ever.
Qed.

End Thread.

(** *** Witnesses *)

(** The thread is started, and told to quit before it enters its loop. *)
Inductive turn : Type := Calls (k : call) | OwnerRuns | WorkerRuns.
Definition take (t : turn) (w : World) : option World :=
  match t with
  | Calls k => if allowed k w then match begin k w with Ret (_, w') => Some w' | _ => None end else None
  | OwnerRuns => if owner_ready w then match owner_step w with Ret (_, w') => Some w' | _ => None end else None
  | WorkerRuns => if worker_ready w then match worker_step 64 w with Ret (_, w') => Some w' | _ => None end else None
  end.
Fixpoint run (l : list turn) (w : World) : option World :=
  match l with [] => Some w | t :: l' => w' ← take t w; run l' w' end.
Lemma take_step t w w' : take t w = Some w' -> step 64 w w'.
Proof.
  unfold take. intros H. destruct t as [k| |].
  - destruct (allowed k w) eqn:Ha; [|done]. destruct (begin k w) as [[[] v]|e|u] eqn:E; [|done..]. injection H as <-.
    by eapply step_call.
  - destruct (owner_ready w) eqn:Ha; [|done]. destruct (owner_step w) as [[[] v]|e|u] eqn:E; [|done..]. injection H as <-.
    by apply step_advance, advance_owner.
  - destruct (worker_ready w) eqn:Ha; [|done]. destruct (worker_step 64 w) as [[[] v]|e|u] eqn:E; [|done..]. injection H as <-.
    by apply step_advance, advance_worker.
Qed.
Lemma run_rtc l w w' : run l w = Some w' -> rtc (step 64) w w'.
Proof.
  revert w. induction l as [|t l IH]; intros w; cbn; [by intros [= ->]|].
  destruct (take t w) as [v|] eqn:E; [|done]. cbn. intros H. eapply rtc_l; [by eapply take_step|by apply IH].
Qed.

Definition early : list turn :=
  Calls StartLoop :: OwnerRuns :: OwnerRuns :: OwnerRuns :: replicate 5 WorkerRuns ++ replicate 4 OwnerRuns ++
  [Calls StopLoop; OwnerRuns; OwnerRuns].
Definition stuck : World := match run early make with Some w => w | None => make end.

Lemma loop_thread_witness :
  (lost stuck, owner stuck, worker stuck, returned stuck) = (true, StopJoin, Enter, Some (Some 64)) /\
  forall w', rtc (step 64) stuck w' -> owner w' = StopJoin.
Proof.
  split; [vm_compute; reflexivity|].
  destruct (loop_thread 64 stuck) as (_ & _ & _ & _ & _ & _ & _ & H); [apply (run_rtc early); vm_compute; reflexivity|].
  apply H. vm_compute. reflexivity.
Defined.

(** A thread that stops as it should; stopping it again throws. *)
Definition whole : list turn :=
  Calls StartLoop :: OwnerRuns :: replicate 6 WorkerRuns ++ replicate 4 OwnerRuns ++
  [Calls StopLoop; OwnerRuns; OwnerRuns; WorkerRuns; WorkerRuns; WorkerRuns; OwnerRuns].
Definition stopped : World := match run whole make with Some w => w | None => stuck end.
Example stop_twice :
  (owner stopped, worker stopped, m_loop stopped) = (Idle, Ended, None) /\
  (do! begin StopLoop in do! owner_step in owner_step) stopped = Throw SystemError.
Proof. split; vm_compute; reflexivity. Qed.

End EventLoopThread.

(** ** A counter that threads wait for *)
Module CountDownLatch.

(** [asleep] are the threads inside [condition_.wait]; a call with the mutex held is
    one step. *)
Record CountDownLatch : Type := mkLatch { count_ : Z; asleep : gset Z }.
Definition make (count : Z) : CountDownLatch := mkLatch count ∅.

(** Whether the loop of [wait] goes on sleeping: on entry and after every wake-up. *)
Definition wait (t : Z) (c : CountDownLatch) : bool * CountDownLatch :=
  if 0 <? count_ c then (true, mkLatch (count_ c) ({[t]} ∪ asleep c))
  else (false, mkLatch (count_ c) (asleep c ∖ {[t]})).
(** Those that are woken. *)
Definition countDown (c : CountDownLatch) : outcome (gset Z * CountDownLatch) :=
  if count_ c =? - 2 ^ 31 then Undef SignedOverflow
  else
    let n := count_ c - 1 in
    if n =? 0 then Ret (asleep c, mkLatch n ∅) else Ret (∅, mkLatch n (asleep c)).
Definition getCount (c : CountDownLatch) : Z := count_ c.

(** The woken threads test the counter again, in some order. *)
Fixpoint wake (l : list Z) (c : CountDownLatch) : CountDownLatch :=
  match l with [] => c | t :: l' => wake l' (snd (wait t c)) end.
Fixpoint countDowns (n : nat) (c : CountDownLatch) : outcome CountDownLatch :=
  match n with
  | O => Ret c
  | S n' => p ← countDown c; countDowns n' (wake (elements (fst p)) (snd p))
  end.

Lemma wake_open l c : count_ c <= 0 -> count_ (wake l c) = count_ c /\ asleep (wake l c) ⊆ asleep c.
Proof.
  revert c. induction l as [|t l IH]; intros c Hc; [done|]. cbn [wake]. unfold wait.
  destruct (Z.ltb_spec 0 (count_ c)); [lia|]. cbn [snd]. destruct (IH (mkLatch (count_ c) (asleep c ∖ {[t]}))) as [-> H']; [done|].
  cbn in *. split; [done|]. set_solver.
Qed.

(** Nobody passes before the count is used up, and then nobody sleeps. *)
Lemma latch_opens (n : nat) (c : CountDownLatch) :
  0 < count_ c < 2 ^ 31 -> Z.of_nat n <= count_ c ->
  exists c', countDowns n c = Ret c' /\ getCount c' = count_ c - Z.of_nat n /\
    asleep c' = (if Z.of_nat n =? count_ c then ∅ else asleep c).
Proof.
  unfold getCount. revert c. induction n as [|n IH]; intros c Hc Hn.
  { exists c. split_and!; [done|lia|]. destruct (Z.eqb_spec (Z.of_nat 0) (count_ c)); [lia|done]. }
  cbn [countDowns]. unfold countDown. destruct (Z.eqb_spec (count_ c) (- 2 ^ 31)); [lia|].
  destruct (Z.eqb_spec (count_ c - 1) 0) as [Hz|Hz]; cbn [mbind outcome_bind fst snd].
  - destruct n as [|n]; [|lia]. cbn [countDowns].
    destruct (wake_open (elements (asleep c)) (mkLatch (count_ c - 1) ∅)) as [H1 H2]; [cbn; lia|].
    eexists. split_and!; [reflexivity|rewrite H1; cbn; lia|]. rewrite (proj2 (Z.eqb_eq _ _)) by lia. cbn in H2. set_solver.
  - rewrite elements_empty. cbn [wake]. destruct (IH (mkLatch (count_ c - 1) (asleep c))) as (c' & E & H1 & H2); [cbn; lia..|].
    exists c'. cbn [count_ asleep] in *. split_and!; [done|lia|]. rewrite H2.
    destruct (Z.eqb_spec (Z.of_nat n) (count_ c - 1)), (Z.eqb_spec (Z.of_nat (S n)) (count_ c)); first [lia|done].
Qed.

End CountDownLatch.
