(* ===== verification/Timers.v ===== *)
(** * Timers

    [Timestamp] is base/Timestamp.*, [Timer] net/Timer.* and [TimerQueue]
    net/TimerQueue.*.  Everything here runs on the thread of the loop.  A timer's
    callback is arbitrary code: [callback f] lists what it asks of the queue. *)
From Stdlib Require Import Sorted.
From S2P Require Import Prelude Protocol.

Module Timestamp.

Definition kMicroSecondsPerSecond : Z := 1000 * 1000.

(** A timestamp is its number of microseconds, an [int64_t]. *)
Definition add (lhs rhs : Z) : outcome Z :=
  if (- 2 ^ 63 <=? lhs + rhs) && (lhs + rhs <? 2 ^ 63) then Ret (lhs + rhs)
  else Undef SignedOverflow.
Definition addTime (timestamp microseconds : Z) : outcome Z := add timestamp microseconds.
Definition invalid : Z := 0.
Definition valid (t : Z) : bool := 0 <? t.
Definition secondsSinceEpoch (t : Z) : Z := Z.quot t kMicroSecondsPerSecond.
Definition lt (lhs rhs : Z) : bool := lhs <? rhs.
Definition gt (lhs rhs : Z) : bool := lt rhs lhs.
Definition le (lhs rhs : Z) : bool := negb (gt lhs rhs).
Definition ge (lhs rhs : Z) : bool := negb (lt lhs rhs).

(** [%0nlld]: at least [n] characters, filled with zeros after the sign; [%nd]:
    filled with spaces before it. *)
Definition pad0 (n : nat) (z : Z) : bytes :=
  let digits := Decimal.format_d (Z.abs z) in
  let sign := if z <? 0 then lit "-" else [] in
  sign ++ replicate (n - length sign - length digits) Byte.x30 ++ digits.
Definition pad_ (n : nat) (z : Z) : bytes :=
  replicate (n - length (Decimal.format_d z)) Byte.x20 ++ Decimal.format_d z.
Definition toString (t : Z) : bytes :=
  Decimal.format_d (Z.quot t kMicroSecondsPerSecond) ++ lit "." ++
  pad0 6 (Z.rem t kMicroSecondsPerSecond).

(** [localtime] is that of the C library: null when the year is no [int]. *)
Record tm : Type := mkTm { tm_year : Z; tm_mon : Z; tm_mday : Z; tm_hour : Z; tm_min : Z; tm_sec : Z }.
Definition int_add (x y : Z) : outcome Z :=
  if (- 2 ^ 31 <=? x + y) && (x + y <? 2 ^ 31) then Ret (x + y) else Undef SignedOverflow.
(** [snprintf] keeps 31 characters of the text. *)
Definition toFormattedString (localtime : Z -> option tm) (showMicroseconds : bool) (t : Z) : outcome bytes :=
  match localtime (Z.quot t kMicroSecondsPerSecond) with
  | None => Undef NullPointer
  | Some d =>
      year ← int_add (tm_year d) 1900;
      mon ← int_add (tm_mon d) 1;
      let date := pad_ 4 year ++ pad0 2 mon ++ pad0 2 (tm_mday d) in
      let time := pad0 2 (tm_hour d) ++ lit ":" ++ pad0 2 (tm_min d) ++ lit ":" ++ pad0 2 (tm_sec d) in
      let micro := if showMicroseconds then lit "." ++ pad0 6 (Z.rem t kMicroSecondsPerSecond) else [] in
      Ret (take 31 (date ++ lit " " ++ time ++ micro))
  end.

(** A quarter of a second before and after the epoch, in UTC. *)
Example before_epoch : toString (-250000) = lit "0.-250000" /\ toString 250000 = lit "0.250000".
Proof. done. Qed.
Example after_epoch :
  toFormattedString (fun _ => Some (mkTm 70 0 1 0 0 0)) true 250000 = Ret (lit "19700101 00:00:00.250000").
Proof. done. Qed.

Lemma le_spec x y : le x y = true <-> x <= y.
Proof. unfold le, gt, lt. rewrite negb_true_iff, Z.ltb_ge. lia. Qed.

End Timestamp.

Module TimerQueue.

Section Callbacks.
Context {TimerCallback : Type}.

Record Timer : Type := mkTimer {
  m_callback : TimerCallback;
  m_expiration : Z;
  m_interval : Z;
  m_repeatCount : Z;
  m_sequence : Z;
  m_canceled : bool
}.

Record TimerId : Type := mkTimerId { timer_of : Z; sequence_of : Z }.

(** What a callback asks of the queue of its loop. *)
Inductive action : Type :=
| AddCopy (cb : TimerCallback) (at_ when interval repeatCount : Z)
| AddMove (cb : TimerCallback) (at_ when interval repeatCount : Z)
| Remove (id : TimerId)
| Cancel (id : TimerId) (off : bool).
Variable callback : TimerCallback -> list action.

(** [m_timers] is a [std::set] of entries (time, pointer), in order; an entry
    keeps the time its timer had when it was inserted.  [ran] lists the callbacks
    that ran. *)
Record TimerQueue : Type := mkQueue {
  heap : gmap Z Timer;
  m_timers : list (Z * Z);
  s_numCreated : Z;
  ran : list TimerCallback
}.
Definition make : TimerQueue := mkQueue ∅ [] 0 [].

Abbreviation QueueM := (M TimerQueue).

Definition set_timers (l : list (Z * Z)) : QueueM unit :=
  modify (fun q => mkQueue (heap q) l (s_numCreated q) (ran q)).
Definition put (p : Z) (t : Timer) : QueueM unit :=
  modify (fun q => mkQueue (<[p := t]> (heap q)) (m_timers q) (s_numCreated q) (ran q)).
Definition called (cb : TimerCallback) : QueueM unit :=
  modify (fun q => mkQueue (heap q) (m_timers q) (s_numCreated q) (ran q ++ [cb])).
Definition deref (p : Z) : QueueM Timer := fun q =>
  match heap q !! p with Some t => Ret (t, q) | None => Undef DanglingPointer end.

(** [operator<] of [std::pair<Timestamp, Timer*>]. *)
Definition entry_lt (a b : Z * Z) : bool :=
  Timestamp.lt (fst a) (fst b) || (negb (Timestamp.lt (fst b) (fst a)) && (snd a <? snd b)).
Fixpoint set_insert (e : Z * Z) (l : list (Z * Z)) : list (Z * Z) :=
  match l with
  | [] => [e]
  | x :: l' =>
      if entry_lt e x then e :: l
      else if entry_lt x e then x :: set_insert e l' else l
  end.

(** [new Timer(...)] at the address [p]. *)
Definition new_timer (p : Z) (cb : TimerCallback) (when interval repeatCount : Z) : QueueM unit :=
  modify (fun q => mkQueue
    (<[p := mkTimer cb when interval repeatCount (s_numCreated q + 1) false]> (heap q))
    (m_timers q) (s_numCreated q + 1) (ran q)).

Definition insert (p : Z) : QueueM unit :=
  let! t := deref p in
  let! q := get in
  set_timers (set_insert (m_expiration t, p) (m_timers q)).
Definition addTimerInLoop (p : Z) : QueueM unit := insert p.

(** [addTimer(const TimerCallback&, ...)]: the constructor is called without the
    repeat count, whose default is -1. *)
Definition addTimer_copy (p : Z) (cb : TimerCallback) (when interval repeatCount : Z)
    : QueueM TimerId :=
  do! new_timer p cb when interval (-1) in
  do! addTimerInLoop p in
  let! t := deref p in ret (mkTimerId p (m_sequence t)).
(** [addTimer(TimerCallback&&, ...)] *)
Definition addTimer_move (p : Z) (cb : TimerCallback) (when interval repeatCount : Z)
    : QueueM TimerId :=
  do! new_timer p cb when interval repeatCount in
  do! addTimerInLoop p in
  let! t := deref p in ret (mkTimerId p (m_sequence t)).

(** The timers of [EventLoop]: the forms that take a [const TimerCallback&] and
    those that take a [TimerCallback&&]; [now] is what [Timestamp::now()] says. *)
Definition runAt_copy (p : Z) (time : Z) (cb : TimerCallback) : QueueM TimerId :=
  addTimer_copy p cb time 0 1.
Definition runAfter_copy (p now delay : Z) (cb : TimerCallback) : QueueM TimerId :=
  let! time := lift (Timestamp.addTime now delay) in runAt_copy p time cb.
Definition runEvery_copy (p now interval : Z) (cb : TimerCallback) : QueueM TimerId :=
  let! time := lift (Timestamp.addTime now interval) in addTimer_copy p cb time interval (-1).
Definition runAt_move (p : Z) (time : Z) (cb : TimerCallback) : QueueM TimerId :=
  addTimer_move p cb time 0 1.
Definition runAfter_move (p now delay : Z) (cb : TimerCallback) : QueueM TimerId :=
  let! time := lift (Timestamp.addTime now delay) in runAt_move p time cb.
Definition runEvery_move (p now interval : Z) (cb : TimerCallback) : QueueM TimerId :=
  let! time := lift (Timestamp.addTime now interval) in addTimer_move p cb time interval (-1).

(** The first entry of that timer leaves the set; the timer is not deleted. *)
Fixpoint erase_timer (p : Z) (l : list (Z * Z)) : list (Z * Z) :=
  match l with
  | [] => []
  | e :: l' => if snd e =? p then l' else e :: erase_timer p l'
  end.
Definition removeTimer (id : TimerId) : QueueM unit :=
  let! q := get in set_timers (erase_timer (timer_of id) (m_timers q)).

Definition cancel_timer (off : bool) (t : Timer) : Timer :=
  mkTimer (m_callback t) (m_expiration t) (m_interval t) (m_repeatCount t) (m_sequence t) off.
Definition cancel (id : TimerId) (off : bool) : QueueM unit :=
  let! q := get in
  if existsb (fun e => snd e =? timer_of id) (m_timers q) then
    let! t := deref (timer_of id) in put (timer_of id) (cancel_timer off t)
  else ret tt.

Definition perform (a : action) : QueueM unit :=
  match a with
  | AddCopy cb p when interval repeatCount =>
      let! _ := addTimer_copy p cb when interval repeatCount in ret tt
  | AddMove cb p when interval repeatCount =>
      let! _ := addTimer_move p cb when interval repeatCount in ret tt
  | Remove id => removeTimer id
  | Cancel id off => cancel id off
  end.

(** [Timer::run]: after the callback the fields are read again. *)
Definition run (p : Z) : QueueM unit :=
  let! t := deref p in
  if m_canceled t then ret tt
  else
    do! called (m_callback t) in
    do! for_each (callback (m_callback t)) perform in
    let! t1 := deref p in
    let again (t : Timer) : QueueM unit :=
      let! e := lift (Timestamp.add (m_expiration t) (m_interval t)) in
      put p (mkTimer (m_callback t) e (m_interval t) (m_repeatCount t) (m_sequence t) (m_canceled t)) in
    if m_repeatCount t1 =? -1 then again t1
    else
      let! n := lift (Timestamp.add (m_repeatCount t1) (-1)) in
      let t2 := mkTimer (m_callback t1) (m_expiration t1) (m_interval t1) n (m_sequence t1)
                  (m_canceled t1) in
      do! put p t2 in
      if n =? 0 then ret tt else again t2.

(** An iterator is the entry it points to; erasing that entry invalidates it. *)
Fixpoint next_entry (e : Z * Z) (l : list (Z * Z)) : option (Z * Z) :=
  match l with
  | [] => None
  | x :: l' => if entry_lt e x then Some x else next_entry e l'
  end.
Definition has_entry (e : Z * Z) (l : list (Z * Z)) : bool := existsb (fun x => bool_decide (x = e)) l.

(** The loop of [doTimer] from the iterator [iter]; [None] is [end()].  Callbacks
    can keep adding timers that are due, hence the fuel. *)
Fixpoint timer_loop (fuel : nat) (now : Z) (iter : option (Z * Z)) : QueueM bool :=
  match fuel with
  | O => ret false
  | S fuel' =>
      match iter with
      | None => ret true
      | Some e =>
          let! t := deref (snd e) in
          if Timestamp.le (m_expiration t) now then
            do! run (snd e) in
            let! q := get in
            if negb (has_entry e (m_timers q)) then undefined DanglingPointer
            else
              let! t' := deref (snd e) in
              let next := next_entry e (m_timers q) in
              do! when (m_repeatCount t' =? 0)
                    (set_timers (List.filter (fun x => negb (bool_decide (x = e))) (m_timers q))) in
              timer_loop fuel' now next
          else ret true
      end
  end.
Definition doTimer (fuel : nat) (now : Z) : QueueM bool :=
  let! q := get in timer_loop fuel now (head (m_timers q)).

(** [~TimerQueue()] deletes the timers of the set. *)
Definition destroy (q : TimerQueue) : outcome (gmap Z Timer) :=
  foldl (fun h e => m ← h;
    match m !! snd e with Some _ => Ret (delete (snd e) m) | None => Undef DanglingPointer end)
    (Ret (heap q)) (m_timers q).

(** ** The order of the set *)
Lemma entry_lt_spec a b :
  entry_lt a b = true <-> fst a < fst b \/ (fst a = fst b /\ snd a < snd b).
Proof.
  unfold entry_lt, Timestamp.lt. rewrite orb_true_iff, andb_true_iff, negb_true_iff, !Z.ltb_lt, Z.ltb_ge.
  lia.
Qed.
Lemma entry_lt_false a b :
  entry_lt a b = false <-> fst b < fst a \/ (fst a = fst b /\ snd b <= snd a).
Proof.
  pose proof (entry_lt_spec a b) as H. destruct (entry_lt a b).
  - split; [done|]. destruct (proj1 H eq_refl); lia.
  - split; [|done]. intros _. destruct (Z.lt_trichotomy (fst a) (fst b)) as [?|[?|?]]; [|destruct (Z.lt_ge_cases (snd a) (snd b)); [|lia]|lia];
      discriminate (proj2 H ltac:(lia)).
Qed.
Definition before (a b : Z * Z) : Prop := entry_lt a b = true.

(** The invariant: the set is in order, each of its timers exists and is in it
    once. *)
Record wf (q : TimerQueue) : Prop := {
  wf_sorted : StronglySorted before (m_timers q);
  wf_heap : forall e, e ∈ m_timers q -> is_Some (heap q !! snd e);
  wf_once : NoDup (map snd (m_timers q))
}.

Lemma sorted_app_inv pre l x y :
  StronglySorted before (pre ++ l) -> x ∈ pre -> y ∈ l -> before x y.
Proof.
  induction pre as [|z pre IH]; [by intros _ ?%elem_of_nil|]. cbn.
  intros [Hs Hf]%StronglySorted_inv [->|Hx]%elem_of_cons Hy; [|by apply IH].
  rewrite List.Forall_forall in Hf. apply Hf, list_elem_of_In, elem_of_app. by right.
Qed.
Lemma sorted_app_r pre l : StronglySorted before (pre ++ l) -> StronglySorted before l.
Proof. induction pre as [|z pre IH]; [done|]. cbn. by intros [Hs _]%StronglySorted_inv; apply IH. Qed.

Lemma sorted_drop pre e l : StronglySorted before (pre ++ e :: l) -> StronglySorted before (pre ++ l).
Proof.
  induction pre as [|x pre IH]; cbn; intros [Hs Hf]%StronglySorted_inv; [done|].
  constructor; [by apply IH|]. rewrite List.Forall_forall in *. intros y Hy.
  apply Hf, in_app_iff. apply in_app_iff in Hy as [?|?]; [by left|right; by right].
Qed.
Lemma nodup_drop {A} (pre : list A) e l : NoDup (pre ++ e :: l) -> NoDup (pre ++ l).
Proof.
  rewrite !NoDup_app. intros (H1 & H2 & [_ H3]%NoDup_cons). split_and!; [done| |done].
  intros x Hx Hl. by apply (H2 x Hx), list_elem_of_further.
Qed.
Lemma filter_same {A} (f g : A -> bool) l :
  Forall (fun x => f x = g x) l -> List.filter f l = List.filter g l.
Proof. induction 1 as [|x l E _ IH]; cbn; [done|]. by rewrite E, IH. Qed.
Lemma flat_map_same {A B} (f g : A -> list B) l :
  Forall (fun x => f x = g x) l -> flat_map f l = flat_map g l.
Proof. induction 1 as [|x l E _ IH]; cbn; [done|]. by rewrite E, IH. Qed.

(** The iterator after [e]. *)
Lemma next_entry_ok pre e l :
  StronglySorted before (pre ++ e :: l) -> next_entry e (pre ++ e :: l) = head l.
Proof.
  intros Hs. assert (forall x, x ∈ pre -> entry_lt e x = false) as Hpre.
  { intros x Hx. pose proof (sorted_app_inv pre (e :: l) x e Hs Hx ltac:(apply list_elem_of_here)) as H.
    unfold before in H. apply entry_lt_spec in H. apply entry_lt_false. lia. }
  induction pre as [|x pre IH]; cbn in *.
  - rewrite (proj2 (entry_lt_false e e)) by lia. destruct l as [|y l]; [done|]. cbn.
    apply StronglySorted_inv in Hs as [_ Hf]. inversion Hf as [|? ? Hy]; subst. by rewrite Hy.
  - rewrite Hpre by apply list_elem_of_here. apply StronglySorted_inv in Hs as [Hs _].
    apply IH; [done|]. intros y Hy. by apply Hpre, list_elem_of_further.
Qed.

(** What one run leaves of a timer whose callback does not touch the queue. *)
Definition fired (t : Timer) : Timer :=
  if m_canceled t then t
  else if m_repeatCount t =? -1 then
    mkTimer (m_callback t) (m_expiration t + m_interval t) (m_interval t) (-1) (m_sequence t) false
  else
    mkTimer (m_callback t)
      (if m_repeatCount t =? 1 then m_expiration t else m_expiration t + m_interval t)
      (m_interval t) (m_repeatCount t - 1) (m_sequence t) false.

(** The numbers stay representable. *)
Definition in_range (t : Timer) : Prop :=
  - 2 ^ 63 <= m_expiration t + m_interval t < 2 ^ 63 /\ - 2 ^ 63 < m_repeatCount t < 2 ^ 63.

Lemma add_ok x y : - 2 ^ 63 <= x + y < 2 ^ 63 -> Timestamp.add x y = Ret (x + y).
Proof.
  intros H. unfold Timestamp.add.
  by rewrite (proj2 (Z.leb_le _ _)), (proj2 (Z.ltb_lt _ _)) by lia.
Qed.

Lemma run_ok p t q :
  heap q !! p = Some t -> callback (m_callback t) = [] -> in_range t ->
  exists q', run p q = Ret (tt, q') /\ heap q' = <[p := fired t]> (heap q) /\
    m_timers q' = m_timers q /\
    ran q' = ran q ++ (if m_canceled t then [] else [m_callback t]).
Proof.
  intros Hp Hcb [He Hr]. unfold run, fired. rewrite M_bind_eq. unfold deref at 1. rewrite Hp.
  destruct (m_canceled t) eqn:Hc.
  { exists q. split_and!; [done|by rewrite insert_id|done|by rewrite app_nil_r]. }
  rewrite M_bind_eq. cbn [called modify]. rewrite Hcb. rewrite M_bind_eq. cbn [for_each ret].
  rewrite M_bind_eq. unfold deref. cbn [heap]. rewrite Hp.
  destruct (Z.eqb_spec (m_repeatCount t) (-1)) as [E|E].
  - rewrite M_bind_eq, add_ok by lia. cbn. rewrite E, Hc. by eexists.
  - rewrite M_bind_eq, (add_ok (m_repeatCount t)) by lia. cbn [lift mbind outcome_bind].
    rewrite M_bind_eq. cbn [put modify]. change (m_repeatCount t + -1) with (m_repeatCount t - 1).
    destruct (Z.eqb_spec (m_repeatCount t - 1) 0), (Z.eqb_spec (m_repeatCount t) 1); try lia.
    + cbn. rewrite Hc. by eexists.
    + rewrite M_bind_eq. cbn [m_expiration m_interval]. rewrite add_ok by lia. cbn.
      rewrite Hc. eexists. split; [done|]. cbn. by rewrite insert_insert_eq.
Qed.

(** The state of the timer of an entry. *)
Definition expired (now : Z) (h : gmap Z Timer) (e : Z * Z) : bool :=
  match h !! snd e with Some t => m_expiration t <=? now | None => false end.
Definition finished (h : gmap Z Timer) (e : Z * Z) : bool :=
  match h !! snd e with Some t => m_repeatCount (fired t) =? 0 | None => false end.
Definition calls (h : gmap Z Timer) (e : Z * Z) : list TimerCallback :=
  match h !! snd e with
  | Some t => if m_canceled t then [] else [m_callback t]
  | None => []
  end.

(** The timers whose callbacks leave the queue alone. *)
Definition silent (h : gmap Z Timer) (e : Z * Z) : Prop :=
  exists t, h !! snd e = Some t /\ callback (m_callback t) = [] /\ in_range t.

Lemma filter_out_one (e : Z * Z) pre l :
  e ∉ pre -> e ∉ l ->
  List.filter (fun x => negb (bool_decide (x = e))) (pre ++ e :: l) = pre ++ l.
Proof.
  intros Hp Hl. assert (forall k, e ∉ k ->
    List.filter (fun x => negb (bool_decide (x = e))) k = k) as Hk.
  { induction k as [|x k IH]; intros Hx; [done|]. apply not_elem_of_cons in Hx as [H1 H2].
    cbn. rewrite bool_decide_false by done. cbn. by rewrite IH. }
  rewrite List.filter_app. cbn. rewrite bool_decide_true by done. cbn. by rewrite !Hk.
Qed.

Lemma alter_fired p t (h : gmap Z Timer) :
  h !! p = Some t -> <[p := fired t]> h = alter fired p h.
Proof.
  intros Hp. apply map_eq. intros i. destruct (decide (i = p)) as [->|Hi].
  - by rewrite lookup_insert_eq, lookup_alter_eq, Hp.
  - by rewrite lookup_insert_ne, lookup_alter_ne by congruence.
Qed.

(** One timer of the sweep: it runs, and the iterator moves on. *)
Lemma sweep_one pre e l q fuel now :
  m_timers q = pre ++ e :: l -> StronglySorted before (pre ++ e :: l) ->
  NoDup (map snd (pre ++ e :: l)) -> silent (heap q) e -> expired now (heap q) e = true ->
  exists q1, timer_loop (S fuel) now (Some e) q = timer_loop fuel now (head l) q1 /\
    heap q1 = alter fired (snd e) (heap q) /\
    m_timers q1 = (if finished (heap q) e then pre else pre ++ [e]) ++ l /\
    ran q1 = ran q ++ calls (heap q) e.
Proof.
  intros Hq Hs Hnd (t & Ht & Hcb & Hr) He. unfold expired, finished, calls in *. rewrite Ht in *.
  destruct (run_ok (snd e) t q Ht Hcb Hr) as (q1 & Hrun & Hh & Hm & Hran).
  assert (e ∉ pre /\ e ∉ l) as [Hpre Hl].
  { rewrite map_app in Hnd. apply NoDup_app in Hnd as (_ & Hd & Hn). cbn in Hn.
    apply NoDup_cons in Hn as [Hn _]. split; intros Hin; apply (list_elem_of_fmap_2 snd) in Hin.
    - apply (Hd _ Hin), list_elem_of_here.
    - done. }
  cbn [timer_loop]. rewrite M_bind_eq. unfold deref at 1. rewrite Ht.
  rewrite (proj2 (Timestamp.le_spec _ _)) by (by apply Z.leb_le).
  rewrite M_bind_eq, Hrun, M_bind_eq. cbn [get]. rewrite Hm, Hq.
  assert (has_entry e (pre ++ e :: l) = true) as ->.
  { unfold has_entry. rewrite existsb_app. cbn. rewrite bool_decide_true by done. by rewrite orb_true_r. }
  cbn [negb]. rewrite M_bind_eq. unfold deref at 1. rewrite Hh, lookup_insert_eq.
  rewrite next_entry_ok by done. rewrite M_bind_eq.
  assert (heap q1 = alter fired (snd e) (heap q)) as Halt by (by rewrite Hh, (alter_fired (snd e) t)).
  destruct (m_repeatCount (fired t) =? 0); cbn [when].
  - cbn [set_timers modify]. eexists. split_and!; [reflexivity|cbn..]; [done| |done].
    by apply filter_out_one.
  - cbn [ret]. exists q1. split_and!; [done|done| |done].
    by rewrite Hm, Hq, <- app_assoc.
Qed.

(** Firing a timer changes nothing that the sweep reads of another one. *)
Lemma fired_elsewhere (e : Z * Z) (k : list (Z * Z)) now (h : gmap Z Timer) :
  snd e ∉ map snd k ->
  Forall (fun x => expired now (alter fired (snd e) h) x = expired now h x /\
    finished (alter fired (snd e) h) x = finished h x /\
    calls (alter fired (snd e) h) x = calls h x /\
    (silent h x -> silent (alter fired (snd e) h) x)) k.
Proof.
  intros Hk. apply Forall_forall. intros x Hx.
  assert (alter fired (snd e) h !! snd x = h !! snd x) as E.
  { apply lookup_alter_ne. intros Hne. apply Hk. rewrite Hne. by apply list_elem_of_fmap_2. }
  unfold expired, finished, calls, silent. by rewrite E.
Qed.

(** The sweep from an iterator in the set: it stops at the first timer that is
    not due, and that is the only reason to stop. *)
Lemma sweep_all now l : forall pre q fuel,
  (length l < fuel)%nat ->
  m_timers q = pre ++ l -> StronglySorted before (pre ++ l) ->
  NoDup (map snd (pre ++ l)) -> Forall (silent (heap q)) l ->
  exists due rest q', l = due ++ rest /\
    timer_loop fuel now (head l) q = Ret (true, q') /\
    Forall (fun e => expired now (heap q) e = true) due /\
    match rest with [] => True | e :: _ => expired now (heap q) e = false end /\
    heap q' = foldl (fun h e => alter fired (snd e) h) (heap q) due /\
    m_timers q' = pre ++ List.filter (fun e => negb (finished (heap q) e)) due ++ rest /\
    ran q' = ran q ++ flat_map (calls (heap q)) due.
Proof.
  induction l as [|e l IH]; intros pre q fuel Hf Hq Hs Hnd Hsil; (destruct fuel as [|fuel]; [cbn in Hf; lia|]).
  { exists [], [], q. rewrite Hq. cbn. by rewrite !app_nil_r. }
  inversion Hsil as [|? ? He Hsl]; subst. destruct (expired now (heap q) e) eqn:Hx.
  2:{ exists [], (e :: l), q. cbn [head app foldl List.filter flat_map].
      split_and!; try done; [|by rewrite app_nil_r]. destruct He as (t & Ht & _).
      unfold expired in Hx. rewrite Ht in Hx. cbn [timer_loop]. rewrite M_bind_eq. unfold deref.
      rewrite Ht. destruct (Timestamp.le _ _) eqn:Hle; [|done].
      apply Timestamp.le_spec, Z.leb_le in Hle. congruence. }
  destruct (sweep_one pre e l q fuel now Hq Hs Hnd He Hx) as (q1 & Hrun & Hh & Hm & Hran).
  assert (snd e ∉ map snd l) as Hel.
  { rewrite map_app in Hnd. apply NoDup_app in Hnd as (_ & _ & Hn). by apply NoDup_cons in Hn as [? _]. }
  pose proof (fired_elsewhere e l now (heap q) Hel) as Hsame. rewrite <- Hh in Hsame.
  destruct (IH (if finished (heap q) e then pre else pre ++ [e]) q1 fuel)
    as (due & rest & q' & -> & Hl & Hdue & Hrest & Hh' & Hm' & Hr'); [cbn in Hf; lia|done|..].
  { destruct (finished _ _); [by apply (sorted_drop pre e)|by rewrite <- app_assoc]. }
  { destruct (finished _ _); [|by rewrite <- app_assoc]. rewrite map_app in *. by eapply nodup_drop. }
  { eapply Forall_impl; [apply Forall_and; split; [exact Hsl|exact Hsame]|]. intros x [? Hxs]. by apply Hxs. }
  exists (e :: due), rest, q'. apply Forall_app in Hsame as [Hs1 Hs2]. split_and!.
  - done.
  - by cbn [head]; rewrite Hrun.
  - constructor; [done|]. eapply Forall_impl; [apply Forall_and; split; [exact Hdue|exact Hs1]|].
    intros x [? [<- _]]. done.
  - destruct rest as [|x rest]; [done|]. apply Forall_cons_1 in Hs2 as [[<- _] _]. done.
  - cbn. by rewrite <- Hh.
  - rewrite Hm'. cbn [List.filter]. rewrite (filter_same _ (fun e => negb (finished (heap q) e)) due).
    + destruct (finished (heap q) e); cbn; [done|]. by rewrite <- app_assoc.
    + eapply Forall_impl; [exact Hs1|]. intros x (_ & -> & _). done.
  - rewrite Hr', Hran. cbn [flat_map]. rewrite <- app_assoc. do 2 f_equal.
    apply flat_map_same. eapply Forall_impl; [exact Hs1|]. by intros x (_ & _ & -> & _).
Qed.

(** ** The invariant is kept *)
Lemma set_insert_elem e l x : x ∈ set_insert e l -> x = e \/ x ∈ l.
Proof.
  induction l as [|y l IH]; cbn; [by intros ->%list_elem_of_singleton; left|].
  destruct (entry_lt e y); [by intros [->|?]%elem_of_cons; auto|].
  destruct (entry_lt y e); [|by right].
  intros [->|Hx]%elem_of_cons; [right; apply list_elem_of_here|].
  destruct (IH Hx); [by left|right; by apply list_elem_of_further].
Qed.
Lemma before_trans a b c : before a b -> before b c -> before a c.
Proof. unfold before. rewrite !entry_lt_spec. lia. Qed.
Lemma set_insert_sorted e l :
  snd e ∉ map snd l -> StronglySorted before l -> StronglySorted before (set_insert e l).
Proof.
  induction l as [|y l IH]; intros Hn Hs; cbn; [by repeat constructor|].
  pose proof Hs as [Hl Hy]%StronglySorted_inv. cbn in Hn. apply not_elem_of_cons in Hn as [Hne Hn].
  destruct (entry_lt e y) eqn:E1.
  { constructor; [done|]. constructor; [done|]. eapply Forall_impl; [exact Hy|].
    intros x. by apply before_trans. }
  destruct (entry_lt y e) eqn:E2.
  - constructor; [by apply IH|]. apply Forall_forall. intros x [->|Hx]%set_insert_elem; [done|].
    by apply (proj1 (Forall_forall _ _) Hy).
  - apply entry_lt_false in E1, E2. lia.
Qed.
Lemma set_insert_once e l :
  snd e ∉ map snd l -> NoDup (map snd l) -> NoDup (map snd (set_insert e l)).
Proof.
  induction l as [|y l IH]; intros Hn Hd; cbn; [by apply NoDup_singleton|].
  cbn in *. apply not_elem_of_cons in Hn as [Hne Hn]. pose proof Hd as [Hy Hl]%NoDup_cons.
  destruct (entry_lt e y); [cbn; apply NoDup_cons; split; [|done]; by apply not_elem_of_cons|].
  destruct (entry_lt y e); [|done]. cbn. apply NoDup_cons. split; [|by apply IH].
  intros (x & Hx & [->|Hin]%set_insert_elem)%list_elem_of_fmap; [congruence|].
  apply Hy. rewrite Hx. by apply list_elem_of_fmap_2.
Qed.
Lemma erase_timer_eq p l :
  (exists pre e post, l = pre ++ e :: post /\ snd e = p /\ p ∉ map snd pre /\
    erase_timer p l = pre ++ post) \/ (p ∉ map snd l /\ erase_timer p l = l).
Proof.
  induction l as [|y l IH]; cbn; [right; split; [apply not_elem_of_nil|done]|].
  destruct (Z.eqb_spec (snd y) p) as [E|E].
  { left. exists [], y, l. split_and!; [done|done|apply not_elem_of_nil|done]. }
  destruct IH as [(pre & e & post & -> & <- & Hp & Hr)|[Hn Hr]]; rewrite Hr.
  - left. exists (y :: pre), e, post. split_and!; [done|done| |done]. cbn. apply not_elem_of_cons. auto.
  - right. split; [|done]. apply not_elem_of_cons. auto.
Qed.
Lemma filter_subset {A} (f : A -> bool) l x : x ∈ List.filter f l -> x ∈ l.
Proof. rewrite !list_elem_of_In, List.filter_In. tauto. Qed.
Lemma filter_sorted f (l k : list (Z * Z)) :
  StronglySorted before (l ++ k) -> StronglySorted before (List.filter f l ++ k).
Proof.
  induction l as [|x l IH]; intros Hs; [done|]. apply StronglySorted_inv in Hs as [Hs Hf].
  specialize (IH Hs). cbn. destruct (f x); [|done]. cbn. constructor; [done|].
  apply Forall_forall. intros y Hy. apply (proj1 (Forall_forall _ _) Hf).
  apply elem_of_app in Hy as [Hy%filter_subset|Hy]; apply elem_of_app; auto.
Qed.
Lemma filter_once f (l k : list (Z * Z)) :
  NoDup (map snd (l ++ k)) -> NoDup (map snd (List.filter f l ++ k)).
Proof.
  induction l as [|x l IH]; intros Hd; [done|]. cbn in Hd. apply NoDup_cons in Hd as [Hx Hd].
  specialize (IH Hd). cbn. destruct (f x); [|done]. cbn. apply NoDup_cons. split; [|done].
  intros (y & Hy & Hin)%list_elem_of_fmap. apply Hx. rewrite Hy. apply list_elem_of_fmap_2.
  apply elem_of_app in Hin as [Hin%filter_subset|Hin]; apply elem_of_app; auto.
Qed.
Lemma fired_is_Some (due : list (Z * Z)) : forall (h : gmap Z Timer) p,
  is_Some (h !! p) -> is_Some (foldl (fun h e => alter fired (snd e) h) h due !! p).
Proof.
  induction due as [|e due IH]; intros h p Hp; [done|]. cbn. apply IH.
  destruct (decide (snd e = p)) as [<-|Hne]; [|by rewrite lookup_alter_ne].
  rewrite lookup_alter_eq. by apply fmap_is_Some.
Qed.

(** What both forms of [addTimer] do with the timer they make. *)
Definition added (p : Z) (t : Timer) (q : TimerQueue) : TimerQueue :=
  mkQueue (<[p := t]> (heap q)) (set_insert (m_expiration t, p) (m_timers q)) (s_numCreated q + 1) (ran q).
Lemma add_ok_eq p cb when interval n q :
  (do! new_timer p cb when interval n in
   do! addTimerInLoop p in let! t := deref p in ret (mkTimerId p (m_sequence t))) q =
  Ret (mkTimerId p (s_numCreated q + 1),
       added p (mkTimer cb when interval n (s_numCreated q + 1) false) q).
Proof.
  rewrite M_bind_eq. cbn [new_timer modify]. rewrite M_bind_eq. unfold addTimerInLoop, insert, deref.
  rewrite M_bind_eq. cbn [heap]. rewrite lookup_insert_eq. cbn. by rewrite lookup_insert_eq.
Qed.

Lemma added_wf p t q : wf q -> heap q !! p = None -> wf (added p t q).
Proof.
  intros [Hs Hh Hd] Hp.
  assert (p ∉ map snd (m_timers q)) as Hn.
  { intros (e & -> & He)%list_elem_of_fmap. destruct (Hh e He). congruence. }
  split; cbn.
  - by apply set_insert_sorted.
  - intros e [->|He]%set_insert_elem; cbn; [rewrite lookup_insert_eq; by eexists|].
    destruct (Hh e He) as [t' Ht]. rewrite lookup_insert_ne by congruence. by eexists.
  - by apply set_insert_once.
Qed.

Lemma remove_wf id q : wf q -> exists q', removeTimer id q = Ret (tt, q') /\ wf q' /\
  heap q' = heap q /\ timer_of id ∉ map snd (m_timers q').
Proof.
  intros [Hs Hh Hd]. eexists. split; [reflexivity|]. cbn.
  destruct (erase_timer_eq (timer_of id) (m_timers q)) as [(pre & e & post & El & Ee & Hp & ->)|[Hn ->]];
    [|by repeat split].
  rewrite El in *. split_and!; [split; cbn|done|].
  - by eapply sorted_drop.
  - intros x Hx. apply Hh. rewrite elem_of_app, elem_of_cons in *. tauto.
  - rewrite map_app in *. by eapply nodup_drop.
  - rewrite map_app in *. cbn in Hd. apply NoDup_app in Hd as (_ & _ & [Hd _]%NoDup_cons).
    rewrite Ee in Hd. rewrite elem_of_app. tauto.
Qed.

Lemma cancel_wf id off q : wf q -> exists q', cancel id off q = Ret (tt, q') /\ wf q' /\
  m_timers q' = m_timers q /\
  (timer_of id ∈ map snd (m_timers q) -> heap q' = alter (cancel_timer off) (timer_of id) (heap q)).
Proof.
  intros [Hs Hh Hd]. unfold cancel. rewrite M_bind_eq. cbn [get].
  destruct (existsb _ _) eqn:E.
  - apply existsb_exists in E as (e & He & Ee%Z.eqb_eq). apply list_elem_of_In in He.
    destruct (Hh e He) as [t Ht]. rewrite Ee in Ht. rewrite M_bind_eq. unfold deref. rewrite Ht.
    eexists. split; [reflexivity|]. cbn. split_and!; [split; cbn; try done|done|].
    + intros x Hx. destruct (decide (timer_of id = snd x)) as [->|Hne];
        [rewrite lookup_insert_eq; by eexists|]. rewrite lookup_insert_ne by done. by apply Hh.
    + intros _. apply map_eq. intros i. destruct (decide (timer_of id = i)) as [<-|Hne].
      * by rewrite lookup_insert_eq, lookup_alter_eq, Ht.
      * by rewrite lookup_insert_ne, lookup_alter_ne.
  - exists q. split_and!; [done|by split|done|]. intros (e & Ee & He)%list_elem_of_fmap.
    assert (existsb (fun e => snd e =? timer_of id) (m_timers q) = true); [|congruence].
    apply existsb_exists. exists e. split; [by apply list_elem_of_In|]. apply Z.eqb_eq. congruence.
Qed.

Lemma swept_wf q q' due rest :
  wf q -> m_timers q = due ++ rest ->
  heap q' = foldl (fun h e => alter fired (snd e) h) (heap q) due ->
  m_timers q' = List.filter (fun e => negb (finished (heap q) e)) due ++ rest -> wf q'.
Proof.
  intros [Hs Hh Hd] El Hh' Hm. rewrite El in Hs, Hh, Hd. split; rewrite Hm.
  - by apply filter_sorted.
  - intros e He. rewrite Hh'. apply fired_is_Some, Hh.
    apply elem_of_app in He as [He%filter_subset|He]; apply elem_of_app; auto.
  - by apply filter_once.
Qed.


(** The sweeps of successive iterations of the loop. *)
Fixpoint sweeps (fuel : nat) (nows : list Z) : QueueM bool :=
  match nows with
  | [] => ret true
  | now :: nows' =>
      let! done := doTimer fuel now in if done : bool then sweeps fuel nows' else ret false
  end.

Lemma sweeps_empty nows q : m_timers q = [] -> sweeps 2 nows q = Ret (true, q).
Proof.
  intros Hq. induction nows as [|now nows IH]; [done|]. cbn [sweeps]. rewrite M_bind_eq.
  unfold doTimer. rewrite M_bind_eq. cbn [get]. by rewrite Hq.
Qed.

(** One timer that is due, alone in the queue. *)
Lemma lone_sweep p t now q :
  m_timers q = [(m_expiration t, p)] -> heap q !! p = Some t ->
  callback (m_callback t) = [] -> in_range t -> m_expiration t <= now ->
  exists q', doTimer 2 now q = Ret (true, q') /\ heap q' !! p = Some (fired t) /\
    m_timers q' = (if m_repeatCount (fired t) =? 0 then [] else [(m_expiration t, p)]) /\
    ran q' = ran q ++ (if m_canceled t then [] else [m_callback t]).
Proof.
  intros Hq Hp Hcb Hr Hle. destruct (sweep_one [] (m_expiration t, p) [] q 1 now)
    as (q' & E & Hh & Hm & Hran); cbn [app]; try done.
  - by repeat constructor.
  - apply NoDup_singleton.
  - by exists t.
  - unfold expired. cbn. rewrite Hp. by apply Z.leb_le.
  - exists q'. unfold doTimer. rewrite M_bind_eq. cbn [get]. rewrite Hq. cbn [head]. rewrite E.
    unfold finished, calls in *. cbn [snd] in *. rewrite Hp in *. split_and!; [done| | |done].
    + by rewrite Hh, lookup_alter_eq, Hp.
    + rewrite Hm, app_nil_r. by destruct (_ =? 0).
Qed.

(** What a caller of [runAt] gets depends on how it passes the callback.  A
    temporary runs at the first sweep at or after its time and never again; a
    named function, for which the repeat count is dropped on the way to the timer,
    runs at every sweep from its time on. *)
Theorem runAt_forms p time cb nows :
  callback cb = [] -> - 2 ^ 63 <= time < 2 ^ 63 -> Forall (fun now => time <= now) nows ->
  nows <> [] ->
  (exists q, (let! _ := runAt_move p time cb in sweeps 2 nows) make = Ret (true, q) /\
     ran q = [cb] /\ m_timers q = []) /\
  (exists q, (let! _ := runAt_copy p time cb in sweeps 2 nows) make = Ret (true, q) /\
     ran q = map (fun _ => cb) nows /\ m_timers q = [(time, p)]).
Proof.
  intros Hcb Ht Hall Hne. split.
  - destruct nows as [|now nows]; [done|]. apply Forall_cons_1 in Hall as [Hnow _].
    rewrite M_bind_eq. unfold runAt_move, addTimer_move. rewrite add_ok_eq. cbn [sweeps].
    change (s_numCreated make + 1) with 1. rewrite M_bind_eq.
    destruct (lone_sweep p (mkTimer cb time 0 1 1 false) now
      (added p (mkTimer cb time 0 1 1 false) make)) as (q & -> & _ & Hm & Hr); try done.
    { cbn. by rewrite lookup_insert_eq. }
    { unfold in_range. cbn. lia. }
    exists q. by rewrite (sweeps_empty nows q Hm).
  - rewrite M_bind_eq. unfold runAt_copy, addTimer_copy. rewrite add_ok_eq.
    set (t := mkTimer cb time 0 (-1) 1 false). change (mkTimer cb time 0 (-1) (s_numCreated make + 1) false) with t.
    assert (forall q, m_timers q = [(time, p)] -> heap q !! p = Some t ->
      exists q', sweeps 2 nows q = Ret (true, q') /\ ran q' = ran q ++ map (fun _ => cb) nows /\
        m_timers q' = [(time, p)]) as Hgo.
    { clear Hne. induction Hall as [|now nows Hnow _ IH]; intros q Hq Hp.
      { exists q. by rewrite app_nil_r. }
      cbn [sweeps]. rewrite M_bind_eq.
      destruct (lone_sweep p t now q Hq Hp Hcb) as (q1 & -> & Hp1 & Hm1 & Hr1); [unfold in_range; cbn; lia|done|].
      destruct (IH q1 Hm1) as (q2 & E & Hr2 & Hm2).
      { rewrite Hp1. unfold fired. cbn. by rewrite Z.add_0_r. }
      exists q2. rewrite E, Hr2, Hr1. split_and!; [done|by rewrite <- app_assoc|done]. }
    destruct (Hgo (added p t make)) as (q & E & Hr & Hm); [done|cbn; by rewrite lookup_insert_eq|].
    by exists q.
Qed.

(** What the program does with the queue between two sweeps, and the sweeps. *)
Inductive step : TimerQueue -> TimerQueue -> Prop :=
| step_copy p cb when interval n q id q' : heap q !! p = None ->
    addTimer_copy p cb when interval n q = Ret (id, q') -> step q q'
| step_move p cb when interval n q id q' : heap q !! p = None ->
    addTimer_move p cb when interval n q = Ret (id, q') -> step q q'
| step_remove id q q' : removeTimer id q = Ret (tt, q') -> step q q'
| step_cancel id off q q' : cancel id off q = Ret (tt, q') -> step q q'
| step_doTimer now q q' : Forall (silent (heap q)) (m_timers q) ->
    doTimer (S (length (m_timers q))) now q = Ret (true, q') -> step q q'.

Lemma step_wf qa qb : step qa qb -> wf qa -> wf qb.
Proof.
  intros [p cb w i n q id q' Hp H|p cb w i n q id q' Hp H|id q q' H|id off q q' H|now q q' Hsil H] Hwf.
  - unfold addTimer_copy in H. rewrite add_ok_eq in H. injection H as <- <-. by apply added_wf.
  - unfold addTimer_move in H. rewrite add_ok_eq in H. injection H as <- <-. by apply added_wf.
  - destruct (remove_wf id _ Hwf) as (q1 & E & ? & _). congruence.
  - destruct (cancel_wf id off _ Hwf) as (q1 & E & ? & _). congruence.
  - pose proof Hwf as [Hs Hh Hd].
    destruct (sweep_all now (m_timers q) [] q (S (length (m_timers q))))
      as (due & rest & q1 & El & Hl & _ & _ & Hh' & Hm & _); try done; [lia|].
    unfold doTimer in H. rewrite M_bind_eq in H. cbn [get] in H.
    rewrite Hl in H. injection H as <-. by eapply swept_wf.
Qed.

Lemma destroy_deletes : forall l (h : gmap Z Timer),
  NoDup (map snd l) -> (forall e, e ∈ l -> is_Some (h !! snd e)) ->
  exists h', foldl (fun (h : outcome (gmap Z Timer)) (e : Z * Z) => m ← h;
      match m !! snd e with Some _ => Ret (delete (snd e) m) | None => Undef DanglingPointer end)
    (Ret h) l = Ret h' /\
    forall p, h' !! p = if bool_decide (p ∈ map snd l) then None else h !! p.
Proof.
  induction l as [|e l IH]; intros h Hd Hh; cbn -[delete].
  { exists h. split; [done|]. intros p. by rewrite bool_decide_false by apply not_elem_of_nil. }
  destruct (Hh e (list_elem_of_here _ _)) as [t Ht]. rewrite Ht. cbn in Hd.
  apply NoDup_cons in Hd as [He Hd]. destruct (IH (delete (snd e) h) Hd) as (h' & E & Hp).
  { intros x Hx. rewrite lookup_delete_ne; [by apply Hh, list_elem_of_further|].
    intros Hne. apply He. rewrite Hne. by apply list_elem_of_fmap_2. }
  exists h'. split; [done|]. intros p. rewrite Hp. destruct (decide (p = snd e)) as [->|Hne].
  - rewrite lookup_delete_eq. rewrite (bool_decide_true (_ ∈ _ :: _)) by apply list_elem_of_here.
    by destruct (bool_decide _).
  - rewrite lookup_delete_ne by done. repeat case_bool_decide; rewrite ?elem_of_cons in *; tauto.
Qed.


End Callbacks.

(** ** Concrete queues *)
Module Demo.

(** The callback [2] takes its own timer, at the address 8, out of the queue. *)
Definition callback (cb : Z) : list (@action Z) :=
  if cb =? 2 then [Remove (mkTimerId 8 1)] else [].

Definition t0 : TimerQueue := (* every 100 microseconds from 0 on; once at 10 *)
  added 16 (mkTimer (1 : Z) 10 50 1 2 false) (added 8 (mkTimer 0 0 100 (-1) 1 false) make).

(** The set orders timers by the time they were inserted with: a timer that is due
    behind a repeating one that is not is left waiting. *)
Example due_timer_waits :
  match (let! _ := doTimer callback 5 5 in doTimer callback 5 60) t0 with
  | Ret (_, q) => ran q = [0] /\ m_timers q = [(0, 8); (10, 16)] /\
      expired 60 (heap q) (10, 16) = true
  | _ => False
  end.
Proof. vm_compute. by split_and!. Qed.

(** A callback that removes its own timer invalidates the iterator of the sweep. *)
Example self_removal :
  (let! _ := addTimer_move 8 2 10 0 1 in doTimer callback 5 20) make = Undef DanglingPointer.
Proof. by vm_compute. Qed.

End Demo.


Lemma runAt_forms_witness :
  exists q, (let! _ := runAt_copy 8 10 0 in sweeps Demo.callback 2 [20; 30]) make = Ret (true, q) /\
     ran q = [0; 0] /\ m_timers q = [(10, 8)].
Proof.
  apply (runAt_forms Demo.callback 8 10 0 [20; 30]); [done|lia|repeat constructor; lia|done].
Defined.


End TimerQueue.
