(* ===== verification/Servers.v ===== *)
(** * The server's connections

    [Acceptor] is net/Acceptor.* with the [accept] of net/Sockets.cpp;
    [TcpServer] is net/TcpServer.*: how an accepted descriptor becomes a
    [TcpConnection] of one of the loops, and how a connection that was closed is
    taken off the map and destroyed.  The threads meet in the queues of the
    loops, each of which is first in, first out. *)
From stdpp Require Import sorting.
From S2P Require Import Prelude Buffers Channels Protocol Connections Json Loops.

Module Acceptor.

Definition EMFILE : Z := 24.

(** The errors [sockets::accept] takes for granted: EAGAIN, ECONNABORTED, EINTR,
    EPROTO, EPERM and EMFILE.  Any other one is a fatal log record. *)
Definition expected_error (savedErrno : Z) : bool :=
  bool_decide (savedErrno ∈ [11; 103; 4; 71; 1; EMFILE]).

(** What the acceptor asks of the kernel and of its owner. *)
Inductive event : Type :=
| EvListen
| EvNewConnection (connfd : Z)
| EvClose (fd : Z)
| EvChannelRemove
| EvAccept (fd : Z)
| EvOpenIdle (fd : Z).

Record Acceptor : Type := mkAcceptor {
  m_acceptChannel : Channel.Channel;
  m_newConnectionCallback : bool;     (* whether one is set *)
  m_listenning : bool;
  m_idleFd : Z;
  log : list event
}.
Definition make (loop sockfd idleFd : Z) : Acceptor :=
  mkAcceptor (Channel.setCallback Channel.ReadCallback (Channel.make loop sockfd)) false false idleFd [].

Definition emit (e : event) : M Acceptor unit :=
  modify (fun a => mkAcceptor (m_acceptChannel a) (m_newConnectionCallback a) (m_listenning a)
                     (m_idleFd a) (log a ++ [e])).
Definition set_idleFd (fd : Z) : M Acceptor unit :=
  modify (fun a => mkAcceptor (m_acceptChannel a) (m_newConnectionCallback a) (m_listenning a)
                     fd (log a)).
Definition setNewConnectionCallback (a : Acceptor) : Acceptor :=
  mkAcceptor (m_acceptChannel a) true (m_listenning a) (m_idleFd a) (log a).

Definition listen : M Acceptor unit :=
  do! emit EvListen in
  modify (fun a => mkAcceptor (Channel.enable_read_bits (m_acceptChannel a))
                     (m_newConnectionCallback a) true (m_idleFd a) (log a)).

(** [~Acceptor()] *)
Definition destroy : M Acceptor unit :=
  do! modify (fun a => mkAcceptor (Channel.disable_all_bits (m_acceptChannel a))
                (m_newConnectionCallback a) (m_listenning a) (m_idleFd a) (log a)) in
  do! emit EvChannelRemove in
  let! a := get in emit (EvClose (m_idleFd a)).

(** The kernel's answers: to [accept4], and for a process out of descriptors to
    the second [accept] and to [open]. *)
Inductive accept_result : Type := Accepted (connfd : Z) | AcceptError (err : Z).

Definition accept (r : accept_result) : M Acceptor Z :=
  match r with
  | Accepted connfd => do! emit (EvAccept connfd) in ret connfd
  | AcceptError e => if expected_error e then ret (-1) else undefined NullPointer
  end.
Definition errno (r : accept_result) : Z := match r with AcceptError e => e | Accepted _ => 0 end.

Definition handleRead (r : accept_result) (second idle : Z) : M Acceptor unit :=
  let! connfd := accept r in
  if 0 <=? connfd then
    let! a := get in
    if m_newConnectionCallback a then emit (EvNewConnection connfd) else emit (EvClose connfd)
  else
    when (errno r =? EMFILE)
      (let! a := get in
       do! emit (EvClose (m_idleFd a)) in
       do! set_idleFd second in
       do! emit (EvAccept second) in
       do! emit (EvClose second) in
       do! set_idleFd idle in
       emit (EvOpenIdle idle)).

End Acceptor.

Module TcpServer.

(** [m_connections] maps a name to a [shared_ptr], [None] after its [reset]. *)
Record TcpServer : Type := mkServer {
  m_loop : Z;
  m_hostport : bytes;
  m_name : bytes;
  m_pool : option EventLoopThreadPool.EventLoopThreadPool;
  m_writeCompleteCallback : bool;
  m_started : bool;
  m_nextConnId : Z;
  m_connections : gmap bytes (option Z)
}.
Definition make (loop : Z) (hostport name : bytes) : TcpServer :=
  mkServer loop hostport name None false false 1 ∅.

(** What the loops have been asked to run. *)
Inductive task : Type :=
| Establish (c : Z)       (* TcpConnection::connectEstablished *)
| Destroy (c : Z)         (* TcpConnection::connectDestroyed *)
| Remove (c : Z)          (* TcpServer::removeConnectionInLoop *)
| Listen.                 (* Acceptor::listen *)
#[export] Instance task_eq_dec : EqDecision task.
Proof. solve_decision. Defined.

(** A connection, with how often the two functions of its life have run. *)
Record Conn : Type := mkConn {
  name : bytes;
  c_loop : Z;
  body : TcpConnection.World;
  established : nat;
  destroyed : nat
}.

Record World : Type := mkWorld {
  server : TcpServer;
  heap : gmap Z Conn;
  next_ptr : Z;
  queues : gmap Z (list task)
}.
Definition world (s : TcpServer) : World := mkWorld s ∅ 1 ∅.

Definition set_server (f : TcpServer -> TcpServer) : M World unit :=
  modify (fun w => mkWorld (f (server w)) (heap w) (next_ptr w) (queues w)).
Definition with_connections (m : gmap bytes (option Z)) (s : TcpServer) : TcpServer :=
  mkServer (m_loop s) (m_hostport s) (m_name s) (m_pool s) (m_writeCompleteCallback s)
    (m_started s) (m_nextConnId s) m.
Definition with_pool (p : option EventLoopThreadPool.EventLoopThreadPool) (b : bool) (s : TcpServer)
    : TcpServer :=
  mkServer (m_loop s) (m_hostport s) (m_name s) p (m_writeCompleteCallback s) b
    (m_nextConnId s) (m_connections s).
Definition with_nextConnId (i : Z) (s : TcpServer) : TcpServer :=
  mkServer (m_loop s) (m_hostport s) (m_name s) (m_pool s) (m_writeCompleteCallback s)
    (m_started s) i (m_connections s).
Definition setWriteCompleteCallback (s : TcpServer) : TcpServer :=
  mkServer (m_loop s) (m_hostport s) (m_name s) (m_pool s) true
    (m_started s) (m_nextConnId s) (m_connections s).

Definition self : M World TcpServer := gets server.
Definition deref (c : Z) : M World Conn := fun w =>
  match heap w !! c with Some k => Ret (k, w) | None => Undef DanglingPointer end.
Definition put (c : Z) (k : Conn) : M World unit :=
  modify (fun w => mkWorld (server w) (<[c := k]> (heap w)) (next_ptr w) (queues w)).
Definition queue_of (l : Z) (w : World) : list task := default [] (queues w !! l).
Definition set_queue (l : Z) (q : list task) : M World unit :=
  modify (fun w => mkWorld (server w) (heap w) (next_ptr w) (<[l := q]> (queues w))).
Definition queueInLoop (l : Z) (t : task) : M World unit :=
  let! w := get in set_queue l (queue_of l w ++ [t]).

(** [here] is the loop of the running thread. *)
Definition assertInLoopThread (here l : Z) : M World unit :=
  if here =? l then ret tt else undefined NullPointer.

(** [":%s#%d"] into [char[32]]: at most 31 characters are kept. *)
Definition conn_name (s : TcpServer) (id : Z) : bytes :=
  m_name s ++ take 31 (lit ":" ++ m_hostport s ++ lit "#" ++ Decimal.format_d id).

Definition removeConnectionInLoop (here c : Z) : M World unit :=
  let! s := self in
  do! assertInLoopThread here (m_loop s) in
  let! k := deref c in
  match m_connections s !! name k with
  | None => ret tt
  | Some _ =>
      do! set_server (with_connections (delete (name k) (m_connections s))) in
      queueInLoop (c_loop k) (Destroy c)
  end.

(** The close callback of a connection. *)
Definition removeConnection (here c : Z) : M World unit :=
  let! s := self in
  if here =? m_loop s then removeConnectionInLoop here c else queueInLoop (m_loop s) (Remove c).

Definition closes (b : TcpConnection.World) : nat :=
  TcpConnection.count TcpConnection.is_close (TcpConnection.log b).
Definition set_body (b : TcpConnection.World) (k : Conn) : Conn :=
  mkConn (name k) (c_loop k) b (established k) (destroyed k).
Definition ran (t : task) (k : Conn) : Conn :=
  match t with
  | Establish _ => mkConn (name k) (c_loop k) (body k) (S (established k)) (destroyed k)
  | Destroy _ => mkConn (name k) (c_loop k) (body k) (established k) (S (destroyed k))
  | _ => k
  end.

(** An operation of the connection [c]; when it is closed by it, the close
    callback is its last call. *)
Definition operate (here c : Z) (o : TcpConnection.op) : M World unit :=
  let! k := deref c in
  let! r := lift (TcpConnection.exec o (body k)) in
  do! put c (set_body (snd r) k) in
  when (closes (body k) <? closes (snd r))%nat (removeConnection here c).

(** [ok] is what the poller answers to [enableReading]. *)
Definition perform (here : Z) (ok : bool) (t : task) : M World unit :=
  match t with
  | Establish c =>
      let! k := deref c in
      do! put c (ran t k) in operate here c (TcpConnection.OpEstablished ok)
  | Destroy c =>
      let! k := deref c in
      do! put c (ran t k) in operate here c TcpConnection.OpDestroyed
  | Remove c => removeConnectionInLoop here c
  | Listen => ret tt
  end.

Definition runInLoop (here l : Z) (ok : bool) (t : task) : M World unit :=
  if here =? l then perform here ok t else queueInLoop l t.

(** The loop [l] runs the first task of its queue. *)
Definition runTask (l : Z) (ok : bool) : M World unit :=
  let! w := get in
  match queue_of l w with
  | [] => ret tt
  | t :: q => do! set_queue l q in perform l ok t
  end.

(** The loops of the threads are [newLoop 0], [newLoop 1] and so on. *)
Definition start (here workerThreadCount : Z) (newLoop : nat -> Z) : M World unit :=
  let! s := self in
  if m_started s then ret tt
  else
    do! assertInLoopThread here (m_loop s) in
    let t := EventLoopThreadPool.init (Some (m_loop s)) workerThreadCount EventLoopThreadPool.make in
    do! set_server (with_pool (Some (snd (EventLoopThreadPool.start newLoop false t))) false) in
    do! runInLoop here (m_loop s) true Listen in
    set_server (fun s => with_pool (m_pool s) true s).

(** The entries of the map in the order of their keys. *)
Definition name_le (a b : bytes * option Z) : Prop := Json.string_lt (fst b) (fst a) = false.
#[export] Instance name_le_dec : RelDecision name_le.
Proof. intros a b. unfold name_le. apply _. Defined.
Definition entries (m : gmap bytes (option Z)) : list (bytes * option Z) :=
  merge_sort name_le (map_to_list m).

(** The entries stay in the map, with a null pointer each. *)
Definition stop (here : Z) : M World unit :=
  let! s := self in
  if negb (m_started s) then ret tt
  else
    do! for_each (entries (m_connections s)) (fun e =>
          match snd e with
          | None => undefined NullPointer
          | Some c =>
              let! k := deref c in
              do! set_server (fun s => with_connections (<[fst e := None]> (m_connections s)) s) in
              runInLoop here (c_loop k) true (Destroy c)
          end) in
    set_server (fun s => with_pool (m_pool s) false s).

(** [~TcpServer()] *)
Definition destroy (here : Z) : M World unit :=
  let! s := self in do! assertInLoopThread here (m_loop s) in stop here.

Definition newConnection (here sockfd : Z) (ok : bool) : M World unit :=
  let! s := self in
  do! assertInLoopThread here (m_loop s) in
  match m_pool s with
  | None => undefined NullPointer
  | Some t =>
      let! r := lift (EventLoopThreadPool.getNextLoop t) in
      do! set_server (with_pool (Some (snd r)) (m_started s)) in
      let id := m_nextConnId s in
      if id =? 2 ^ 31 - 1 then undefined SignedOverflow
      else
        do! set_server (with_nextConnId (id + 1)) in
        match fst r with
        | None => undefined NullPointer
        | Some ioLoop =>
            let! b := lift (TcpConnection.fresh ioLoop sockfd) in
            let! b' := lift (
              if m_writeCompleteCallback s then snd <$> TcpConnection.setWriteCompleteCallback b
              else Ret b) in
            let! w := get in
            let c := next_ptr w in
            do! modify (fun w => mkWorld (server w) (heap w) (c + 1) (queues w)) in
            do! put c (mkConn (conn_name s id) ioLoop b' 0 0) in
            do! set_server (fun s' => with_connections
                  (<[conn_name s id := Some c]> (m_connections s')) s') in
            runInLoop here ioLoop ok (Establish c)
        end
  end.

(** ** The life of a connection on the server

    A connection is where its tasks and its name say it is; the last three
    phases are passed through within one call. *)
Inductive phase : Type :=
| PNew | POpen | PClosing | PRemoved | PGone
| PPopped | PClosed | PDropped.
Definition stable (ph : phase) : bool :=
  match ph with PPopped | PClosed | PDropped => false | _ => true end.
Definition mapped (ph : phase) : bool :=
  match ph with PNew | PPopped | POpen | PClosing | PClosed => true | _ => false end.

(** The one task of the connection that waits, and where. *)
Definition waiting (base c : Z) (k : Conn) (ph : phase) : option (Z * task) :=
  match ph with
  | PNew => Some (c_loop k, Establish c)
  | PClosing => Some (base, Remove c)
  | PRemoved => Some (c_loop k, Destroy c)
  | _ => None
  end.
Definition expected (o : option (Z * task)) (l : Z) : list task :=
  match o with Some (l', t) => if l' =? l then [t] else [] | None => [] end.
Definition about (c : Z) (t : task) : bool :=
  match t with Establish c' | Destroy c' | Remove c' => c' =? c | Listen => false end.
Definition pending (c l : Z) (w : World) : list task := List.filter (about c) (queue_of l w).

Record conn_ok (w : World) (c : Z) (k : Conn) (ph : phase) : Prop := {
  ck_established : established k = match ph with PNew | PPopped => 0%nat | _ => 1%nat end;
  ck_destroyed : destroyed k = match ph with PGone => 1%nat | _ => 0%nat end;
  ck_closes : closes (body k) = match ph with PNew | PPopped | POpen => 0%nat | _ => 1%nat end;
  ck_map : m_connections (server w) !! name k = if mapped ph then Some (Some c) else None;
  ck_pending : forall l, pending c l w = expected (waiting (m_loop (server w)) c k ph) l;
  ck_body : TcpConnection.inv (body k)
}.

(** The id of a connection fits in the buffer its name is made in. *)
Definition fits (s : TcpServer) (id : Z) : Prop :=
  zlen (m_hostport s) + zlen (Decimal.format_d id) <= 29.

Record inv (P : Z -> phase -> Prop) (w : World) : Prop := {
  i_conns : forall c k, heap w !! c = Some k -> exists ph, P c ph /\ conn_ok w c k ph;
  i_names : forall c c' k k', heap w !! c = Some k -> heap w !! c' = Some k' ->
    name k = name k' -> c = c';
  i_ids : forall c k, heap w !! c = Some k -> c < next_ptr w /\
    exists id, id < m_nextConnId (server w) /\ fits (server w) id /\ name k = conn_name (server w) id;
  i_tasks : forall l t, t ∈ queue_of l w -> exists c, about c t = true /\ is_Some (heap w !! c);
  i_map : forall n v, m_connections (server w) !! n = Some v ->
    exists c k, v = Some c /\ heap w !! c = Some k /\ name k = n
}.
Definition settled (_ : Z) (ph : phase) : Prop := stable ph = true.
Definition at_ (c0 : Z) (ph0 : phase) (c : Z) (ph : phase) : Prop :=
  if decide (c = c0) then ph = ph0 else stable ph = true.

Lemma inv_at c k w : inv settled w -> heap w !! c = Some k ->
  exists ph, stable ph = true /\ inv (at_ c ph) w /\ conn_ok w c k ph.
Proof.
  intros [H1 H2 H3 H4 H5] Hc. destruct (H1 c k Hc) as (ph & Hst & Hok). exists ph.
  split; [done|]. split; [|done]. split; [|done..]. intros c' k' Hc'. unfold at_.
  case_decide as E; [subst; exists ph; split; [done|congruence]|]. by apply H1.
Qed.
Lemma inv_settled c ph w : stable ph = true -> inv (at_ c ph) w -> inv settled w.
Proof.
  intros Hst [H1 H2 H3 H4 H5]. split; [|done..]. intros c' k' Hc'.
  destruct (H1 c' k' Hc') as (ph' & Ha & Hok). exists ph'. split; [|done].
  unfold at_ in Ha. case_decide; by subst.
Qed.
Lemma inv_conn c ph w k : inv (at_ c ph) w -> heap w !! c = Some k -> conn_ok w c k ph.
Proof.
  intros [H1 _ _ _ _] Hc. destruct (H1 c k Hc) as (ph' & Ha & Hok). unfold at_ in Ha.
  by rewrite decide_True in Ha by done; subst.
Qed.

(** What concerns only the connection [c]. *)
Record moves (c : Z) (w w' : World) : Prop := {
  mv_loop : m_loop (server w') = m_loop (server w);
  mv_name : m_name (server w') = m_name (server w);
  mv_host : m_hostport (server w') = m_hostport (server w);
  mv_next : m_nextConnId (server w') = m_nextConnId (server w);
  mv_ptr : next_ptr w' = next_ptr w;
  mv_heap : forall c', c' <> c -> heap w' !! c' = heap w !! c';
  mv_pending : forall c' l, c' <> c -> pending c' l w' = pending c' l w;
  mv_map : forall c' k, c' <> c -> heap w !! c' = Some k ->
    m_connections (server w') !! name k = m_connections (server w) !! name k;
  mv_tasks : forall l t, t ∈ queue_of l w' -> t ∈ queue_of l w \/ about c t = true;
  mv_self : exists k k', heap w !! c = Some k /\ heap w' !! c = Some k' /\ name k' = name k;
  mv_less : forall n v, m_connections (server w') !! n = Some v -> m_connections (server w) !! n = Some v
}.

Lemma about_eq c c' t : about c t = true -> about c' t = true -> c = c'.
Proof. destruct t; cbn; rewrite ?Z.eqb_eq; congruence. Qed.

Lemma moves_inv c ph ph' k' w w' :
  inv (at_ c ph) w -> moves c w w' -> heap w' !! c = Some k' -> conn_ok w' c k' ph' ->
  inv (at_ c ph') w'.
Proof.
  intros [H1 H2 H3 H4 H5] [Ml Mn Mh Mi Mp Mheap Mpend Mmap Mtask (k & k1 & Hk & Hk1 & Hname) Mless] Hk' Hok.
  assert (k1 = k') as -> by congruence.
  assert (forall c1 k2, heap w' !! c1 = Some k2 -> exists k3, heap w !! c1 = Some k3 /\ name k3 = name k2) as Hback.
  { intros c1 k2 Hc1. destruct (decide (c1 = c)) as [->|Hne]; [exists k; split; [done|congruence]|].
    rewrite Mheap in Hc1 by done. by exists k2. }
  split.
  - intros c1 k2 Hc1. unfold at_. case_decide as E; [subst; exists ph'; split; [done|congruence]|].
    rewrite Mheap in Hc1 by done. destruct (H1 c1 k2 Hc1) as (ph1 & Ha & [E1 E2 E3 E4 E5 E6]).
    unfold at_ in Ha. rewrite decide_False in Ha by done. exists ph1. split; [done|].
    split; try done; [by rewrite (Mmap c1)|]. intros l. by rewrite Mpend, E5, Ml.
  - intros c1 c2 k2 k3 Hc1 Hc2 E. destruct (Hback _ _ Hc1) as (k4 & ? & ?), (Hback _ _ Hc2) as (k5 & ? & ?).
    apply (H2 c1 c2 k4 k5); congruence.
  - intros c1 k2 Hc1. destruct (Hback _ _ Hc1) as (k3 & Hk3 & En). rewrite Mp, Mi.
    destruct (H3 _ _ Hk3) as [? (id & ? & ? & ?)]. split; [done|]. exists id.
    unfold fits, conn_name in *. rewrite Mh, Mn. split_and!; [done..|congruence].
  - intros l t Ht. destruct (Mtask l t Ht) as [Hq|Ha]; [|by exists c; split; [|eexists]].
    destruct (H4 l t Hq) as (c1 & Ha & Hs). exists c1. split; [done|].
    destruct (decide (c1 = c)) as [->|Hne]; [by eexists|]. by rewrite Mheap.
  - intros n v Hv%Mless. destruct (H5 n v Hv) as (c1 & k2 & -> & Hc1 & <-).
    destruct (decide (c1 = c)) as [->|Hne]; [exists c, k'; split_and!; [done..|congruence]|].
    exists c1, k2. by rewrite Mheap.
Qed.

(** The steps a call is made of. *)
Lemma put_moves c k k' w :
  heap w !! c = Some k -> name k' = name k ->
  moves c w (mkWorld (server w) (<[c := k']> (heap w)) (next_ptr w) (queues w)).
Proof.
  intros Hk Hn. split; cbn; try done.
  - intros c' Hne. by rewrite lookup_insert_ne by congruence.
  - by left.
  - exists k, k'. by rewrite lookup_insert_eq.
Qed.

Lemma queue_of_set l l' q w w' : queues w' = <[l := q]> (queues w) ->
  queue_of l' w' = if decide (l' = l) then q else queue_of l' w.
Proof.
  intros E. unfold queue_of. rewrite E. case_decide as Hl; [subst; by rewrite lookup_insert_eq|].
  by rewrite lookup_insert_ne by congruence.
Qed.

Lemma queue_moves c k l q w :
  heap w !! c = Some k ->
  (forall c', c' <> c -> List.filter (about c') q = pending c' l w) ->
  (forall t, t ∈ q -> t ∈ queue_of l w \/ about c t = true) ->
  moves c w (mkWorld (server w) (heap w) (next_ptr w) (<[l := q]> (queues w))).
Proof.
  intros Hk Hf Ht. split; cbn; try done.
  - intros c' l' Hne. unfold pending. erewrite queue_of_set by done. case_decide; [subst; by apply Hf|done].
  - intros l' t. erewrite queue_of_set by done. case_decide; [subst; apply Ht|by left].
  - by exists k, k.
Qed.

Lemma about_other c c' t : about c t = true -> c' <> c -> about c' t = false.
Proof.
  intros H Hne. destruct (about c' t) eqn:E; [|done]. destruct Hne. symmetry. by eapply about_eq.
Qed.

(** A task for the connection goes to the end of a queue. *)
Lemma post_moves c k l t w :
  heap w !! c = Some k -> about c t = true ->
  exists w', queueInLoop l t w = Ret (tt, w') /\ moves c w w' /\ server w' = server w /\
    heap w' = heap w /\
    forall l', pending c l' w' = pending c l' w ++ (if l' =? l then [t] else []).
Proof.
  intros Hk Ha. eexists. split; [reflexivity|]. split; [|split; [done|split; [done|]]].
  - eapply queue_moves; [done|..].
    + intros c' Hne. rewrite List.filter_app. cbn. rewrite (about_other c) by done. by rewrite app_nil_r.
    + intros t' [?| ->%list_elem_of_singleton]%elem_of_app; [by left|by right].
  - intros l'. unfold pending. erewrite (queue_of_set l) by done.
    case_decide as Hl; [subst; rewrite Z.eqb_refl, List.filter_app; cbn; by rewrite Ha|].
    destruct (Z.eqb_spec l' l); [done|]. by rewrite app_nil_r.
Qed.

(** The first task of a queue leaves it. *)
Lemma pop_moves c k l t q w :
  heap w !! c = Some k -> queue_of l w = t :: q -> about c t = true ->
  exists w', set_queue l q w = Ret (tt, w') /\ moves c w w' /\ server w' = server w /\
    heap w' = heap w /\
    forall l', pending c l' w = (if l' =? l then [t] else []) ++ pending c l' w'.
Proof.
  intros Hk Hq Ha. eexists. split; [reflexivity|]. split; [|split; [done|split; [done|]]].
  - eapply queue_moves; [done|..].
    + intros c' Hne. unfold pending. rewrite Hq. cbn. by rewrite (about_other c) by done.
    + intros t' ?. left. rewrite Hq. by apply list_elem_of_further.
  - intros l'. unfold pending.
    rewrite (queue_of_set l l' q w (mkWorld (server w) (heap w) (next_ptr w) (<[l := q]> (queues w)))) by done.
    case_decide as Hl; [subst; rewrite Z.eqb_refl, Hq; cbn; by rewrite Ha|].
    by destruct (Z.eqb_spec l' l).
Qed.

(** The connection leaves the map. *)
Lemma unmap_moves c k w P :
  inv P w -> heap w !! c = Some k ->
  moves c w (mkWorld (with_connections (delete (name k) (m_connections (server w))) (server w))
               (heap w) (next_ptr w) (queues w)).
Proof.
  intros Hinv Hk. pose proof (i_names _ _ Hinv) as H2. split; cbn; try done.
  - intros c' k' Hne Hk'. apply lookup_delete_ne. intros E. apply Hne. by apply (H2 c' c k' k).
  - by left.
  - by exists k, k.
  - intros n v Hv. by apply lookup_delete_Some in Hv as [_ ?].
Qed.

Lemma expected_snoc o l t :
  expected None l ++ (if l =? o then [t] else []) = expected (Some (o, t)) l.
Proof. cbn. by rewrite Z.eqb_sym. Qed.

(** A connection that was closed leaves the map and is to be destroyed on its
    own loop. *)
Lemma removeConnectionInLoop_inv here c k w w' :
  inv (at_ c PClosed) w -> heap w !! c = Some k ->
  removeConnectionInLoop here c w = Ret (tt, w') -> inv (at_ c PRemoved) w'.
Proof.
  intros Hinv Hk. pose proof (inv_conn _ _ _ _ Hinv Hk) as [E1 E2 E3 E4 E5 E6].
  unfold removeConnectionInLoop. rewrite M_bind_eq. cbn [self gets]. rewrite M_bind_eq.
  unfold assertInLoopThread. destruct (here =? _); [|done]. cbn [ret]. rewrite M_bind_eq.
  unfold deref. rewrite Hk, E4. cbn [mapped]. rewrite M_bind_eq. cbn [set_server modify].
  pose proof (unmap_moves c k w _ Hinv Hk) as M1.
  set (w1 := mkWorld _ _ _ _) in *. change (heap w !! c) with (heap w1 !! c) in Hk.
  destruct (post_moves c k (c_loop k) (Destroy c) w1 Hk) as (w2 & -> & M2 & Hs & Hh & Hp);
    [cbn; apply Z.eqb_refl|]. intros [= <-].
  assert (inv (at_ c PDropped) w1) as Hinv1.
  { apply (moves_inv c _ _ k w w1 Hinv M1 Hk). split; cbn; try done. apply lookup_delete_eq. }
  apply (moves_inv c _ _ k w1 w2 Hinv1 M2); [by rewrite Hh|].
  pose proof (inv_conn _ _ _ _ Hinv1 Hk) as [F1 F2 F3 F4 F5 F6].
  split; rewrite ?Hs; try done. intros l. rewrite Hp, F5. apply expected_snoc.
Qed.

Lemma removeConnection_inv here c k w w' :
  inv (at_ c PClosed) w -> heap w !! c = Some k ->
  removeConnection here c w = Ret (tt, w') -> inv settled w'.
Proof.
  intros Hinv Hk. unfold removeConnection. rewrite M_bind_eq. cbn [self gets].
  destruct (here =? _).
  - intros H. apply (inv_settled c PRemoved); [done|]. by eapply removeConnectionInLoop_inv.
  - destruct (post_moves c k (m_loop (server w)) (Remove c) w Hk) as (w2 & -> & M2 & Hs & Hh & Hp);
      [cbn; apply Z.eqb_refl|]. intros [= <-]. apply (inv_settled c PClosing); [done|].
    apply (moves_inv c _ _ k w w2 Hinv M2); [by rewrite Hh|].
    pose proof (inv_conn _ _ _ _ Hinv Hk) as [F1 F2 F3 F4 F5 F6].
    split; rewrite ?Hs; try done. intros l. rewrite Hp, F5. apply expected_snoc.
Qed.

(** What an operation of a connection can do to the number of times it was
    closed. *)
Lemma exec_closes o b b' :
  TcpConnection.inv b -> TcpConnection.op_ok o b -> TcpConnection.exec o b = Ret (tt, b') ->
  TcpConnection.inv b' /\ (closes b <= closes b' <= 1)%nat.
Proof.
  intros Hinv Hok Hrun. pose proof (TcpConnection.exec_ok o b Hinv Hok) as He.
  apply (wp_run _ _ _ _ _ _ Hrun) in He. destruct He as [Hi _ [evs Hl] _].
  split; [done|]. unfold closes. rewrite Hl, TcpConnection.count_app. split; [lia|].
  destruct Hi as [_ _ _ _ _ Hd Hc]. rewrite Hl, !TcpConnection.count_app in Hc.
  rewrite Hl, TcpConnection.count_app in Hd. destruct (decide _); lia.
Qed.

Lemma operate_inv here c k o ph w w' :
  inv (at_ c ph) w -> heap w !! c = Some k -> stable ph = true -> ph <> PNew ->
  TcpConnection.op_ok o (body k) -> operate here c o w = Ret (tt, w') -> inv settled w'.
Proof.
  intros Hinv Hk Hst Hne Hok. pose proof (inv_conn _ _ _ _ Hinv Hk) as [E1 E2 E3 E4 E5 E6].
  unfold operate. rewrite M_bind_eq. unfold deref. rewrite Hk, M_bind_eq. unfold lift.
  destruct (TcpConnection.exec o (body k)) as [[[] b]|e|u] eqn:Hrun; [|done..].
  destruct (exec_closes o _ _ E6 Hok Hrun) as [Hb Hcl]. cbn [mbind outcome_bind fst snd].
  rewrite M_bind_eq. cbn [put modify]. pose proof (put_moves c k (set_body b k) w Hk eq_refl) as M1.
  set (w1 := mkWorld _ _ _ _) in *.
  assert (heap w1 !! c = Some (set_body b k)) as Hk1 by (cbn; apply lookup_insert_eq).
  assert (forall ph', established k = match ph' with PNew | PPopped => 0%nat | _ => 1%nat end ->
    destroyed k = match ph' with PGone => 1%nat | _ => 0%nat end ->
    closes b = match ph' with PNew | PPopped | POpen => 0%nat | _ => 1%nat end ->
    mapped ph' = mapped ph ->
    (forall l, expected (waiting (m_loop (server w)) c k ph') l =
       expected (waiting (m_loop (server w)) c k ph) l) -> inv (at_ c ph') w1) as Hto.
  { intros ph' H1 H2 H3 H4 H5. apply (moves_inv c ph _ (set_body b k) w w1 Hinv M1 Hk1).
    split; cbn; try done; [by rewrite H4|]. intros l. etrans; [apply E5|]. rewrite <- H5. by destruct ph'. }
  destruct (Nat.ltb_spec (closes (body k)) (closes b)) as [Hlt|Hge]; cbn [when].
  - assert (ph = POpen) as -> by (destruct ph; cbn in E3, Hst; try done; lia).
    intros H. eapply removeConnection_inv; [|exact Hk1|exact H]. apply Hto; try done. lia.
  - intros [= <-]. apply (inv_settled c ph); [done|]. apply Hto; try done. rewrite <- E3. lia.
Qed.

(** The two functions of the life of a connection run. *)
Definition small (w : World) : Prop :=
  forall c k, heap w !! c = Some k -> zlen (TcpConnection.output (body k)) < 2 ^ 31.

Lemma perform_inv l ok t c k ph ph' w w' :
  inv (at_ c ph) w -> heap w !! c = Some k -> small w ->
  (t = Establish c /\ ph = PPopped /\ ph' = POpen \/ t = Destroy c /\ ph = PDropped /\ ph' = PGone) ->
  perform l ok t w = Ret (tt, w') -> inv settled w'.
Proof.
  intros Hinv Hk Hsm Hcase. pose proof (inv_conn _ _ _ _ Hinv Hk) as [E1 E2 E3 E4 E5 E6].
  assert (name (ran t k) = name k /\ body (ran t k) = body k) as [Hn Hb] by (by destruct t).
  pose proof (put_moves c k (ran t k) w Hk Hn) as M1. set (w1 := mkWorld _ _ _ _) in *.
  assert (heap w1 !! c = Some (ran t k)) as Hk1 by (cbn; apply lookup_insert_eq).
  assert (inv (at_ c ph') w1) as Hinv1.
  { apply (moves_inv c ph _ (ran t k) w w1 Hinv M1 Hk1).
    destruct Hcase as [(-> & -> & ->)|(-> & -> & ->)]; split; cbn; try done; by rewrite ?E1, ?E2. }
  intros H. assert (exists o, operate l c o w1 = Ret (tt, w') /\ TcpConnection.op_ok o (body (ran t k)) /\
    stable ph' = true /\ ph' <> PNew) as (o & Hrun & Ho & Hst & Hne).
  { destruct Hcase as [(-> & -> & ->)|(-> & -> & ->)]; cbn [perform] in H;
      rewrite M_bind_eq in H; unfold deref at 1 in H; rewrite Hk, M_bind_eq in H; cbn [put modify] in H;
      eexists; (split; [exact H|]); (split; [split; [rewrite Hb; by eapply Hsm|done]|done]). }
  by eapply operate_inv.
Qed.

Lemma runTask_inv l ok w w' :
  inv settled w -> small w -> runTask l ok w = Ret (tt, w') -> inv settled w'.
Proof.
  intros Hinv Hsm. unfold runTask. rewrite M_bind_eq. cbn [get].
  destruct (queue_of l w) as [|t q] eqn:Hq; [by intros [= <-]|].
  destruct (i_tasks _ _ Hinv l t) as (c & Ha & [k Hk]); [rewrite Hq; apply list_elem_of_here|].
  destruct (inv_at c k w Hinv Hk) as (ph & Hst & Hat & [E1 E2 E3 E4 E5 E6]).
  destruct (pop_moves c k l t q w Hk Hq Ha) as (w1 & Hset & M1 & Hs & Hh & Hp).
  rewrite M_bind_eq, Hset. rewrite <- Hh in Hk.
  assert (forall l', pending c l' w1 = []) as Hnone.
  { intros l'. pose proof (E5 l) as El. rewrite Hp, Z.eqb_refl in El. cbn in El.
    pose proof (E5 l') as El'. rewrite Hp in El'.
    destruct (waiting _ c k ph) as [[lo to]|]; cbn in El, El'; [|done].
    destruct (Z.eqb_spec lo l) as [->|]; [|done]. injection El as <- El.
    destruct (Z.eqb_spec l' l) as [->|Hne]; [done|].
    destruct (Z.eqb_spec l l'); [congruence|done]. }
  assert (waiting (m_loop (server w)) c k ph = Some (l, t)) as Hw.
  { pose proof (E5 l) as El. rewrite Hp, Z.eqb_refl in El. cbn in El.
    destruct (waiting _ c k ph) as [[lo to]|]; cbn in El; [|done].
    destruct (Z.eqb_spec lo l) as [->|]; [|done]. by injection El as <- _. }
  assert (forall ph', (ph = PNew /\ ph' = PPopped \/ ph = PClosing /\ ph' = PClosed \/
      ph = PRemoved /\ ph' = PDropped) -> inv (at_ c ph') w1) as Hto.
  { intros ph' Hc. apply (moves_inv c ph _ k w w1 Hat M1 Hk).
    destruct Hc as [(-> & ->)|[(-> & ->)|(-> & ->)]]; split; rewrite ?Hs; done. }
  assert (small w1) as Hsm1 by (intros c' k'; rewrite Hh; apply Hsm).
  destruct ph; try done; cbn in Hw; injection Hw as <- <-.
  - eapply (perform_inv _ ok _ c k PPopped POpen); [apply Hto; tauto|done|done|tauto].
  - intros H. apply (inv_settled c PRemoved); [done|].
    eapply removeConnectionInLoop_inv; [apply Hto; tauto|exact Hk|exact H].
  - eapply (perform_inv _ ok _ c k PDropped PGone); [apply Hto; tauto|done|done|tauto].
Qed.

(** Ids that fit give names of their own. *)
Lemma conn_name_inj s id id' :
  fits s id -> fits s id' -> conn_name s id = conn_name s id' -> id = id'.
Proof.
  assert (forall i, fits s i -> conn_name s i = m_name s ++ lit ":" ++ m_hostport s ++ lit "#" ++ Decimal.format_d i) as Hfull.
  { intros i Hi. unfold conn_name. f_equal. apply take_ge. unfold fits, zlen in Hi.
    rewrite !length_app. cbn. lia. }
  intros H1 H2. rewrite !Hfull by done. intros E. do 4 apply app_inv_head in E.
  unfold Decimal.format_d, lit in E. apply (f_equal String.string_of_list_byte) in E.
  rewrite !String.string_of_list_byte_of_string in E. by apply (inj pretty).
Qed.

(** A fresh connection. *)
Lemma fresh_body b wc loop sockfd b0 :
  TcpConnection.fresh loop sockfd = Ret b0 ->
  (if wc : bool then snd <$> TcpConnection.setWriteCompleteCallback b0 else Ret b0) = Ret b ->
  TcpConnection.inv b /\ closes b = 0%nat.
Proof.
  intros Hf Hb. destruct (TcpConnection.fresh_inv _ _ _ Hf) as (Hi & Hl & Ho & _).
  assert (closes b0 = 0%nat) as H0 by (unfold closes; by rewrite Hl).
  destruct wc; [|by injection Hb as <-].
  assert (TcpConnection.exec TcpConnection.OpSetWriteComplete b0 = Ret (tt, b)) as Hrun
    by (cbn in *; by injection Hb as <-).
  destruct (exec_closes TcpConnection.OpSetWriteComplete b0 b Hi) as [? _]; [|done|].
  { split; [by rewrite Ho|done]. }
  split; [done|]. cbn in Hb. injection Hb as <-. done.
Qed.

(** The connection is in the heap and in the map, and its [connectEstablished]
    has still to be called or queued. *)
Definition add_conn (k : Conn) (w : World) : World :=
  mkWorld (with_connections (<[name k := Some (next_ptr w)]> (m_connections (server w))) (server w))
    (<[next_ptr w := k]> (heap w)) (next_ptr w + 1) (queues w).
Lemma add_conn_inv s id ioLoop b w :
  inv settled w -> fits (server w) id -> id = m_nextConnId (server w) ->
  m_connections s = m_connections (server w) -> m_loop s = m_loop (server w) ->
  m_name s = m_name (server w) -> m_hostport s = m_hostport (server w) -> m_nextConnId s = id + 1 ->
  TcpConnection.inv b -> closes b = 0%nat ->
  inv (at_ (next_ptr w) PPopped)
    (add_conn (mkConn (conn_name (server w) id) ioLoop b 0 0) (mkWorld s (heap w) (next_ptr w) (queues w))).
Proof.
  intros [H1 H2 H3 H4 H5] Hfit Hid Hm Hl Hn Hh Hi Hb Hc. set (c := next_ptr w).
  set (k := mkConn _ _ _ _ _).
  assert (forall c' k', heap w !! c' = Some k' -> c' <> c /\ name k' <> name k) as Hnew.
  { intros c' k' Hk'. destruct (H3 c' k' Hk') as [Hlt (i & Hi' & Hf & En)]. unfold c.
    split; [lia|]. rewrite En. cbn. intros E. apply conn_name_inj in E; [|done..]. lia. }
  assert (heap w !! c = None) as Hnone.
  { destruct (heap w !! c) as [k'|] eqn:E; [|done]. by destruct (Hnew c k' E) as [? _]. }
  assert (forall x y, (<[c := k]> (heap w)) !! x = Some y -> x = c /\ y = k \/ heap w !! x = Some y) as Hold.
  { intros x y [[-> <-]|[_ ?]]%lookup_insert_Some; auto. }
  split; cbn.
  - intros c' k' [[-> ->]|Hk']%Hold; unfold at_.
    + exists PPopped. rewrite decide_True by done. split; [done|]. split; cbn; try done.
      * by rewrite lookup_insert_eq.
      * intros l. unfold pending. cbn. change (queue_of l _) with (queue_of l w).
        assert (forall q, (forall t, t ∈ q -> about c t = false) -> List.filter (about c) q = []) as Hq.
        { induction q as [|t q IH]; [done|]. intros Ht. cbn. rewrite Ht by apply list_elem_of_here.
          apply IH. intros t' ?. by apply Ht, list_elem_of_further. }
        apply Hq. intros t Ht. destruct (H4 l t Ht) as (c' & Ha & [k' Hk']).
        apply (about_other c'); [done|]. by intros ->; destruct (Hnew _ _ Hk').
    + destruct (Hnew _ _ Hk') as [Hne Hnn].
      destruct (H1 c' k' Hk') as (ph & Hst & [E1 E2 E3 E4 E5 E6]). exists ph.
      rewrite decide_False by done. split; [done|].
      split; cbn; try done; [rewrite lookup_insert_ne by (intros En; by apply Hnn); by rewrite Hm|].
      intros l. rewrite Hl. apply E5.
  - intros c1 c2 k1 k2 [[-> ->]|Hk1]%Hold [[-> ->]|Hk2]%Hold E; [done|..].
    + by destruct (Hnew _ _ Hk2) as [_ []].
    + by destruct (Hnew _ _ Hk1) as [_ []].
    + by apply (H2 _ _ k1 k2).
  - intros c' k' Hk'. unfold fits, conn_name. cbn. rewrite Hh, Hn, Hi. destruct (Hold _ _ Hk') as [[-> ->]|Hk1].
    + split; [lia|]. exists id. split_and!; [lia|done|done].
    + destruct (H3 c' k' Hk1) as [? (i & ? & ? & ?)]. split; [lia|]. exists i. split_and!; [lia|done|done].
  - intros l t Ht. destruct (H4 l t Ht) as (c' & Ha & [k' Hk']). exists c'. split; [done|].
    rewrite lookup_insert_ne by (intros <-; by destruct (Hnew _ _ Hk')). by eexists.
  - intros n v [[<- <-]|[Hne Hv]]%lookup_insert_Some.
    + exists c, k. by rewrite lookup_insert_eq.
    + rewrite Hm in Hv. destruct (H5 n v Hv) as (c' & k' & -> & Hk' & <-). exists c', k'.
      rewrite lookup_insert_ne by (intros <-; by destruct (Hnew _ _ Hk')). done.
Qed.

Lemma newConnection_inv sockfd ok w w' :
  inv settled w -> small w -> fits (server w) (m_nextConnId (server w)) ->
  newConnection (m_loop (server w)) sockfd ok w = Ret (tt, w') -> inv settled w'.
Proof.
  intros Hinv Hsm Hfit. unfold newConnection. rewrite M_bind_eq. cbn [self gets]. rewrite M_bind_eq.
  unfold assertInLoopThread. rewrite Z.eqb_refl. cbn [ret].
  destruct (m_pool (server w)) as [t|] eqn:Hpool; [|done]. rewrite M_bind_eq. unfold lift at 1.
  destruct (EventLoopThreadPool.getNextLoop t) as [[r t']|e|u]; [|done..]. cbn [mbind outcome_bind fst snd].
  rewrite M_bind_eq. cbn [set_server modify]. destruct (_ =? _); [done|]. rewrite M_bind_eq. cbn [set_server modify].
  destruct r as [ioLoop|]; [|done]. rewrite M_bind_eq. unfold lift at 1.
  destruct (TcpConnection.fresh ioLoop sockfd) as [b0|e|u] eqn:Hfresh; [|done..]. cbn [mbind outcome_bind].
  rewrite M_bind_eq. unfold lift at 1.
  destruct (if m_writeCompleteCallback (server w) then _ else _) as [b|e|u] eqn:Hwc; [|done..]. cbn [mbind outcome_bind].
  destruct (fresh_body b _ _ _ _ Hfresh Hwc) as [Hb Hc]. rewrite M_bind_eq. cbn [get].
  rewrite M_bind_eq. cbn [modify]. rewrite M_bind_eq. cbn [put modify]. rewrite M_bind_eq.
  cbn [set_server modify server heap next_ptr queues].
  set (id := m_nextConnId (server w)) in *. set (k := mkConn _ _ _ _ _).
  set (s := with_nextConnId _ _).
  pose proof (add_conn_inv s id ioLoop b w Hinv Hfit eq_refl eq_refl eq_refl eq_refl eq_refl eq_refl Hb Hc) as Hinv1.
  set (w1 := add_conn _ _) in Hinv1. fold k in w1. cbn -[id] in w1. fold w1.
  assert (heap w1 !! next_ptr w = Some k) as Hk by (cbn; apply lookup_insert_eq).
  assert (small w1) as Hsm1.
  { intros c' k'. cbn. intros [[<- <-]|[_ ?]]%lookup_insert_Some; [|by eapply Hsm]. cbn.
    destruct (TcpConnection.fresh_inv _ _ _ Hfresh) as (_ & _ & Ho & _).
    destruct (m_writeCompleteCallback _); cbn in Hwc; injection Hwc as <-; [|by rewrite Ho].
    unfold TcpConnection.output in *. cbn. by rewrite Ho. }
  unfold runInLoop. destruct (_ =? ioLoop).
  - eapply (perform_inv _ ok _ _ k PPopped POpen); [exact Hinv1|done|done|tauto].
  - change (queueInLoop ioLoop (Establish (next_ptr w)) w1 = Ret (tt, w') -> inv settled w').
    destruct (post_moves _ k ioLoop (Establish (next_ptr w)) w1 Hk) as (w2 & -> & M2 & Hs2 & Hh2 & Hp2);
      [cbn; apply Z.eqb_refl|]. intros [= <-]. apply (inv_settled (next_ptr w) PNew); [done|].
    apply (moves_inv _ _ _ k w1 w2 Hinv1 M2); [by rewrite Hh2|].
    pose proof (inv_conn _ _ _ _ Hinv1 Hk) as [F1 F2 F3 F4 F5 F6].
    split; rewrite ?Hs2; try done. intros l. rewrite Hp2, F5. apply expected_snoc.
Qed.

(** *** A task is defined *)
Definition defined {A} (o : outcome A) : Prop := match o with Undef _ => False | _ => True end.

Lemma removeConnectionInLoop_defined c k w :
  heap w !! c = Some k -> defined (removeConnectionInLoop (m_loop (server w)) c w).
Proof.
  intros Hk. unfold removeConnectionInLoop. rewrite M_bind_eq. cbn [self gets]. rewrite M_bind_eq.
  unfold assertInLoopThread. rewrite Z.eqb_refl. cbn [ret]. rewrite M_bind_eq. unfold deref. rewrite Hk.
  destruct (m_connections _ !! _); exact I.
Qed.

Lemma operate_defined here c k o w :
  heap w !! c = Some k -> TcpConnection.inv (body k) -> TcpConnection.op_ok o (body k) ->
  defined (operate here c o w).
Proof.
  intros Hk Hi Ho. unfold operate. rewrite M_bind_eq. unfold deref. rewrite Hk, M_bind_eq. unfold lift.
  pose proof (TcpConnection.exec_ok o (body k) Hi Ho) as He. unfold wp in He.
  destruct (TcpConnection.exec o (body k)) as [[[] b]|e|u]; [|done..]. cbn [mbind outcome_bind fst snd].
  rewrite M_bind_eq. cbn [put modify]. destruct (_ <? _)%nat; cbn [when]; [|done].
  unfold removeConnection. rewrite M_bind_eq. cbn [self gets server].
  destruct (Z.eqb_spec here (m_loop (server w))) as [->|]; [|done].
  apply (removeConnectionInLoop_defined c (set_body b k) (mkWorld _ _ _ _)). cbn. apply lookup_insert_eq.
Qed.

Lemma runTask_defined l ok w : inv settled w -> small w -> defined (runTask l ok w).
Proof.
  intros Hinv Hsm. unfold runTask. rewrite M_bind_eq. cbn [get].
  destruct (queue_of l w) as [|t q] eqn:Hq; [done|].
  destruct (i_tasks _ _ Hinv l t) as (c & Ha & [k Hk]); [rewrite Hq; apply list_elem_of_here|].
  destruct (inv_at c k w Hinv Hk) as (ph & Hst & _ & [E1 E2 E3 E4 E5 E6]).
  assert (waiting (m_loop (server w)) c k ph = Some (l, t)) as Hw.
  { pose proof (E5 l) as El. unfold pending in El. rewrite Hq in El. cbn [List.filter] in El. rewrite Ha in El.
    destruct (waiting _ c k ph) as [[lo to]|]; cbn in El; [|done].
    destruct (Z.eqb_spec lo l) as [->|]; [|done]. by injection El as <- _. }
  rewrite M_bind_eq. cbn [set_queue modify]. pose proof (Hsm c k Hk) as Hout.
  destruct ph; try done; cbn in Hw; injection Hw as <- <-; cbn [perform].
  2: by eapply (removeConnectionInLoop_defined c k (mkWorld (server w) (heap w) _ _)).
  all: rewrite M_bind_eq; unfold deref at 1; cbn [heap]; rewrite Hk, M_bind_eq; cbn [put modify];
    eapply (operate_defined _ c); [cbn; apply lookup_insert_eq|done|by split].
Qed.

(** ** Runs of the server

    [o] is an event of the connection or a call, on the thread of its loop; what
    other threads may call closes nothing. *)
Definition event_or_call (o : TcpConnection.op) : Prop :=
  match o with TcpConnection.OpEstablished _ | TcpConnection.OpDestroyed => False | _ => True end.

Inductive step : World -> World -> Prop :=
| step_accept sockfd ok w w' : small w -> fits (server w) (m_nextConnId (server w)) ->
    newConnection (m_loop (server w)) sockfd ok w = Ret (tt, w') -> step w w'
| step_task l ok w w' : small w -> runTask l ok w = Ret (tt, w') -> step w w'
| step_conn c k o w w' : heap w !! c = Some k -> established k = 1%nat -> event_or_call o ->
    TcpConnection.op_ok o (body k) -> operate (c_loop k) c o w = Ret (tt, w') -> step w w'.

Lemma step_inv w w' : step w w' -> inv settled w -> inv settled w'.
Proof.
  intros [sockfd ok v v' Hsm Hfit H|l ok v v' Hsm H|c k o v v' Hk He _ Ho H] Hinv.
  - by eapply newConnection_inv.
  - by eapply runTask_inv.
  - destruct (inv_at c k v Hinv Hk) as (ph & Hst & Hat & Hok). eapply operate_inv; try done.
    intros ->. pose proof (ck_established _ _ _ _ Hok). cbn in *. congruence.
Qed.

Lemma start_inv here loop hostport name n newLoop w0 :
  start here n newLoop (world (make loop hostport name)) = Ret (tt, w0) -> inv settled w0.
Proof.
  unfold start. rewrite M_bind_eq. cbn [self gets world make server m_started m_loop]. rewrite M_bind_eq.
  unfold assertInLoopThread. destruct (here =? loop) eqn:Hl; [|done]. cbn [ret].
  rewrite M_bind_eq. cbn [set_server modify]. rewrite M_bind_eq. unfold runInLoop. rewrite Hl.
  cbn. intros [= <-]. split; cbn; intros *; unfold queue_of; cbn; rewrite ?lookup_empty; try done.
  by intros ?%elem_of_nil.
Qed.

(** Somebody holds a [shared_ptr] to the connection. *)
Definition owned (w : World) (c : Z) : Prop :=
  (exists n, m_connections (server w) !! n = Some (Some c)) \/
  (exists l t, t ∈ queue_of l w /\ about c t = true).
Definition quiescent (w : World) : Prop := forall l, queue_of l w = [].

(** C20: The connections of the server.  Start the server and let it accept
    connections, let the loops run their queues in any interleaving and let the
    connections send, receive and close; then for each connection ever accepted:
    it is established at most once, on its own loop, and destroyed at most once,
    not before it was established and only when it was closed; it is in the map
    under its own name until its removal; it is owned as long as its channel is
    registered, so that no event reaches a freed connection; and no task of a
    queue is undefined.  When the queues are empty, exactly the open connections
    are in the map and each closed one has been destroyed. *)
Theorem server_connections here loop hostport name n newLoop w0 w :
  start here n newLoop (world (make loop hostport name)) = Ret (tt, w0) ->
  rtc step w0 w ->
  (small w -> forall l ok, defined (runTask l ok w)) /\
  (forall c c' k k', heap w !! c = Some k -> heap w !! c' = Some k' ->
     TcpServer.name k = TcpServer.name k' -> c = c') /\
  forall c k, heap w !! c = Some k ->
    (destroyed k <= established k <= 1)%nat /\ (destroyed k <= closes (body k) <= 1)%nat /\
    (m_connections (server w) !! TcpServer.name k = Some (Some c) \/
     closes (body k) = 1%nat /\ m_connections (server w) !! TcpServer.name k = None) /\
    (established k = 1%nat -> destroyed k = 0%nat -> owned w c) /\
    (quiescent w -> established k = 1%nat /\ destroyed k = closes (body k) /\
       (m_connections (server w) !! TcpServer.name k = Some (Some c) <-> closes (body k) = 0%nat)).
Proof.
  intros Hstart Hrun. assert (inv settled w) as Hinv.
  { apply start_inv in Hstart. induction Hrun as [|x y z Hs _ IH]; [done|]. eauto using step_inv. }
  split; [intros; by apply runTask_defined|]. split; [apply (i_names _ _ Hinv)|].
  intros c k Hk. destruct (inv_at c k w Hinv Hk) as (ph & Hst & _ & [E1 E2 E3 E4 E5 E6]).
  rewrite E1, E2, E3, E4. split; [destruct ph; cbn; lia|]. split; [destruct ph; cbn; lia|].
  split; [destruct ph; cbn; auto|]. split.
  - intros He Hd. destruct ph; try done; [left; by exists (TcpServer.name k)|left; by exists (TcpServer.name k)|].
    right. exists (c_loop k), (Destroy c). split; [|cbn; apply Z.eqb_refl].
    pose proof (E5 (c_loop k)) as Hp. cbn in Hp. rewrite Z.eqb_refl in Hp.
    assert (Destroy c ∈ pending c (c_loop k) w) as Hin by (rewrite Hp; apply list_elem_of_here).
    unfold pending in Hin. apply list_elem_of_In, List.filter_In in Hin as [Hin _]. by apply list_elem_of_In.
  - intros Hq. assert (waiting (m_loop (server w)) c k ph = None) as Hw.
    { destruct (waiting _ c k ph) as [[l t]|]; [|done]. pose proof (E5 l) as Hp.
      unfold pending in Hp. rewrite Hq in Hp. cbn in Hp. by rewrite Z.eqb_refl in Hp. }
    destruct ph; try done; cbn; split_and!; try done; split; done.
Qed.

(** ** Concrete runs *)
Definition smallb (w : World) : bool :=
  forallb (fun e => zlen (TcpConnection.output (body (snd e))) <? 2 ^ 31) (map_to_list (heap w)).
Lemma smallb_small w : smallb w = true -> small w.
Proof.
  unfold smallb. rewrite forallb_forall. intros H c k Hk. apply Z.ltb_lt.
  apply (H (c, k)), list_elem_of_In, elem_of_map_to_list, Hk.
Qed.

Definition quiescentb (w : World) : bool :=
  forallb (fun e => bool_decide (snd e = [])) (map_to_list (queues w)).
Lemma quiescentb_quiescent w : quiescentb w = true -> quiescent w.
Proof.
  unfold quiescentb. rewrite forallb_forall. intros H l. unfold queue_of.
  destruct (queues w !! l) as [q|] eqn:E; [|done]. cbn.
  apply elem_of_map_to_list, list_elem_of_In, H in E. by apply bool_decide_eq_true in E.
Qed.

Definition after (m : M World unit) (w : World) : World :=
  match m w with Ret (_, w') => w' | _ => w end.
Definition listen_at : TcpServer := make 1 (lit "0.0.0.0:20000") (lit "ChatServer").
Definition threads (i : nat) : Z := 10 + Z.of_nat i.

(** A client connects, is established on the second thread's loop, and hangs up. *)
Definition d0 : World := after (start 1 2 threads) (world listen_at).
Definition d1 : World := after (newConnection 1 5 true) d0.
Definition d2 : World := after (runTask 10 true) d1.
Definition d3 : World := after (operate 10 1 TcpConnection.OpClosed) d2.
Definition d4 : World := after (runTask 1 true) d3.
Definition d5 : World := after (runTask 10 true) d4.
Definition conn1 (w : World) : Conn :=
  default (mkConn [] 0 TcpConnection.sample_dead 0 0) (heap w !! 1).

Lemma demo_run : rtc step d0 d5.
Proof.
  eapply rtc_l; [apply (step_accept 5 true d0 d1); [by apply smallb_small; vm_compute|by vm_compute|by vm_compute]|].
  eapply rtc_l; [apply (step_task 10 true d1 d2); [by apply smallb_small; vm_compute|by vm_compute]|].
  eapply rtc_l; [apply (step_conn 1 (conn1 d2) TcpConnection.OpClosed d2 d3);
    [by vm_compute|by vm_compute|done|by vm_compute|by vm_compute]|].
  eapply rtc_l; [apply (step_task 1 true d3 d4); [by apply smallb_small; vm_compute|by vm_compute]|].
  eapply rtc_l; [apply (step_task 10 true d4 d5); [by apply smallb_small; vm_compute|by vm_compute]|].
  apply rtc_refl.
Qed.

Lemma server_connections_witness :
  heap d5 !! 1 = Some (conn1 d5) /\ destroyed (conn1 d5) = closes (body (conn1 d5)).
Proof.
  assert (heap d5 !! 1 = Some (conn1 d5)) as Hk by (vm_compute; reflexivity).
  split; [exact Hk|].
  destruct (server_connections 1 1 (lit "0.0.0.0:20000") (lit "ChatServer") 2 threads d0 d5) as (_ & _ & H).
  - vm_compute. reflexivity.
  - exact demo_run.
  - destruct (H 1 _ Hk) as (_ & _ & _ & _ & Hq). apply Hq, quiescentb_quiescent. vm_compute. reflexivity.
Defined.

(** With an address of full length the tenth digit of an id is cut off: two
    connections share a name, and the first of them is owned by nobody although
    its channel is registered. *)
Definition long_address : TcpServer :=
  with_nextConnId 1000000000 (make 1 (lit "192.168.100.100:20000") (lit "ChatServer")).
Definition cut : World :=
  after (newConnection 1 6 true) (after (newConnection 1 5 true) (after (start 1 0 threads) (world long_address))).
Example names_collide :
  TcpServer.name (conn1 cut) = lit "ChatServer:192.168.100.100:20000#10000000" /\
  established (conn1 cut) = 1%nat /\ destroyed (conn1 cut) = 0%nat /\
  map snd (entries (m_connections (server cut))) = [Some 2] /\ queue_of 1 cut = [].
Proof. by vm_compute. Qed.

(** [stop] leaves null pointers in the map: a server that is started and stopped
    again reads through them. *)
Example second_stop :
  (do! stop 1 in do! start 1 2 threads in stop 1) d2 = Undef NullPointer.
Proof. by vm_compute. Qed.

End TcpServer.
