(* ===== verification/Log.v ===== *)
(** * The log

    [AsyncLog] is base/AsyncLog.*: producers put formatted lines in a list, one
    thread writes them to the console and to files that are rolled by size.  The
    texts that come from the clock, the thread id and the [printf] arguments are
    arguments; so are the answers of [fopen] and [fwrite]. *)
From S2P Require Import Prelude Protocol Timers.

Module AsyncLog.

Definition MAX_LINE_LENGTH : Z := 256.
Definition DEFAULT_ROLL_SIZE : Z := 10 * 1024 * 1024.
Definition LOG_LEVEL_TRACE : Z := 0.
Definition LOG_LEVEL_DEBUG : Z := 1.
Definition LOG_LEVEL_INFO : Z := 2.
Definition LOG_LEVEL_WARNING : Z := 3.
Definition LOG_LEVEL_ERROR : Z := 4.
Definition LOG_LEVEL_SYSERROR : Z := 5.
Definition LOG_LEVEL_FATAL : Z := 6.
Definition LOG_LEVEL_CRITICAL : Z := 7.

(** Where the writing thread is in [writeThreadProc]. *)
Inductive point : Type := NotStarted | AtOpen | AtPop | AtWrite (strLine : bytes) | Finished.

(** [m_hLogFile] is the name of the open file; [disk] the files, the one that was
    opened last at the end. *)
Record State : Type := mkState {
  m_bTruncateLongLog : bool;
  m_hLogFile : option bytes;
  m_strFileName : bytes;
  m_strFileNamePID : bytes;
  m_nCurrentLevel : Z;
  m_nFileRollSize : Z;
  m_nCurrentWrittenSize : Z;
  m_listLinesToWrite : list bytes;
  m_bExit : bool;
  m_bRunning : bool;
  writer : point;
  disk : list (bytes * bytes);
  console : list bytes
}.
Definition initial : State :=
  mkState false None (lit "default") [] LOG_LEVEL_INFO DEFAULT_ROLL_SIZE 0 [] false false NotStarted [] [].

Definition set_level (v : Z) (s : State) : State :=
  mkState (m_bTruncateLongLog s) (m_hLogFile s) (m_strFileName s) (m_strFileNamePID s) v
    (m_nFileRollSize s) (m_nCurrentWrittenSize s) (m_listLinesToWrite s) (m_bExit s) (m_bRunning s)
    (writer s) (disk s) (console s).
Definition set_lines (l : list bytes) (s : State) : State :=
  mkState (m_bTruncateLongLog s) (m_hLogFile s) (m_strFileName s) (m_strFileNamePID s) (m_nCurrentLevel s)
    (m_nFileRollSize s) (m_nCurrentWrittenSize s) l (m_bExit s) (m_bRunning s)
    (writer s) (disk s) (console s).
Definition set_exit (s : State) : State :=
  mkState (m_bTruncateLongLog s) (m_hLogFile s) (m_strFileName s) (m_strFileNamePID s) (m_nCurrentLevel s)
    (m_nFileRollSize s) (m_nCurrentWrittenSize s) (m_listLinesToWrite s) true (m_bRunning s)
    (writer s) (disk s) (console s).
Definition set_writer (p : point) (s : State) : State :=
  mkState (m_bTruncateLongLog s) (m_hLogFile s) (m_strFileName s) (m_strFileNamePID s) (m_nCurrentLevel s)
    (m_nFileRollSize s) (m_nCurrentWrittenSize s) (m_listLinesToWrite s) (m_bExit s)
    (m_bRunning s) p (disk s) (console s).
Definition set_running (s : State) : State :=
  mkState (m_bTruncateLongLog s) (m_hLogFile s) (m_strFileName s) (m_strFileNamePID s) (m_nCurrentLevel s)
    (m_nFileRollSize s) (m_nCurrentWrittenSize s) (m_listLinesToWrite s) (m_bExit s)
    true (writer s) (disk s) (console s).
Definition set_size (n : Z) (s : State) : State :=
  mkState (m_bTruncateLongLog s) (m_hLogFile s) (m_strFileName s) (m_strFileNamePID s) (m_nCurrentLevel s)
    (m_nFileRollSize s) n (m_listLinesToWrite s) (m_bExit s) (m_bRunning s)
    (writer s) (disk s) (console s).
Definition set_file (h : option bytes) (d : list (bytes * bytes)) (s : State) : State :=
  mkState (m_bTruncateLongLog s) h (m_strFileName s) (m_strFileNamePID s) (m_nCurrentLevel s)
    (m_nFileRollSize s) (m_nCurrentWrittenSize s) (m_listLinesToWrite s) (m_bExit s) (m_bRunning s)
    (writer s) d (console s).
Definition print (line : bytes) (s : State) : State :=
  mkState (m_bTruncateLongLog s) (m_hLogFile s) (m_strFileName s) (m_strFileNamePID s) (m_nCurrentLevel s)
    (m_nFileRollSize s) (m_nCurrentWrittenSize s) (m_listLinesToWrite s) (m_bExit s) (m_bRunning s)
    (writer s) (disk s) (console s ++ [line]).

(** [%0nd] and [%0nu] of a number that is not negative. *)
Definition pad (n : nat) (z : Z) : bytes :=
  let d := Decimal.format_d z in replicate (n - length d) Byte.x30 ++ d.

(** [init]; [pid] is the id of the process.  [m_bRunning] is set by the thread as
    it starts. *)
Definition init (pszLogFileName : option bytes) (bTruncateLongLine : bool) (nRollSize pid : Z) : M State bool :=
  do! modify (fun s => mkState bTruncateLongLine (m_hLogFile s)
        (match pszLogFileName with Some n => n | None => [] end)
        (take 7 (pad 5 pid)) (m_nCurrentLevel s) nRollSize (m_nCurrentWrittenSize s)
        (m_listLinesToWrite s) (m_bExit s) (m_bRunning s) AtOpen (disk s) (console s)) in
  do! modify set_running in
  ret true.

Definition setLevel (nLevel : Z) : M State unit :=
  when (negb ((nLevel <? LOG_LEVEL_TRACE) || (LOG_LEVEL_FATAL <? nLevel))) (modify (set_level nLevel)).
Definition isRunning : M State bool := gets m_bRunning.

(** [time] is the text of [getTime], [tid] the one of the thread's id. *)
Definition level_name (nLevel : Z) : bytes :=
  if nLevel =? LOG_LEVEL_TRACE then lit "[TRACE]"
  else if nLevel =? LOG_LEVEL_DEBUG then lit "[DEBUG]"
  else if nLevel =? LOG_LEVEL_WARNING then lit "[WARN]"
  else if nLevel =? LOG_LEVEL_ERROR then lit "[ERROR]"
  else if nLevel =? LOG_LEVEL_SYSERROR then lit "[SYSE]"
  else if nLevel =? LOG_LEVEL_FATAL then lit "[FATAL]"
  else if nLevel =? LOG_LEVEL_CRITICAL then lit "[CRITICAL]"
  else lit "[INFO]".
Definition makeLinePrefix (nLevel : Z) (time tid : bytes) : bytes :=
  level_name nLevel ++ lit "[" ++ time ++ lit "]" ++ take 31 (lit "[" ++ tid ++ lit "]").

(** [fopen(name, "w+")] empties a file of that name. *)
Definition fopen_w (name : bytes) (d : list (bytes * bytes)) : list (bytes * bytes) :=
  List.filter (fun f => negb (bool_decide (fst f = name))) d ++ [(name, [])].
Definition createNewFile (name : bytes) (ok : bool) : M State bool :=
  if ok then do! modify (fun s => set_file (Some name) (fopen_w name (disk s)) s) in ret true
  else do! modify (fun s => set_file None (disk s) s) in ret false.

Definition file_append (name d : bytes) (files : list (bytes * bytes)) : list (bytes * bytes) :=
  map (fun f => if bool_decide (fst f = name) then (fst f, snd f ++ d) else f) files.

(** The loop of [writeToFile]; [fwrite n] is the answer with [n] rounds left. *)
Fixpoint write_loop (fuel : nat) (fwrite : nat -> Z) (strLocal : bytes) : M State bool :=
  match fuel with
  | O => ret false
  | S fuel' =>
      let! s := get in
      match m_hLogFile s with
      | None => undefined NullPointer
      | Some name =>
          let n := fwrite fuel' in
          if n <=? 0 then ret false
          else
            do! modify (fun s => set_file (Some name)
                  (file_append name (take (Z.to_nat n) strLocal) (disk s)) s) in
            let rest := if n <=? zlen strLocal then drop (Z.to_nat n) strLocal else strLocal in
            if zlen rest =? 0 then ret true else write_loop fuel' fwrite rest
      end
  end.
Definition writeToFile (fwrite : nat -> Z) (data : bytes) : M State bool :=
  write_loop (S (length data)) fwrite data.

(** The name of a new file; [now] is the text of the local time. *)
Definition new_name (now : bytes) (s : State) : bytes :=
  m_strFileName s ++ lit "." ++ now ++ lit "." ++ m_strFileNamePID s ++ lit ".log".

(** The line of a record: [prefix] ends with the function's signature in the form
    that has one, [msg] is what [vsnprintf] makes, [None] when it fails. *)
Definition make_line (prefix : bytes) (msg : bytes) (s : State) : bytes :=
  let text := if m_bTruncateLongLog s then take (Z.to_nat MAX_LINE_LENGTH) msg else msg in
  prefix ++ text ++ (if zlen (m_strFileName s) =? 0 then [] else lit (String (Ascii.ascii_of_nat 10) EmptyString)).
Definition signature (file : bytes) (nLineNo : Z) : bytes :=
  take 511 (lit "[" ++ file ++ lit ":" ++ Decimal.format_d nLineNo ++ lit "]").

Definition crash {A} : M State A := undefined NullPointer.

Definition output (nLevel : Z) (prefix : bytes) (msg : option bytes)
    (now : bytes) (fopen_ok : bool) (fwrite : nat -> Z) : M State bool :=
  let! s := get in
  if negb (nLevel =? LOG_LEVEL_CRITICAL) && (nLevel <? m_nCurrentLevel s) then ret false
  else
    match msg with
    | None => throw LengthError
    | Some m =>
        let strLine := make_line prefix m s in
        if negb (nLevel =? LOG_LEVEL_FATAL) then
          do! modify (fun s => set_lines (m_listLinesToWrite s ++ [strLine]) s) in ret true
        else
          do! modify (print strLine) in
          if zlen (m_strFileName s) =? 0 then crash
          else
            let! ok := (match m_hLogFile s with
                        | None => createNewFile (new_name now s) fopen_ok
                        | Some _ => ret true
                        end) in
            if ok : bool then let! _ := writeToFile fwrite strLine in crash else ret false
    end.

(** [d] is what [localtime_r] makes of the time of [ftime], [None] when it fails;
    [szTime] has 64 bytes. *)
Definition getTime (d : option Timestamp.tm) (millitm : Z) : outcome bytes :=
  match d with
  | None => Undef Uninitialised
  | Some d =>
      year ← Timestamp.int_add (Timestamp.tm_year d) 1900;
      mon ← Timestamp.int_add (Timestamp.tm_mon d) 1;
      Ret (take 63 (lit "[" ++ Timestamp.pad0 4 year ++ lit "-" ++ Timestamp.pad0 2 mon ++ lit "-" ++
        Timestamp.pad0 2 (Timestamp.tm_mday d) ++ lit " " ++ Timestamp.pad0 2 (Timestamp.tm_hour d) ++ lit ":" ++
        Timestamp.pad0 2 (Timestamp.tm_min d) ++ lit ":" ++ Timestamp.pad0 2 (Timestamp.tm_sec d) ++ lit ":" ++
        Timestamp.pad0 3 millitm ++ lit "]"))
  end.

(** The form of the macros, with the place of the call. *)
Definition output_at (nLevel : Z) (d : option Timestamp.tm) (millitm : Z) (tid pszFileName : bytes) (nLineNo : Z)
    (msg : option bytes) (now : bytes) (fopen_ok : bool) (fwrite : nat -> Z) : M State bool :=
  let! s := get in
  if negb (nLevel =? LOG_LEVEL_CRITICAL) && (nLevel <? m_nCurrentLevel s) then ret false
  else
    let! time := lift (getTime d millitm) in
    output nLevel (makeLinePrefix nLevel time tid ++ signature pszFileName nLineNo) msg now fopen_ok fwrite.

Example a_line :
  getTime (Some (Timestamp.mkTm 124 2 5 7 8 9)) 12 = Ret (lit "[2024-03-05 07:08:09:012]").
Proof. done. Qed.

(** One part of an iteration of [writeThreadProc]. *)
Definition open_part (now : bytes) (ok : bool) : M State unit :=
  let! s := get in
  if zlen (m_strFileName s) =? 0 then modify (set_writer AtPop)
  else if match m_hLogFile s with None => true | Some _ => false end ||
          (m_nFileRollSize s <=? m_nCurrentWrittenSize s) then
    do! modify (set_size 0) in
    let! created := createNewFile (new_name now s) ok in
    modify (set_writer (if created : bool then AtPop else Finished))
  else modify (set_writer AtPop).
(** With nothing to write the thread waits, unless it has to exit. *)
Definition pop_part : M State unit :=
  let! s := get in
  match m_listLinesToWrite s with
  | [] => when (m_bExit s) (modify (set_writer Finished))
  | strLine :: l => do! modify (set_lines l) in modify (set_writer (AtWrite strLine))
  end.
Definition write_part (fwrite : nat -> Z) (strLine : bytes) : M State unit :=
  do! modify (print strLine) in
  let! s := get in
  if zlen (m_strFileName s) =? 0 then modify (set_writer AtOpen)
  else
    let! ok := writeToFile fwrite strLine in
    if ok : bool then
      do! modify (fun s => set_size (m_nCurrentWrittenSize s + zlen strLine) s) in
      modify (set_writer AtOpen)
    else modify (set_writer Finished).
Definition writeThreadProc (now : bytes) (ok : bool) (fwrite : nat -> Z) : M State unit :=
  let! s := get in
  match writer s with
  | AtOpen => open_part now ok
  | AtPop => pop_part
  | AtWrite strLine => write_part fwrite strLine
  | NotStarted | Finished => ret tt
  end.

(** [uninit]: the thread is told to exit; [close_file] is what follows once it
    has been joined. *)
Definition uninit : M State unit := modify set_exit.
Definition close_file : M State unit := modify (fun s => set_file None (disk s) s).

(** ** Runs of the log

    A record of any level but the fatal one, which ends the process; a part of
    an iteration of the writing thread; the request to exit. *)
Inductive event : Type :=
| Record_ (nLevel : Z) (prefix msg : bytes)
| Write (now : bytes) (fopen_ok : bool) (fwrite : nat -> Z)
| Exit.

(** The result is the lines the step put in the list. *)
Definition step (e : event) : M State (list bytes) :=
  match e with
  | Record_ nLevel prefix msg =>
      let! s := get in
      let! kept := output nLevel prefix (Some msg) [] true (fun _ => 0) in
      ret (if kept : bool then [make_line prefix msg s] else [])
  | Write now ok fwrite => do! writeThreadProc now ok fwrite in ret []
  | Exit => do! uninit in ret []
  end.
Fixpoint run (es : list event) : M State (list bytes) :=
  match es with
  | [] => ret []
  | e :: es' => let! l := step e in let! l' := run es' in ret (l ++ l')
  end.

(** [fwrite] answers between 1 and the bytes it was given. *)
Fixpoint answers_ok (fuel : nat) (fwrite : nat -> Z) (d : bytes) : Prop :=
  match fuel with
  | O => True
  | S fuel' =>
      d = [] \/ (1 <= fwrite fuel' <= zlen d /\
        answers_ok fuel' fwrite (drop (Z.to_nat (fwrite fuel')) d))
  end.

(** What the environment does in a run: files can be made under new names and
    take what is written to them. *)
Definition event_ok (e : event) (s : State) : Prop :=
  match e with
  | Record_ nLevel _ _ => nLevel <> LOG_LEVEL_FATAL
  | Write now ok fwrite =>
      ok = true /\ (writer s = AtOpen -> new_name now s ∉ map fst (disk s)) /\
      match writer s with AtWrite d => answers_ok (S (length d)) fwrite d | _ => True end
  | Exit => True
  end.
Fixpoint run_ok (es : list event) (s : State) : Prop :=
  match es with
  | [] => True
  | e :: es' => event_ok e s /\ forall l s', step e s = Ret (l, s') -> run_ok es' s'
  end.

Definition in_flight (s : State) : list bytes := match writer s with AtWrite d => [d] | _ => [] end.
(** Every line there was, in the order it was put in the list. *)
Definition ledger (s : State) : list bytes := console s ++ in_flight s ++ m_listLinesToWrite s.

Record inv (s : State) : Prop := {
  inv_name : m_strFileName s <> [];
  inv_disk : concat (map snd (disk s)) = concat (console s);
  inv_file : match m_hLogFile s with
             | None => disk s = [] /\ m_nCurrentWrittenSize s = 0
             | Some n => exists pre c, disk s = pre ++ [(n, c)] /\ n ∉ map fst pre /\
                 zlen c = m_nCurrentWrittenSize s /\
                 Forall (fun f => m_nFileRollSize s <= zlen (snd f)) pre
             end;
  inv_open : match writer s with AtPop | AtWrite _ => m_hLogFile s <> None | _ => True end;
  inv_lines : Forall (fun d => d <> []) (in_flight s ++ m_listLinesToWrite s)
}.

Lemma file_append_other name d files : name ∉ map fst files -> file_append name d files = files.
Proof.
  induction files as [|f files IH]; intros Hn; [done|]. cbn in *.
  apply not_elem_of_cons in Hn as [Hne Hn]. rewrite bool_decide_false by congruence.
  f_equal. by apply IH.
Qed.
Lemma file_append_last name pre c d :
  name ∉ map fst pre -> file_append name d (pre ++ [(name, c)]) = pre ++ [(name, c ++ d)].
Proof.
  intros Hn. unfold file_append. rewrite map_app. fold (file_append name d pre).
  rewrite file_append_other by done. cbn. by rewrite bool_decide_true.
Qed.

Lemma write_loop_ok name pre fwrite fuel : forall d c s,
  (length d < fuel)%nat -> d <> [] -> answers_ok fuel fwrite d -> name ∉ map fst pre ->
  m_hLogFile s = Some name -> disk s = pre ++ [(name, c)] ->
  write_loop fuel fwrite d s = Ret (true, set_file (Some name) (pre ++ [(name, c ++ d)]) s).
Proof.
  induction fuel as [|fuel IH]; intros d c s Hlen Hd Hans Hn Hf Hdisk; [lia|].
  destruct Hans as [?|[Hr Hans]]; [done|]. cbn [write_loop]. rewrite M_bind_eq. cbn [get]. rewrite Hf.
  destruct (Z.leb_spec (fwrite fuel) 0); [lia|]. rewrite M_bind_eq. cbn [modify].
  destruct (Z.leb_spec (fwrite fuel) (zlen d)); [|lia].
  set (n := Z.to_nat (fwrite fuel)) in *. assert ((0 < n)%nat /\ (n <= length d)%nat) as [Hn0 Hnl]
    by (unfold n, zlen in *; lia).
  rewrite Hdisk, file_append_last by done. destruct (Z.eqb_spec (zlen (drop n d)) 0) as [Hz|Hz].
  - assert (drop n d = []) as Hnil by (apply nil_length_inv; unfold zlen in Hz; lia).
    rewrite <- (take_drop n d) at 2. by rewrite Hnil, app_nil_r.
  - rewrite (IH _ (c ++ take n d)); try done.
    + by rewrite <- app_assoc, take_drop.
    + rewrite length_drop. lia.
    + intros Hnil. by rewrite Hnil in Hz.
Qed.

Lemma make_line_nonempty prefix msg s : m_strFileName s <> [] -> make_line prefix msg s <> [].
Proof.
  intros Hn. unfold make_line. destruct (Z.eqb_spec (zlen (m_strFileName s)) 0) as [E|E].
  - destruct Hn. apply nil_length_inv. unfold zlen in E. lia.
  - intros E2. apply app_nil in E2 as [_ E2]. by apply app_nil in E2 as [_ E2].
Qed.

Lemma name_not_empty (s : State) : m_strFileName s <> [] -> zlen (m_strFileName s) =? 0 = false.
Proof. intros Hn. destruct (m_strFileName s); [done|]. by apply Z.eqb_neq. Qed.

Lemma open_ok now s :
  inv s -> writer s = AtOpen -> new_name now s ∉ map fst (disk s) ->
  exists s', open_part now true s = Ret (tt, s') /\ inv s' /\ ledger s' = ledger s.
Proof.
  intros [H1 H2 H3 H4 H5] Hw Hnew. unfold open_part. rewrite M_bind_eq. cbn [get].
  rewrite name_not_empty by done.
  assert (in_flight s = []) as Hin by (unfold in_flight; by rewrite Hw).
  unfold ledger. rewrite Hin in *. destruct (_ || _) eqn:Hroll.
  - rewrite M_bind_eq. cbn [modify]. rewrite M_bind_eq. unfold createNewFile. rewrite M_bind_eq.
    cbn [modify ret]. eexists. split; [reflexivity|]. split; [|done].
    change (disk (set_size 0 s)) with (disk s).
    assert (fopen_w (new_name now s) (disk s) = disk s ++ [(new_name now s, [])]) as Hfw.
    { unfold fopen_w. f_equal. clear -Hnew. induction (disk s) as [|f l IH]; [done|]. cbn in *.
      apply not_elem_of_cons in Hnew as [Hne Hn]. rewrite bool_decide_false by congruence. cbn.
      by rewrite IH. }
    rewrite Hfw. split; cbn; try done.
    + by rewrite map_app, concat_app, H2, !app_nil_r.
    + exists (disk s), []. split_and!; [done..|]. apply orb_true_iff in Hroll.
      destruct (m_hLogFile s) as [n|]; [|destruct H3 as [-> _]; constructor].
      destruct Hroll as [?|Hsz%Z.leb_le]; [done|]. destruct H3 as (pre & c & -> & _ & Hc & Hpre).
      apply Forall_app. split; [done|]. constructor; [cbn; lia|constructor].
  - eexists. split; [reflexivity|]. split; [|done]. split; cbn; try done.
    apply orb_false_iff in Hroll as [Hf _]. by destruct (m_hLogFile s).
Qed.

Lemma write_ok fwrite d s :
  inv s -> writer s = AtWrite d -> answers_ok (S (length d)) fwrite d ->
  exists s', write_part fwrite d s = Ret (tt, s') /\ inv s' /\ ledger s' = ledger s.
Proof.
  intros [H1 H2 H3 H4 H5] Hw Hans. assert (in_flight s = [d]) as Hin by (unfold in_flight; by rewrite Hw).
  rewrite Hin in H5. apply Forall_cons in H5 as [Hd H5]. rewrite Hw in H4.
  unfold write_part. rewrite M_bind_eq. cbn [modify]. rewrite M_bind_eq. cbn [get].
  change (m_strFileName (print d s)) with (m_strFileName s). rewrite name_not_empty by done.
  destruct (m_hLogFile s) as [n|] eqn:Hf; [|done]. destruct H3 as (pre & c & Hdisk & Hn & Hc & Hpre).
  rewrite M_bind_eq. unfold writeToFile. rewrite (write_loop_ok n pre _ _ d c) by (done || lia).
  rewrite M_bind_eq. cbn [modify]. eexists. split; [reflexivity|]. split.
  - split; cbn; try done.
    + rewrite Hdisk in H2. rewrite map_app, concat_app in *. cbn in *. rewrite app_nil_r in *.
      rewrite concat_app. cbn. by rewrite app_nil_r, <- H2, app_assoc.
    + exists pre, (c ++ d). split_and!; [done..| |done]. rewrite zlen_app. lia.
  - unfold ledger. rewrite Hin. cbn. by rewrite <- app_assoc.
Qed.

Lemma step_ok e s :
  inv s -> event_ok e s ->
  exists l s', step e s = Ret (l, s') /\ inv s' /\ ledger s' = ledger s ++ l.
Proof.
  intros Hinv Hok. pose proof Hinv as [H1 H2 H3 H4 H5]. destruct e as [lvl prefix msg|now ok fwrite|]; cbn [step].
  - cbn in Hok. rewrite M_bind_eq. cbn [get]. rewrite M_bind_eq. unfold output. rewrite M_bind_eq. cbn [get].
    destruct (_ && _); [eexists _, s; split; [reflexivity|]; by rewrite app_nil_r|].
    rewrite (proj2 (Z.eqb_neq _ _)) by done. cbn [negb]. rewrite M_bind_eq. cbn [modify].
    eexists _, _. split; [reflexivity|]. split.
    + split; cbn; try done. rewrite app_assoc. apply Forall_app. split; [done|].
      constructor; [by apply make_line_nonempty|constructor].
    + unfold ledger, in_flight. cbn. by rewrite <- !app_assoc.
  - destruct Hok as (-> & Hnew & Hans). rewrite M_bind_eq. unfold writeThreadProc. rewrite M_bind_eq.
    cbn [get]. destruct (writer s) as [| | |d|] eqn:Hw.
    + exists [], s. by rewrite app_nil_r.
    + destruct (open_ok now s Hinv Hw (Hnew eq_refl)) as (s' & -> & Hi & Hl). exists [], s'. by rewrite app_nil_r.
    + unfold pop_part. rewrite M_bind_eq. cbn [get].
      assert (in_flight s = []) as Hin by (unfold in_flight; by rewrite Hw). rewrite Hin in H5.
      destruct (m_listLinesToWrite s) as [|line l] eqn:Hl.
      * destruct (m_bExit s); cbn [when].
        -- eexists _, _. split; [reflexivity|]. split; [|unfold ledger; by rewrite Hin, app_nil_r].
           split; cbn; try done. by rewrite Hl.
        -- eexists _, s. split; [reflexivity|]. by rewrite app_nil_r.
      * rewrite M_bind_eq. cbn [modify]. eexists _, _. split; [reflexivity|]. split.
        -- split; cbn; try done.
        -- unfold ledger. rewrite Hin, Hl. cbn. by rewrite app_nil_r.
    + destruct (write_ok fwrite d s Hinv Hw Hans) as (s' & -> & Hi & Hl). exists [], s'. by rewrite app_nil_r.
    + exists [], s. by rewrite app_nil_r.
  - eexists _, _. split; [reflexivity|]. split; [by split|]. unfold ledger. by rewrite app_nil_r.
Qed.

Lemma log_run_inv es : forall s, inv s -> run_ok es s ->
  exists l s', run es s = Ret (l, s') /\ inv s' /\ ledger s' = ledger s ++ l.
Proof.
  induction es as [|e es IH]; intros s Hinv Hok; [exists [], s; by rewrite app_nil_r|].
  destruct Hok as [Ho Hrest]. destruct (step_ok e s Hinv Ho) as (l & s1 & E & Hi1 & Hl1).
  destruct (IH s1 Hi1 (Hrest _ _ E)) as (l' & s2 & E2 & Hi2 & Hl2). exists (l ++ l'), s2.
  cbn [run]. rewrite M_bind_eq, E, M_bind_eq, E2. split; [done|]. split; [done|].
  by rewrite Hl2, Hl1, app_assoc.
Qed.

(** The roll size is set once. *)
Definition same_roll (s s' : State) : Prop := m_nFileRollSize s' = m_nFileRollSize s.
#[export] Instance same_roll_preorder : PreOrder same_roll.
Proof. split; [done|]. unfold same_roll. intros x y z -> ->. done. Qed.
Lemma same_roll_modify f : (forall s, m_nFileRollSize (f s) = m_nFileRollSize s) -> respects same_roll (modify f).
Proof. intros Hf. by apply respects_modify. Qed.
#[local] Hint Resolve same_roll_modify : respects.

Lemma write_loop_roll fwrite fuel : forall d, respects same_roll (write_loop fuel fwrite d).
Proof.
  induction fuel as [|fuel IH]; intros d; cbn [write_loop]; respects.
Qed.
#[local] Hint Resolve write_loop_roll : respects.

Lemma step_roll e : respects same_roll (step e).
Proof.
  destruct e as [lvl prefix msg|now ok fwrite|]; cbn [step]; unfold output, crash, createNewFile, writeToFile,
    writeThreadProc, open_part, pop_part, write_part, writeToFile, createNewFile, uninit; respects.
Qed.
Lemma run_roll es : respects same_roll (run es).
Proof.
  induction es as [|e es IH]; [apply respects_ret, _|]. cbn [run].
  apply respects_bind; [apply _|apply step_roll|]. intros l. apply respects_bind; [apply _|done|].
  intros l'. apply respects_ret, _.
Qed.


(** Two files rolled within one second have the same name: the first one, with
    the line it holds, is gone. *)
Definition full (k : Z) : nat -> Z := fun _ => k.
Definition demo (second_name third_name : bytes) : list event :=
  [Record_ LOG_LEVEL_INFO (lit "[INFO]") (lit "one"); Record_ LOG_LEVEL_DEBUG (lit "[DEBUG]") (lit "hidden");
   Record_ LOG_LEVEL_ERROR (lit "[ERROR]") (lit "two");
   Write (lit "20240101000000") true (full 1); Write [] true (full 1);
   Write (lit "20240101000000") true (full 10);
   Write second_name true (full 1); Write [] true (full 1); Write second_name true (full 1); Exit;
   Write third_name true (full 1); Write third_name true (full 1)].
Definition s_demo : State :=
  match init (Some (lit "chat")) false 4 77 initial with Ret (_, s) => s | _ => initial end.
Example same_second_loses :
  match run (demo (lit "20240101000000") (lit "20240101000000")) s_demo with
  | Ret (lines, s) => length lines = 2%nat /\ console s = lines /\ concat (map snd (disk s)) <> concat lines
  | _ => False
  end.
Proof. vm_compute. split_and!; [done|done|discriminate]. Qed.

Fixpoint answers_okb (fuel : nat) (fwrite : nat -> Z) (d : bytes) : bool :=
  match fuel with
  | O => true
  | S fuel' =>
      bool_decide (d = []) ||
      ((1 <=? fwrite fuel') && (fwrite fuel' <=? zlen d) &&
       answers_okb fuel' fwrite (drop (Z.to_nat (fwrite fuel')) d))
  end.
Definition event_okb (e : event) (s : State) : bool :=
  match e with
  | Record_ nLevel _ _ => negb (nLevel =? LOG_LEVEL_FATAL)
  | Write now ok fwrite =>
      ok && match writer s with
            | AtOpen => negb (existsb (fun n => bool_decide (n = new_name now s)) (map fst (disk s)))
            | _ => true
            end &&
      match writer s with AtWrite d => answers_okb (S (length d)) fwrite d | _ => true end
  | Exit => true
  end.
Fixpoint run_okb (es : list event) (s : State) : bool :=
  match es with
  | [] => true
  | e :: es' => event_okb e s && match step e s with Ret (_, s') => run_okb es' s' | _ => true end
  end.
Lemma answers_okb_ok fuel fwrite : forall d, answers_okb fuel fwrite d = true -> answers_ok fuel fwrite d.
Proof.
  induction fuel as [|fuel IH]; intros d; [done|]. cbn [answers_okb answers_ok].
  rewrite orb_true_iff, !andb_true_iff, bool_decide_eq_true, !Z.leb_le. intros [?|[? ?]]; auto.
Qed.
Lemma log_run_okb_ok es : forall s, run_okb es s = true -> run_ok es s.
Proof.
  induction es as [|e es IH]; intros s; [done|]. cbn [run_okb run_ok]. rewrite andb_true_iff. intros [He Hr].
  split; [|intros l s' E; rewrite E in Hr; by apply IH]. destruct e as [lvl p m|now ok fw|]; cbn in *; [|clear Hr|done].
  - by apply negb_true_iff, Z.eqb_neq in He.
  - rewrite !andb_true_iff in He. destruct He as [[-> Hn] Ha]. split_and!; [done| |].
    + intros Hw Hin. rewrite Hw in Hn. apply negb_true_iff in Hn. rewrite (proj2 (existsb_exists _ _)) in Hn; [done|].
      exists (new_name now s). rewrite bool_decide_true by done. by split; [apply list_elem_of_In|].
    + destruct (writer s); try done. by apply (answers_okb_ok (S _)).
Qed.


End AsyncLog.

(** ** The dump of a binary buffer *)
Module Dump.

(** [%06u] *)
Definition decimal_digit (n : Z) : Byte.byte := byte.of_Z (48 + n).
Fixpoint udec (fuel : nat) (n : Z) : bytes :=
  match fuel with
  | O => []
  | S fuel' => if n <? 10 then [decimal_digit n] else udec fuel' (n / 10) ++ [decimal_digit (n mod 10)]
  end.
Definition ullto4Str (n : Z) : bytes :=
  let d := udec 10 (u32 n) in replicate (6 - length d) Byte.x30 ++ d.

Definition szchar (n : Z) : Byte.byte := nth (Z.to_nat n) (lit "0123456789abcdef") Byte.x00.
Definition space : Byte.byte := Byte.x20.
Definition newline : Byte.byte := Byte.x0a.

(** [strcat]: from the first NUL of the destination on. *)
Definition strcat (dst src : bytes) : outcome bytes :=
  match memchr Byte.x00 dst with
  | Some n => store (Z.of_nat n) (src ++ [Byte.x00]) dst
  | None => Undef OutOfBounds
  end.

(** What a byte of the loop puts before its two digits. *)
Definition put_head (index len lsize headlen : Z) (szbuf : bytes)
    : outcome (Z * Z * Z * bytes) :=
  if lsize mod 32 =? 0 then
    p ← (if negb (headlen =? 0) then b ← store len [newline] szbuf; Ret (len + 1, b) else Ret (len, szbuf));
    if index =? 2 ^ 31 - 1 then Undef SignedOverflow
    else
      let szhead := take 64 (ullto4Str index) in
      let headlen := zlen szhead + 1 in
      b ← strcat (snd p) (szhead ++ [space]);
      Ret (index + 1, fst p + headlen, headlen, b)
  else Ret (index, len, headlen, szbuf).

Fixpoint form_loop (fuel : nat) (index len lsize headlen : Z) (szbuf : bytes) (size_buf : Z)
    (buffer : bytes) (size : Z) : outcome (Z * Z * bytes) :=
  match fuel with
  | O => Ret (index, len, szbuf)
  | S fuel' =>
      if (lsize <? size) && (len + 10 <? size_buf) then
        p ← put_head index len lsize headlen szbuf;
        let '(index, len, headlen, szbuf) := p in
        q ← (if (lsize mod 16 =? 0) && negb (headlen =? 0)
             then b ← store len [space] szbuf; Ret (len + 1, b) else Ret (len, szbuf));
        c ← load1 lsize buffer;
        b1 ← store (fst q) [szchar (Z.land (Z.shiftr (uchar c) 4) 15)] (snd q);
        b2 ← store (fst q + 1) [szchar (Z.land (uchar c) 15)] b1;
        form_loop fuel' index (fst q + 2) (lsize + 1) headlen b2 size_buf buffer size
      else Ret (index, len, szbuf)
  end.
Definition formLog (index : Z) (szbuf : bytes) (size_buf : Z) (buffer : bytes) (size : Z)
    : outcome (Z * bytes) :=
  r ← form_loop (S (Z.to_nat size)) index 0 0 0 szbuf size_buf buffer size;
  let '(index, len, szbuf) := r in
  b1 ← store len [newline] szbuf;
  b2 ← store (len + 1) [Byte.x00] b1;
  Ret (index, b2).

Definition PRINTSIZE : Z := 512.
(** The loop of [outputBinary]; each round takes a byte at least. *)
Fixpoint dump_loop (fuel : nat) (index lsize : Z) (os : bytes) (buffer : bytes) (size : Z) : outcome bytes :=
  match fuel with
  | O => Ret os
  | S fuel' =>
      let szbuf := replicate (Z.to_nat (PRINTSIZE * 3 + 8)) Byte.x00 in
      if lsize <? size then
        let lprintbufsize := Z.min (size - lsize) PRINTSIZE in
        p ← formLog index szbuf (PRINTSIZE * 3 + 8) (drop (Z.to_nat lsize) buffer) lprintbufsize;
        dump_loop fuel' (fst p) (lsize + lprintbufsize) (os ++ c_str (snd p)) buffer size
      else Ret os
  end.
(** [address] is the number printed for the pointer. *)
Definition outputBinary (address : Z) (buffer : bytes) (size : Z) : M AsyncLog.State bool :=
  let! os := lift (dump_loop (S (Z.to_nat size)) 0 0
    (lit "address[" ++ Decimal.format_d address ++ lit "] size[" ++ Decimal.format_d size ++ lit "] " ++ [newline])
    buffer size) in
  do! modify (fun s => AsyncLog.set_lines (AsyncLog.m_listLinesToWrite s ++ [os]) s) in
  ret true.

(** *** The reference: rows of 32 bytes, in two halves *)
Definition hexes (l : bytes) : bytes :=
  flat_map (fun c => [szchar (uchar c / 16); szchar (uchar c mod 16)]) l.
Fixpoint rows (n : nat) (l : bytes) : list bytes :=
  match n with
  | O => []
  | S n' => match l with [] => [] | _ => take 32 l :: rows n' (drop 32 l) end
  end.
Definition row_text (i : Z) (r : bytes) : bytes :=
  ullto4Str i ++ [space; space] ++ hexes (take 16 r) ++
  match drop 16 r with [] => [] | r2 => space :: hexes r2 end.
Fixpoint rows_text (i : Z) (rs : list bytes) : bytes :=
  match rs with [] => [] | r :: rs' => row_text i r ++ [newline] ++ rows_text (i + 1) rs' end.
Definition dump (i : Z) (l : bytes) : bytes := rows_text i (rows (length l) l).

Example dump_abc : dump 0 (lit "abc") = lit "000000  616263" ++ [newline].
Proof. reflexivity. Qed.

(** *** The text in the memory of [szbuf] *)
Abbreviation zeros k := (replicate k Byte.x00).
Definition printable (l : bytes) : Prop := Byte.x00 ∉ l.

Lemma printable_app k l : printable (k ++ l) <-> printable k /\ printable l.
Proof. unfold printable. rewrite elem_of_app. tauto. Qed.

Lemma store_zeros t d k :
  (length d <= k)%nat -> store (zlen t) d (t ++ zeros k) = Ret ((t ++ d) ++ zeros (k - length d)).
Proof.
  intros Hk. rewrite store_ok by (rewrite ?zlen_app; unfold zlen; rewrite ?length_replicate; lia).
  unfold splice, zlen. rewrite <- Nat2Z.inj_add, !Nat2Z.id, take_app_length, drop_app_ge by lia.
  replace (length t + length d - length t)%nat with (length d) by lia.
  by rewrite drop_replicate, <- app_assoc.
Qed.

Lemma memchr_zeros t k : printable t -> memchr Byte.x00 (t ++ zeros (S k)) = Some (length t).
Proof.
  induction t as [|x t IH]; intros Ht; cbn; [by rewrite bool_decide_true|].
  apply not_elem_of_cons in Ht as [Hx Ht]. rewrite bool_decide_false by congruence.
  cbn in IH. by rewrite IH.
Qed.

Lemma strcat_zeros t d k :
  printable t -> (length d < k)%nat -> strcat (t ++ zeros k) d = Ret ((t ++ d) ++ zeros (k - length d)).
Proof.
  intros Ht Hk. unfold strcat. destruct k as [|k]; [lia|]. rewrite memchr_zeros by done.
  change (Z.of_nat (length t)) with (zlen t). rewrite store_zeros by (rewrite length_app; cbn; lia).
  rewrite length_app. cbn [length]. replace (S k - length d)%nat with (S (S k - (length d + 1)))%nat by lia.
  cbn. by rewrite <- !app_assoc.
Qed.

Lemma c_str_zeros t k : printable t -> c_str (t ++ zeros k) = t.
Proof.
  induction t as [|x t IH]; intros Ht; [by destruct k|].
  apply not_elem_of_cons in Ht as [Hx Ht]. cbn. rewrite bool_decide_false by congruence. by rewrite IH.
Qed.

Lemma decimal_digit_printable n : 0 <= n < 10 -> decimal_digit n <> Byte.x00.
Proof.
  intros Hn E. apply (f_equal uchar) in E. unfold decimal_digit in E. rewrite uchar_of_Z in E.
  rewrite Z.mod_small in E by lia. change (uchar Byte.x00) with 0 in E. lia.
Qed.
Lemma udec_ok fuel : forall n, 0 <= n -> printable (udec fuel n) /\ (length (udec fuel n) <= fuel)%nat.
Proof.
  induction fuel as [|fuel IH]; intros n Hn; [split; [apply not_elem_of_nil|done]|]. cbn [udec].
  destruct (Z.ltb_spec n 10).
  - split; [|cbn; lia]. intros E%list_elem_of_singleton. by apply (decimal_digit_printable n); [lia|].
  - destruct (IH (n / 10)) as [H1 H2]; [by apply Z.div_pos|]. split.
    + apply printable_app. split; [done|]. intros E%list_elem_of_singleton.
      apply (decimal_digit_printable (n mod 10)); [by apply Z.mod_pos_bound|done].
    + rewrite length_app. cbn. lia.
Qed.
Lemma ullto4Str_ok n : printable (ullto4Str n) /\ (6 <= length (ullto4Str n) <= 10)%nat.
Proof.
  unfold ullto4Str. destruct (udec_ok 10 (u32 n)) as [H1 H2]; [destruct (uwrap_range 32 n); [lia|done]|]. split.
  - apply printable_app. split; [|done]. intros [E _]%elem_of_replicate. done.
  - rewrite length_app, length_replicate. lia.
Qed.

Lemma szchar_printable n : 0 <= n < 16 -> szchar n <> Byte.x00.
Proof.
  intros Hn. unfold szchar.
  assert (forallb (fun k => negb (bool_decide (nth k (lit "0123456789abcdef") Byte.x00 = Byte.x00))) (seq 0 16) = true) as H
    by (vm_compute; reflexivity).
  rewrite forallb_forall in H. specialize (H (Z.to_nat n)).
  rewrite negb_true_iff, bool_decide_eq_false in H. apply H, in_seq. lia.
Qed.

(** *** What the loop writes, byte by byte *)
Definition head (index off : Z) : bytes :=
  if off mod 32 =? 0 then
    (if off =? 0 then [] else [newline]) ++ ullto4Str (index + off / 32) ++ [space]
  else [].
Definition gap (off : Z) : bytes := if off mod 16 =? 0 then [space] else [].
Definition digits (c : Byte.byte) : bytes := [szchar (uchar c / 16); szchar (uchar c mod 16)].
Fixpoint items (index off : Z) (l : bytes) : bytes :=
  match l with
  | [] => []
  | c :: l' => (head index off ++ gap off) ++ digits c ++ items index (off + 1) l'
  end.

Lemma digits_printable c : printable (digits c).
Proof.
  pose proof (uchar_range c).
  assert (0 <= uchar c / 16 < 16) by (split; [apply Z.div_pos; lia|apply Z.div_lt_upper_bound; lia]).
  intros [E|E%list_elem_of_singleton]%elem_of_cons; symmetry in E; revert E; apply szchar_printable; [done|].
  by apply Z.mod_pos_bound.
Qed.
Lemma head_gap_ok index off :
  printable (head index off ++ gap off) /\
  zlen (head index off) + zlen (gap off) <= (if off mod 32 =? 0 then 12 else 0) + (if off mod 16 =? 0 then 1 else 0).
Proof.
  unfold head, gap. destruct (ullto4Str_ok (index + off / 32)) as [H1 H2]. split.
  - repeat case_match; rewrite ?printable_app; split_and!; try done; try apply not_elem_of_nil;
      by intros E%list_elem_of_singleton.
  - repeat case_match; zsimpl; unfold zlen; lia.
Qed.

Lemma nibbles c : Z.land (Z.shiftr (uchar c) 4) 15 = uchar c / 16 /\ Z.land (uchar c) 15 = uchar c mod 16.
Proof.
  pose proof (uchar_range c). change 15 with (Z.ones 4). rewrite !Z.land_ones by lia.
  rewrite Z.shiftr_div_pow2 by lia. split; [|done]. apply Z.mod_small.
  split; [apply Z.div_pos; lia|apply Z.div_lt_upper_bound; lia].
Qed.

Ltac dlia := Z.to_euclidean_division_equations; lia.

Lemma put_head_ok index off headlen t k :
  0 <= off -> index + off / 32 < 2 ^ 31 - 1 -> (headlen = 0 <-> off = 0) -> 0 <= headlen ->
  printable t -> 12 < Z.of_nat k ->
  exists headlen', 0 < headlen' /\
    put_head (index + (off + 31) / 32) (zlen t) off headlen (t ++ zeros k) =
    Ret (index + (off + 32) / 32, zlen (t ++ head index off), headlen',
         (t ++ head index off) ++ zeros (k - length (head index off))).
Proof.
  intros Hoff Hidx Hh0 Hh Ht Hk. unfold put_head, head. destruct (Z.eqb_spec (off mod 32) 0) as [Hm|Hm].
  - replace ((off + 31) / 32) with (off / 32) by dlia. replace ((off + 32) / 32) with (off / 32 + 1) by dlia.
    destruct (ullto4Str_ok (index + off / 32)) as [Hp Hl]. set (u := ullto4Str _) in *.
    assert (take 64 u = u) as -> by (apply take_ge; lia).
    exists (zlen u + 1). split; [unfold zlen; lia|].
    assert (forall sep, printable sep -> (length sep <= 1)%nat ->
      (if index + off / 32 =? 2 ^ 31 - 1 then Undef SignedOverflow
       else b ← strcat ((t ++ sep) ++ zeros (k - length sep)) (u ++ [space]);
            Ret (index + off / 32 + 1, zlen (t ++ sep) + (zlen u + 1), zlen u + 1, b)) =
      Ret (index + (off / 32 + 1), zlen (t ++ sep ++ u ++ [space]), zlen u + 1,
        (t ++ sep ++ u ++ [space]) ++ zeros (k - length (sep ++ u ++ [space])))) as Hgo.
    { intros sep Hs Hsl. destruct (Z.eqb_spec (index + off / 32) (2 ^ 31 - 1)); [lia|].
      rewrite strcat_zeros; [|by apply printable_app|rewrite length_app; cbn [length]; lia].
      cbn [mbind outcome_bind]. rewrite !length_app, <- !app_assoc, <- Nat.sub_add_distr. zsimpl.
      replace (zlen t + zlen sep + (zlen u + 1)) with (zlen t + (zlen sep + (zlen u + (1 + 0)))) by lia.
      by replace (index + off / 32 + 1) with (index + (off / 32 + 1)) by lia. }
    destruct (Z.eqb_spec headlen 0) as [E|E]; cbn [negb].
    + assert (off =? 0 = true) as -> by (by apply Z.eqb_eq, Hh0).
      specialize (Hgo []). cbn [app length] in Hgo.
      rewrite app_nil_r, Nat.sub_0_r in Hgo. cbn [mbind outcome_bind fst snd app]. apply Hgo; [apply not_elem_of_nil|lia].
    + destruct (Z.eqb_spec off 0) as [E0|_]; [by destruct E; apply Hh0|].
      rewrite (store_zeros t [newline] k) by (cbn; lia). cbn [mbind outcome_bind fst snd].
      replace (zlen t + 1) with (zlen (t ++ [newline])) by (zsimpl; lia).
      apply (Hgo [newline]); [by intros X%list_elem_of_singleton|done].
  - exists headlen. cbn [length]. rewrite app_nil_r, Nat.sub_0_r.
    replace ((off + 32) / 32) with ((off + 31) / 32) by dlia. split; [|done].
    destruct (Z.eq_dec headlen 0) as [E|]; [|lia]. apply Hh0 in E. subst off. done.
Qed.

(** The second space, in the middle of a line. *)
Lemma put_gap_ok off headlen u k :
  headlen <> 0 -> zlen (gap off) <= Z.of_nat k ->
  (if (off mod 16 =? 0) && negb (headlen =? 0)
   then b ← store (zlen u) [space] (u ++ zeros k); Ret (zlen u + 1, b)
   else Ret (zlen u, u ++ zeros k)) =
  Ret (zlen (u ++ gap off), (u ++ gap off) ++ zeros (k - length (gap off))).
Proof.
  intros Hh Hk. unfold gap in *. destruct (off mod 16 =? 0); cbn [andb].
  - rewrite (proj2 (Z.eqb_neq headlen 0)) by done. cbn [negb].
    rewrite store_zeros by (unfold zlen in Hk; cbn [length] in *; lia). cbn [mbind outcome_bind length].
    by rewrite (zlen_app u [space]).
  - by rewrite app_nil_r, Nat.sub_0_r.
Qed.

(** How much text there is at most after [off] bytes. *)
Definition room (off : Z) : Z := 2 * off + 12 * ((off + 31) / 32) + (off + 15) / 16.

Lemma form_loop_ok index rest l : forall fuel pre headlen t k,
  (length l < fuel)%nat -> zlen pre + zlen l <= PRINTSIZE ->
  index + 16 < 2 ^ 31 - 1 -> (headlen = 0 <-> zlen pre = 0) -> 0 <= headlen ->
  printable t -> zlen t <= room (zlen pre) -> zlen t + Z.of_nat k = PRINTSIZE * 3 + 8 ->
  let text := t ++ items index (zlen pre) l in
  form_loop fuel (index + (zlen pre + 31) / 32) (zlen t) (zlen pre) headlen (t ++ zeros k)
    (PRINTSIZE * 3 + 8) (pre ++ l ++ rest) (zlen pre + zlen l) =
  Ret (index + (zlen pre + zlen l + 31) / 32, zlen text, text ++ zeros (k - length (items index (zlen pre) l))) /\
  printable text /\ zlen text <= room (zlen pre + zlen l).
Proof.
  induction l as [|c l IH]; intros fuel pre headlen t k Hf Hsz Hidx Hh0 Hh Ht Hroom Hk text; subst text;
    (destruct fuel as [|fuel]; [cbn in Hf; lia|]); cbn [items form_loop].
  { rewrite zlen_nil, Z.add_0_r, Z.ltb_irrefl, app_nil_r, Nat.sub_0_r. cbn. split_and!; done. }
  rewrite zlen_cons in *. unfold PRINTSIZE, room in *. pose proof (zlen_nonneg pre). pose proof (zlen_nonneg l).
  destruct (Z.ltb_spec (zlen pre) (zlen pre + (1 + zlen l))); [|lia].
  destruct (Z.ltb_spec (zlen t + 10) (512 * 3 + 8)); [|dlia]. cbn [andb].
  destruct (put_head_ok index (zlen pre) headlen t k) as (headlen' & Hh' & ->); [lia|dlia|done|done|done|dlia|].
  cbn [mbind outcome_bind]. set (h := head index (zlen pre)). set (g := gap (zlen pre)).
  destruct (head_gap_ok index (zlen pre)) as [Hp Hlen]. fold h g in Hp, Hlen. apply printable_app in Hp as [Hph Hpg].
  assert (zlen h + zlen g <= room (zlen pre + 1) - room (zlen pre) - 2) as Hgrow.
  { unfold room. destruct (Z.eqb_spec (zlen pre mod 32) 0), (Z.eqb_spec (zlen pre mod 16) 0); dlia. }
  unfold room in Hgrow. assert (zlen h + zlen g + 2 <= Z.of_nat k) as Hfit by (unfold zlen in *; dlia).
  rewrite (put_gap_ok (zlen pre) headlen' (t ++ h)) by (fold g; unfold zlen in *; lia). fold g.
  cbn [mbind outcome_bind fst snd]. rewrite (load1_mid pre c (l ++ rest)) by done. cbn [mbind outcome_bind].
  destruct (nibbles c) as [-> ->]. set (u := (t ++ h) ++ g).
  rewrite store_zeros by (unfold zlen in Hfit; cbn [length]; lia). cbn [mbind outcome_bind length].
  replace (zlen u + 1) with (zlen (u ++ [szchar (uchar c / 16)])) by (by rewrite zlen_app).
  rewrite store_zeros by (unfold zlen in Hfit; cbn [length]; lia). cbn [mbind outcome_bind length].
  rewrite <- (app_assoc u). change ([szchar (uchar c / 16)] ++ [szchar (uchar c mod 16)]) with (digits c).
  set (v := u ++ digits c).
  specialize (IH fuel (pre ++ [c]) headlen' v (k - length h - length g - 1 - 1)%nat).
  assert (zlen v = zlen t + zlen h + zlen g + 2) as Hv by (unfold v, u, digits; zsimpl; lia).
  replace (zlen u + 2) with (zlen v) by (unfold v, digits; zsimpl; lia).
  rewrite <- app_assoc in IH. cbn [app] in IH. rewrite !zlen_app, zlen_cons, zlen_nil in IH.
  replace (zlen pre + (1 + 0) + zlen l) with (zlen pre + (1 + zlen l)) in IH by lia.
  change (1 + 0) with 1 in IH. replace (zlen pre + 1 + 31) with (zlen pre + 32) in IH by lia.
  destruct IH as (IH1 & IH2 & IH3); [cbn in Hf; lia|unfold PRINTSIZE; lia|lia|split; lia|lia| |unfold room; dlia|unfold PRINTSIZE; unfold zlen in *; lia|].
  { unfold v, u. rewrite !printable_app. split_and!; try done. apply digits_printable. }
  assert (v ++ items index (zlen pre + 1) l = t ++ (h ++ g) ++ digits c ++ items index (zlen pre + 1) l) as Htext
    by (unfold v, u; by rewrite <- !app_assoc).
  rewrite <- Htext, zlen_app. split; [|split; [exact IH2|exact IH3]]. etrans; [exact IH1|]. do 4 f_equal.
  rewrite !length_app. change (length (digits c)) with 2%nat. lia.
Qed.

Lemma formLog_ok index l rest :
  l <> [] -> zlen l <= PRINTSIZE -> index + 16 < 2 ^ 31 - 1 ->
  exists szbuf, formLog index (zeros (Z.to_nat (PRINTSIZE * 3 + 8))) (PRINTSIZE * 3 + 8) (l ++ rest) (zlen l) =
    Ret (index + (zlen l + 31) / 32, szbuf) /\ c_str szbuf = items index 0 l ++ [newline].
Proof.
  intros Hne Hl Hidx. unfold formLog.
  destruct (form_loop_ok index rest l (S (Z.to_nat (zlen l))) [] 0 [] (Z.to_nat (PRINTSIZE * 3 + 8)))
    as (E & Hp & Hr); [unfold zlen; lia|by rewrite zlen_nil, Z.add_0_l|done|done|done|apply not_elem_of_nil|done|done|].
  change (zlen (@nil Byte.byte)) with 0 in E, Hp, Hr. cbn [app] in E, Hp, Hr. change (0 + 31) with 31 in E. change (31 / 32) with 0 in E.
  rewrite Z.add_0_r, Z.add_0_l in E. rewrite E. cbn [mbind outcome_bind].
  unfold room in Hr. pose proof (zlen_nonneg l).
  assert (zlen (items index 0 l) + 2 <= PRINTSIZE * 3 + 8) as Hfit by (unfold PRINTSIZE in *; dlia).
  rewrite store_zeros by (unfold zlen in *; cbn [length]; lia). cbn [mbind outcome_bind].
  replace (zlen (items index 0 l) + 1) with (zlen (items index 0 l ++ [newline])) by (by rewrite zlen_app).
  rewrite store_zeros by (unfold zlen in *; cbn [length]; lia). cbn [mbind outcome_bind].
  eexists. split; [done|]. rewrite <- app_assoc.
  apply (c_str_zeros _ (S _)). apply printable_app. split; [done|]. by intros X%list_elem_of_singleton.
Qed.

(** *** The bytes of the loop are the rows of the reference *)
Lemma items_app index k : forall off l,
  items index off (k ++ l) = items index off k ++ items index (off + zlen k) l.
Proof.
  induction k as [|c k IH]; intros off l; cbn [items app]; [by rewrite zlen_nil, Z.add_0_r|].
  rewrite IH, zlen_cons, <- !app_assoc. by replace (off + 1 + zlen k) with (off + (1 + zlen k)) by lia.
Qed.

Lemma items_plain index l : forall off,
  0 < off mod 16 -> off mod 16 + zlen l <= 16 -> items index off l = hexes l.
Proof.
  induction l as [|c l IH]; intros off Ho Hl; [done|]. rewrite zlen_cons in Hl. pose proof (zlen_nonneg l).
  cbn [items]. unfold head, gap. destruct (Z.eqb_spec (off mod 32) 0); [dlia|].
  destruct (Z.eqb_spec (off mod 16) 0); [dlia|]. cbn [app]. unfold hexes. cbn [flat_map]. f_equal.
  destruct l as [|d l]; [done|]. rewrite zlen_cons in Hl. pose proof (zlen_nonneg l). apply IH; [dlia|].
  rewrite zlen_cons. dlia.
Qed.

Lemma items_half index off l :
  off mod 16 = 0 -> zlen l <= 16 -> l <> [] -> items index off l = head index off ++ [space] ++ hexes l.
Proof.
  intros Ho Hl Hne. destruct l as [|c l]; [done|]. rewrite zlen_cons in Hl. cbn [items].
  unfold gap. rewrite Ho. cbn [Z.eqb]. rewrite <- app_assoc. do 2 f_equal.
  unfold hexes. cbn [flat_map]. f_equal. destruct l as [|d l]; [done|].
  apply items_plain; rewrite ?zlen_cons in *; pose proof (zlen_nonneg l); dlia.
Qed.

Lemma items_row index q r :
  0 <= q -> zlen r <= 32 -> r <> [] ->
  items index (32 * q) r = (if q =? 0 then [] else [newline]) ++ row_text (index + q) r.
Proof.
  intros Hq Hr Hne. assert (head index (32 * q) = (if q =? 0 then [] else [newline]) ++ ullto4Str (index + q) ++ [space]) as Hh.
  { unfold head. assert (32 * q mod 32 =? 0 = true) as -> by (apply Z.eqb_eq; dlia).
    replace (32 * q / 32) with q by dlia. destruct (Z.eqb_spec q 0), (Z.eqb_spec (32 * q) 0); try lia; done. }
  rewrite <- (take_drop 16 r) at 1. rewrite items_app. unfold row_text.
  assert (take 16 r <> []) as Hne1 by (by destruct r).
  rewrite items_half by (first [done|dlia|unfold zlen; rewrite length_take; lia]).
  rewrite Hh, <- !app_assoc. f_equal. f_equal. cbn [app]. f_equal. f_equal. f_equal.
  destruct (drop 16 r) as [|d r2] eqn:Hd; [done|].
  assert (16 + length (d :: r2) = length r)%nat as Hlen.
  { rewrite <- Hd, length_drop. assert (length (drop 16 r) <> 0)%nat; [by rewrite Hd|]. rewrite length_drop in *. lia. }
  assert (zlen (take 16 r) = 16) as -> by (unfold zlen; rewrite length_take; lia).
  f_equal. rewrite items_half; [|dlia|unfold zlen in *; lia|done].
  unfold head. by assert ((32 * q + 16) mod 32 =? 0 = false) as -> by (apply Z.eqb_neq; dlia).
Qed.

Lemma rows_fuel n : forall m l, (length l <= n)%nat -> (length l <= m)%nat -> rows n l = rows m l.
Proof.
  induction n as [|n IH]; intros m l Hn Hm.
  - destruct l; [by destruct m|cbn in Hn; lia].
  - destruct l as [|c l]; [by destruct m|]. destruct m as [|m]; [cbn in Hm; lia|]. cbn [rows]. f_equal.
    apply IH; rewrite length_drop; cbn in *; lia.
Qed.

Lemma items_rows index n : forall q l,
  (length l <= n)%nat -> 0 <= q -> l <> [] ->
  items index (32 * q) l ++ [newline] =
  (if q =? 0 then [] else [newline]) ++ rows_text (index + q) (rows n l).
Proof.
  induction n as [|n IH]; intros q l Hn Hq Hne; [destruct l; [done|cbn in Hn; lia]|].
  assert (take 32 l <> []) as Hne1 by (by destruct l).
  assert (zlen (take 32 l) <= 32) as Hr by (unfold zlen; rewrite length_take; lia).
  replace (rows (S n) l) with (take 32 l :: rows n (drop 32 l)) by (by destruct l). cbn [rows_text].
  destruct (decide (drop 32 l = [])) as [Hd|Hd].
  - rewrite Hd. rewrite <- (take_drop 32 l) at 1. rewrite Hd, app_nil_r, items_row by done.
    assert (rows n [] = []) as -> by (by destruct n). cbn [rows_text]. by rewrite app_nil_r, <- app_assoc.
  - assert (zlen (take 32 l) = 32) as H32.
    { unfold zlen. rewrite length_take. assert (length (drop 32 l) <> 0)%nat as H0; [by destruct (drop 32 l)|].
      rewrite length_drop in H0. lia. }
    rewrite <- (take_drop 32 l) at 1. rewrite items_app, H32, items_row by done.
    replace (32 * q + 32) with (32 * (q + 1)) by lia. rewrite <- !app_assoc. rewrite IH by (first [done|rewrite ?length_drop; lia]).
    destruct (Z.eqb_spec (q + 1) 0); [lia|]. rewrite Z.add_assoc. done.
Qed.

Lemma rows_text_app k : forall i l, rows_text i (k ++ l) = rows_text i k ++ rows_text (i + zlen k) l.
Proof.
  induction k as [|r k IH]; intros i l; cbn [rows_text app]; [by rewrite zlen_nil, Z.add_0_r|].
  rewrite IH, zlen_cons, <- !app_assoc. by rewrite Z.add_assoc.
Qed.
Lemma rows_app m : forall n k l,
  length k = (32 * m)%nat -> (length (k ++ l) <= n)%nat ->
  rows n (k ++ l) = rows n k ++ rows n l /\ length (rows n k) = m.
Proof.
  induction m as [|m IH]; intros n k l Hk Hn.
  { destruct k; [|cbn in Hk; lia]. by destruct n. }
  rewrite length_app in Hn. destruct n as [|n]; [lia|].
  assert (forall x, x <> [] -> rows (S n) x = take 32 x :: rows n (drop 32 x)) as Hrows by (by intros []).
  assert (k <> []) as Hne by (intros ->; cbn in Hk; lia).
  rewrite !Hrows by (first [done|by destruct k]). rewrite take_app_le, drop_app_le by lia.
  destruct (IH n (drop 32 k) l) as [E1 E2]; [rewrite length_drop; lia|rewrite length_app, length_drop; lia|].
  rewrite E1. cbn [app length]. split; [|lia]. do 2 f_equal. apply rows_fuel; lia.
Qed.

(** Whole chunks of 512 bytes are whole rows. *)
Lemma dump_chunk index k l :
  zlen k = PRINTSIZE -> dump index (k ++ l) = dump index k ++ dump (index + 16) l.
Proof.
  intros Hk. unfold PRINTSIZE, zlen in Hk. unfold dump.
  destruct (rows_app 16 (length (k ++ l)) k l) as [-> Hr]; [lia|done|].
  rewrite rows_text_app. unfold zlen. rewrite Hr. rewrite length_app.
  by rewrite (rows_fuel (length k + length l) (length k) k), (rows_fuel (length k + length l) (length l) l) by lia.
Qed.

Lemma dump_items index l : l <> [] -> items index 0 l ++ [newline] = dump index l.
Proof.
  intros Hne. pose proof (items_rows index (length l) 0 l ltac:(lia) ltac:(lia) Hne) as H.
  cbn [Z.eqb] in H. rewrite Z.add_0_r in H. exact H.
Qed.

Lemma dump_loop_ok rest fuel : forall index pre l os,
  (length l < fuel)%nat -> index + (zlen l + 31) / 32 + 16 < 2 ^ 31 - 1 ->
  dump_loop fuel index (zlen pre) os (pre ++ l ++ rest) (zlen pre + zlen l) = Ret (os ++ dump index l).
Proof.
  induction fuel as [|fuel IH]; intros index pre l os Hf Hidx; [lia|]. cbn [dump_loop].
  destruct (Z.ltb_spec (zlen pre) (zlen pre + zlen l)) as [Hlt|Hge].
  2:{ pose proof (zlen_nonneg l). assert (l = []) as -> by (apply nil_length_inv; unfold zlen in *; lia).
      cbn. by rewrite app_nil_r. }
  replace (zlen pre + zlen l - zlen pre) with (zlen l) by lia.
  assert (drop (Z.to_nat (zlen pre)) (pre ++ l ++ rest) = l ++ rest) as ->
    by (unfold zlen; by rewrite Nat2Z.id, drop_app_length).
  set (k := take (Z.to_nat PRINTSIZE) l). set (l' := drop (Z.to_nat PRINTSIZE) l).
  assert (l = k ++ l') as El by (unfold k, l'; by rewrite take_drop).
  assert (Z.min (zlen l) PRINTSIZE = zlen k) as -> by (unfold k, zlen, PRINTSIZE; rewrite length_take; lia).
  assert (k <> []) as Hne by (unfold k; destruct l; [rewrite zlen_nil in Hlt; lia|done]).
  pose proof (zlen_nonneg l').
  destruct (formLog_ok index k (l' ++ rest)) as (szbuf & E & Hc);
    [done|unfold k, zlen, PRINTSIZE; rewrite length_take; lia|rewrite El, zlen_app in Hidx; pose proof (zlen_nonneg k); dlia|].
  rewrite El at 1. rewrite <- app_assoc, E. cbn [mbind outcome_bind fst snd]. rewrite Hc, dump_items by done.
  assert (0 < zlen k) as Hk0 by (destruct k; [done|rewrite zlen_cons; pose proof (zlen_nonneg k); lia]).
  replace (zlen pre + zlen k) with (zlen (pre ++ k)) by (by rewrite zlen_app).
  replace (pre ++ l ++ rest) with ((pre ++ k) ++ l' ++ rest) by (rewrite El; by rewrite <- !app_assoc).
  replace (zlen pre + zlen l) with (zlen (pre ++ k) + zlen l') by (rewrite El, !zlen_app; lia).
  assert (length l = (length k + length l')%nat) as Hll by (rewrite El at 1; by rewrite length_app).
  assert (zlen l = zlen k + zlen l') as Hzl by (unfold zlen; lia).
  assert (l' = [] \/ zlen k = PRINTSIZE) as Hor.
  { unfold k, l', zlen, PRINTSIZE. rewrite length_take.
    destruct (decide (length l <= 512)%nat); [left; apply drop_ge; lia|right; lia]. }
  rewrite IH; [|unfold zlen in Hk0; lia|destruct Hor as [->|Hk]; [change (zlen (@nil Byte.byte)) with 0; dlia|
    rewrite Hzl, Hk in Hidx; rewrite Hk; unfold PRINTSIZE in *; dlia]]. f_equal. rewrite <- app_assoc. f_equal.
  destruct Hor as [El'|Hk].
  - rewrite El, El', app_nil_r. unfold dump at 2. cbn. by rewrite app_nil_r.
  - rewrite El, dump_chunk by done. rewrite Hk. done.
Qed.

(** C35: The dump of a binary buffer.  For every buffer, [outputBinary] stays
    inside its array of 1544 characters, ends, and queues one line: the address and
    size and then the reference dump, rows of 32 bytes in hexadecimal digits in two
    halves, each with its number. *)
Theorem outputBinary_dumps (address : Z) (data rest : bytes) (s : AsyncLog.State) :
  zlen data < 2 ^ 35 ->
  outputBinary address (data ++ rest) (zlen data) s =
  Ret (true, AsyncLog.set_lines (AsyncLog.m_listLinesToWrite s ++
    [lit "address[" ++ Decimal.format_d address ++ lit "] size[" ++ Decimal.format_d (zlen data) ++
     lit "] " ++ [newline] ++ dump 0 data]) s).
Proof.
  intros Hs. unfold outputBinary. rewrite M_bind_eq. unfold lift.
  pose proof (dump_loop_ok rest (S (Z.to_nat (zlen data))) 0 [] data) as H.
  change (zlen (@nil Byte.byte)) with 0 in H. rewrite Z.add_0_l in H. cbn [app] in H.
  rewrite H; [|unfold zlen; lia|dlia]. cbn [mbind outcome_bind]. by rewrite M_bind_eq, <- !app_assoc.
Qed.

Lemma outputBinary_dumps_witness :
  zlen (lit "chat") < 2 ^ 35 /\
  outputBinary 4096 (lit "chat") 4 AsyncLog.initial =
  Ret (true, AsyncLog.set_lines [lit "address[4096] size[4] " ++ [newline] ++ lit "000000  63686174" ++ [newline]]
    AsyncLog.initial).
Proof.
  split; [by vm_compute|].
  etrans; [exact (outputBinary_dumps 4096 (lit "chat") [] AsyncLog.initial ltac:(by vm_compute))|].
  vm_compute. reflexivity.
Defined.

End Dump.
