(* ===== verification/Config.v ===== *)
(** * The configuration file

    [CConfigFileReader] is base/ConfigFileReader.*: lines [key = value], comments
    from [#] on.  A C string is the bytes before its NUL; the buffers of [fgets]
    and [snprintf] keep their sizes. *)
From stdpp Require Import sorting.
From S2P Require Import Prelude Json.

Module CConfigFileReader.

Definition newline : Byte.byte := Byte.x0a.
Definition hash : Byte.byte := Byte.x23.
Definition equals : Byte.byte := Byte.x3d.

(** [m_load_ok] is only written when the file could be read; [disk] is the
    contents of the file, if there is one. *)
Record Reader : Type := mkReader {
  m_load_ok : option bool;
  m_config_map : gmap bytes bytes;
  disk : option bytes
}.

(** [fgets(buf, n + 1, fp)]: the line with its newline, or [n] bytes of it. *)
Fixpoint fgets (n : nat) (s : bytes) : bytes * bytes :=
  match n, s with
  | O, _ => ([], s)
  | _, [] => ([], [])
  | S n', c :: s' =>
      if bool_decide (c = newline) then ([c], s')
      else let p := fgets n' s' in (c :: fst p, snd p)
  end.

Definition blank (c : Byte.byte) : bool := bool_decide (c ∈ [Byte.x20; Byte.x09; Byte.x0d]).
Fixpoint skip_blanks (s : bytes) : bytes :=
  match s with [] => [] | c :: s' => if blank c then skip_blanks s' else s end.

(** [trimSpace]; [None] is the null pointer. *)
Definition trimSpace (name : bytes) : option bytes :=
  let start_pos := skip_blanks name in
  if zlen start_pos =? 0 then None
  else Some (rev (skip_blanks (rev start_pos))).

(** What is before the first [c], and after it. *)
Fixpoint split_at (c : Byte.byte) (s : bytes) : option (bytes * bytes) :=
  match s with
  | [] => None
  | x :: s' =>
      if bool_decide (x = c) then Some ([], s')
      else p ← split_at c s'; Some (x :: fst p, snd p)
  end.

(** [std::map::insert] keeps an entry there is. *)
Definition map_insert (key value : bytes) (m : gmap bytes bytes) : gmap bytes bytes :=
  match m !! key with Some _ => m | None => <[key := value]> m end.
Definition parseLine (line : bytes) (m : gmap bytes bytes) : gmap bytes bytes :=
  match split_at equals line with
  | None => m
  | Some (l, r) =>
      match trimSpace l, trimSpace r with
      | Some key, Some value => map_insert key value m
      | _, _ => m
      end
  end.

(** What is done with a line [fgets] stored.  One that starts with a NUL has
    length 0 and the byte before the buffer is read. *)
Definition cut_comment (s : bytes) : bytes :=
  match split_at hash s with Some (l, _) => l | None => s end.
Definition strip_newline (s : bytes) : bytes :=
  match last s with
  | Some c => if bool_decide (c = newline) then removelast s else s
  | None => s
  end.
Definition load_line (buf : bytes) (m : gmap bytes bytes) : outcome (gmap bytes bytes) :=
  let s := c_str buf in
  if zlen s =? 0 then Undef OutOfBounds
  else
    let s2 := cut_comment (strip_newline s) in
    if zlen s2 =? 0 then Ret m else Ret (parseLine s2 m).

(** The loop of [loadFile]; every round takes a byte at least. *)
Fixpoint load_loop (fuel : nat) (s : bytes) (m : gmap bytes bytes) : outcome (gmap bytes bytes) :=
  match fuel with
  | O => Ret m
  | S fuel' =>
      match s with
      | [] => Ret m
      | _ =>
          let p := fgets 255 s in
          m' ← load_line (fst p) m;
          load_loop fuel' (snd p) m'
      end
  end.
Definition loadFile (r : Reader) : outcome Reader :=
  match disk r with
  | None => Ret r
  | Some s =>
      m ← load_loop (S (length s)) s (m_config_map r);
      Ret (mkReader (Some true) m (disk r))
  end.
(** The constructor; [file] is what is on disk under the name it is given. *)
Definition make (file : option bytes) : outcome Reader := loadFile (mkReader None ∅ file).

Definition load_ok (r : Reader) : outcome bool :=
  match m_load_ok r with Some b => Ret b | None => Undef Uninitialised end.
Definition getConfigName (name : bytes) (r : Reader) : outcome (option bytes) :=
  ok ← load_ok r;
  Ret (if ok : bool then m_config_map r !! name else None).

(** The pairs in the order of the map; 127 characters of each are written. *)
Definition entry_le (a b : bytes * bytes) : Prop := Json.string_lt (fst b) (fst a) = false.
#[export] Instance entry_le_dec : RelDecision entry_le.
Proof. intros a b. unfold entry_le. apply _. Defined.
Definition entries (m : gmap bytes bytes) : list (bytes * bytes) := merge_sort entry_le (map_to_list m).
Definition szPaire (e : bytes * bytes) : bytes := take 127 (fst e ++ [equals] ++ snd e ++ [newline]).

(** [writable] says how many pairs [fwrite] takes before it fails, [None] that it
    does not; [fopen_ok] what [fopen(.., w)] answers. *)
Definition writeFile (fopen_ok : bool) (writable : option nat) (r : Reader) : Z * Reader :=
  if fopen_ok then
    let l := map szPaire (entries (m_config_map r)) in
    match writable with
    | Some n =>
        if (n <? length l)%nat then (-1, mkReader (m_load_ok r) (m_config_map r) (Some (concat (take n l))))
        else (0, mkReader (m_load_ok r) (m_config_map r) (Some (concat l)))
    | None => (0, mkReader (m_load_ok r) (m_config_map r) (Some (concat l)))
    end
  else (-1, r).
Definition setConfigValue (fopen_ok : bool) (writable : option nat) (name value : bytes) (r : Reader)
    : outcome (Z * Reader) :=
  ok ← load_ok r;
  if negb ok then Ret (-1, r)
  else Ret (writeFile fopen_ok writable
              (mkReader (m_load_ok r) (<[name := value]> (m_config_map r)) (disk r))).

(** ** The scanners *)
Lemma split_at_Some c s l r : split_at c s = Some (l, r) <-> s = l ++ c :: r /\ c ∉ l.
Proof.
  revert l. induction s as [|x s IH]; intros l; cbn.
  { split; [done|]. intros [H _]. by destruct l. }
  case_bool_decide as E.
  - subst. split; [intros [= <- <-]; split; [done|apply not_elem_of_nil]|].
    intros [H Hn]. destruct l as [|y l]; [by injection H as ->|]. injection H as -> _.
    destruct Hn. apply list_elem_of_here.
  - destruct (split_at c s) as [[l' r']|]; cbn.
    + split.
      * intros [= <- <-]. destruct (proj1 (IH l') eq_refl) as [-> Hn]. split; [done|]. by apply not_elem_of_cons.
      * intros [H Hn]. destruct l as [|y l]; [by injection H as ->|]. injection H as <- ->.
        apply not_elem_of_cons in Hn as [_ Hn]. by pose proof (proj2 (IH l) (conj eq_refl Hn)) as [= -> ->].
    + split; [done|]. intros [H Hn]. destruct l as [|y l]; [by injection H as ->|]. injection H as <- ->.
      apply not_elem_of_cons in Hn as [_ Hn]. discriminate (proj2 (IH l) (conj eq_refl Hn)).
Qed.
Lemma split_at_None c s : split_at c s = None <-> c ∉ s.
Proof.
  destruct (split_at c s) as [[l r]|] eqn:E.
  - apply split_at_Some in E as [-> _]. split; [done|]. intros Hn. destruct Hn.
    apply elem_of_app. right. apply list_elem_of_here.
  - split; [|done]. intros _ Hin. apply list_elem_of_split in Hin as (l & r & ->).
    assert (exists l' r', l ++ c :: r = l' ++ c :: r' /\ c ∉ l') as (l' & r' & Hs & Hn).
    { clear E. induction l as [|x l IH]; [by exists [], r; split; [|apply not_elem_of_nil]|].
      destruct (decide (x = c)) as [->|Hne]; [exists [], (l ++ c :: r); split; [done|apply not_elem_of_nil]|].
      destruct IH as (l' & r' & E & Hn). exists (x :: l'), r'. cbn. rewrite E. split; [done|].
      by apply not_elem_of_cons. }
    rewrite (proj2 (split_at_Some c (l ++ c :: r) l' r')) in E by done. done.
Qed.

Lemma skip_blanks_idem s : skip_blanks (skip_blanks s) = skip_blanks s.
Proof.
  induction s as [|c s IH]; [done|]. cbn. destruct (blank c) eqn:E; [done|]. cbn. by rewrite E.
Qed.
Lemma skip_blanks_suffix s : exists b, s = b ++ skip_blanks s /\ Forall (fun c => blank c = true) b.
Proof.
  induction s as [|c s (b & E & Hb)]; [by exists []|]. cbn. destruct (blank c) eqn:Ec; [|by exists []].
  exists (c :: b). cbn. rewrite <- E. split; [done|]. by constructor.
Qed.

(** Without blanks at its ends. *)
Definition trimmed (s : bytes) : Prop := s <> [] /\ skip_blanks s = s /\ skip_blanks (rev s) = rev s.

Lemma trimSpace_trimmed s : trimmed s -> trimSpace s = Some s.
Proof.
  intros (Hne & Hf & Hb). unfold trimSpace. rewrite Hf, Hb, rev_involutive.
  destruct (Z.eqb_spec (zlen s) 0) as [E|]; [|done]. destruct Hne. apply nil_length_inv. unfold zlen in E. lia.
Qed.
Lemma trimSpace_Some s t :
  trimSpace s = Some t -> trimmed t /\ forall c, c ∈ t -> c ∈ s.
Proof.
  unfold trimSpace. destruct (Z.eqb_spec (zlen (skip_blanks s)) 0) as [E|E]; [done|]. intros [= <-].
  destruct (skip_blanks_suffix s) as (b & Es & _). pose proof (skip_blanks_idem s) as Hi.
  set (p := skip_blanks s) in *. destruct (skip_blanks_suffix (rev p)) as (b2 & Ep & Hb2).
  set (q := skip_blanks (rev p)) in *. assert (p = rev q ++ rev b2) as Hpq
    by (rewrite <- (rev_involutive p), Ep at 1; apply rev_app_distr).
  destruct p as [|x p']; [by destruct E|]. cbn in Hi. destruct (blank x) eqn:Hx.
  { exfalso. destruct (skip_blanks_suffix p') as (b3 & E3 & _). apply (f_equal length) in E3, Hi.
    rewrite length_app, Hi in E3. cbn in E3. lia. }
  destruct (rev q) as [|y q'] eqn:Hq.
  { exfalso. cbn in Hpq. assert (x ∈ b2) as Hin.
    { apply list_elem_of_In, in_rev. rewrite <- Hpq. by left. }
    rewrite Forall_forall in Hb2. by rewrite (Hb2 x Hin) in Hx. }
  injection Hpq as <- Hp'. split; [split; [done|split]|].
  - cbn. by rewrite Hx.
  - rewrite <- Hq, rev_involutive. apply skip_blanks_idem.
  - intros c Hc. rewrite Es, elem_of_app. right. cbn in Hc. rewrite Hp'.
    rewrite elem_of_cons in *. rewrite elem_of_app. tauto.
Qed.

(** *** Lines *)
Lemma fgets_ok n : forall s, (0 < n)%nat -> s <> [] ->
  s = fst (fgets n s) ++ snd (fgets n s) /\ fst (fgets n s) <> [] /\
  newline ∉ removelast (fst (fgets n s)).
Proof.
  induction n as [|n IH]; intros s Hn Hs; [lia|]. destruct s as [|c s]; [done|]. cbn.
  case_bool_decide as E; cbn; [split_and!; [done|done|apply not_elem_of_nil]|].
  destruct n as [|n]; [cbn; split_and!; [done|done|apply not_elem_of_nil]|].
  destruct s as [|d s]; [cbn; split_and!; [done|done|apply not_elem_of_nil]|].
  destruct (IH (d :: s)) as (H1 & H2 & H3); [lia|done|].
  set (p := fgets (S n) (d :: s)) in *. rewrite <- H1. split_and!; [done|done|].
  destruct (fst p) as [|y l] eqn:Ep; [done|]. apply not_elem_of_cons. split; [congruence|done].
Qed.
Lemma fgets_line n line rest :
  newline ∉ line -> (length line < n)%nat -> fgets n (line ++ newline :: rest) = (line ++ [newline], rest).
Proof.
  revert n. induction line as [|c line IH]; intros [|n] Hn Hl; cbn in *; try lia.
  - done.
  - apply not_elem_of_cons in Hn as [Hc Hn]. rewrite bool_decide_false by congruence. by rewrite IH by (done || lia).
Qed.

Lemma strip_newline_ok s : newline ∉ removelast s -> newline ∉ strip_newline s /\ forall c, c ∈ strip_newline s -> c ∈ s.
Proof.
  unfold strip_newline. destruct (last s) as [c|] eqn:E.
  - apply last_Some in E as [l ->]. rewrite removelast_last. intros Hn. case_bool_decide as Hc.
    + split; [done|]. intros d Hd. apply elem_of_app. by left.
    + split; [|done]. rewrite elem_of_app, list_elem_of_singleton. intros [?|?]; congruence || done.
  - apply last_None in E as ->. done.
Qed.
Lemma cut_comment_ok s : hash ∉ cut_comment s /\ forall c, c ∈ cut_comment s -> c ∈ s.
Proof.
  unfold cut_comment. destruct (split_at hash s) as [[l r]|] eqn:E.
  - apply split_at_Some in E as [-> Hn]. split; [done|]. intros c Hc. apply elem_of_app. by left.
  - apply split_at_None in E. done.
Qed.

(** ** What the map holds *)
Definition plain (s : bytes) : Prop := Byte.x00 ∉ s /\ hash ∉ s /\ newline ∉ s.
(** A pair that a line of the file can hold. *)
Definition clean (key value : bytes) : Prop :=
  trimmed key /\ trimmed value /\ plain key /\ plain value /\ equals ∉ key.
(** It fits in the buffer it is written from. *)
Definition fits (key value : bytes) : Prop := zlen key + zlen value + 2 <= 127.

Lemma plain_incl s t : plain s -> (forall c, c ∈ t -> c ∈ s) -> plain t.
Proof. intros (H1 & H2 & H3) Hi. split_and!; intros H%Hi; contradiction. Qed.

Lemma parseLine_clean line m :
  plain line -> map_Forall clean m -> map_Forall clean (parseLine line m).
Proof.
  intros Hp Hm. unfold parseLine. destruct (split_at equals line) as [[l r]|] eqn:E; [|done].
  apply split_at_Some in E as [-> Hn].
  destruct (trimSpace l) as [key|] eqn:Hk; [|done]. destruct (trimSpace r) as [value|] eqn:Hv; [|done].
  apply trimSpace_Some in Hk as [Htk Hik], Hv as [Htv Hiv].
  unfold map_insert. destruct (m !! key); [done|]. apply map_Forall_insert_2; [|done].
  split_and!; [done|done|..].
  - apply (plain_incl _ key) in Hp; [done|]. intros c Hc%Hik. apply elem_of_app. by left.
  - apply (plain_incl _ value) in Hp; [done|]. intros c Hc%Hiv. apply elem_of_app. right.
    by apply list_elem_of_further.
  - intros Hin%Hik. contradiction.
Qed.

Lemma load_line_clean buf m :
  Byte.x00 ∉ buf -> buf <> [] -> newline ∉ removelast buf -> map_Forall clean m ->
  exists m', load_line buf m = Ret m' /\ map_Forall clean m'.
Proof.
  intros Hz Hne Hnl Hm. unfold load_line. rewrite c_str_id by done.
  destruct (Z.eqb_spec (zlen buf) 0) as [E|_]; [destruct Hne; apply nil_length_inv; unfold zlen in E; lia|].
  destruct (zlen _ =? 0); [by exists m|]. eexists. split; [done|]. apply parseLine_clean; [|done].
  destruct (strip_newline_ok buf Hnl) as [H1 H2], (cut_comment_ok (strip_newline buf)) as [H3 H4].
  split_and!; [by intros H%H4%H2|done|by intros H%H4].
Qed.

Lemma load_loop_clean fuel : forall s m,
  Byte.x00 ∉ s -> (length s < fuel)%nat -> map_Forall clean m ->
  exists m', load_loop fuel s m = Ret m' /\ map_Forall clean m'.
Proof.
  induction fuel as [|fuel IH]; intros s m Hz Hf Hm; [lia|]. cbn [load_loop].
  destruct s as [|c s]; [by exists m|].
  destruct (fgets_ok 255 (c :: s)) as (E & Hne & Hnl); [lia|done|]. set (p := fgets 255 (c :: s)) in *. clearbody p.
  rewrite E in Hz. apply not_elem_of_app in Hz as [Hz1 Hz2].
  destruct (load_line_clean (fst p) m Hz1 Hne Hnl Hm) as (m1 & -> & Hm1). cbn [mbind outcome_bind].
  apply IH; [done| |done]. apply (f_equal length) in E. rewrite length_app in E.
  destruct (fst p); [done|]. cbn in *. lia.
Qed.

(** *** Writing and reading back *)
Lemma load_pair key value m :
  clean key value -> fits key value ->
  load_line (key ++ [equals] ++ value ++ [newline]) m = Ret (map_insert key value m).
Proof.
  intros (Htk & Htv & (Hk1 & Hk2 & Hk3) & (Hv1 & Hv2 & Hv3) & Heq) _. unfold load_line.
  rewrite c_str_id by (rewrite !elem_of_app, !list_elem_of_singleton; intuition done).
  rewrite (proj2 (Z.eqb_neq _ _)) by (zsimpl; pose proof (zlen_nonneg key); pose proof (zlen_nonneg value); lia).
  unfold strip_newline. rewrite !app_assoc, last_snoc, bool_decide_true by done. rewrite removelast_last.
  unfold cut_comment. rewrite (proj2 (split_at_None hash _)) by (rewrite !elem_of_app, !list_elem_of_singleton; intuition done).
  rewrite (proj2 (Z.eqb_neq _ _)) by (zsimpl; pose proof (zlen_nonneg key); pose proof (zlen_nonneg value); lia).
  unfold parseLine. rewrite <- app_assoc. cbn [app].
  rewrite (proj2 (split_at_Some equals _ key value)) by done.
  by rewrite !trimSpace_trimmed by done.
Qed.

Lemma load_pairs fuel l : forall m,
  Forall (fun e => clean (fst e) (snd e) /\ fits (fst e) (snd e)) l ->
  (length (concat (map szPaire l)) < fuel)%nat ->
  load_loop fuel (concat (map szPaire l)) m = Ret (foldl (fun m e => map_insert (fst e) (snd e) m) m l).
Proof.
  revert fuel. induction l as [|[key value] l IH]; intros fuel m Hl Hf; (destruct fuel as [|fuel]; [lia|]); [done|].
  apply Forall_cons in Hl as [[Hc Hfit] Hl]. cbn [map concat fst snd foldl] in *. cbn in Hc, Hfit.
  assert (szPaire (key, value) = key ++ [equals] ++ value ++ [newline]) as Hs.
  { unfold szPaire. cbn [fst snd]. apply take_ge. rewrite !length_app. unfold fits, zlen in Hfit. cbn. lia. }
  rewrite Hs in *. pose proof Hc as (_ & _ & (_ & _ & Hk) & (_ & _ & Hv) & _).
  assert (fgets 255 ((key ++ [equals] ++ value ++ [newline]) ++ concat (map szPaire l)) =
    (key ++ [equals] ++ value ++ [newline], concat (map szPaire l))) as Hg.
  { replace ((key ++ [equals] ++ value ++ [newline]) ++ concat (map szPaire l)) with
      ((key ++ [equals] ++ value) ++ newline :: concat (map szPaire l)) by (by rewrite <- !app_assoc).
    rewrite fgets_line; [by rewrite <- !app_assoc| |].
    - rewrite !elem_of_app, list_elem_of_singleton. intuition done.
    - rewrite !length_app. unfold fits, zlen in Hfit. cbn. lia. }
  cbn [load_loop]. destruct (_ ++ concat (map szPaire l)) as [|c s] eqn:Es.
  { by apply app_nil in Es as [Es _]; apply app_nil in Es as [_ Es]. }
  rewrite Hg. cbn [fst snd]. rewrite load_pair by done. cbn [mbind outcome_bind]. apply IH; [done|].
  rewrite <- Es in Hf. rewrite !length_app in Hf. cbn in Hf. lia.
Qed.

Lemma insert_all l : forall m : gmap bytes bytes,
  NoDup (map fst l) -> (forall k, k ∈ map fst l -> m !! k = None) ->
  foldl (fun m e => map_insert (fst e) (snd e) m) m l = list_to_map l ∪ m.
Proof.
  induction l as [|[k v] l IH]; intros m Hd Hn; cbn [foldl map list_to_map foldr].
  { by rewrite (left_id_L ∅ (∪)). }
  cbn in Hd. apply NoDup_cons in Hd as [Hk Hd]. unfold map_insert at 2. cbn [fst snd].
  rewrite (Hn k) by apply list_elem_of_here. rewrite IH; [|done|].
  - cbn. rewrite <- insert_union_l. symmetry. apply insert_union_r. apply not_elem_of_list_to_map_1. done.
  - intros k' Hk'. rewrite lookup_insert_ne by (intros ->; contradiction). apply Hn. by apply list_elem_of_further.
Qed.

Lemma write_read ok m d :
  map_Forall (fun k v => clean k v /\ fits k v) m ->
  exists r, writeFile true None (mkReader ok m d) = (0, r) /\ m_config_map r = m /\
    make (disk r) = Ret (mkReader (Some true) m (disk r)).
Proof.
  intros Hm. eexists. split; [reflexivity|]. split; [done|]. cbn [disk]. unfold make, loadFile. cbn [disk m_config_map].
  assert (entries m ≡ₚ map_to_list m) as Hperm by apply merge_sort_Permutation.
  assert (NoDup (map fst (entries m))) as Hd by (rewrite Hperm; apply NoDup_fst_map_to_list).
  rewrite load_pairs; [|rewrite Hperm; by apply map_Forall_to_list in Hm; eapply Forall_impl; [exact Hm|intros []]|lia].
  cbn [mbind outcome_bind]. rewrite insert_all; [|done|intros; apply lookup_empty].
  rewrite (right_id_L ∅ (∪)). do 2 f_equal.
  rewrite (list_to_map_proper (entries m) (map_to_list m)) by done. apply list_to_map_to_list.
Qed.

(** C32: The configuration file.  Every file without NUL bytes is read to its end,
    whatever its lines are, and the map then holds pairs of trimmed texts without
    comment, newline or, in the key, [=]; and when such pairs fit in the buffer of
    [writeFile], setting a value writes a file from which the same map is read. *)
Theorem config_roundtrip (s : bytes) :
  Byte.x00 ∉ s ->
  exists r, make (Some s) = Ret r /\ m_load_ok r = Some true /\ map_Forall clean (m_config_map r) /\
    forall name value, clean name value -> fits name value -> map_Forall fits (m_config_map r) ->
    exists r', setConfigValue true None name value r = Ret (0, r') /\
      m_config_map r' = <[name := value]> (m_config_map r) /\
      exists r2, make (disk r') = Ret r2 /\ m_config_map r2 = m_config_map r' /\
        forall k, getConfigName k r2 = Ret (if decide (k = name) then Some value else m_config_map r !! k).
Proof.
  intros Hz. destruct (load_loop_clean (S (length s)) s ∅ Hz) as (m & E & Hm); [lia|apply map_Forall_empty|].
  exists (mkReader (Some true) m (Some s)). unfold make at 1, loadFile. cbn [disk m_config_map]. rewrite E.
  cbn [mbind outcome_bind]. split; [done|]. split; [done|]. split; [done|].
  intros name value Hc Hf Hfits. cbn [m_config_map] in *.
  destruct (write_read (Some true) (<[name := value]> m) (Some s)) as (r' & Hw & Hm' & Hr).
  { apply map_Forall_insert_2; [done|]. intros k v Hk. split; [by apply Hm|by apply Hfits]. }
  exists r'. unfold setConfigValue. cbn [load_ok m_load_ok mbind outcome_bind negb m_config_map disk]. rewrite Hw.
  split; [done|]. split; [done|]. eexists. split; [exact Hr|]. split; [done|]. intros k.
  unfold getConfigName. cbn [load_ok m_load_ok mbind outcome_bind m_config_map].
  case_decide as Hk; [subst; by rewrite lookup_insert_eq|by rewrite lookup_insert_ne by congruence].
Qed.

(** A file that cannot be opened leaves [m_load_ok] unwritten. *)
Example no_file : (r ← make None; getConfigName (lit "dbserver") r) = Undef Uninitialised.
Proof. reflexivity. Qed.
(** A line that starts with a NUL. *)
Example nul_line : make (Some [Byte.x00; newline]) = Undef OutOfBounds.
Proof. vm_compute. reflexivity. Qed.
(** A pair that does not fit loses its newline, and the next one with it. *)
Definition long_value : bytes := replicate 140 Byte.x61.
Example long_value_swallows :
  match (p ← setConfigValue true None (lit "a") long_value (mkReader (Some true) {[ lit "b" := lit "1" ]} None);
         r ← make (disk (snd p)); getConfigName (lit "b") r) with
  | Ret v => v = None
  | _ => False
  end.
Proof. vm_compute. reflexivity. Qed.

Definition demo : bytes :=
  lit "# the chat server" ++ [newline] ++ lit "listenport = 20000" ++ [Byte.x0d; newline] ++ lit "nonsense" ++
  [newline] ++ lit "logdir=logs/ # where".
Lemma config_roundtrip_witness :
  exists r, make (Some demo) = Ret r /\
    exists r', setConfigValue true None (lit "listenport") (lit "20001") r = Ret (0, r') /\
      exists r2, make (disk r') = Ret r2 /\ getConfigName (lit "logdir") r2 = Ret (Some (lit "logs/")).
Proof.
  destruct (config_roundtrip demo) as (r & Hr & _ & _ & H).
  { rewrite list_elem_of_In. vm_compute. intuition discriminate. }
  exists r. split; [exact Hr|].
  assert (m_config_map r = {[ lit "listenport" := lit "20000"; lit "logdir" := lit "logs/" ]}) as Hm.
  { assert (make (Some demo) = Ret (mkReader (Some true)
      {[ lit "listenport" := lit "20000"; lit "logdir" := lit "logs/" ]} (Some demo))) as E by (vm_compute; reflexivity).
    rewrite Hr in E. by injection E as ->. }
  rewrite Hm in H. destruct (H (lit "listenport") (lit "20001")) as (r' & Hs & _ & r2 & H2 & _ & Hg).
  - split_and!; try (vm_compute; done); unfold plain; rewrite !list_elem_of_In; vm_compute; intuition discriminate.
  - vm_compute. discriminate.
  - apply map_Forall_insert_2; [|apply map_Forall_insert_2; [|apply map_Forall_empty]]; vm_compute; discriminate.
  - exists r'. split; [exact Hs|]. exists r2. split; [exact H2|]. rewrite Hg. vm_compute. reflexivity.
Defined.

End CConfigFileReader.
