(* ===== verification/Addresses.v ===== *)
(** * Addresses

    [Sockets] has the functions of net/Sockets.* on addresses, [InetAddress] is
    net/InetAddress.*.  [inet_pton] and [inet_ntop] are those of the C library for
    IPv4; what the kernel and the resolver answer are arguments. *)
From S2P Require Import Prelude Buffers Protocol.

Module Sockets.

Definition AF_INET : Z := 2.
(** The integers are those in memory, in network order. *)
Record sockaddr_in : Type := mkAddr { sin_family : Z; sin_port : Z; s_addr : Z }.
#[export] Instance sockaddr_in_eq_dec : EqDecision sockaddr_in.
Proof. solve_decision. Defined.

Definition dot : Byte.byte := Byte.x2e.
(** The octets of an address are its bytes in memory. *)
Definition octets (a : Z) : list Z := uchar <$> int_bytes 4 a.
Definition of_octets (l : list Z) : Z := bytes_int (byte.of_Z <$> l).

(** [inet_ntop]: the dotted text, when it fits with its NUL. *)
Fixpoint join (l : list Z) : bytes :=
  match l with
  | [] => []
  | [v] => Decimal.format_d v
  | v :: l' => Decimal.format_d v ++ dot :: join l'
  end.
Definition inet_ntop (a size : Z) : option bytes :=
  let text := join (octets a) in if zlen text <? size then Some text else None.

(** [inet_pton]: four numbers up to 255 without leading zeros.  [cur] is the number
    being read, [None] before its first digit; [read] are those before it. *)
Fixpoint pton4 (s : bytes) (read : list Z) (cur : option Z) : option (list Z) :=
  match s with
  | [] => match cur with Some v => if (length read =? 3)%nat then Some (read ++ [v]) else None | None => None end
  | c :: s' =>
      if Decimal.is_digit c then
        match cur with
        | None => pton4 s' read (Some (Decimal.digit c))
        | Some v =>
            if v =? 0 then None
            else
              let n := 10 * v + Decimal.digit c in
              if 255 <? n then None else pton4 s' read (Some n)
        end
      else if bool_decide (c = dot) then
        match cur with
        | Some v => if (length read =? 3)%nat then None else pton4 s' (read ++ [v]) None
        | None => None
        end
      else None
  end.
Definition inet_pton (s : bytes) : option Z := of_octets <$> pton4 s [] None.

(** [buf] is not written before: reading it after a failure is undefined. *)
Definition toIpPort (size : Z) (addr : sockaddr_in) : outcome bytes :=
  match inet_ntop (s_addr addr) size with
  | None => Undef Uninitialised
  | Some ip =>
      let port := Endian.networkToHost16 (sin_port addr) in
      Ret (ip ++ take (Z.to_nat (size - zlen ip - 1)) (lit ":" ++ Decimal.format_d port))
  end.
(** [sizeof(struct sockaddr_in)] is 16. *)
Definition toIp (size : Z) (addr : sockaddr_in) : outcome bytes :=
  if 16 <=? size then Undef Uninitialised
  else match inet_ntop (s_addr addr) size with None => Undef Uninitialised | Some ip => Ret ip end.
(** A text that is no address leaves the number that was there. *)
Definition fromIpPort (ip : bytes) (port : Z) (addr : sockaddr_in) : sockaddr_in :=
  mkAddr AF_INET (Endian.hostToNetwork16 port) (default (s_addr addr) (inet_pton ip)).

(** [res] and [optval] are the results of [getsockopt]. *)
Definition getSocketError (res optval errno : Z) : Z := if res <? 0 then errno else optval.
Definition isSelfConnect (localaddr peeraddr : sockaddr_in) : bool :=
  (sin_port localaddr =? sin_port peeraddr) && (s_addr localaddr =? s_addr peeraddr).

End Sockets.
Import Sockets.

Module InetAddress.

Record InetAddress : Type := mkInetAddress { m_addr : sockaddr_in }.
Definition kInaddrAny : Z := 0.
Definition kInaddrLoopback : Z := 0x7f000001.

Definition make_port (port : Z) (loopbackOnly : bool) : InetAddress :=
  let ip := if loopbackOnly then kInaddrLoopback else kInaddrAny in
  mkInetAddress (mkAddr AF_INET (Endian.hostToNetwork16 port) (Endian.hostToNetwork32 ip)).
Definition make (ip : bytes) (port : Z) : InetAddress :=
  mkInetAddress (fromIpPort (c_str ip) port (mkAddr 0 0 0)).
Definition toIpPort (a : InetAddress) : outcome bytes := Sockets.toIpPort 32 (m_addr a).
Definition toIp (a : InetAddress) : outcome bytes := Sockets.toIp 32 (m_addr a).
Definition toPort (a : InetAddress) : Z := Endian.networkToHost16 (sin_port (m_addr a)).

(** [answer] is the first address of the host, [None] when there is none. *)
Definition resolve (answer : option Z) (out : InetAddress) : bool * InetAddress :=
  match answer with
  | Some a => (true, mkInetAddress (mkAddr (sin_family (m_addr out)) (sin_port (m_addr out)) a))
  | None => (false, out)
  end.

End InetAddress.

(** ** The dotted text *)
Module Dotted.
Import InetAddress.

Definition digit_byte (d : Z) : Byte.byte := byte.of_Z (48 + d).
Definition number (v : Z) : bytes :=
  if v <? 10 then [digit_byte v]
  else if v <? 100 then [digit_byte (v / 10); digit_byte (v mod 10)]
  else [digit_byte (v / 100); digit_byte (v / 10 mod 10); digit_byte (v mod 10)].
Definition octet (v : Z) : Prop := 0 <= v < 256.

Lemma format_octet v : octet v -> Decimal.format_d v = number v.
Proof.
  intros Hv. assert (forallb (fun i => bool_decide (Decimal.format_d (Z.of_nat i) = number (Z.of_nat i))) (seq 0 256) = true)
    as H by (vm_compute; reflexivity).
  rewrite forallb_forall in H. specialize (H (Z.to_nat v)). rewrite Z2Nat.id in H by apply Hv.
  eapply bool_decide_eq_true_1, H. apply in_seq. unfold octet in Hv. lia.
Qed.

Lemma digit_byte_ok d : 0 <= d < 10 ->
  Decimal.is_digit (digit_byte d) = true /\ Decimal.digit (digit_byte d) = d.
Proof.
  intros Hd. unfold Decimal.is_digit, Decimal.digit, digit_byte.
  rewrite uchar_of_Z, Z.mod_small by lia. split; [|lia]. apply andb_true_iff. rewrite !Z.leb_le. lia.
Qed.

Lemma digit_byte_digit c : Decimal.is_digit c = true -> 0 <= Decimal.digit c < 10 /\ digit_byte (Decimal.digit c) = c.
Proof.
  unfold Decimal.is_digit, Decimal.digit, digit_byte. rewrite andb_true_iff, !Z.leb_le. intros H. split; [lia|].
  replace (48 + (uchar c - 48)) with (uchar c) by lia. apply of_Z_uchar.
Qed.

(** Reading one more digit. *)
Lemma pton4_digit d s read :
  0 <= d < 10 -> pton4 (digit_byte d :: s) read None = pton4 s read (Some d).
Proof. intros Hd. destruct (digit_byte_ok d Hd) as [E1 E2]. cbn [pton4]. by rewrite E1, E2. Qed.
Lemma pton4_more v d s read :
  0 < v -> 0 <= d < 10 -> 10 * v + d < 256 ->
  pton4 (digit_byte d :: s) read (Some v) = pton4 s read (Some (10 * v + d)).
Proof.
  intros Hv Hd H. destruct (digit_byte_ok d Hd) as [E1 E2]. cbn [pton4]. rewrite E1, E2.
  destruct (Z.eqb_spec v 0); [lia|]. by destruct (Z.ltb_spec 255 (10 * v + d)); [lia|].
Qed.

Lemma pton4_number v s read : octet v -> pton4 (number v ++ s) read None = pton4 s read (Some v).
Proof.
  unfold octet, number. intros Hv. destruct (Z.ltb_spec v 10); [apply pton4_digit; lia|].
  assert (v = 10 * (v / 10) + v mod 10) as E by (apply Z.div_mod; lia).
  pose proof (Z.mod_pos_bound v 10 ltac:(lia)). pose proof (Z.div_le_mono 10 v 10 ltac:(lia) ltac:(lia)).
  destruct (Z.ltb_spec v 100) as [Hlt|Hge]; cbn [app].
  - rewrite pton4_digit by lia. rewrite pton4_more by lia. by rewrite <- E.
  - assert (v / 10 = 10 * (v / 100) + v / 10 mod 10) as E2.
    { replace (v / 100) with (v / 10 / 10) by (rewrite Z.div_div by lia; done). apply Z.div_mod. lia. }
    pose proof (Z.mod_pos_bound (v / 10) 10 ltac:(lia)). pose proof (Z.div_le_mono 100 v 100 ltac:(lia) ltac:(lia)).
    rewrite pton4_digit by lia. rewrite pton4_more by lia. rewrite <- E2, pton4_more by lia. by rewrite <- E.
Qed.

Lemma pton4_dot v s read :
  (length read < 3)%nat -> pton4 (dot :: s) read (Some v) = pton4 s (read ++ [v]) None.
Proof. intros H. cbn [pton4]. by destruct (Nat.eqb_spec (length read) 3); [lia|]. Qed.

Lemma pton4_join l read :
  Forall octet l -> l <> [] -> (length read + length l = 4)%nat -> pton4 (join l) read None = Some (read ++ l).
Proof.
  revert read. induction l as [|v l IH]; intros read Hl Hne Hlen; [done|]. inversion Hl as [|? ? Hv Hr]; subst.
  destruct l as [|w l].
  - cbn [join]. rewrite format_octet by done. rewrite <- (app_nil_r (number v)), pton4_number by done. cbn in *.
    by replace (length read) with 3%nat by lia.
  - change (join (v :: w :: l)) with (Decimal.format_d v ++ dot :: join (w :: l)).
    rewrite format_octet, pton4_number by done. rewrite pton4_dot by (cbn in *; lia).
    rewrite IH; [by rewrite <- app_assoc|done|done|rewrite length_app; cbn in *; lia].
Qed.

(** The text that was read. *)
Definition before (read : list Z) (cur : option Z) : bytes :=
  concat (map (fun v => Decimal.format_d v ++ [dot]) read) ++ from_option Decimal.format_d [] cur.

Lemma join_snoc read v : join (read ++ [v]) = before read (Some v).
Proof.
  unfold before. cbn [from_option]. induction read as [|w read IH]; [done|].
  cbn [map concat]. rewrite <- !app_assoc, <- IH. by destruct read.
Qed.

Lemma number_more v d : 0 < v -> 0 <= d < 10 -> 10 * v + d < 256 -> number (10 * v + d) = number v ++ [digit_byte d].
Proof.
  intros Hv Hd H. unfold number. destruct (Z.ltb_spec (10 * v + d) 10); [lia|].
  assert ((10 * v + d) / 10 = v) as E1 by (symmetry; apply (Z.div_unique_pos _ _ _ d); lia).
  assert ((10 * v + d) mod 10 = d) as E2 by (symmetry; apply (Z.mod_unique_pos _ _ v); lia).
  rewrite E1, E2. destruct (Z.ltb_spec (10 * v + d) 100); destruct (Z.ltb_spec v 10); try lia; [done|].
  destruct (Z.ltb_spec v 100); [|lia]. replace ((10 * v + d) / 100) with (v / 10); [done|].
  replace 100 with (10 * 10) by lia. by rewrite <- Z.div_div, E1 by lia.
Qed.

Lemma pton4_text s read cur l :
  Forall octet read -> (forall v, cur = Some v -> octet v) -> pton4 s read cur = Some l ->
  Forall octet l /\ length l = 4%nat /\ join l = before read cur ++ s.
Proof.
  revert read cur. induction s as [|c s IH]; intros read cur Hr Hc; cbn [pton4].
  - destruct cur as [v|]; [|done]. destruct (Nat.eqb_spec (length read) 3) as [Hl|]; [|done]. intros [= <-].
    split_and!; [|by rewrite length_app, Hl|by rewrite app_nil_r, join_snoc].
    apply Forall_app. split; [done|]. apply Forall_singleton. by apply Hc.
  - destruct (Decimal.is_digit c) eqn:Hd.
    + apply digit_byte_digit in Hd as [Hd Ec]. set (d := Decimal.digit c) in *.
      destruct cur as [v|].
      * specialize (Hc v eq_refl). unfold octet in Hc. destruct (Z.eqb_spec v 0); [done|].
        destruct (Z.ltb_spec 255 (10 * v + d)); [done|]. intros Hrun.
        apply IH in Hrun as (? & ? & E); [|done|intros ? [= <-]; unfold octet; lia].
        split_and!; [done|done|]. rewrite E. unfold before. cbn [from_option].
        rewrite !format_octet, number_more, Ec by (unfold octet; lia). by rewrite <- !app_assoc.
      * intros Hrun. apply IH in Hrun as (? & ? & E); [|done|intros ? [= <-]; unfold octet; lia].
        split_and!; [done|done|]. rewrite E. unfold before. cbn [from_option].
        rewrite format_octet by (unfold octet; lia). unfold number. destruct (Z.ltb_spec d 10); [|lia].
        by rewrite Ec, app_nil_r, <- app_assoc.
    + case_bool_decide as Hdot; [|done]. destruct cur as [v|]; [|done].
      destruct (Nat.eqb_spec (length read) 3); [done|]. intros Hrun.
      apply IH in Hrun as (? & ? & E); [|by apply Forall_app; split; [|apply Forall_singleton; apply Hc]|done].
      split_and!; [done|done|]. rewrite E. unfold before. cbn [from_option]. subst c.
      rewrite map_app, concat_app. cbn [map concat]. by rewrite !app_nil_r, <- !app_assoc.
Qed.

Lemma of_octets_octets a : 0 <= a < 2 ^ 32 -> of_octets (octets a) = a.
Proof.
  intros Ha. unfold of_octets, octets. rewrite <- list_fmap_compose.
  rewrite (list_fmap_ext _ id) by (intros; apply of_Z_uchar). rewrite list_fmap_id, bytes_int_bytes.
  by apply Z.mod_small.
Qed.
Lemma octets_ok a : Forall octet (octets a) /\ length (octets a) = 4%nat.
Proof.
  unfold octets. split; [apply Forall_fmap, Forall_true; intros; apply uchar_range|].
  by rewrite length_fmap; unfold int_bytes; rewrite length_le_split.
Qed.
Lemma octets_of_octets l : Forall octet l -> length l = 4%nat -> octets (of_octets l) = l.
Proof.
  intros Hl Hlen. unfold of_octets, octets. rewrite int_bytes_int by (by rewrite length_fmap).
  rewrite <- list_fmap_compose. transitivity (id <$> l); [|apply list_fmap_id].
  apply Forall_fmap_ext. eapply Forall_impl; [exact Hl|]. intros v Hv. unfold compose. rewrite uchar_of_Z.
  by apply Z.mod_small.
Qed.

(** [inet_pton] reads exactly the texts [inet_ntop] makes. *)
Lemma pton_join a : 0 <= a < 2 ^ 32 -> inet_pton (join (octets a)) = Some a.
Proof.
  intros Ha. unfold inet_pton. destruct (octets_ok a) as [Ho Hl].
  rewrite (pton4_join (octets a) []); [|done|by intros E; rewrite E in Hl|done]. cbn. by rewrite of_octets_octets.
Qed.
Lemma join_pton s a : inet_pton s = Some a -> join (octets a) = s.
Proof.
  unfold inet_pton. destruct (pton4 s [] None) as [l|] eqn:E; [|done]. intros [= <-].
  apply pton4_text in E as (Ho & Hl & Ht); [|constructor|done]. by rewrite octets_of_octets.
Qed.

Lemma zlen_number v : zlen (number v) <= 3.
Proof. unfold number. by repeat case_match. Qed.
Lemma zlen_join a : zlen (join (octets a)) <= 15.
Proof.
  destruct (octets_ok a) as [Ho Hl]. destruct (octets a) as [|v1 [|v2 [|v3 [|v4 []]]]]; try done.
  rewrite !Forall_cons in Ho. destruct Ho as (? & ? & ? & ? & _). cbn [join].
  rewrite !format_octet by done. zsimpl.
  pose proof (zlen_number v1). pose proof (zlen_number v2). pose proof (zlen_number v3). pose proof (zlen_number v4). lia.
Qed.

(** A separator that is in neither first part. *)
Lemma app_sep_inj {A} (x : A) l1 l2 r1 r2 :
  x ∉ l1 -> x ∉ l2 -> l1 ++ x :: r1 = l2 ++ x :: r2 -> l1 = l2 /\ r1 = r2.
Proof.
  revert l2. induction l1 as [|y l1 IH]; intros [|z l2]; rewrite ?not_elem_of_cons; intros H1 H2 [=]; subst; try tauto.
  by destruct (IH l2) as [-> ->]; try tauto.
Qed.

Lemma not_in_join c a : (uchar c < 48 \/ 57 < uchar c) -> c <> dot -> c ∉ join (octets a).
Proof.
  intros Hc Hdot. assert (forall d, 0 <= d < 10 -> c <> digit_byte d) as Hd.
  { intros d Hd ->. unfold digit_byte in Hc. rewrite uchar_of_Z, Z.mod_small in Hc by lia. lia. }
  assert (forall v, octet v -> c ∉ number v) as Hn.
  { unfold octet, number. intros v Hv. pose proof (Z.mod_pos_bound v 10 ltac:(lia)).
    pose proof (Z.mod_pos_bound (v / 10) 10 ltac:(lia)).
    assert (v < 100 -> 0 <= v / 10 < 10) by (intros; split; [apply Z.div_pos|apply Z.div_lt_upper_bound]; lia).
    assert (0 <= v / 100 < 10) by (split; [apply Z.div_pos|apply Z.div_lt_upper_bound]; lia).
    destruct (Z.ltb_spec v 10); [|destruct (Z.ltb_spec v 100)]; rewrite ?not_elem_of_cons; split_and?;
      try apply Hd; try lia; apply not_elem_of_nil. }
  destruct (octets_ok a) as [Ho _]. induction (octets a) as [|v l IH]; [apply not_elem_of_nil|].
  inversion Ho; subst. cbn [join]. destruct l; rewrite ?not_elem_of_app, ?not_elem_of_cons, format_octet by done; auto.
Qed.

Definition colon : Byte.byte := Byte.x3a.
Lemma colon_join a : colon ∉ join (octets a).
Proof. apply not_in_join; [right; by vm_compute|done]. Qed.

Definition wf (a : InetAddress) : Prop :=
  sin_family (m_addr a) = AF_INET /\ urange 16 (sin_port (m_addr a)) /\ urange 32 (s_addr (m_addr a)).

Lemma length_pretty_go (k : nat) x t :
  (x < 10 ^ N.of_nat k)%N -> (String.length (pretty_N_go x t) <= k + String.length t)%nat.
Proof.
  revert x t. induction k as [|k IH]; intros x t Hx.
  - change (10 ^ N.of_nat 0)%N with 1%N in Hx. replace x with 0%N by lia. rewrite pretty_N_go_0. lia.
  - destruct (decide (x = 0%N)) as [->|Hne]; [rewrite pretty_N_go_0; lia|].
    rewrite pretty_N_go_step by lia. etransitivity; [apply IH|cbn; lia].
    apply N.Div0.div_lt_upper_bound. rewrite Nat2N.inj_succ, N.pow_succ_r' in Hx. exact Hx.
Qed.
Lemma length_lit s : length (lit s) = String.length s.
Proof. unfold lit, String.list_byte_of_string. rewrite length_map. by induction s as [|c s IH]; cbn; [|rewrite IH]. Qed.
Lemma format_d_length (k : nat) z : 0 <= z < 10 ^ Z.of_nat k -> (0 < k)%nat -> zlen (Decimal.format_d z) <= Z.of_nat k.
Proof.
  intros [Hz Hk] Hpos. unfold Decimal.format_d, zlen, lit. apply inj_le.
  change (length (lit (pretty z)) <= k)%nat. rewrite length_lit.
  destruct z as [|x|x]; [cbn; lia| |lia].
  change (pretty (Z.pos x)) with (pretty_N_go (N.pos x) EmptyString).
  etransitivity; [apply (length_pretty_go k)|cbn; lia]. apply N2Z.inj_lt. rewrite N2Z.inj_pow, nat_N_Z. exact Hk.
Qed.

Lemma port_room p : zlen (lit ":" ++ Decimal.format_d (u16 p)) <= 6.
Proof.
  pose proof (uwrap_range 16 p ltac:(lia)). rewrite zlen_app. change (zlen (lit ":")) with 1.
  pose proof (format_d_length 5 (u16 p)). lia.
Qed.

Lemma toPort_small a : u16 (toPort a) = toPort a.
Proof.
  apply Z.mod_small. unfold toPort, Endian.networkToHost16, Endian.bswap.
  pose proof (bytes_int_range (rev (int_bytes 2 (sin_port (m_addr a))))) as R.
  change (rev (int_bytes 2 _)) with (Endian.be_bytes 2 (sin_port (m_addr a))) in *.
  rewrite Endian.zlen_be_bytes in R. exact R.
Qed.

Lemma toIpPort_text a :
  toIpPort a = Ret (join (octets (s_addr (m_addr a))) ++ lit ":" ++ Decimal.format_d (toPort a)).
Proof.
  unfold toIpPort, Sockets.toIpPort, inet_ntop. pose proof (zlen_join (s_addr (m_addr a))).
  destruct (Z.ltb_spec (zlen (join (octets (s_addr (m_addr a))))) 32); [|lia].
  pose proof (port_room (toPort a)) as Hr. rewrite toPort_small in Hr.
  rewrite take_ge; [done|]. unfold toPort, zlen in *. lia.
Qed.

Lemma swap_port n : Endian.networkToHost16 (Endian.hostToNetwork16 n) = u16 n.
Proof. apply (Endian.bswap_bswap 2). Qed.
Lemma swap_back n : urange 16 n -> Endian.hostToNetwork16 (Endian.networkToHost16 n) = n.
Proof. intros Hn. etransitivity; [apply (Endian.bswap_bswap 2)|]. by apply Z.mod_small. Qed.

Lemma Ret_inj {A} (x y : A) : Ret x = Ret y -> x = y.
Proof. congruence. Qed.

(** An address is determined by its text. *)
Lemma make_text a : wf a -> make (join (octets (s_addr (m_addr a)))) (toPort a) = a.
Proof.
  destruct a as [[f p a]]. unfold wf, make, toPort, fromIpPort. cbn. intros (-> & Hp & Ha).
  assert (c_str (join (octets a)) = join (octets a)) as ->.
  { apply c_str_id, not_in_join; [left; by vm_compute|done]. }
  rewrite pton_join by done. cbn. by rewrite swap_back.
Qed.

Lemma make_prints ip port :
  toIpPort (make ip port) =
    Ret ((if inet_pton (c_str ip) is Some _ then c_str ip else lit "0.0.0.0") ++ lit ":" ++ Decimal.format_d (u16 port)).
Proof.
  rewrite toIpPort_text. unfold make, fromIpPort, toPort. cbn [m_addr sin_port s_addr]. rewrite swap_port.
  destruct (inet_pton (c_str ip)) as [x|] eqn:E; [|done].
  change (default 0 (Some x)) with x. by rewrite (join_pton _ _ E).
Qed.
Lemma zlen_prints ip port t : toIpPort (make ip port) = Ret t -> zlen t <= 21.
Proof.
  rewrite toIpPort_text. intros <-%Ret_inj. rewrite zlen_app.
  pose proof (zlen_join (s_addr (m_addr (make ip port)))). pose proof (port_room (toPort (make ip port))) as Hr.
  rewrite toPort_small in Hr. lia.
Qed.

(** C34: Addresses as texts.  The text of any address is its four numbers and its
    port, it fits in the buffer, and the address is made again from it, so that two
    sockets are one connection to itself exactly when their addresses have one text;
    an address made from any text prints as that text when it is four numbers up to
    255 without leading zeros and as 0.0.0.0 otherwise, with the port modulo 2^16;
    and the text without a port is never written. *)
Theorem address_text (a b : InetAddress) (ip : bytes) (port : Z) :
  wf a -> wf b ->
  (exists text, toIpPort a = Ret (text ++ lit ":" ++ Decimal.format_d (toPort a)) /\
     zlen (text ++ lit ":" ++ Decimal.format_d (toPort a)) < 32 /\ make text (toPort a) = a) /\
  (isSelfConnect (m_addr a) (m_addr b) = true <-> toIpPort a = toIpPort b) /\
  toIpPort (make ip port) =
    Ret ((if inet_pton (c_str ip) is Some _ then c_str ip else lit "0.0.0.0") ++ lit ":" ++ Decimal.format_d (u16 port)) /\
  toIp a = Undef Uninitialised.
Proof.
  intros Ha Hb. split_and!.
  - exists (join (octets (s_addr (m_addr a)))). split_and!; [apply toIpPort_text| |by apply make_text].
    pose proof (zlen_join (s_addr (m_addr a))). pose proof (port_room (toPort a)) as Hr.
    rewrite toPort_small in Hr. rewrite zlen_app. lia.
  - rewrite !toIpPort_text. unfold isSelfConnect. rewrite andb_true_iff, !Z.eqb_eq. split.
    + unfold toPort. by intros [-> ->].
    + intros E. apply Ret_inj in E. change (lit ":") with [colon] in E. cbn [app] in E.
      apply (app_sep_inj colon) in E as [E1 E2]; [|apply colon_join..].
      assert (toPort a = toPort b) as Ep.
      { unfold Decimal.format_d, lit in E2. apply (f_equal String.string_of_list_byte) in E2.
        rewrite !String.string_of_list_byte_of_string in E2. by apply (inj pretty). }
      pose proof (make_text a Ha) as Ma. rewrite E1, Ep, make_text in Ma by done. by rewrite Ma.
  - apply make_prints.
  - done.
Qed.

Lemma address_text_witness :
  toIpPort (make (lit "192.168.1.7") 20000) = Ret (lit "192.168.1.7:20000") /\
  toIpPort (make (lit "localhost") (-1)) = Ret (lit "0.0.0.0:65535").
Proof.
  assert (wf (make_port 0 false)) as Hw by (vm_compute; done).
  destruct (address_text _ _ (lit "192.168.1.7") 20000 Hw Hw) as (_ & _ & -> & _).
  destruct (address_text _ _ (lit "localhost") (-1) Hw Hw) as (_ & _ & -> & _).
  split; vm_compute; reflexivity.
Defined.

End Dotted.
