(* ===== verification/SocketCalls.v ===== *)
(** * Sockets and the kernel

    The rest of net/Sockets.*: the functions of [sockets], one per system call or
    two, and the class [Socket] that owns a descriptor.  The system calls are the
    operations of [SocketApi] over the state of the kernel; [SocketLaws] is what
    they are documented to do to the table of sockets.  [Listening] has the socket
    of the acceptor, from the constructor of net/Acceptor.cpp to its destructor. *)
From stdpp Require Import gmap.
From S2P Require Import Prelude Addresses Servers.
Import Sockets InetAddress.

(** A system call has a result, and may set [errno]; [sys_accept4], [sys_getsockname]
    and [sys_getpeername] write an address unless they fail. *)
Class SocketApi : Type := {
  kernel : Type;
  errno : kernel -> Z;
  SOMAXCONN : Z;
  sys_socket : Z -> Z -> Z -> kernel -> Z * kernel;
  sys_fcntl : Z -> Z -> Z -> kernel -> Z * kernel;
  sys_setsockopt : Z -> Z -> Z -> Z -> kernel -> Z * kernel;
  sys_getsockopt : Z -> Z -> Z -> kernel -> (Z * Z) * kernel;
  sys_bind : Z -> sockaddr_in -> kernel -> Z * kernel;
  sys_listen : Z -> Z -> kernel -> Z * kernel;
  sys_accept4 : Z -> Z -> kernel -> (Z * option sockaddr_in) * kernel;
  sys_connect : Z -> sockaddr_in -> kernel -> Z * kernel;
  sys_read : Z -> Z -> kernel -> (Z * bytes) * kernel;
  sys_readv : Z -> list Z -> kernel -> (Z * bytes) * kernel;
  sys_write : Z -> bytes -> kernel -> Z * kernel;
  sys_shutdown : Z -> Z -> kernel -> Z * kernel;
  sys_close : Z -> kernel -> Z * kernel;
  sys_getsockname : Z -> kernel -> option sockaddr_in * kernel;
  sys_getpeername : Z -> kernel -> option sockaddr_in * kernel;
  sys_open : bytes -> Z -> kernel -> Z * kernel
}.

Module SocketCalls.

(** The constants of Linux on x86-64. *)
Definition INVALID_SOCKET : Z := -1.
Definition SOCKET_ERROR : Z := -1.
Definition SOCK_STREAM : Z := 1.
Definition SOCK_NONBLOCK : Z := 0x800.
Definition SOCK_CLOEXEC : Z := 0x80000.
Definition IPPROTO_TCP : Z := 6.
Definition F_GETFD : Z := 1.
Definition F_SETFD : Z := 2.
Definition F_GETFL : Z := 3.
Definition F_SETFL : Z := 4.
Definition O_NONBLOCK : Z := 0x800.
Definition FD_CLOEXEC : Z := 1.
Definition SOL_SOCKET : Z := 1.
Definition SO_REUSEADDR : Z := 2.
Definition SO_ERROR : Z := 4.
Definition SO_KEEPALIVE : Z := 9.
Definition SO_REUSEPORT : Z := 15.
Definition TCP_NODELAY : Z := 1.
Definition SHUT_WR : Z := 1.
Definition O_RDONLY : Z := 0.
Definition O_RDWR : Z := 2.
Definition O_CLOEXEC : Z := 0x80000.

Section Calls.
Context `{sapi : SocketApi}.

Definition call {A} (f : kernel -> A * kernel) : M kernel A := fun k => Ret (f k).
Definition ignore (f : kernel -> Z * kernel) : M kernel unit := let! _ := call f in ret tt.
(** A fatal record of the log ends the process. *)
Definition LOGF {A} : M kernel A := undefined NullPointer.

Definition createOrDie : M kernel Z :=
  let! sockfd := call (sys_socket AF_INET (Z.lor SOCK_STREAM (Z.lor SOCK_NONBLOCK SOCK_CLOEXEC)) IPPROTO_TCP) in
  if sockfd =? INVALID_SOCKET then LOGF else ret sockfd.

(** The flags are [int]s in two's complement, also the -1 of a call that failed. *)
Definition setNonBlockAndCloseOnExec (sockfd : Z) : M kernel unit :=
  let! flags := call (sys_fcntl sockfd F_GETFL 0) in
  let! _ := call (sys_fcntl sockfd F_SETFL (Z.lor flags O_NONBLOCK)) in
  let! flags := call (sys_fcntl sockfd F_GETFD 0) in
  ignore (sys_fcntl sockfd F_SETFD (Z.lor flags FD_CLOEXEC)).

Definition createNonblockingOrDie : M kernel Z :=
  let! sockfd := createOrDie in
  do! setNonBlockAndCloseOnExec sockfd in
  ret sockfd.

Definition bindOrDie (sockfd : Z) (addr : sockaddr_in) : M kernel unit :=
  let! r := call (sys_bind sockfd addr) in if r =? SOCKET_ERROR then LOGF else ret tt.
Definition listenOrDie (sockfd : Z) : M kernel unit :=
  let! r := call (sys_listen sockfd SOMAXCONN) in if r =? SOCKET_ERROR then LOGF else ret tt.

(** [*addr] afterwards is the second component; an error that is not expected is
    fatal, and an expected one leaves its [errno]. *)
Definition accept (sockfd : Z) (addr : sockaddr_in) : M kernel (Z * sockaddr_in) :=
  let! r := call (sys_accept4 sockfd (Z.lor SOCK_NONBLOCK SOCK_CLOEXEC)) in
  let! k := get in
  if (fst r =? SOCKET_ERROR) && negb (Acceptor.expected_error (errno k)) then LOGF
  else ret (fst r, default addr (snd r)).

Definition optval (on : bool) : Z := if on then 1 else 0.
Definition setReuseAddr (sockfd : Z) (on : bool) : M kernel unit :=
  ignore (sys_setsockopt sockfd SOL_SOCKET SO_REUSEADDR (optval on)).
Definition setReusePort (sockfd : Z) (on : bool) : M kernel unit :=
  ignore (sys_setsockopt sockfd SOL_SOCKET SO_REUSEPORT (optval on)).

Definition connect (sockfd : Z) (addr : sockaddr_in) : M kernel Z := call (sys_connect sockfd addr).
(** A count is an [int32_t] that becomes a [size_t]; the result is cut to 32 bits. *)
Definition read (sockfd count : Z) : M kernel (Z * bytes) :=
  let! r := call (sys_read sockfd (u64 count)) in ret (i32 (fst r), snd r).
Definition readv (sockfd : Z) (iov : list Z) : M kernel (Z * bytes) := call (sys_readv sockfd iov).
Definition write (sockfd : Z) (buf : bytes) : M kernel Z :=
  let! n := call (sys_write sockfd buf) in ret (i32 n).
Definition close (sockfd : Z) : M kernel unit := ignore (sys_close sockfd).
Definition shutdownWrite (sockfd : Z) : M kernel unit := ignore (sys_shutdown sockfd SHUT_WR).

Definition getSocketError (sockfd : Z) : M kernel Z :=
  let! r := call (sys_getsockopt sockfd SOL_SOCKET SO_ERROR) in
  let! k := get in ret (Sockets.getSocketError (fst r) (snd r) (errno k)).

Definition zero_addr : sockaddr_in := mkAddr 0 0 0.
Definition getLocalAddr (sockfd : Z) : M kernel sockaddr_in :=
  let! a := call (sys_getsockname sockfd) in ret (default zero_addr a).
Definition getPeerAddr (sockfd : Z) : M kernel sockaddr_in :=
  let! a := call (sys_getpeername sockfd) in ret (default zero_addr a).
Definition isSelfConnect (sockfd : Z) : M kernel bool :=
  let! localaddr := getLocalAddr sockfd in
  let! peeraddr := getPeerAddr sockfd in
  ret (Sockets.isSelfConnect localaddr peeraddr).

End Calls.
End SocketCalls.

Module Socket.
Import SocketCalls.
Section Calls.
Context `{sapi : SocketApi}.

(** The only member is the descriptor. *)
Record Socket : Type := mkSocket { m_sockfd : Z }.

Definition destroy (s : Socket) : M kernel unit := close (m_sockfd s).
Definition bindAddress (s : Socket) (addr : InetAddress) : M kernel unit := bindOrDie (m_sockfd s) (m_addr addr).
Definition listen (s : Socket) : M kernel unit := listenOrDie (m_sockfd s).
Definition accept (s : Socket) (peeraddr : InetAddress) : M kernel (Z * InetAddress) :=
  let! r := SocketCalls.accept (m_sockfd s) zero_addr in
  ret (fst r, if 0 <=? fst r then mkInetAddress (snd r) else peeraddr).
Definition shutdownWrite (s : Socket) : M kernel unit := SocketCalls.shutdownWrite (m_sockfd s).
Definition setTcpNoDelay (s : Socket) (on : bool) : M kernel unit :=
  ignore (sys_setsockopt (m_sockfd s) IPPROTO_TCP TCP_NODELAY (optval on)).
Definition setReuseAddr (s : Socket) (on : bool) : M kernel unit := SocketCalls.setReuseAddr (m_sockfd s) on.
Definition setReusePort (s : Socket) (on : bool) : M kernel unit := SocketCalls.setReusePort (m_sockfd s) on.
Definition setKeepAlive (s : Socket) (on : bool) : M kernel unit :=
  ignore (sys_setsockopt (m_sockfd s) SOL_SOCKET SO_KEEPALIVE (optval on)).

End Calls.
End Socket.

(** ** What the calls do to the table of sockets *)
Record sock : Type := mkSock {
  status : Z;                       (* the flags of F_GETFL *)
  descriptor : Z;                   (* the flags of F_GETFD *)
  options : gmap (Z * Z) Z;         (* by level and name, those that were set *)
  local : option sockaddr_in;
  backlog : option Z                (* of a socket that listens *)
}.
Definition with_status (z : Z) (s : sock) : sock := mkSock z (descriptor s) (options s) (local s) (backlog s).
Definition with_descriptor (z : Z) (s : sock) : sock := mkSock (status s) z (options s) (local s) (backlog s).
Definition with_option (o : Z * Z) (v : Z) (s : sock) : sock :=
  mkSock (status s) (descriptor s) (<[o := v]> (options s)) (local s) (backlog s).
Definition with_local (a : sockaddr_in) (s : sock) : sock :=
  mkSock (status s) (descriptor s) (options s) (Some a) (backlog s).
Definition with_backlog (n : Z) (s : sock) : sock :=
  mkSock (status s) (descriptor s) (options s) (local s) (Some n).

(** The flags of the status F_SETFL can change: O_APPEND, O_NONBLOCK, O_ASYNC,
    O_DIRECT and O_NOATIME. *)
Definition SETFL_MASK : Z := 0x46c00.
Definition setfl (old new : Z) : Z := Z.lor (Z.ldiff old SETFL_MASK) (Z.land new SETFL_MASK).

Import SocketCalls.

(** The port 0 leaves the choice of the port to the kernel. *)
Definition bound_as (asked got : sockaddr_in) : Prop :=
  sin_family got = sin_family asked /\ s_addr got = s_addr asked /\
  (sin_port asked <> 0 -> sin_port got = sin_port asked).

(** The laws are about open sockets.  A call may fail with -1, and then the table
    is as it was; fcntl(2) fails for no open descriptor, and close(2) gives the
    descriptor back whatever it answers. *)
Class SocketLaws (sapi : SocketApi) : Type := {
  sockets : kernel -> gmap Z sock;
  socket_law : forall type k r k',
    sys_socket AF_INET type IPPROTO_TCP k = (r, k') ->
    (r = -1 /\ sockets k' = sockets k) \/
    (0 <= r /\ sockets k !! r = None /\
     sockets k' = <[r := mkSock (Z.lor O_RDWR (Z.land type SOCK_NONBLOCK))
                              (if Z.testbit type 19 then FD_CLOEXEC else 0) ∅ None None]> (sockets k));
  getfl_law : forall fd s arg k r k',
    sys_fcntl fd F_GETFL arg k = (r, k') -> sockets k !! fd = Some s -> r = status s /\ sockets k' = sockets k;
  setfl_law : forall fd s arg k r k',
    sys_fcntl fd F_SETFL arg k = (r, k') -> sockets k !! fd = Some s ->
    sockets k' = <[fd := with_status (setfl (status s) arg) s]> (sockets k);
  getfd_law : forall fd s arg k r k',
    sys_fcntl fd F_GETFD arg k = (r, k') -> sockets k !! fd = Some s -> r = descriptor s /\ sockets k' = sockets k;
  setfd_law : forall fd s arg k r k',
    sys_fcntl fd F_SETFD arg k = (r, k') -> sockets k !! fd = Some s ->
    sockets k' = <[fd := with_descriptor (Z.land arg FD_CLOEXEC) s]> (sockets k);
  setsockopt_law : forall fd s level name v k r k',
    sys_setsockopt fd level name v k = (r, k') -> sockets k !! fd = Some s ->
    (r = 0 /\ sockets k' = <[fd := with_option (level, name) v s]> (sockets k)) \/ (r = -1 /\ sockets k' = sockets k);
  bind_law : forall fd s a k r k',
    sys_bind fd a k = (r, k') -> sockets k !! fd = Some s ->
    (r = 0 /\ exists a', bound_as a a' /\ sockets k' = <[fd := with_local a' s]> (sockets k)) \/
    (r = -1 /\ sockets k' = sockets k);
  listen_law : forall fd s n k r k',
    sys_listen fd n k = (r, k') -> sockets k !! fd = Some s -> local s <> None ->
    (r = 0 /\ sockets k' = <[fd := with_backlog n s]> (sockets k)) \/ (r = -1 /\ sockets k' = sockets k);
  open_law : forall path flags k r k',
    sys_open path flags k = (r, k') -> sockets k' = sockets k /\ sockets k !! r = None;
  close_law : forall fd k r k', sys_close fd k = (r, k') -> sockets k' = delete fd (sockets k)
}.

(** ** The socket of the acceptor *)
Module Listening.
Section Calls.
Context `{sapi : SocketApi}.

(** [Acceptor::Acceptor] of net/Acceptor.cpp as the kernel sees it: the socket and
    [m_idleFd]. *)
Definition construct (listenAddr : InetAddress) (reuseport : bool) : M kernel (Socket.Socket * Z) :=
  let! sockfd := createNonblockingOrDie in
  let m_acceptSocket := Socket.mkSocket sockfd in
  let! m_idleFd := call (sys_open (lit "/dev/null") (Z.lor O_RDONLY O_CLOEXEC)) in
  do! Socket.setReuseAddr m_acceptSocket true in
  do! Socket.setReusePort m_acceptSocket reuseport in
  do! Socket.bindAddress m_acceptSocket listenAddr in
  ret (m_acceptSocket, m_idleFd).
(** The constructor, then [Acceptor::listen]. *)
Definition open (listenAddr : InetAddress) (reuseport : bool) : M kernel (Socket.Socket * Z) :=
  let! a := construct listenAddr reuseport in
  do! Socket.listen (fst a) in
  ret a.
(** [~Acceptor()] and the destructor of its member. *)
Definition destroy (a : Socket.Socket * Z) : M kernel unit :=
  do! close (snd a) in Socket.destroy (fst a).

End Calls.
End Listening.

Section Laws.
Context `{sapi : SocketApi} `{laws : !SocketLaws sapi}.

(** A computation that reaches [Q], or ends the process with a fatal record for the
    reason [F]. *)
Definition unless {A} (F : Prop) (Q : A -> kernel -> Prop) (m : M kernel A) (k : kernel) : Prop :=
  match m k with Ret (a, k') => Q a k' | Throw _ => False | Undef u => u = NullPointer /\ F end.

Section Rules.
Context (F : Prop).
Lemma unless_bind {A B} (Q : B -> kernel -> Prop) (m : M kernel A) (f : A -> M kernel B) k :
  unless F Q (bindM m f) k <-> unless F (fun a => unless F Q (f a)) m k.
Proof. unfold unless, bindM. by destruct (m k) as [[a k']| |]. Qed.
Lemma unless_mono {A} (Q R : A -> kernel -> Prop) (m : M kernel A) k :
  unless F Q m k -> (forall a k', Q a k' -> R a k') -> unless F R m k.
Proof. unfold unless. destruct (m k) as [[a k']| |]; auto. Qed.
Lemma unless_call {A} (Q : A -> kernel -> Prop) (f : kernel -> A * kernel) k :
  (forall a k', f k = (a, k') -> Q a k') -> unless F Q (call f) k.
Proof. intros H. unfold unless, call. destruct (f k) as [a k'] eqn:E. by apply H. Qed.
Lemma unless_ignore (Q : unit -> kernel -> Prop) (f : kernel -> Z * kernel) k :
  (forall r k', f k = (r, k') -> Q tt k') -> unless F Q (ignore f) k.
Proof. intros H. unfold ignore. apply unless_bind, unless_call. intros r k' E. exact (H r k' E). Qed.
Lemma unless_LOGF {A} (Q : A -> kernel -> Prop) k : F -> unless F Q LOGF k.
Proof. done. Qed.
End Rules.

(** What the kernel may refuse: a socket, the address to an open socket, and the
    listening to one that is bound. *)
Definition refused (addr : InetAddress) : Prop :=
  (exists k, fst (sys_socket AF_INET (Z.lor SOCK_STREAM (Z.lor SOCK_NONBLOCK SOCK_CLOEXEC)) IPPROTO_TCP k) = -1) \/
  (exists fd s k, sockets k !! fd = Some s /\ fst (sys_bind fd (m_addr addr) k) = -1) \/
  (exists fd s k, sockets k !! fd = Some s /\ local s <> None /\ fst (sys_listen fd SOMAXCONN k) = -1).

Lemma setfl_nonblock st : setfl st (Z.lor st O_NONBLOCK) = Z.lor st O_NONBLOCK.
Proof.
  unfold setfl. rewrite Z.land_lor_distr_l, Z.lor_assoc, Z.lor_ldiff_and. done.
Qed.
Lemma cloexec_flag d : Z.land (Z.lor d FD_CLOEXEC) FD_CLOEXEC = FD_CLOEXEC.
Proof.
  rewrite Z.land_lor_distr_l, Z.land_diag. apply Z.bits_inj. intros i.
  rewrite Z.lor_spec, Z.land_spec. by destruct (Z.testbit d i), (Z.testbit FD_CLOEXEC i).
Qed.

(** Both flags are set and every other flag of the status stays. *)
Lemma setNonBlockAndCloseOnExec_ok F fd s k :
  sockets k !! fd = Some s ->
  unless F (fun _ k' =>
      sockets k' = <[fd := with_descriptor FD_CLOEXEC (with_status (Z.lor (status s) O_NONBLOCK) s)]> (sockets k))
    (setNonBlockAndCloseOnExec fd) k.
Proof.
  intros Hs. unfold setNonBlockAndCloseOnExec.
  apply unless_bind, unless_call. intros fl k1 E1. destruct (getfl_law _ _ _ _ _ _ E1 Hs) as [-> S1].
  apply unless_bind, unless_call. intros r k2 E2. rewrite <- S1 in Hs.
  pose proof (setfl_law _ _ _ _ _ _ E2 Hs) as S2. rewrite setfl_nonblock in S2.
  apply unless_bind, unless_call. intros fd' k3 E3.
  destruct (getfd_law _ _ _ _ _ _ E3 ltac:(by rewrite S2, lookup_insert_eq)) as [-> S3].
  apply unless_ignore. intros r' k4 E4.
  rewrite (setfd_law _ _ _ _ _ _ E4 ltac:(by rewrite S3, S2, lookup_insert_eq)), S3, S2, insert_insert_eq, S1.
  cbn [descriptor with_status]. by rewrite cloexec_flag.
Qed.

(** A new socket of the program. *)
Definition fresh : sock := mkSock (Z.lor O_RDWR O_NONBLOCK) FD_CLOEXEC ∅ None None.

Lemma createNonblockingOrDie_ok addr k :
  unless (refused addr) (fun fd k' => sockets k !! fd = None /\ sockets k' = <[fd := fresh]> (sockets k)) createNonblockingOrDie k.
Proof.
  unfold createNonblockingOrDie, createOrDie.
  apply unless_bind, unless_bind, unless_call. intros fd k1 E.
  destruct (socket_law _ _ _ _ E) as [[-> _]|(Hfd & Hnew & Hs)]; [apply unless_LOGF; left; exists k; by rewrite E|].
  destruct (Z.eqb_spec fd INVALID_SOCKET) as [->|_]; [done|].
  apply unless_bind. eapply unless_mono.
  { eapply (setNonBlockAndCloseOnExec_ok _ fd fresh k1). rewrite Hs. apply lookup_insert_eq. }
  intros u k2 H2. split; [done|]. cbn beta in H2. by rewrite H2, Hs, insert_insert_eq.
Qed.

(** A socket option, refused or not, changes only the options. *)
Definition allowed (os : list (Z * Z * Z)) (s : sock) : Prop := forall o v, options s !! o = Some v -> (o, v) ∈ os.

Lemma setsockopt_ok F (Q : unit -> kernel -> Prop) fd s level name v k :
  sockets k !! fd = Some s ->
  (forall o k', (o = options s \/ o = <[(level, name) := v]> (options s)) ->
     sockets k' = <[fd := mkSock (status s) (descriptor s) o (local s) (backlog s)]> (sockets k) -> Q tt k') ->
  unless F Q (ignore (sys_setsockopt fd level name v)) k.
Proof.
  intros Hs H. apply unless_ignore. intros r k' E.
  destruct (setsockopt_law _ _ _ _ _ _ _ _ E Hs) as [[_ E']|[_ E']].
  - exact (H _ _ (or_intror eq_refl) E').
  - refine (H _ _ (or_introl eq_refl) _). rewrite E'. destruct s. by rewrite insert_id.
Qed.

(** The listening socket the program means to have. *)
Definition listens (addr : InetAddress) (reuseport : bool) (s : sock) : Prop :=
  status s = Z.lor O_RDWR O_NONBLOCK /\ descriptor s = FD_CLOEXEC /\ backlog s = Some SOMAXCONN /\
  (exists a, local s = Some a /\ bound_as (m_addr addr) a) /\
  allowed [(SOL_SOCKET, SO_REUSEADDR, 1); (SOL_SOCKET, SO_REUSEPORT, optval reuseport)] s.

Definition bound (addr : InetAddress) (reuseport : bool) (s : sock) : Prop :=
  exists a, local s = Some a /\ listens addr reuseport (with_backlog SOMAXCONN s).

Lemma allowed_options (reuseport : bool) (st d : Z) (a : option sockaddr_in) (n : option Z) (o1 o2 : gmap (Z * Z) Z) :
  (o1 = ∅ \/ o1 = <[(SOL_SOCKET, SO_REUSEADDR) := 1]> ∅) ->
  (o2 = o1 \/ o2 = <[(SOL_SOCKET, SO_REUSEPORT) := optval reuseport]> o1) ->
  allowed [(SOL_SOCKET, SO_REUSEADDR, 1); (SOL_SOCKET, SO_REUSEPORT, optval reuseport)] (mkSock st d o2 a n).
Proof.
  intros H1 H2 o v. cbn [options].
  destruct H1 as [-> | ->], H2 as [-> | ->]; rewrite ?lookup_insert_Some, ?lookup_empty; set_solver.
Qed.

Lemma construct_ok addr reuseport k :
  unless (refused addr) (fun a k' => sockets k !! Socket.m_sockfd (fst a) = None /\ sockets k' !! snd a = None /\
      exists s, bound addr reuseport s /\ sockets k' = <[Socket.m_sockfd (fst a) := s]> (sockets k))
    (Listening.construct addr reuseport) k.
Proof.
  unfold Listening.construct. apply unless_bind. eapply unless_mono; [apply createNonblockingOrDie_ok|].
  intros fd k1 [Hnew S1]. apply unless_bind, unless_call. intros idle k2 E2.
  destruct (open_law _ _ _ _ _ E2) as [S2 Hidle]. rewrite <- S2 in S1.
  assert (idle <> fd) as Hne by (intros ->; rewrite <- S2, S1, lookup_insert_eq in Hidle; done).
  apply unless_bind. eapply setsockopt_ok; [cbn; by rewrite S1, lookup_insert_eq|].
  intros o1 k3 H1 S3. rewrite S1, insert_insert_eq in S3.
  apply unless_bind. eapply setsockopt_ok; [cbn; by rewrite S3, lookup_insert_eq|].
  intros o2 k4 H2 S4. rewrite S3, insert_insert_eq in S4. cbn [options status descriptor local backlog Socket.m_sockfd] in *.
  apply unless_bind. unfold Socket.bindAddress, bindOrDie. apply unless_bind, unless_call.
  intros r k5 E5. cbn in E5. assert (sockets k4 !! fd = Some (mkSock (Z.lor O_RDWR O_NONBLOCK) FD_CLOEXEC o2 None None)) as Hfd
    by (by rewrite S4, lookup_insert_eq).
  destruct (bind_law _ _ _ _ _ _ E5 Hfd) as [(-> & a & Ha & S5)|[-> _]];
    [|apply unless_LOGF; right; left; eexists fd, _, k4; split; [exact Hfd|by rewrite E5]].
  rewrite S4, insert_insert_eq in S5. split; [done|]. cbn [fst snd Socket.m_sockfd].
  rewrite S5. split; [rewrite lookup_insert_ne by done; by rewrite <- S2, S1, lookup_insert_ne in Hidle by done|].
  eexists; split; [|done]. exists a. split; [done|]. split_and!; [done..|by exists a|].
  eapply allowed_options; eassumption.
Qed.

(** C33: The listening socket.  Whatever the kernel answers, constructing the acceptor
    and listening leaves exactly one new socket, which does not block, is closed on
    exec, is bound to the address asked for (with a port of the kernel's choice for
    port 0), listens with the largest backlog and has no option but address and port
    reuse; destroying the acceptor gives the table of sockets back as it was.  The only
    other end is a fatal log record, and then the kernel refused a socket, the address
    or the listening: options that are refused do not matter. *)
Theorem listening_socket (addr : InetAddress) (reuseport : bool) (k : kernel) :
  unless (refused addr) (fun a k1 =>
      exists s, sockets k !! Socket.m_sockfd (fst a) = None /\
        sockets k1 = <[Socket.m_sockfd (fst a) := s]> (sockets k) /\ listens addr reuseport s /\
        unless False (fun _ k2 => sockets k2 = sockets k) (Listening.destroy a) k1)
    (Listening.open addr reuseport) k.
Proof.
  unfold Listening.open. apply unless_bind.
  eapply unless_mono; [apply construct_ok|]. intros [[fd] idle] k1 (Hnew & Hidle & s & (a & Ha & Hs) & S1).
  cbn [fst snd Socket.m_sockfd] in *. apply unless_bind. unfold Socket.listen, listenOrDie.
  apply unless_bind, unless_call. intros r k2 E2. cbn in E2.
  assert (sockets k1 !! fd = Some s) as Hfd by (by rewrite S1, lookup_insert_eq).
  destruct (listen_law _ _ _ _ _ _ E2 Hfd ltac:(by rewrite Ha)) as [[-> S2]|[-> _]];
    [|apply unless_LOGF; right; right; exists fd, s, k1; by rewrite E2, Ha].
  rewrite S1, insert_insert_eq in S2. exists (with_backlog SOMAXCONN s). split_and!; [done..|].
  unfold Listening.destroy. apply unless_bind, unless_ignore. intros r3 k3 E3.
  apply unless_ignore. intros r4 k4 E4. cbn [fst snd Socket.m_sockfd] in *.
  rewrite (close_law _ _ _ _ E4), (close_law _ _ _ _ E3), S2, delete_delete.
  rewrite delete_insert_id by done. apply delete_id.
  rewrite S1 in Hidle. by destruct (decide (idle = fd)) as [->|Hne];
    [rewrite lookup_insert_eq in Hidle|rewrite lookup_insert_ne in Hidle by done].
Qed.
End Laws.

(** What the acceptor of Servers.v is told of the answer of the kernel. *)
Section Answer.
Context `{sapi : SocketApi}.

Definition answer (sockfd : Z) (k : kernel) : Acceptor.accept_result :=
  let '((r, _), k') := sys_accept4 sockfd (Z.lor SOCK_NONBLOCK SOCK_CLOEXEC) k in
  if r =? SOCKET_ERROR then Acceptor.AcceptError (errno k') else Acceptor.Accepted r.

(** Its [accept] returns the descriptor of this one, and is fatal when it is. *)
Lemma accept_refines (sockfd : Z) (peeraddr : InetAddress) (k : kernel) (a : Acceptor.Acceptor) :
  match Socket.accept (Socket.mkSocket sockfd) peeraddr k with
  | Ret (r, _) => exists a', Acceptor.accept (answer sockfd k) a = Ret (fst r, a')
  | Throw _ => False
  | Undef u => Acceptor.accept (answer sockfd k) a = Undef u
  end.
Proof.
  unfold Socket.accept, SocketCalls.accept, answer, bindM, call, get. cbn [Socket.m_sockfd].
  destruct (sys_accept4 _ _ k) as [[r o] k']. cbn [fst snd].
  destruct (Z.eqb_spec r SOCKET_ERROR) as [->|Hr]; cbn [andb]; [|by eexists].
  unfold Acceptor.accept. destruct (Acceptor.expected_error (errno k')); [by eexists|done].
Qed.

(** When the kernel tells neither address, as for a descriptor that is not open, the
    two are the same: the connection counts as one to itself. *)
Lemma unknown_is_self fd k :
  fst (sys_getsockname fd k) = None -> fst (sys_getpeername fd (snd (sys_getsockname fd k))) = None ->
  fst <$> SocketCalls.isSelfConnect fd k = Ret true.
Proof.
  unfold SocketCalls.isSelfConnect, getLocalAddr, getPeerAddr, bindM, call.
  destruct (sys_getsockname fd k) as [a k1]. cbn. intros ->.
  destruct (sys_getpeername fd k1) as [b k2]. cbn. by intros ->.
Qed.
End Answer.

(** ** A concrete kernel, for the examples

    Its state is the table; no call on an open socket is refused, and the port it
    chooses is 40000. *)
Module DemoKernel.

Definition fresh_fd (t : gmap Z sock) : Z := map_fold (fun fd _ n => Z.max n (fd + 1)) 3 t.
Definition on (fd : Z) (f : sock -> Z * sock) (t : gmap Z sock) : Z * gmap Z sock :=
  match t !! fd with Some s => (fst (f s), <[fd := snd (f s)]> t) | None => (-1, t) end.
Definition fcntl (cmd arg : Z) (s : sock) : Z * sock :=
  if cmd =? F_GETFL then (status s, s)
  else if cmd =? F_SETFL then (0, with_status (setfl (status s) arg) s)
  else if cmd =? F_GETFD then (descriptor s, s)
  else (0, with_descriptor (Z.land arg FD_CLOEXEC) s).
Definition choose (a : sockaddr_in) : sockaddr_in :=
  if sin_port a =? 0 then mkAddr (sin_family a) (Buffers.Endian.hostToNetwork16 40000) (s_addr a) else a.

Definition api : SocketApi := {|
  kernel := gmap Z sock;
  errno := fun _ => 9;
  SOMAXCONN := 4096;
  sys_socket := fun _ type _ t =>
    (fresh_fd t, <[fresh_fd t := mkSock (Z.lor O_RDWR (Z.land type SOCK_NONBLOCK))
                                   (if Z.testbit type 19 then FD_CLOEXEC else 0) ∅ None None]> t);
  sys_fcntl := fun fd cmd arg => on fd (fcntl cmd arg);
  sys_setsockopt := fun fd level name v => on fd (fun s => (0, with_option (level, name) v s));
  sys_getsockopt := fun _ _ _ t => ((0, 0), t);
  sys_bind := fun fd a => on fd (fun s => (0, with_local (choose a) s));
  sys_listen := fun fd n => on fd (fun s => (0, with_backlog n s));
  sys_accept4 := fun _ _ t => ((-1, None), t);
  sys_connect := fun _ _ t => (-1, t);
  sys_read := fun _ _ t => ((-1, []), t);
  sys_readv := fun _ _ t => ((-1, []), t);
  sys_write := fun _ _ t => (-1, t);
  sys_shutdown := fun _ _ t => (0, t);
  sys_close := fun fd t => (0, delete fd t);
  sys_getsockname := fun fd t => (t !! fd ≫= local, t);
  sys_getpeername := fun _ t => (None, t);
  sys_open := fun _ _ t => (fresh_fd t, t)
|}.

Lemma fresh_fd_ok t : 3 <= fresh_fd t /\ t !! fresh_fd t = None.
Proof.
  assert (3 <= fresh_fd t /\ forall fd, fresh_fd t <= fd -> t !! fd = None) as [H1 H2]; [|by auto with lia].
  unfold fresh_fd. refine (map_fold_weak_ind (fun n (m : gmap Z sock) => 3 <= n /\ forall fd, n <= fd -> m !! fd = None)
    _ _ _ _ t); [by split|].
  intros fd s m n _ [IH1 IH2]. split; [lia|]. intros g Hg. rewrite lookup_insert_ne by lia. apply IH2. lia.
Qed.
Lemma on_some fd f t s r t' :
  on fd f t = (r, t') -> t !! fd = Some s -> r = fst (f s) /\ t' = <[fd := snd (f s)]> t.
Proof. unfold on. intros H E. rewrite E in H. by injection H as <- <-. Qed.

Program Definition laws : SocketLaws api := {| sockets := fun t => t |}.
Solve All Obligations with
  cbn; intros; destruct_and?;
  try match goal with H : on _ _ _ = _, E : _ !! _ = Some _ |- _ => destruct (on_some _ _ _ _ _ _ H E) as [-> ->]; cbn end;
  rewrite ?insert_id by done; auto.
Next Obligation. intros type t r t'; cbn; intros [= <- <-]. right. destruct (fresh_fd_ok t). by split; [lia|]. Qed.
Next Obligation.
  intros fd s a t r t'; cbn; intros H E. destruct (on_some _ _ _ _ _ _ H E) as [-> ->]. left. split; [done|].
  exists (choose a). split; [|done]. unfold choose. by destruct (Z.eqb_spec (sin_port a) 0); split_and?.
Qed.
Next Obligation. intros path flags t r t'; cbn; intros [= <- <-]. split; [done|]. apply fresh_fd_ok. Qed.
Next Obligation. intros fd t r t'; cbn; by intros [= <- <-]. Qed.

End DemoKernel.

(** The listening socket on a free port of the concrete kernel, next to one socket
    that was there. *)
Definition other : sock := mkSock 2 0 ∅ None None.
Lemma listening_socket_witness :
  match Listening.open (sapi := DemoKernel.api) (make_port 0 true) false {[ 7 := other ]} with
  | Ret (a, t) =>
      Socket.m_sockfd (fst a) = 8 /\ t !! 7 = Some other /\
      exists s, t = <[8 := s]> {[ 7 := other ]} /\ toPort (mkInetAddress (default zero_addr (local s))) = 40000 /\
        listens (sapi := DemoKernel.api) (make_port 0 true) false s
  | _ => False
  end.
Proof.
  pose proof (@listening_socket DemoKernel.api DemoKernel.laws (make_port 0 true) false {[ 7 := other ]}) as H.
  unfold unless in H. destruct (Listening.open _ _ _) as [[a t]|e|u] eqn:E; [|by vm_compute in E..].
  assert (Socket.m_sockfd (fst a) = 8 /\ t !! 7 = Some other /\
    exists s, t !! 8 = Some s /\ toPort (mkInetAddress (default zero_addr (local s))) = 40000) as (Ha & Ht & s & H8 & Hp).
  { vm_compute in E. injection E as <- <-. split_and!; [done..|]. eexists. split; vm_compute; reflexivity. }
  destruct H as (s' & _ & Hs & Hl & _). rewrite Ha in Hs. cbn in Hs.
  assert (Some s' = Some s) as [= ->] by (rewrite <- H8, Hs; exact (eq_sym (lookup_insert_eq (M := gmap Z) {[ 7 := other ]} 8 s'))).
  split; [done|]. split; [done|]. by exists s.
Defined.
