(* ===== verification/System.v ===== *)
(** * The server and its connections together

    The sessions of Chat.v run on the connections of Connections.v: an event of a
    connection is executed ([operate]), the callbacks it makes are handled by the
    server ([handle]), and the calls the handlers make are executed on the
    connections they name ([perform]).  A connection makes its callbacks last, and
    the handlers look at no state of a connection but its input buffer, so the
    three can follow one another.  Handlers of different threads are taken one at a
    time.  [packages_delivered] says what the clients are sent. *)
From S2P Require Import Prelude Buffers Channels Protocol Mysql Json JsonText RedisClient Stores Chat Framing Connections Handlers.
Import World.

Module System.

Abbreviation Conn := TcpConnection.World.

Section Api.
Context `{api : MysqlApi} `{rapi : RedisApi}.
Variable uninit : nat -> bytes.
(** The thread a connection belongs to. *)
Variable loop_of : Z -> Z.

(** [reader] has the session whose [onRead] is the message callback. *)
Record System : Type := mkSystem {
  chat : World;
  conns : gmap Z Conn;
  reader : gmap Z Z
}.

(** What the kernel answers to the direct write of each call. *)
Abbreviation answers := (nat -> bytes -> TcpConnection.write_result).

(** A call of a handler that runs on the thread [here]. *)
Definition op_of (here c : Z) (r : bytes -> TcpConnection.write_result) (k : call) : TcpConnection.op :=
  match k with
  | Send d => TcpConnection.OpSend (loop_of c =? here) (r d) d
  | ForceClose => TcpConnection.OpForceClose
  end.
Fixpoint perform (here : Z) (answer : answers) (cs : list (Z * call)) (cn : gmap Z Conn) : outcome (gmap Z Conn) :=
  match cs with
  | [] => Ret cn
  | (c, k) :: cs' =>
      match cn !! c with
      | None => Undef DanglingPointer
      | Some w =>
          p ← TcpConnection.exec (op_of here c (answer (length cs')) k) w;
          perform here answer cs' (<[c := snd p]> cn)
      end
  end.

(** A handler of the server, and then the calls it made. *)
Definition on_chat {A} (here : Z) (answer : answers) (m : M World A) : M System A := fun s =>
  p ← m (chat s);
  cn ← perform here answer (drop (length (calls (chat s))) (calls (snd p))) (conns s);
  Ret (fst p, mkSystem (snd p) cn (reader s)).

Definition set_reader (c p : Z) : M System unit :=
  modify (fun s => mkSystem (chat s) (conns s) (<[c := p]> (reader s))).
Definition set_conn (c : Z) (w : Conn) : M System unit :=
  modify (fun s => mkSystem (chat s) (<[c := w]> (conns s)) (reader s)).
Definition the_conn (c : Z) : M System Conn := fun s =>
  match conns s !! c with Some w => Ret (w, s) | None => Undef DanglingPointer end.
Definition own (c : Z) : M World unit := modify (fun w => Handlers.set_alive ({[c]} ∪ alive w) w).

(** The connection callback; the owner of a new connection exists from there on. *)
Definition connection_callback (c : Z) (up : bool) (now : Z) : M World (option Z) :=
  do! when up (own c) in ChatServer.onConnected c up now.

(** The callback an event is: [m_connectionCallback] is [ChatServer::onConnected],
    and [m_messageCallback] the [onRead] of the session the connection was given. *)
Definition handle (answer : answers) (now c : Z) (e : TcpConnection.event) : M System unit :=
  match e with
  | TcpConnection.EvConnection up =>
      let! p := on_chat (loop_of c) answer (connection_callback c up now) in
      match p with Some q => set_reader c q | None => ret tt end
  | TcpConnection.EvMessage =>
      let! s := get in
      let! w := the_conn c in
      match reader s !! c with
      | None =>
          let! r := lift (TcpConnection.setInput (ByteBuffer.retrieveAll (TcpConnection.m_inputBuffer (TcpConnection.conn w))) w) in
          set_conn c (snd r)
      | Some p =>
          let! b := on_chat (loop_of c) answer
            (ChatSession.onRead uninit (fun _ => now) p c (TcpConnection.m_inputBuffer (TcpConnection.conn w))) in
          let! w' := the_conn c in
          match b with
          | None => ret tt
          | Some b =>
              let! r := lift (TcpConnection.setInput b w') in set_conn c (snd r)
          end
      end
  | _ => ret tt
  end.

(** An event of the connection [c], with its callbacks: as [handleRead], which
    reads into the buffer and then calls the message callback. *)
Definition operate (answer : answers) (now c : Z) (o : TcpConnection.op) : M System unit :=
  let! w := the_conn c in
  let! r := lift (TcpConnection.exec o w) in
  do! set_conn c (snd r) in
  for_each (drop (length (TcpConnection.log w)) (TcpConnection.log (snd r))) (handle answer now c).

(** ** Whom the handlers call, and with what *)

(** A package: its length in four bytes, and its body. *)
Definition frame (body : bytes) : bytes := Msg.header_of (zlen body) ++ body.
Definition framed (k : call) : Prop :=
  match k with Send d => exists body, d = frame body /\ zlen body < 2 ^ 31 | ForceClose => True end.
Definition addressed (conn : Z) (w : World) (ck : Z * call) : Prop :=
  (fst ck = conn \/ exists q t, heap w !! q = Some t /\ tmpConn t = fst ck) /\ framed (snd ck).

(** The sessions keep their connections, and the new calls go to those and to [conn]. *)
Record calling (conn : Z) (w w' : World) : Prop := {
  calling_conns : tmpConn <$> heap w' = tmpConn <$> heap w;
  calling_alive : alive w' = alive w;
  calling_calls : exists cs, calls w' = calls w ++ cs /\ Forall (addressed conn w) cs
}.
Lemma addressed_conns conn w w' ck :
  tmpConn <$> heap w' = tmpConn <$> heap w -> addressed conn w' ck -> addressed conn w ck.
Proof.
  intros E [[?|(q & t & Hq & Ht)] Hf]; split; auto. right.
  destruct (Handlers.fmap_lookup_eq _ _ _ _ _ E Hq) as (t0 & H0 & E0). exists q, t0. by rewrite E0.
Qed.
#[export] Instance calling_preorder conn : PreOrder (calling conn).
Proof.
  split.
  - intros w. split; [done..|]. exists []. by rewrite app_nil_r.
  - intros w1 w2 w3 [E1 A1 (c1 & H1 & F1)] [E2 A2 (c2 & H2 & F2)]. split; [congruence..|].
    exists (c1 ++ c2). split; [by rewrite H2, H1, app_assoc|]. apply Forall_app. split; [done|].
    eapply Forall_impl; [exact F2|]. intros ck. by apply addressed_conns.
Qed.

Section Calling.
Variable conn : Z.

Lemma calling_deref p : respects (calling conn) (deref p).
Proof. intros w a w' H. unfold deref in H. destruct (heap w !! p); by simplify_eq. Qed.
Lemma calling_update p f : (forall s, tmpConn (f s) = tmpConn s) -> respects (calling conn) (update p f).
Proof.
  intros Hf w [] w' (s & Hp & ->)%Handlers.update_inv. split; cbn; [by eapply Handlers.fmap_insert_same|done|].
  exists []. by rewrite app_nil_r.
Qed.
Lemma calling_messages {A} (m : M MsgCacheManager.State A) : respects (calling conn) (on_messages m).
Proof.
  intros w a w' H. unfold on_messages, zoom in H. inv_bind. split; [done..|]. exists []. by rewrite app_nil_r.
Qed.
Lemma calling_forceClose : respects (calling conn) (ChatSession.forceClose conn).
Proof. apply respects_modify. intros w. split; [done..|]. eexists. split; [reflexivity|]. apply Forall_singleton. split; [by left|done]. Qed.

Lemma string_of_frame mem n d :
  srange 32 n -> TcpSession.string_of mem n = Ret d -> Msg.header_of n ++ d = frame d /\ zlen d < 2 ^ 31.
Proof.
  unfold srange, TcpSession.string_of. intros Hn. destruct (Z.leb_spec (u64 n) ByteBuffer.string_max_size) as [Hs|]; [|done].
  assert (0 <= n) as Hpos.
  { unfold ByteBuffer.string_max_size, u64, uwrap in Hs. destruct (Z.leb_spec 0 n); [done|].
    rewrite <- (Z.mod_unique_pos n (2 ^ 64) (-1) (n + 2 ^ 64)) in Hs by lia. lia. }
  rewrite uwrap_small by lia. unfold load. destruct (in_block 0 n mem) eqn:Hb; [|done]. intros [= <-].
  apply in_block_true in Hb. unfold frame. rewrite !zlen_window by lia. split; [done|]. exact (proj2 Hn).
Qed.

Lemma calling_sendPackage p mem n : srange 32 n -> respects (calling conn) (TcpSession.sendPackage p mem n).
Proof.
  intros Hn w [] w'. unfold TcpSession.sendPackage. rewrite M_bind_eq. unfold lift.
  destruct (TcpSession.string_of mem n) as [d| |] eqn:Hd; try done. cbn [mbind outcome_bind].
  rewrite M_bind_eq. unfold TcpSession.getConnectionPtr, deref. cbn [bindM].
  destruct (heap w !! p) as [s|] eqn:Hp; [|done]. cbn [get ret bindM]. case_decide; [|by intros [= <-]].
  intros [= <-]. split; [done..|]. eexists. split; [reflexivity|]. apply Forall_singleton. split.
  - right. by exists p, s.
  - cbn. exists d. by apply (string_of_frame mem n).
Qed.

#[local] Hint Resolve calling_deref calling_messages calling_forceClose : respects.
#[local] Hint Extern 1 (respects (calling _) (update _ _)) => by apply calling_update : respects.
#[local] Hint Extern 1 (respects (calling _) (TcpSession.sendPackage _ _ _)) =>
  apply calling_sendPackage, swrap_range; lia : respects.

Lemma calling_send p cmd seq data : respects (calling conn) (TcpSession.send uninit p cmd seq data).
Proof. unfold TcpSession.send, TcpSession.send_data. respects. Qed.
#[local] Hint Resolve calling_send : respects.

Lemma calling_dispatch p cmd data : respects (calling conn) (ChatSession.dispatch uninit p cmd data).
Proof.
  unfold ChatSession.dispatch, ChatSession.onLoginResponse, ChatSession.kick, ChatServer.getSessionByUserId,
    ChatServer.sessions, ChatSession.makeSessionInvalid, ChatSession.onGetUserListResponse, ChatSession.onGetMsgsResponse,
    ChatSession.onChatResponse, ChatServer.getSessions, ChatServer.sessions, ChatSession.field, TcpSession.send_packet.
  respects; apply Handlers.find_session_respects; auto with respects; apply _.
Qed.
#[local] Hint Resolve calling_dispatch : respects.

Lemma calling_process p inbuf n : respects (calling conn) (ChatSession.process uninit p inbuf n).
Proof. unfold ChatSession.process, ChatSession.next_seq, ChatSession.field. respects. Qed.
#[local] Hint Resolve calling_process : respects.

Lemma calling_onRead clock p buf : respects (calling conn) (ChatSession.onRead uninit clock p conn buf).
Proof.
  unfold ChatSession.onRead. generalize (S (Z.to_nat (ByteBuffer.readableBytes buf))). intros fuel. revert buf.
  induction fuel as [|fuel IH]; intros buf; cbn [ChatSession.read_loop]; respects.
Qed.

End Calling.

(** ** What a connection owes to the calls *)
Definition message_of (t : TcpConnection.task) : option bytes :=
  match t with TcpConnection.TSendInLoop m => Some m | _ => None end.
(** The messages other threads have queued. *)
Definition queued (w : Conn) : list bytes := omap message_of (TcpConnection.queue w).

(** No message is queued, and the connection is not reported as established. *)
Definition no_up (w w' : Conn) : Prop :=
  exists evs, TcpConnection.log w' = TcpConnection.log w ++ evs /\ Forall (fun e => TcpConnection.is_up e = false) evs.
Definition calm (w w' : Conn) : Prop := queued w' = queued w /\ no_up w w'.
#[export] Instance calm_preorder : PreOrder calm.
Proof.
  split.
  - intros w. split; [done|]. exists []. by rewrite app_nil_r.
  - intros w1 w2 w3 [E1 (e1 & L1 & F1)] [E2 (e2 & L2 & F2)]. split; [congruence|].
    exists (e1 ++ e2). split; [by rewrite L2, L1, app_assoc|by apply Forall_app].
Qed.

Lemma calm_same w w' :
  TcpConnection.queue w' = TcpConnection.queue w -> TcpConnection.log w' = TcpConnection.log w -> calm w w'.
Proof. intros E1 E2. split; [unfold queued; by rewrite E1|]. exists []. by rewrite E2, app_nil_r. Qed.
Lemma calm_update f : respects calm (TcpConnection.update f).
Proof. apply respects_modify. intros w. by apply calm_same. Qed.
Lemma calm_emit e : TcpConnection.is_up e = false -> respects calm (TcpConnection.emit e).
Proof. intros He. apply respects_modify. intros w. split; [done|]. exists [e]. split; [done|by apply Forall_singleton]. Qed.
Lemma calm_queue t : message_of t = None -> respects calm (TcpConnection.queueInLoop t).
Proof.
  intros Ht. apply respects_modify. intros w. split; [|exists []; split; [by rewrite app_nil_r|done]].
  unfold queued. cbn [TcpConnection.queue]. rewrite omap_app. cbn. by rewrite Ht, app_nil_r.
Qed.
#[local] Hint Resolve calm_update : respects.
#[local] Hint Extern 1 (respects calm (TcpConnection.emit _)) => by apply calm_emit : respects.
#[local] Hint Extern 1 (respects calm (TcpConnection.queueInLoop _)) => by apply calm_queue : respects.

Lemma calm_sendInLoop here r d : respects calm (TcpConnection.sendInLoop here r d).
Proof.
  unfold TcpConnection.sendInLoop, TcpConnection.assertInLoopThread, TcpConnection.self, TcpConnection.bufferRest,
    TcpConnection.self, TcpConnection.setOutput, TcpConnection.channel_op, TcpConnection.write. respects.
Qed.
Lemma calm_handleClose here : respects calm (TcpConnection.handleClose here).
Proof.
  unfold TcpConnection.handleClose, TcpConnection.assertInLoopThread, TcpConnection.self, TcpConnection.setState,
    TcpConnection.channel_op. respects.
Qed.
#[local] Hint Resolve calm_sendInLoop calm_handleClose : respects.

(** Every event but the establishing one and the tasks. *)
Definition plain (o : TcpConnection.op) : bool :=
  match o with
  | TcpConnection.OpDestroyed | TcpConnection.OpRead _ _ | TcpConnection.OpWritable _ | TcpConnection.OpClosed
  | TcpConnection.OpError | TcpConnection.OpForceClose => true
  | TcpConnection.OpSend here _ _ => here
  | _ => false
  end.
Lemma calm_plain o : plain o = true -> respects calm (TcpConnection.exec o).
Proof.
  destruct o as [[] r m| | | | |r err|r| | | | | |]; try done; intros _; cbn [TcpConnection.exec];
    unfold TcpConnection.send, TcpConnection.forceClose, TcpConnection.connectDestroyed, TcpConnection.handleRead,
      TcpConnection.handleWrite, TcpConnection.handleError, TcpConnection.shutdownInLoop,
      TcpConnection.assertInLoopThread, TcpConnection.self, TcpConnection.setState, TcpConnection.channel_op,
      TcpConnection.setInput, TcpConnection.setOutput, TcpConnection.write; respects.
Qed.

(** What happens to a connection on its own. *)
Definition event_op (o : TcpConnection.op) : bool :=
  match o with
  | TcpConnection.OpSend _ _ _ | TcpConnection.OpForceClose => false
  | TcpConnection.OpEstablished _ | TcpConnection.OpTask _ => true
  | _ => plain o
  end.

(** The functor of a task. *)
Definition run_one (r : TcpConnection.write_result) (t : TcpConnection.task) : M Conn unit :=
  match t with
  | TcpConnection.TSendInLoop message => TcpConnection.sendInLoop true r message
  | TcpConnection.TShutdownInLoop => TcpConnection.shutdownInLoop true
  | TcpConnection.TForceCloseInLoop => TcpConnection.forceCloseInLoop true
  | TcpConnection.TWriteComplete => TcpConnection.emit TcpConnection.EvWriteComplete
  | TcpConnection.THighWaterMark size => TcpConnection.emit (TcpConnection.EvHighWaterMark size)
  end.
Lemma calm_run_one r t : respects calm (run_one r t).
Proof.
  destruct t; cbn [run_one]; unfold TcpConnection.shutdownInLoop, TcpConnection.forceCloseInLoop,
    TcpConnection.assertInLoopThread, TcpConnection.self; respects.
Qed.

Lemma task_queue r w w' :
  TcpConnection.exec (TcpConnection.OpTask r) w = Ret (tt, w') ->
  queued w = map snd (TcpConnection.offered (TcpConnection.OpTask r) w) ++ queued w' /\ no_up w w'.
Proof.
  cbn [TcpConnection.exec TcpConnection.offered]. unfold TcpConnection.runTask. rewrite M_bind_eq. cbn [get].
  unfold queued at 1. destruct (TcpConnection.queue w) as [|t q] eqn:Hq.
  - intros [= <-]. unfold queued. rewrite Hq. split; [done|]. exists []. by rewrite app_nil_r.
  - rewrite M_bind_eq. cbn [modify]. intros [Hc Hn]%(calm_run_one r t). split; [|exact Hn]. rewrite Hc.
    by destruct t.
Qed.

Lemma established_queue ok w w' :
  TcpConnection.exec (TcpConnection.OpEstablished ok) w = Ret (tt, w') ->
  queued w' = queued w /\
  (no_up w w' \/
   TcpConnection.state w = TcpConnection.kConnecting /\ TcpConnection.state w' = TcpConnection.kConnected /\
   TcpConnection.log w' = TcpConnection.log w ++ [TcpConnection.EvConnection true]).
Proof.
  cbn [TcpConnection.exec]. unfold TcpConnection.connectEstablished. rewrite M_bind_eq.
  cbn [TcpConnection.assertInLoopThread ret]. rewrite M_bind_eq. cbn [TcpConnection.self gets].
  case_bool_decide as Hs; cbn [negb].
  2: { intros [= <-]. split; [done|]. left. exists []. by rewrite app_nil_r. }
  rewrite M_bind_eq. cbn [TcpConnection.setState TcpConnection.update modify]. rewrite M_bind_eq.
  cbn [TcpConnection.channel_op TcpConnection.update modify]. destruct ok; cbn [negb].
  - intros [= <-]. split; [done|]. by right.
  - intros [Hc Hn]%(calm_handleClose true). split; [exact Hc|]. left. exact Hn.
Qed.

(** [l] has the members of [a] and those of [b], both in their order. *)
Inductive merge {A} : list A -> list A -> list A -> Prop :=
| merge_nil : merge [] [] []
| merge_l x a b l : merge a b l -> merge (a ++ [x]) b (l ++ [x])
| merge_r x a b l : merge a b l -> merge a (b ++ [x]) (l ++ [x]).

Lemma merge_app_r {A} (a b l c : list A) : merge a b l -> merge a (b ++ c) (l ++ c).
Proof.
  intros H. induction c as [|x c IH] using rev_ind; [by rewrite !app_nil_r|]. rewrite !app_assoc. by constructor.
Qed.
Lemma merge_nil_r {A} (a l : list A) : merge a [] l -> l = a.
Proof.
  remember [] as b eqn:Hb. induction 1 as [|x a b l _ IH|x a b l _ IH]; [done|by rewrite IH|].
  by apply app_eq_nil in Hb as [_ [=]].
Qed.

(** The stream has whole messages.  [sent] are those handed to the connection:
    some, [own], were written at once, the others pass the queue; both keep their
    order, and when all threads are one no message passes the queue. *)
Definition one_loop : Prop := forall c c', loop_of c = loop_of c'.
Record conn_ok (sent : list bytes) (w : Conn) : Prop := {
  ok_inv : TcpConnection.inv w;
  ok_new : TcpConnection.state w = TcpConnection.kConnecting ->
    sent = [] /\ TcpConnection.stream w = [] /\ queued w = [];
  ok_up : TcpConnection.state w = TcpConnection.kConnected -> exists l,
    TcpConnection.stream w = concat l /\ exists own passed,
    merge own passed l /\ merge own (passed ++ queued w) sent /\ (one_loop -> passed = [] /\ queued w = [])
}.

Definition unbroken (p : TcpConnection.write_result * bytes) : bool := negb (TcpConnection.fatal (fst p)).

(** What the connection accepted goes to its stream. *)
Lemma conn_moves sent msgs acc w w' :
  conn_ok sent w -> TcpConnection.effect acc w w' -> queued w = msgs ++ queued w' ->
  (TcpConnection.state w <> TcpConnection.kDisconnected -> acc = concat msgs) -> conn_ok sent w'.
Proof.
  intros [Hi Hn Hu] [Hi' Hst _ Hr] Hq Hacc. split; [done|..]; intros Hs'; rewrite Hs' in Hr.
  - assert (TcpConnection.state w = TcpConnection.kConnecting) as Hs by (by destruct (TcpConnection.state w)).
    destruct (Hn Hs) as (-> & Hst0 & Hq0). rewrite Hq0 in Hq. symmetry in Hq. apply app_eq_nil in Hq as [-> ->].
    rewrite Hst, Hst0, Hacc by congruence. done.
  - assert (TcpConnection.state w = TcpConnection.kConnecting \/ TcpConnection.state w = TcpConnection.kConnected) as [Hs|Hs]
      by (destruct (TcpConnection.state w); first [by left|by right|done]).
    + destruct (Hn Hs) as (-> & Hst0 & Hq0). rewrite Hq0 in Hq. symmetry in Hq. apply app_eq_nil in Hq as [-> E].
      exists []. rewrite Hst, Hst0, Hacc by congruence. split; [done|]. exists [], []. rewrite E. split_and!; by constructor.
    + destruct (Hu Hs) as (l & Hl & own & passed & Hm & Hp & Ho). exists (l ++ msgs). rewrite Hst, Hl, Hacc by congruence.
      split; [by rewrite concat_app|]. exists own, (passed ++ msgs). split_and!.
      * by apply merge_app_r.
      * by rewrite <- app_assoc, <- Hq.
      * intros H1. destruct (Ho H1) as [-> E]. rewrite E in Hq. symmetry in Hq. by apply app_eq_nil in Hq as [-> ->].
Qed.

Lemma effect_of o w w' :
  TcpConnection.inv w -> TcpConnection.op_ok o w -> TcpConnection.exec o w = Ret (tt, w') ->
  TcpConnection.effect (TcpConnection.accepted_by o w) w w'.
Proof.
  intros Hi Ho E. pose proof (TcpConnection.exec_ok o w Hi Ho) as H. unfold wp in H. by rewrite E in H.
Qed.

Lemma event_conn_ok o w w' sent :
  event_op o = true -> TcpConnection.op_ok o w -> forallb unbroken (TcpConnection.offered o w) = true ->
  TcpConnection.exec o w = Ret (tt, w') -> conn_ok sent w -> conn_ok sent w'.
Proof.
  intros Hev Hok Hf E Hc. pose proof (effect_of o w w' (ok_inv _ _ Hc) Hok E) as He.
  apply (conn_moves sent (map snd (TcpConnection.offered o w)) _ w w' Hc He).
  - assert (plain o = true -> TcpConnection.offered o w = [] -> queued w = map snd (TcpConnection.offered o w) ++ queued w') as Hp.
    { intros Hp ->. by destruct (calm_plain o Hp w tt w' E) as [-> _]. }
    destruct o; try done; try (by apply Hp); [by destruct (established_queue _ _ _ E) as [-> _]|by apply (task_queue _ _ _ E)].
  - intros Hs. by apply TcpConnection.accepted_all.
Qed.

(** ** The calls of a handler *)
Definition payload (k : call) : list bytes := match k with Send d => [d] | ForceClose => [] end.
Definition sent_to (c : Z) (cs : list (Z * call)) : list bytes :=
  concat (map (fun ck => if fst ck =? c then payload (snd ck) else []) cs).
Lemma sent_to_app c cs cs' : sent_to c (cs ++ cs') = sent_to c cs ++ sent_to c cs'.
Proof. unfold sent_to. by rewrite map_app, concat_app. Qed.

(** The kernel takes at most what it is offered, and the peers are there. *)
Definition kind (answer : answers) : Prop :=
  forall i d, TcpConnection.valid_answer (answer i d) (zlen d) /\ TcpConnection.fatal (answer i d) = false.
Definition small (k : call) : Prop := match k with Send d => zlen d < 2 ^ 31 | ForceClose => True end.

Lemma up_stays acc w w' :
  TcpConnection.effect acc w w' -> TcpConnection.state w <> TcpConnection.kConnecting ->
  TcpConnection.state w' <> TcpConnection.kConnecting.
Proof. intros [_ _ _ Hr] Hs E. rewrite E in Hr. by destruct (TcpConnection.state w). Qed.

Lemma send_conn_ok here r d w w' sent :
  zlen d < 2 ^ 31 -> TcpConnection.valid_answer r (zlen d) -> TcpConnection.fatal r = false ->
  TcpConnection.state w = TcpConnection.kConnected -> (one_loop -> here = true) ->
  TcpConnection.send here r d w = Ret (tt, w') -> conn_ok sent w -> conn_ok (sent ++ [d]) w'.
Proof.
  intros Hd Hr Hf Hs H1 E [Hi Hn Hu]. pose proof (TcpConnection.send_ok here r d w Hi Hd Hr) as He.
  unfold wp in He. rewrite E, bool_decide_eq_true_2 in He by done. cbn [andb] in He.
  assert (queued w' = queued w ++ if here then [] else [d]) as Hq.
  { destruct here; [rewrite app_nil_r; by destruct (calm_plain (TcpConnection.OpSend true r d) eq_refl w tt w' E) as [-> _]|].
    unfold TcpConnection.send in E. rewrite M_bind_eq in E. cbn [TcpConnection.self gets] in E.
    rewrite bool_decide_eq_true_2 in E by done. injection E as <-. unfold queued. cbn [TcpConnection.queue].
    by rewrite omap_app. }
  destruct (Hu Hs) as (l & Hl & own0 & passed & Hm & Hp & Ho). pose proof He as [Hi' Hst _ Hrk]. split; [done|..]; intros Hs'.
  { by destruct (up_stays _ _ _ He ltac:(congruence)). }
  destruct here.
  - exists (l ++ [d]). unfold TcpConnection.accepted in Hst.
    rewrite bool_decide_eq_false_2, Hf, andb_false_r in Hst by congruence.
    split; [by rewrite Hst, Hl, concat_app; cbn; rewrite app_nil_r|]. exists (own0 ++ [d]), passed.
    rewrite Hq, app_nil_r. split_and!; [by constructor..|done].
  - exists l. rewrite app_nil_r in Hst. split; [by rewrite Hst|]. exists own0, passed.
    rewrite Hq, app_assoc. split_and!; [done|by constructor|]. intros Hone. discriminate (H1 Hone).
Qed.

Lemma call_conn_ok here c r k w w' sent :
  (forall d, TcpConnection.valid_answer (r d) (zlen d) /\ TcpConnection.fatal (r d) = false) -> small k ->
  (exists c0, here = loop_of c0) -> TcpConnection.state w <> TcpConnection.kConnecting ->
  TcpConnection.exec (op_of here c r k) w = Ret (tt, w') -> conn_ok sent w ->
  conn_ok (sent ++ payload k) w' /\ TcpConnection.state w' <> TcpConnection.kConnecting.
Proof.
  intros Hr Hk [c0 ->] Hs E Hc. destruct k as [d|]; cbn [op_of payload TcpConnection.exec small] in *.
  - destruct (Hr d) as [Hv Hf]. pose proof (TcpConnection.send_ok (loop_of c =? loop_of c0) (r d) d w (ok_inv _ _ Hc) Hk Hv) as He.
    unfold wp in He. rewrite E in He. split; [|by eapply up_stays].
    destruct (TcpConnection.StateE_eq_dec (TcpConnection.state w) TcpConnection.kConnected) as [Hst|Hst].
    + apply (send_conn_ok (loop_of c =? loop_of c0) (r d) d w w' sent); try done. intros Hone. apply Z.eqb_eq, Hone.
    + unfold TcpConnection.send in E. rewrite M_bind_eq in E. cbn [TcpConnection.self gets] in E.
      rewrite bool_decide_eq_false_2 in E by done. injection E as <-. by split; [apply Hc|..].
  - pose proof (TcpConnection.forceClose_ok w (ok_inv _ _ Hc)) as He. unfold wp in He. rewrite E in He.
    rewrite app_nil_r. split; [|by eapply up_stays]. apply (conn_moves _ [] [] w w' Hc He); [|done].
    by destruct (calm_plain TcpConnection.OpForceClose eq_refl w tt w' E) as [-> _].
Qed.

Definition up (cn : gmap Z Conn) (c : Z) : Prop :=
  exists w, cn !! c = Some w /\ TcpConnection.state w <> TcpConnection.kConnecting.
Definition conns_ok (cs : list (Z * call)) (cn : gmap Z Conn) : Prop :=
  forall c w, cn !! c = Some w -> conn_ok (sent_to c cs) w.

Lemma perform_ok here answer cs did cn :
  kind answer -> Forall (fun ck => small (snd ck)) cs -> (exists c0, here = loop_of c0) ->
  conns_ok did cn -> Forall (fun ck => up cn (fst ck)) cs ->
  match perform here answer cs cn with
  | Ret cn' => conns_ok (did ++ cs) cn' /\ (forall c, up cn c -> up cn' c) /\ dom cn' = dom cn
  | Throw e => e = LengthError
  | Undef _ => False
  end.
Proof.
  intros Hk Hsm Hhere. revert did cn. induction cs as [|[c k] cs IH]; intros did cn Hok Hup; cbn [perform].
  { rewrite app_nil_r. by split_and!. }
  apply Forall_cons in Hsm as [Hsk Hsm]. apply Forall_cons in Hup as [(w & Hw & Hs) Hup]. cbn [fst snd] in *. rewrite Hw.
  assert (wp (fun e => e = LengthError) (TcpConnection.exec (op_of here c (answer (length cs)) k)) (fun _ _ => True) w) as Hwp.
  { pose proof (ok_inv _ _ (Hok c w Hw)) as Hi. destruct k as [d|]; cbn [op_of TcpConnection.exec].
    - destruct (Hk (length cs) d) as [Hv _].
      pose proof (TcpConnection.send_ok (loop_of c =? here) (answer (length cs) d) d w Hi Hsk Hv) as H'.
      unfold wp in *. by destruct (TcpConnection.send _ _ _ w) as [[]|e|u].
    - pose proof (TcpConnection.forceClose_ok w Hi) as H'. unfold wp in *.
      by destruct (TcpConnection.forceClose w) as [[]|e|u]. }
  unfold wp in Hwp. destruct (TcpConnection.exec _ w) as [[[] w']|e|u] eqn:E; [|done..]. cbn [mbind outcome_bind snd].
  destruct (call_conn_ok here c (answer (length cs)) k w w' (sent_to c did)) as [Hc' Hs']; auto.
  assert (forall c', up cn c' -> up (<[c:=w']> cn) c') as Hmono.
  { intros c' (v & Hv & Hsv). destruct (decide (c' = c)) as [->|Hne]; [exists w'; by rewrite lookup_insert_eq|].
    exists v. by rewrite lookup_insert_ne by congruence. }
  specialize (IH Hsm (did ++ [(c, k)]) (<[c:=w']> cn)).
  assert (conns_ok (did ++ [(c, k)]) (<[c:=w']> cn)) as Hok'.
  { intros c' v Hv. rewrite sent_to_app. unfold sent_to at 2. cbn [map concat fst snd]. rewrite app_nil_r.
    apply lookup_insert_Some in Hv as [[<- <-]|[Hne Hv]]; [by rewrite Z.eqb_refl|].
    rewrite (proj2 (Z.eqb_neq c c')), app_nil_r by done. by apply Hok. }
  specialize (IH Hok'). destruct (perform _ _ cs _) as [cn'|e|u].
  - destruct IH as (H1 & H2 & H3); [eapply Forall_impl; [exact Hup|]; intros ck; apply Hmono|].
    rewrite <- app_assoc in H1. split_and!; [exact H1|by auto|]. rewrite H3, dom_insert_L.
    apply elem_of_dom_2 in Hw. set_solver.
  - apply IH. eapply Forall_impl; [exact Hup|]. intros ck. apply Hmono.
  - apply IH. eapply Forall_impl; [exact Hup|]. intros ck. apply Hmono.
Qed.

(** ** The invariant of the whole *)
Record inv (s : System) : Prop := {
  i_chat : Handlers.inv (chat s);
  i_conns : conns_ok (calls (chat s)) (conns s);
  i_alive : forall c, c ∈ alive (chat s) -> up (conns s) c;
  i_reader : forall c p, reader s !! c = Some p -> up (conns s) c;
  i_calls : Forall (fun ck => up (conns s) (fst ck) /\ framed (snd ck)) (calls (chat s))
}.
Definition all_small (s : System) : Prop := Forall (fun ck => small (snd ck)) (calls (chat s)).

(** Calls are only added. *)
Definition grows (w w' : World) : Prop := exists cs, calls w' = calls w ++ cs.
#[export] Instance grows_preorder : PreOrder grows.
Proof.
  split; [intros w; exists []; by rewrite app_nil_r|]. intros w1 w2 w3 [c1 E1] [c2 E2].
  exists (c1 ++ c2). by rewrite E2, E1, app_assoc.
Qed.
Definition growing (s s' : System) : Prop := grows (chat s) (chat s').
#[export] Instance growing_preorder : PreOrder growing.
Proof. split; [intros s; unfold growing; reflexivity|]. intros s1 s2 s3. unfold growing. apply transitivity. Qed.

Lemma grows_same w w' : calls w' = calls w -> grows w w'.
Proof. intros E. exists []. by rewrite E, app_nil_r. Qed.
Lemma same_calls_disconnect c kept rest w w' :
  ChatServer.disconnect_loop c kept rest w = Ret (tt, w') -> calls w' = calls w.
Proof.
  set (R := fun w w' : World => calls w' = calls w). assert (PreOrder R) by (split; [done|intros ???; unfold R; congruence]).
  assert (forall q, respects R (deref q)) by (intros q v a v' E; unfold deref in E; destruct (heap v !! q); by simplify_eq).
  assert (forall f, (forall v, calls (f v) = calls v) -> respects R (modify f)) by (intros f Hf; by apply respects_modify).
  assert (forall kept rest, respects R (ChatServer.disconnect_loop c kept rest)) as Hd; [|apply Hd].
  intros kept' rest'. revert kept'. induction rest' as [|p rest' IH]; intros kept'; cbn [ChatServer.disconnect_loop];
    unfold TcpSession.getConnectionPtr, ChatServer.set_sessions; respects.
Qed.
Lemma same_calls_onConnected c b now w p w' :
  ChatServer.onConnected c b now w = Ret (p, w') -> calls w' = calls w.
Proof.
  unfold ChatServer.onConnected. destruct b; [unfold ChatServer.new_session, ChatServer.set_sessions; intros H; by inv_bind|].
  unfold ChatServer.onDisconnected, ChatServer.sessions.
  intros ([] & w1 & (l & w2 & [= <- <-] & E)%M_bind_inv & [= <- <-])%M_bind_inv. by eapply same_calls_disconnect.
Qed.

Lemma on_chat_split {A} here answer (m : M World A) s a s' :
  on_chat here answer m s = Ret (a, s') ->
  m (chat s) = Ret (a, chat s') /\ reader s' = reader s /\
  perform here answer (drop (length (calls (chat s))) (calls (chat s'))) (conns s) = Ret (conns s').
Proof. unfold on_chat. intros H. inv_bind. by destruct x. Qed.

Lemma on_chat_inv {A} here answer (m : M World A) s a s' :
  kind answer -> (exists c0, here = loop_of c0) -> inv s -> all_small s' ->
  on_chat here answer m s = Ret (a, s') -> Handlers.inv (chat s') ->
  (forall c, c ∈ alive (chat s') -> up (conns s) c) ->
  (exists cs, calls (chat s') = calls (chat s) ++ cs /\ Forall (fun ck => up (conns s) (fst ck) /\ framed (snd ck)) cs) ->
  inv s' /\ (forall c, up (conns s) c -> up (conns s') c).
Proof.
  intros Hk Hh [Hc Ho Ha Hr Hca] Hsm (Hm & Hrd & Hp)%on_chat_split Hc' Ha' (cs & Ecs & Hcs).
  rewrite Ecs, drop_app_length in Hp. unfold all_small in Hsm. rewrite Ecs in Hsm. apply Forall_app in Hsm as [_ Hsm].
  pose proof (perform_ok here answer cs (calls (chat s)) (conns s) Hk Hsm Hh Ho) as H. rewrite Hp in H.
  destruct H as (Ho' & Hup & _). { eapply Forall_impl; [exact Hcs|]. by intros ck []. }
  split; [|done]. split; [done|by rewrite Ecs|by auto|rewrite Hrd; by eauto|].
  rewrite Ecs. apply Forall_app. split; (eapply Forall_impl; [eassumption|]); intros ck [? ?]; auto.
Qed.

Lemma connection_callback_calls c b now w p w' :
  connection_callback c b now w = Ret (p, w') -> calls w' = calls w.
Proof.
  unfold connection_callback. intros ([] & w1 & E1 & E2)%M_bind_inv. apply same_calls_onConnected in E2.
  rewrite E2. by destruct b; injection E1 as <-.
Qed.

Lemma growing_on_chat {A} here answer (m : M World A) : respects grows m -> respects growing (on_chat here answer m).
Proof. intros Hm s a s' (H & _ & _)%on_chat_split. by eapply Hm. Qed.
Lemma growing_set_conn c w : respects growing (set_conn c w).
Proof. apply respects_modify. intros s. unfold growing. reflexivity. Qed.
Lemma growing_set_reader c p : respects growing (set_reader c p).
Proof. apply respects_modify. intros s. unfold growing. reflexivity. Qed.
Lemma growing_the_conn c : respects growing (the_conn c).
Proof. intros s w s' H. unfold the_conn in H. destruct (conns s !! c); by simplify_eq. Qed.
Lemma grows_onRead clock p c buf : respects grows (ChatSession.onRead uninit clock p c buf).
Proof. intros w b w' H%calling_onRead. destruct (calling_calls _ _ _ H) as (cs & E & _). by exists cs. Qed.
Lemma grows_connection_callback c b now : respects grows (connection_callback c b now).
Proof. intros w p w' H. by apply grows_same, (connection_callback_calls c b now w p). Qed.
#[local] Hint Resolve growing_set_conn growing_set_reader growing_the_conn grows_onRead grows_connection_callback : respects.
#[local] Hint Extern 1 (respects growing (on_chat _ _ _)) => apply growing_on_chat; auto with respects : respects.

Lemma growing_handle answer now c e : respects growing (handle answer now c e).
Proof. unfold handle. destruct e; respects. Qed.
Lemma growing_small s s' : growing s s' -> all_small s' -> all_small s.
Proof. unfold all_small. intros [cs ->] [H _]%Forall_app. exact H. Qed.

(** ** One callback *)
Lemma lift_ret {A} (o : outcome A) a (s s' : System) : lift o s = Ret (a, s') -> o = Ret a /\ s' = s.
Proof. unfold lift. intros H. by inv_bind. Qed.
Lemma onRead_wf now p c b w b' w' :
  ByteBuffer.wf b -> ChatSession.onRead uninit (fun _ => now) p c b w = Ret (Some b', w') -> ByteBuffer.wf b'.
Proof.
  intros Hb. unfold ChatSession.onRead. set (fuel := S _). intros H.
  pose proof (Framing.read_loop_serve uninit fuel now p c b w Hb) as Hr. rewrite H in Hr.
  destruct (Framing.serve_loop _ _ _ _ _ _ _) as [[[[? l]|] v]|e|u]; try done. by destruct Hr as [? _].
Qed.

Lemma set_conn_inv c w w' s s' :
  inv s -> conns s !! c = Some w -> (TcpConnection.state w <> TcpConnection.kConnecting -> TcpConnection.state w' <> TcpConnection.kConnecting) ->
  conn_ok (sent_to c (calls (chat s))) w' -> set_conn c w' s = Ret (tt, s') -> inv s'.
Proof.
  intros [Hc Ho Ha Hr Hca] Hw Hs Hok [= <-].
  assert (forall c', up (conns s) c' -> up (<[c:=w']> (conns s)) c') as Hup.
  { intros c' (v & Hv & Hsv). destruct (decide (c' = c)) as [->|Hne].
    - exists w'. rewrite lookup_insert_eq. split; [done|]. apply Hs. congruence.
    - exists v. by rewrite lookup_insert_ne by congruence. }
  split; cbn; [done|..].
  - intros c' v Hv. apply lookup_insert_Some in Hv as [[<- <-]|[Hne Hv]]; [done|by apply Ho].
  - auto.
  - eauto.
  - eapply Forall_impl; [exact Hca|]. intros ck []. auto.
Qed.

(** The message callback changes the input buffer only. *)
Lemma input_inv c b w w' s s' :
  inv s -> conns s !! c = Some w -> ByteBuffer.wf b -> TcpConnection.setInput b w = Ret (tt, w') ->
  set_conn c w' s = Ret (tt, s') -> inv s'.
Proof.
  intros Hi Hw Hb E. pose proof (i_conns s Hi c w Hw) as Hc.
  assert (TcpConnection.effect [] w w') as He.
  { pose proof (TcpConnection.effect_input b w (ok_inv _ _ Hc) Hb) as H. unfold wp in H. by rewrite E in H. }
  apply (set_conn_inv c w w' s s' Hi Hw); [by apply (up_stays [])|].
  apply (conn_moves _ [] [] w w' Hc He); [|done]. by injection E as <-.
Qed.

Lemma the_conn_inv c s w s' : the_conn c s = Ret (w, s') -> s' = s /\ conns s !! c = Some w.
Proof. unfold the_conn. destruct (conns s !! c); [|done]. by intros [= -> ->]. Qed.

(** Whom a session may call has a connection that is up. *)
Lemma addressed_up c s cs :
  inv s -> up (conns s) c -> Forall (addressed c (chat s)) cs -> Forall (fun ck => up (conns s) (fst ck) /\ framed (snd ck)) cs.
Proof.
  intros Hi Hc H. eapply Forall_impl; [exact H|]. intros ck [[->|(q & t & Hq & <-)] Hf]; split; try done.
  apply (i_alive s Hi). by eapply (Handlers.inv_alive _ (i_chat s Hi)).
Qed.

Section Handled.
Variables (answer : answers) (now c : Z).
Hypothesis Hkind : kind answer.

Lemma callback_inv b s p s' :
  inv s -> all_small s' -> (b = true -> (c ∉ alive (chat s)) /\ up (conns s) c) ->
  on_chat (loop_of c) answer (connection_callback c b now) s = Ret (p, s') ->
  inv s' /\ (forall c', up (conns s) c' -> up (conns s') c').
Proof.
  intros Hi Hsm Hb E. pose proof (on_chat_split _ _ _ _ _ _ E) as (Em & _ & _).
  pose proof (connection_callback_calls _ _ _ _ _ _ Em) as Ecalls.
  unfold connection_callback in Em. apply M_bind_inv in Em as ([] & w1 & E1 & E2).
  assert (Handlers.inv (chat s') /\ (forall c', c' ∈ alive (chat s') -> up (conns s) c')) as [Hc' Ha].
  { destruct b; injection E1 as <-.
    - destruct (Hb eq_refl) as [Hna Hup]. split.
      + eapply (Handlers.server_step_inv uninit); [by eapply Handlers.step_accept|apply Hi].
      + injection E2 as _ <-. cbn. intros c' [->%elem_of_singleton|H]%elem_of_union; [done|by apply (i_alive s Hi)].
    - unfold ChatServer.onConnected in E2. apply M_bind_inv in E2 as ([] & w3 & E2 & [= <- ->]).
      destruct (Handlers.inv_disconnected c _ _ (i_chat s Hi) E2) as (H & _ & _ & ->). split; [done|apply (i_alive s Hi)]. }
  eapply (on_chat_inv _ answer _ s p s'); eauto. exists []. by rewrite app_nil_r.
Qed.

Lemma message_inv p b s r s' :
  inv s -> all_small s' -> up (conns s) c ->
  on_chat (loop_of c) answer (ChatSession.onRead uninit (fun _ => now) p c b) s = Ret (r, s') ->
  inv s' /\ (forall c', up (conns s) c' -> up (conns s') c').
Proof.
  intros Hi Hsm Hup E. pose proof (on_chat_split _ _ _ _ _ _ E) as (Em & _ & _).
  destruct (calling_onRead _ _ _ _ _ _ _ Em) as [_ Hal (cs & Ecs & Hcs)].
  eapply (on_chat_inv _ answer _ s r s'); eauto.
  - eapply (Handlers.server_step_inv uninit); [by eapply Handlers.step_read|apply Hi].
  - rewrite Hal. apply (i_alive s Hi).
  - exists cs. split; [done|]. by apply (addressed_up c).
Qed.

Lemma handle_inv e s s' :
  inv s -> all_small s' -> (TcpConnection.is_up e = true -> (c ∉ alive (chat s)) /\ up (conns s) c) ->
  handle answer now c e s = Ret (tt, s') -> inv s'.
Proof.
  intros Hi Hsm He. unfold handle. destruct e as [b| | | | | | |]; try (by intros [= <-]).
  - intros (p & s1 & E1 & E2)%M_bind_inv. assert (growing s1 s') as Hg by (destruct p; [by eapply growing_set_reader|by injection E2 as <-]).
    destruct (callback_inv b s p s1 Hi (growing_small _ _ Hg Hsm) He E1) as [Hi1 Hup].
    destruct p as [q|]; [|by injection E2 as <-]. injection E2 as <-. destruct Hi1 as [Hc Ho Ha Hr Hca]. split; try done.
    cbn. intros c' p' Hp. apply lookup_insert_Some in Hp as [[<- _]|[_ Hp]]; [|by eauto].
    destruct b; [apply Hup, He; done|].
    destruct (on_chat_split _ _ _ _ _ _ E1) as (Em & _ & _). unfold connection_callback, ChatServer.onConnected in Em.
    apply M_bind_inv in Em as ([] & w1 & _ & (? & w2 & _ & [=])%M_bind_inv).
  - intros (s0 & s1 & [= <- <-] & (w & s2 & [-> Hw]%the_conn_inv & E)%M_bind_inv)%M_bind_inv.
    pose proof (ok_inv _ _ (i_conns s Hi c w Hw)) as Hwi.
    destruct (reader s !! c) as [p|] eqn:Hp.
    + apply M_bind_inv in E as (r & s1 & E1 & (w1 & s3 & [-> Hw1]%the_conn_inv & E2)%M_bind_inv).
      assert (growing s1 s') as Hg.
      { destruct r; [|by injection E2 as <-]. apply M_bind_inv in E2 as ([[] v] & s4 & [E2 ->]%lift_ret & E3). by eapply growing_set_conn. }
      destruct (message_inv p _ s r s1 Hi (growing_small _ _ Hg Hsm) (i_reader s Hi c p Hp) E1) as [Hi1 _].
      destruct r as [b|]; [|by injection E2 as <-]. apply M_bind_inv in E2 as ([[] v] & s4 & [E2 ->]%lift_ret & E3).
      apply (input_inv c b w1 v s1 s' Hi1 Hw1); try done.
      destruct (on_chat_split _ _ _ _ _ _ E1) as (Em & _ & _). eapply onRead_wf; [|exact Em]. apply Hwi.
    + apply M_bind_inv in E as ([[] v] & s4 & [E2 ->]%lift_ret & E3).
      eapply input_inv; [exact Hi|exact Hw| |exact E2|exact E3]. by apply ByteBuffer.retrieveAll_ok, Hwi.
Qed.

End Handled.

(** ** One event, and every run *)
Definition events (answer : answers) (now c : Z) (l : list TcpConnection.event) : M System unit :=
  for_each l (handle answer now c).
Lemma growing_events answer now c l : respects growing (events answer now c l).
Proof. unfold events. respects. apply growing_handle. Qed.

Lemma events_inv answer now c l s s' :
  kind answer -> Forall (fun e => TcpConnection.is_up e = false) l -> inv s -> all_small s' ->
  events answer now c l s = Ret (tt, s') -> inv s'.
Proof.
  intros Hk. revert s. induction l as [|e l IH]; intros s Hl Hi Hsm; [by intros [= <-]|].
  apply Forall_cons in Hl as [He Hl]. intros ([] & s1 & E1 & E2)%M_bind_inv.
  apply (IH s1); try done. eapply (handle_inv answer now c Hk e s); eauto; [|congruence].
  by eapply growing_small; [eapply growing_events|].
Qed.

(** Nothing is left that the peer refuses to take. *)
Definition event_ok (o : TcpConnection.op) (w : Conn) : Prop :=
  event_op o = true /\ TcpConnection.op_ok o w /\ forallb unbroken (TcpConnection.offered o w) = true.

Lemma event_log o w w' :
  event_op o = true -> TcpConnection.exec o w = Ret (tt, w') ->
  no_up w w' \/
  TcpConnection.state w = TcpConnection.kConnecting /\ TcpConnection.state w' = TcpConnection.kConnected /\
  TcpConnection.log w' = TcpConnection.log w ++ [TcpConnection.EvConnection true].
Proof.
  intros Ho E. assert (plain o = true -> no_up w w') as Hp by (intros Hp; by apply (calm_plain o Hp w tt w' E)).
  destruct o; try done; try (left; by apply Hp); [by apply established_queue in E as [_ ?]|left; by eapply task_queue].
Qed.

Lemma system_operate_inv answer now c o s s' w :
  kind answer -> conns s !! c = Some w -> event_ok o w -> inv s -> all_small s' ->
  operate answer now c o s = Ret (tt, s') -> inv s'.
Proof.
  intros Hk Hw (Hev & Hok & Hf) Hi Hsm. unfold operate.
  intros (w0 & s0 & [-> Hw0]%the_conn_inv & ([[] w'] & s1 & [E ->]%lift_ret & ([] & s2 & E1 & E2)%M_bind_inv)%M_bind_inv)%M_bind_inv.
  rewrite Hw in Hw0. injection Hw0 as <-. cbn [snd] in *. fold (events answer now c) in E2.
  pose proof (i_conns s Hi c w Hw) as Hc.
  pose proof (event_conn_ok o w w' _ Hev Hok Hf E Hc) as Hc'.
  pose proof (effect_of o w w' (ok_inv _ _ Hc) Hok E) as He.
  assert (inv s2) as Hi2 by (eapply (set_conn_inv c w w' s s2); eauto; by eapply up_stays).
  destruct (event_log o w w' Hev E) as [(evs & Hl & Hn)|(Hs & Hs' & Hl)]; rewrite Hl, drop_app_length in E2.
  - by eapply events_inv.
  - apply M_bind_inv in E2 as ([] & s3 & E2 & [= <-]). eapply (handle_inv answer now c Hk _ s2); eauto. intros _.
    injection E1 as <-. split; [|exists w'; cbn; rewrite lookup_insert_eq; by split; [|congruence]].
    intros (v & Hv & Hsv)%(i_alive s Hi). congruence.
Qed.

Lemma growing_operate answer now c o : respects growing (operate answer now c o).
Proof. unfold operate. respects; apply growing_handle. Qed.

(** A connection is made; something happens to one; its last owner lets it go. *)
Inductive step : System -> System -> Prop :=
| step_accept c loop sockfd w s :
    conns s !! c = None -> TcpConnection.fresh loop sockfd = Ret w ->
    step s (mkSystem (chat s) (<[c := w]> (conns s)) (reader s))
| step_event answer now c o w s s' :
    kind answer -> conns s !! c = Some w -> event_ok o w ->
    operate answer now c o s = Ret (tt, s') -> step s s'
| step_free c s :
    (forall p, Handlers.connected_to c (chat s) p = false) ->
    step s (mkSystem (Handlers.set_alive (alive (chat s) ∖ {[c]}) (chat s)) (conns s) (reader s)).

Definition started (s : System) : Prop :=
  Handlers.initial (chat s) /\ alive (chat s) = ∅ /\ calls (chat s) = [] /\ conns s = ∅ /\ reader s = ∅.

Lemma started_inv s : started s -> inv s.
Proof.
  intros (Hi & Ha & Hc & Hcn & Hr). split; rewrite ?Ha, ?Hc, ?Hcn, ?Hr; [by apply Handlers.inv_initial|..|constructor].
  - intros c w. by rewrite lookup_empty.
  - set_solver.
  - intros c p. by rewrite lookup_empty.
Qed.

Lemma sent_to_none c cs cn : cn !! c = None -> Forall (fun ck => up cn (fst ck)) cs -> sent_to c cs = [].
Proof.
  intros Hn. induction 1 as [|[c' k] cs (v & Hv & _) _ IH]; [done|]. unfold sent_to in *. cbn in *. rewrite IH.
  by rewrite (proj2 (Z.eqb_neq c' c)) by congruence.
Qed.
Lemma accept_inv c loop sockfd w s :
  conns s !! c = None -> TcpConnection.fresh loop sockfd = Ret w -> inv s ->
  inv (mkSystem (chat s) (<[c := w]> (conns s)) (reader s)).
Proof.
  intros Hn Hf [Hc Ho Ha Hr Hca].
  assert (forall c', up (conns s) c' -> up (<[c:=w]> (conns s)) c') as Hup.
  { intros c' (v & Hv & Hs). exists v. rewrite lookup_insert_ne by congruence. done. }
  split; cbn; [done|..|auto|eauto|by eapply Forall_impl; [exact Hca|]; intros ck []; auto].
  intros c' v Hv. apply lookup_insert_Some in Hv as [[<- <-]|[_ Hv]]; [|by apply Ho].
  destruct (TcpConnection.fresh_inv loop sockfd w Hf) as (Hi & Hl & Hout & Hs).
  assert (sent_to c (calls (chat s)) = []) as ->.
  { apply (sent_to_none _ _ _ Hn). eapply Forall_impl; [exact Hca|]. by intros ck []. }
  split; [done| |congruence]. intros _. unfold TcpConnection.stream, TcpConnection.sent. rewrite Hl, Hout.
  split_and!; [done..|]. revert Hf. unfold TcpConnection.fresh, queued. intros H. by inv_bind.
Qed.

Lemma system_step_inv s s' : step s s' -> inv s -> all_small s' -> inv s'.
Proof.
  intros [c loop sockfd w s1 Hn Hf|answer now c o w s1 s2 Hk Hw Ho E|c s1 Hf] Hi Hsm.
  - by eapply accept_inv.
  - by eapply system_operate_inv.
  - destruct Hi as [Hc Hco Ha Hr Hca]. split; cbn; try done.
    + eapply (Handlers.server_step_inv uninit); [by apply Handlers.step_free|done].
    + set_solver.
Qed.
Lemma growing_step s s' : step s s' -> growing s s'.
Proof.
  intros [c loop sockfd w s1 _ _|answer now c o w s1 s2 _ _ _ E|c s1 _]; [unfold growing; reflexivity|by eapply growing_operate|by apply grows_same].
Qed.
Lemma inv_always s0 s : started s0 -> rtc step s0 s -> all_small s -> inv s.
Proof.
  intros H0. revert s. refine (rtc_ind_r (fun s => all_small s -> inv s) s0 _ _); [by intros _; apply started_inv|].
  intros s1 s' _ Hs IH Hsm. apply (system_step_inv _ _ Hs); [|done]. apply IH. exact (growing_small _ _ (growing_step _ _ Hs) Hsm).
Qed.

Lemma framed_sent c cs : Forall (fun ck => framed (snd ck)) cs -> Forall (fun d => framed (Send d)) (sent_to c cs).
Proof.
  induction 1 as [|[c' k] cs Hk _ IH]; [constructor|]. unfold sent_to in *. cbn. apply Forall_app. split; [|done].
  destruct (c' =? c); [|constructor]. destruct k; [by apply Forall_singleton|constructor].
Qed.
Lemma merge_Forall {A} (P : A -> Prop) a b l : merge a b l -> Forall P l <-> Forall P a /\ Forall P b.
Proof.
  induction 1 as [|x a b l _ IH|x a b l _ IH]; [by rewrite !Forall_nil|..]; rewrite !Forall_app, IH, Forall_singleton; tauto.
Qed.


End Api.

(** *** Witnesses *)
Import Demo.
Definition parity (c : Z) : Z := c mod 2.
Definition three (i : nat) (d : bytes) : TcpConnection.write_result := TcpConnection.Wrote (Z.min 3 (zlen d)).
Lemma three_kind : kind three.
Proof. intros i d. pose proof (zlen_nonneg d). unfold three. cbn. lia. Qed.

Definition at_start : System := mkSystem Handlers.start ∅ ∅.
Definition accept (c : Z) (s : System) : System :=
  mkSystem (chat s) (<[c := TcpConnection.sample_world]> (conns s)) (reader s).
Definition after (c : Z) (o : TcpConnection.op) (s : System) : System :=
  match operate uninit parity three 5 c o s with Ret (_, s') => s' | _ => s end.
Definition login : TcpConnection.op :=
  TcpConnection.OpRead (ByteBuffer.ReadBytes (Framing.request 1002 1 (print (credentials (lit "alice") (lit "pw"))))) 0.

(** Two connections of different threads, and alice on one and then on the other. *)
Definition d1 : System := accept 11 at_start.
Definition d2 : System := accept 12 d1.
Definition d3 : System := after 11 (TcpConnection.OpEstablished true) d2.
Definition d4 : System := after 12 (TcpConnection.OpEstablished true) d3.
Definition d5 : System := after 11 login d4.
Definition d6 : System := after 12 login d5.

Definition event_okb (c : Z) (o : TcpConnection.op) (s : System) : bool :=
  match conns s !! c with
  | Some w => event_op o && TcpConnection.op_okb o w && forallb unbroken (TcpConnection.offered o w) &&
      match operate uninit parity three 5 c o s with Ret _ => true | _ => false end
  | None => false
  end.
Lemma after_step c o s : event_okb c o s = true -> step uninit parity s (after c o s).
Proof.
  unfold event_okb, after. destruct (conns s !! c) as [w|] eqn:Hw; [|done].
  intros [[[Ho Hk%TcpConnection.op_okb_ok]%andb_true_iff Hf]%andb_true_iff E]%andb_true_iff.
  destruct (operate uninit parity three 5 c o s) as [[[] s']|e|u] eqn:Eo; try done.
  by apply (step_event uninit parity three 5 c o w); [apply three_kind| |split_and!|].
Qed.
Definition smallb (k : call) : bool := match k with Send d => zlen d <? 2 ^ 31 | ForceClose => true end.
Lemma smallb_all s : forallb (fun ck => smallb (snd ck)) (calls (chat s)) = true -> all_small s.
Proof.
  unfold all_small. induction (calls (chat s)) as [|[c k] cs IH]; [constructor|]. cbn.
  intros [Hk H]%andb_true_iff. apply Forall_cons. split; [|by apply IH]. destruct k; [|done]. cbn in *. lia.
Qed.


(** The notice of the other thread waits in the queue, so a response of the own
    thread that is sent later is written before it. *)
Definition d7 : System := after 11 login d6.
Example overtaken : exists first notice response w,
  conns d7 !! 11 = Some w /\ sent_to 11 (calls (chat d7)) = [first; notice; response] /\
  TcpConnection.stream w = first ++ response /\ queued w = [notice].
Proof. vm_compute. do 4 eexists. repeat split; reflexivity. Qed.


(** A connection that fails takes its session with it; input that the same event
    delivers then goes to the freed session. *)
Example read_after_error :
  operate uninit parity three 5 11 login (after 11 TcpConnection.OpError d4) = Undef DanglingPointer.
Proof. vm_compute. reflexivity. Qed.

End System.
