(* ===== verification/Startup.v ===== *)
(** * Start-up

    [main] of chatserversrc/main.cpp and [ChatServer::init]: from the configuration
    file to the server that waits for connections.  The singletons are the fields
    of one process; the file system's answers, the bootstrap script and the loops
    of the threads are the environment.  [Singleton] is base/Singleton.h: why they
    may be fields. *)
From S2P Require Import Prelude Buffers Protocol Mysql Json JsonText RedisClient Stores Chat Framing Handlers Loops Servers Config Addresses.

Module Singleton.

(** A call of [Instance] is before its test, between the test and the store of a new
    object (which has an address of its own), or over with its result. *)
Inductive point : Type := AtTest | AtNew (fresh : Z) | Returned (p : Z).
Record State : Type := mkState { value_ : option Z; next_ptr : Z; calls : list point }.

(** The step of the [i]-th call; nothing orders it with the steps of the others. *)
Definition step (i : nat) (s : State) : State :=
  match calls s !! i with
  | Some AtTest =>
      match value_ s with
      | None => mkState None (next_ptr s + 1) (<[i := AtNew (next_ptr s)]> (calls s))
      | Some p => mkState (Some p) (next_ptr s) (<[i := Returned p]> (calls s))
      end
  | Some (AtNew p) => mkState (Some p) (next_ptr s) (<[i := Returned p]> (calls s))
  | _ => s
  end.
Definition run (schedule : list nat) (s : State) : State := foldl (fun s i => step i s) s schedule.

(** Once one call has returned and no other is under way, as after [main] has used
    every singleton on its only thread, every call returns the same object and no
    other object is made. *)
Definition settled (p : Z) (s : State) : Prop :=
  value_ s = Some p /\ Forall (fun c => c = AtTest \/ c = Returned p) (calls s).
Lemma settled_step p i s : settled p s -> settled p (step i s) /\ next_ptr (step i s) = next_ptr s.
Proof.
  intros [Hv Hc]. unfold step. destruct (calls s !! i) as [c|] eqn:Hi; [|done].
  destruct (Forall_lookup_1 _ _ _ _ Hc Hi) as [-> | ->]; [|done]. rewrite Hv.
  split; [|done]. split; [done|]. apply Forall_insert; auto.
Qed.
Lemma one_instance p schedule s :
  settled p s -> settled p (run schedule s) /\ next_ptr (run schedule s) = next_ptr s.
Proof.
  revert s. induction schedule as [|i l IH]; intros s Hs; [done|]. destruct (settled_step p i s Hs) as [H1 H2].
  destruct (IH _ H1) as [H3 H4]. change (run (i :: l) s) with (run l (step i s)). split; [done|congruence].
Qed.
Example first_call : run [0; 0]%nat (mkState None 1 [AtTest; AtTest]) = mkState (Some 1) 2 [Returned 1; AtTest].
Proof. done. Qed.
(** Two first calls on two threads make two objects. *)
Example two_instances :
  calls (run [0; 1; 0; 1]%nat (mkState None 1 [AtTest; AtTest])) = [Returned 1; Returned 2].
Proof. done. Qed.

End Singleton.

Module Startup.

Section Api.
Context `{api : MysqlApi} `{rapi : RedisApi}.

Record Process : Type := mkProcess {
  mysqlManager : CMysqlManager.CMysqlManager;
  userManager : UserManager.UserManager;
  msgCacheManager : MsgCacheManager.MsgCacheManager;
  client : CDatabaseMysql.Client;
  store : redis;
  server : option TcpServer.World      (* [m_server] of the chat server *)
}.
(** The singletons before their first use. *)
Definition fresh (cl : CDatabaseMysql.Client) (r : redis) : Process :=
  mkProcess CMysqlManager.make UserManager.make MsgCacheManager.make cl r None.

(** [opendir] and [mkdir] say whether the calls succeed; [data_sql] is the script
    of the bootstrap. *)
Record Environment : Type := mkEnvironment {
  config_file : option bytes;
  opendir : bool;
  mkdir : bool;
  data_sql : option bytes;
  main_loop : Z;
  newLoop : nat -> Z
}.

Definition on_mysql {A} (m : M (CMysqlManager.CMysqlManager * CDatabaseMysql.Client) A) : M Process A :=
  zoom (fun p => (mysqlManager p, client p))
    (fun s p => mkProcess (fst s) (userManager p) (msgCacheManager p) (snd s) (store p) (server p)) m.
Definition on_users {A} (m : M (UserManager.UserManager * CDatabaseMysql.Client) A) : M Process A :=
  zoom (fun p => (userManager p, client p))
    (fun s p => mkProcess (mysqlManager p) (fst s) (msgCacheManager p) (snd s) (store p) (server p)) m.
Definition on_messages {A} (m : M MsgCacheManager.State A) : M Process A :=
  zoom (fun p => MsgCacheManager.mkState (msgCacheManager p) (client p) (store p))
    (fun s p => mkProcess (mysqlManager p) (userManager p) (MsgCacheManager.manager s) (MsgCacheManager.client s)
                  (MsgCacheManager.store s) (server p)) m.

Definition server_name : bytes := lit "414CHATSERVER".
(** [ChatServer::init]; [port] is a [short] that becomes a [uint16_t]. *)
Definition init (ip : option bytes) (port loop : Z) (newLoop : nat -> Z) : M Process bool :=
  match ip with
  | None => undefined NullPointer
  | Some ip =>
      let! hostport := lift (InetAddress.toIpPort (InetAddress.make ip (u16 port))) in
      let! r := lift (TcpServer.start loop 6 newLoop (TcpServer.world (TcpServer.make loop hostport server_name))) in
      do! modify (fun p => mkProcess (mysqlManager p) (userManager p) (msgCacheManager p) (client p) (store p) (Some (snd r))) in
      ret true
  end.

(** [ChatServer::uninit] *)
Definition uninit (here : Z) : M Process unit :=
  let! p := get in
  match server p with
  | None => ret tt
  | Some w =>
      let! r := lift (TcpServer.stop here w) in
      modify (fun p => mkProcess (mysqlManager p) (userManager p) (msgCacheManager p) (client p) (store p) (Some (snd r)))
  end.

(** A pointer into the map of the settings, or the null pointer. *)
Definition setting (name : string) (r : CConfigFileReader.Reader) : outcome (option bytes) :=
  v ← CConfigFileReader.getConfigName (lit name) r; Ret (option_map c_str v).
Definition atol (s : option bytes) : outcome Z :=
  match s with None => Undef NullPointer | Some t => Decimal.atoll (t ++ [Byte.x00]) end.

(** [main], up to the call of [loop()]: [Some c] when it returns [c] before. *)
Definition main (e : Environment) : M Process (option Z) :=
  let! config := lift (CConfigFileReader.make (config_file e)) in
  let! logfilepath := lift (setting "logfiledir" config) in
  match logfilepath with
  | None => ret (Some 1)
  | Some path =>
      if negb (opendir e) && negb (mkdir e) then ret (Some 1)
      else if negb (opendir e) then undefined NullPointer   (* closedir(dp) *)
      else
        let! logfilename := lift (setting "logfilename" config) in
        match logfilename with
        | None => undefined NullPointer
        | Some name =>
            let! dbserver := lift (setting "dbserver" config) in
            let! dbuser := lift (setting "dbuser" config) in
            let! dbpassword := lift (setting "dbpassword" config) in
            let! dbname := lift (setting "dbname" config) in
            let! _ := on_mysql (CMysqlManager.init (data_sql e) dbserver dbuser dbpassword dbname) in
            let! _ := on_users (UserManager.init dbserver dbuser dbpassword dbname) in
            let! redisUrl := lift (setting "redisUrl" config) in
            let! _ := on_messages (MsgCacheManager.init dbserver dbuser dbpassword dbname redisUrl) in
            let! listenip := lift (setting "listenip" config) in
            let! port := lift (setting "listenport" config) in
            let! n := lift (atol port) in
            let! _ := init listenip (i16 n) (main_loop e) (newLoop e) in
            ret None
        end
  end.

(** The state the handlers of the chat server start from. *)
Definition chat (p : Process) : World.World :=
  World.mkWorld ∅ 1 ChatServer.make ∅ (UserManager.m_allCachedUsers (userManager p))
    (MsgCacheManager.mkState (msgCacheManager p) (client p) (store p)) [].

(** ** A start that succeeds *)
Lemma start_ok loop hostport name n newLoop :
  exists w0, TcpServer.start loop n newLoop (TcpServer.world (TcpServer.make loop hostport name)) = Ret (tt, w0) /\
    TcpServer.m_hostport (TcpServer.server w0) = hostport.
Proof.
  unfold TcpServer.start. rewrite M_bind_eq. cbn [TcpServer.self gets TcpServer.world TcpServer.make TcpServer.server
    TcpServer.m_started TcpServer.m_loop]. rewrite M_bind_eq. unfold TcpServer.assertInLoopThread.
  rewrite Z.eqb_refl. cbn [ret]. rewrite M_bind_eq. cbn [TcpServer.set_server modify]. rewrite M_bind_eq.
  unfold TcpServer.runInLoop. rewrite Z.eqb_refl. cbn. by eexists.
Qed.

Lemma zoom_ok {S T A} (view : S -> T) upd (m : M T A) p a t :
  m (view p) = Ret (a, t) -> zoom view upd m p = Ret (a, upd t p).
Proof. unfold zoom. by intros ->. Qed.

(** The keys without which [main] does not get to its loop. *)
Definition required : list string :=
  ["logfiledir"; "logfilename"; "dbserver"; "dbuser"; "dbname"; "redisUrl"; "listenip"; "listenport"]%string.
Definition configured (r : CConfigFileReader.Reader) : Prop :=
  forall k, k ∈ required -> exists v, setting k r = Ret (Some v).

Lemma lift_bind {S A B} (o : outcome A) (a : A) (f : A -> M S B) (s : S) :
  o = Ret a -> bindM (lift o) f s = f a s.
Proof. by intros ->. Qed.

(** What can be read of one setting can be read of all. *)
Lemma setting_any k k' r v : setting k r = Ret v -> exists v', setting k' r = Ret v'.
Proof.
  unfold setting, CConfigFileReader.getConfigName, CConfigFileReader.load_ok.
  destruct (CConfigFileReader.m_load_ok r); [|done]. by eexists.
Qed.

Lemma c_str_again s : c_str (c_str s) = c_str s.
Proof. induction s as [|c s IH]; [done|]. cbn. case_match eqn:E; [done|]. cbn. by rewrite E, IH. Qed.
Lemma setting_c_str k r ip : setting k r = Ret (Some ip) -> c_str ip = ip.
Proof.
  unfold setting. destruct (CConfigFileReader.getConfigName _ r) as [[v|]| |]; try done. intros [= <-]. apply c_str_again.
Qed.

Lemma init_ok ip port loop newLoop p :
  exists w0, init (Some ip) (i16 port) loop newLoop p =
      Ret (true, mkProcess (mysqlManager p) (userManager p) (msgCacheManager p) (client p) (store p) (Some w0)) /\
    TcpServer.start loop 6 newLoop (TcpServer.world (TcpServer.make loop
      ((if Sockets.inet_pton (c_str ip) is Some _ then c_str ip else lit "0.0.0.0") ++ lit ":" ++ Decimal.format_d (u16 port))
      server_name)) = Ret (tt, w0) /\
    forall id, 0 <= id < 10 ^ 8 -> TcpServer.fits (TcpServer.server w0) id.
Proof.
  set (t := _ ++ lit ":" ++ _). assert (InetAddress.toIpPort (InetAddress.make ip (u16 (i16 port))) = Ret t) as Ht.
  { rewrite Dotted.make_prints, uwrap_swrap by lia. unfold u16, uwrap. by rewrite Z.mod_mod. }
  destruct (start_ok loop t server_name 6 newLoop) as (w0 & E & Hhp). exists w0. split_and!; [|exact E|].
  - unfold init. rewrite (lift_bind _ _ _ _ Ht), (lift_bind _ _ _ _ E). done.
  - intros id Hid. unfold TcpServer.fits. rewrite Hhp. pose proof (Dotted.zlen_prints _ _ _ Ht).
    pose proof (Dotted.format_d_length 8 id Hid). lia.
Qed.

Section Environment.
Context `{laws : !RedisLaws rapi}.
Hypothesis stays : forall h d, mysql_errno h d <> CR_SERVER_GONE_ERROR.
Hypothesis rectangular : forall h d r d', mysql_store_result h d = (Some r, d') -> QueryResult.rectangular r.
Hypothesis users : forall r, CDatabaseMysql.served UserManager.select_users r ->
  Forall (fun row => exists u, UserManager.user_of_columns (Row.column <$> row) = Ret u) (QueryResult.rows r).
Hypothesis texts : forall r, CDatabaseMysql.served MsgCacheManager.select_msgs r ->
  Forall (fun row => exists t, MsgCacheManager.text_of_columns (Row.column <$> row) = Ret t) (QueryResult.rows r).

(** What loading into an empty cache and into redis left behind. *)
Definition users_loaded_as (l : list UserManager.User) : Prop :=
  exists s1 ok s2, UserManager.loadUsersFromDb s1 = Ret (ok, s2) /\
    UserManager.m_allCachedUsers (fst s1) = [] /\ l = UserManager.m_allCachedUsers (fst s2) /\
    if ok : bool then exists r, CDatabaseMysql.served UserManager.select_users r /\
      (fun row => UserManager.user_of_columns (Row.column <$> row)) <$> QueryResult.rows r = Ret <$> l
    else l = [].
Definition history_loaded_as (url : bytes) (st st' : redis) : Prop :=
  exists s1 ok s2, MsgCacheManager.loadMsgFromDbAndStoreInRedis s1 = Ret (ok, s2) /\
    MsgCacheManager.m_strRedisUrl (MsgCacheManager.manager s1) = url /\
    MsgCacheManager.store s1 = st /\ st' = MsgCacheManager.store s2 /\
    (ok = true -> exists r, CDatabaseMysql.served MsgCacheManager.select_msgs r /\
       (fun row => MsgCacheManager.text_of_columns (Row.column <$> row)) <$> QueryResult.rows r =
       Ret <$> redis_list url MsgCacheManager.key st' /\
       Forall (fun t => exists j, json_parse t = Ret j) (redis_list url MsgCacheManager.key st')).

Lemma mysql_step file h u pwd d p :
  CMysqlManager.m_poConn (mysqlManager p) = None -> CDatabaseMysql.clean (client p) ->
  (forall content, file = Some content -> Forall (fun line => line <> []) (CMysqlManager.getlines content)) ->
  exists ok m cl, on_mysql (CMysqlManager.init file (Some h) (Some u) pwd (Some d)) p =
    Ret (ok, mkProcess m (userManager p) (msgCacheManager p) cl (store p) (server p)) /\ CDatabaseMysql.clean cl.
Proof.
  intros Hc Hcl Hf.
  pose proof (CMysqlManager.init_total stays rectangular file h u pwd d (mysqlManager p, client p) Hc Hcl Hf) as H.
  unfold CMysqlManager.total, wp in H. destruct (CMysqlManager.init _ _ _ _ _ _) as [[ok [m cl]]| |] eqn:E; try done.
  exists ok, m, cl. split; [|exact H]. exact (zoom_ok _ _ _ p ok (m, cl) E).
Qed.

Lemma users_step h u pwd d p :
  CDatabaseMysql.clean (client p) -> UserManager.m_allCachedUsers (userManager p) = [] ->
  exists ok m cl, on_users (UserManager.init (Some h) (Some u) pwd (Some d)) p =
    Ret (ok, mkProcess (mysqlManager p) m (msgCacheManager p) cl (store p) (server p)) /\ CDatabaseMysql.clean cl /\
    users_loaded_as (UserManager.m_allCachedUsers m).
Proof.
  intros Hcl He. set (i := CDatabaseMysql.mkInfo h u
    (default (CDatabaseMysql.strPwd (UserManager.m_info (userManager p))) pwd) d).
  destruct (UserManager.load_users stays rectangular users (UserManager.mkUserManager [] i, client p) Hcl)
    as (ok & [m cl] & E & Hc & _ & Hu).
  exists ok, m, cl. split_and!; [|exact Hc|].
  - refine (zoom_ok _ _ _ p ok (m, cl) _). unfold UserManager.init. rewrite M_bind_eq. cbn [get].
    rewrite M_bind_eq. unfold UserManager.set_info. cbn [modify fst snd]. rewrite He. exact E.
  - eexists _, ok, _. split_and!; [exact E|done|done|]. cbn in Hu. destruct ok; [|exact Hu].
    destruct Hu as (r & us & Hs & Hr & Hm). exists r. by rewrite Hm.
Qed.

Lemma messages_step h u pwd d url p :
  CDatabaseMysql.clean (client p) ->
  exists ok m cl st, on_messages (MsgCacheManager.init (Some h) (Some u) pwd (Some d) (Some url)) p =
    Ret (ok, mkProcess (mysqlManager p) (userManager p) m cl st (server p)) /\ CDatabaseMysql.clean cl /\
    history_loaded_as url (store p) st.
Proof.
  intros Hcl. set (i := CDatabaseMysql.mkInfo h u
    (default (CDatabaseMysql.strPwd (MsgCacheManager.m_info (msgCacheManager p))) pwd) d).
  destruct (MsgCacheManager.load_msgs stays rectangular texts
    (MsgCacheManager.mkState (MsgCacheManager.mkMsgCacheManager i url) (client p) (store p)) Hcl)
    as (ok & [m cl st] & E & Hc & Hm & Ht). cbn in Hm, Hc. subst m.
  eexists ok, _, cl, st. split_and!; [|exact Hc|].
  - refine (zoom_ok _ _ _ p ok (MsgCacheManager.mkState (MsgCacheManager.mkMsgCacheManager i url) cl st) _). unfold MsgCacheManager.init. rewrite M_bind_eq. cbn [get].
    rewrite M_bind_eq. unfold MsgCacheManager.set_manager. cbn [modify]. exact E.
  - eexists _, ok, _. split_and!; [exact E|done|done|done|]. intros ->.
    destruct (Ht eq_refl) as (r & ts & Hs & _ & Hr & Hl & Hj). exists r. cbn in *. rewrite Hl. split_and!; assumption.
Qed.


End Environment.

End Api.

(** ** A concrete start: a database that answers by statement *)
Definition table (n : nat) (rows : list mysql_row) : QueryResult.mysql_res :=
  QueryResult.mkRes (replicate n (lit "c", QueryResult.FIELD_TYPE_STRING)) rows.
Definition demo_mysql : MysqlApi := {|
  db := bytes;
  mysql_real_connect := fun _ _ _ _ _ d => (true, d);
  mysql_real_query := fun _ sql _ => (0, sql);
  mysql_errno := fun _ _ => 0;
  mysql_store_result := fun _ d =>
    (Some (if bool_decide (d = c_str UserManager.select_users)
           then table 3 [[Some (lit "1"); Some (lit "alice"); Some (lit "pw")]]
           else if bool_decide (d = c_str MsgCacheManager.select_msgs)
           then table 5 [[Some (lit "1"); Some (lit "1"); Some (lit "alice"); Some (lit "hi"); None]]
           else table 1 [[Some (lit "414chatroom")]]), d);
  mysql_field_count := fun _ _ => 1
|}.
Definition conf : bytes :=
  concat (map (fun l => lit l ++ [Byte.x0a])
    ["dbserver=localhost"; "dbuser=manjie"; "dbpassword=123456"; "dbname=414chatroom"; "redisUrl=tcp://127.0.0.1:6379";
     "listenip=0.0.0.0"; "listenport=12345"; "logfiledir=logs/"; "logfilename=chatserver"]%string).
Definition environment : Environment :=
  mkEnvironment (Some conf) true false (Some (lit "CREATE TABLE t_user;")) 1 (fun i => 2 + Z.of_nat i).
Definition no_handles : @CDatabaseMysql.Client demo_mysql := CDatabaseMysql.mkClient (api := demo_mysql) ∅ 1 [].
Definition the_reader : CConfigFileReader.Reader :=
  match CConfigFileReader.make (Some conf) with Ret r => r | _ => CConfigFileReader.mkReader None ∅ None end.


End Startup.
