(* ===== verification/Client.v ===== *)
(** * Outgoing connections

    [Connector] is net/Connector.*: a state machine driven by its loop that ends in
    a connected descriptor.  The channel of an attempt is known to the poller by
    its address; the answers of the kernel are arguments. *)
From S2P Require Import Prelude Channels Connections.

Module Connector.

Inductive State : Type := kDisconnected | kConnecting | kConnected.
#[export] Instance State_eq_dec : EqDecision State.
Proof. solve_decision. Defined.
Definition kMaxRetryDelayMs : Z := 30 * 1000.
Definition kInitRetryDelayMs : Z := 500.

(** The functors the connector queues in its loop. *)
Inductive task : Type := StartInLoop | StopInLoop | ResetChannel.
#[export] Instance task_eq_dec : EqDecision task.
Proof. solve_decision. Defined.

Record Connector : Type := mkConnector {
  m_connect : bool;
  m_state : State;
  m_channel : option Z;
  m_retryDelayMs : Z
}.
Definition make : Connector := mkConnector false kDisconnected None kInitRetryDelayMs.

(** [channels] are the channels that exist, each with its descriptor;
    [registered] the addresses the poller holds; [fds] the sockets that are open
    and not handed over; [handed] those given to the connection callback. *)
Record World : Type := mkWorld {
  connector : Connector;
  channels : gmap Z Z;
  next_ptr : Z;
  registered : gset Z;
  queue : list task;
  fds : gset Z;
  handed : list Z
}.
Definition world : World := mkWorld make ∅ 1 ∅ [] ∅ [].

Definition self : M World Connector := gets connector.
Definition update (f : Connector -> Connector) : M World unit :=
  modify (fun w => mkWorld (f (connector w)) (channels w) (next_ptr w) (registered w) (queue w) (fds w) (handed w)).
Definition setState (s : State) : M World unit :=
  update (fun c => mkConnector (m_connect c) s (m_channel c) (m_retryDelayMs c)).
Definition setConnect (b : bool) : M World unit :=
  update (fun c => mkConnector b (m_state c) (m_channel c) (m_retryDelayMs c)).
Definition setChannel (p : option Z) : M World unit :=
  update (fun c => mkConnector (m_connect c) (m_state c) p (m_retryDelayMs c)).
Definition queueInLoop (t : task) : M World unit :=
  modify (fun w => mkWorld (connector w) (channels w) (next_ptr w) (registered w) (queue w ++ [t]) (fds w) (handed w)).
Definition set_queue (q : list task) : M World unit :=
  modify (fun w => mkWorld (connector w) (channels w) (next_ptr w) (registered w) q (fds w) (handed w)).
Definition set_fds (f : gset Z -> gset Z) : M World unit :=
  modify (fun w => mkWorld (connector w) (channels w) (next_ptr w) (registered w) (queue w) (f (fds w)) (handed w)).
Definition close (fd : Z) : M World unit := set_fds (fun s => s ∖ {[ fd ]}).

(** [m_channel.reset(p)]: the channel it held is deleted. *)
Definition reset (p : option Z) : M World unit :=
  let! c := self in
  do! modify (fun w => mkWorld (connector w)
        (match m_channel c with Some q => delete q (channels w) | None => channels w end)
        (next_ptr w) (registered w) (queue w) (fds w) (handed w)) in
  setChannel p.

Definition retry (sockfd : Z) : M World unit :=
  do! close sockfd in setState kDisconnected.

(** The new channel waits for writability. *)
Definition connecting (sockfd : Z) : M World unit :=
  do! setState kConnecting in
  let! w := get in
  let p := next_ptr w in
  do! reset (Some p) in
  modify (fun w => mkWorld (connector w) (<[p := sockfd]> (channels w)) (p + 1) ({[ p ]} ∪ registered w)
                     (queue w) (fds w) (handed w)).

(** The errno classes of the switch of [connect]. *)
Definition in_progress (e : Z) : bool := bool_decide (e ∈ [0; 115; 4; 106]).
Definition try_again (e : Z) : bool := bool_decide (e ∈ [11; 98; 99; 111; 101]).

(** [sockfd] is the new socket, a negative one that there is none; [err] what
    [connect(2)] left in [errno], 0 when it succeeded. *)
Definition connect (sockfd err : Z) : M World unit :=
  if sockfd <? 0 then undefined NullPointer
  else
    do! set_fds (fun s => {[ sockfd ]} ∪ s) in
    if in_progress err then connecting sockfd
    else if try_again err then retry sockfd
    else close sockfd.

Definition startInLoop (sockfd err : Z) : M World unit :=
  let! c := self in
  if bool_decide (m_state c = kDisconnected) then
    if m_connect c then connect sockfd err else ret tt
  else ret tt.
Definition start (inLoop : bool) (sockfd err : Z) : M World unit :=
  do! setConnect true in
  if inLoop then startInLoop sockfd err else queueInLoop StartInLoop.
Definition restart (sockfd err : Z) : M World unit :=
  do! setState kDisconnected in
  do! update (fun c => mkConnector (m_connect c) (m_state c) (m_channel c) kInitRetryDelayMs) in
  do! setConnect true in
  startInLoop sockfd err.

(** The channel leaves the poller; it is deleted later, because it may be the one
    whose event is handled. *)
Definition removeAndResetChannel : M World Z :=
  let! c := self in
  match m_channel c with
  | None => undefined NullPointer
  | Some p =>
      let! w := get in
      match channels w !! p with
      | None => undefined DanglingPointer
      | Some sockfd =>
          do! modify (fun w => mkWorld (connector w) (channels w) (next_ptr w) (registered w ∖ {[ p ]})
                (queue w) (fds w) (handed w)) in
          do! queueInLoop ResetChannel in
          ret sockfd
      end
  end.
Definition resetChannel : M World unit := reset None.

Definition stop : M World unit :=
  do! setConnect false in queueInLoop StopInLoop.
Definition stopInLoop : M World unit :=
  let! c := self in
  when (bool_decide (m_state c = kConnecting))
    (do! setState kDisconnected in
     let! sockfd := removeAndResetChannel in
     retry sockfd).

(** [err] is SO_ERROR; [self_connect] that both ends are the same. *)
Definition handleWrite (err : Z) (self_connect : bool) : M World unit :=
  let! c := self in
  when (bool_decide (m_state c = kConnecting))
    (let! sockfd := removeAndResetChannel in
     if negb (err =? 0) || self_connect then retry sockfd
     else
       do! setState kConnected in
       let! c' := self in
       if m_connect c' then
         do! set_fds (fun s => s ∖ {[ sockfd ]}) in
         modify (fun w => mkWorld (connector w) (channels w) (next_ptr w) (registered w) (queue w) (fds w)
                            (handed w ++ [sockfd]))
       else close sockfd).
Definition handleError : M World unit :=
  let! c := self in
  when (bool_decide (m_state c = kConnecting))
    (let! sockfd := removeAndResetChannel in retry sockfd).

(** An event the poller reports for the channel of that address: the channel calls
    its error callback, then its write callback ([Channel.handleEvent]). *)
Definition handleEvent (p : Z) (error writable : bool) (err : Z) (self_connect : bool) : M World unit :=
  let! w := get in
  match channels w !! p with
  | None => undefined DanglingPointer
  | Some _ => do! when error handleError in when writable (handleWrite err self_connect)
  end.

(** The loop runs its first functor. *)
Definition runTask (sockfd err : Z) : M World unit :=
  let! w := get in
  match queue w with
  | [] => ret tt
  | t :: q =>
      do! set_queue q in
      match t with
      | StartInLoop => startInLoop sockfd err
      | StopInLoop => stopInLoop
      | ResetChannel => resetChannel
      end
  end.

(** ** The socket of the connector

    Without an attempt under way nothing is registered and no socket is open; a
    channel that is left over will be deleted by a task that is queued. *)
Definition idle (w : World) : Prop :=
  registered w = ∅ /\ fds w = ∅ /\
  match m_channel (connector w) with
  | None => channels w = ∅
  | Some p => dom (channels w) = {[ p ]} /\ ResetChannel ∈ queue w
  end.
(** During an attempt there is one socket, and its channel is the registered one. *)
Definition busy (w : World) : Prop :=
  exists p fd, m_channel (connector w) = Some p /\ channels w = {[ p := fd ]} /\ registered w = {[ p ]} /\
    fds w = {[ fd ]} /\ ResetChannel ∉ queue w.
Definition inv (w : World) : Prop :=
  match m_state (connector w) with kConnecting => busy w | _ => idle w end.

(** What may happen to a connector. *)
Inductive op : Type :=
| Start (inLoop : bool) (sockfd err : Z)
| Stop
| Restart (sockfd err : Z)
| RunTask (sockfd err : Z)
| Event (p : Z) (error writable : bool) (err : Z) (self_connect : bool).
Definition exec (o : op) : M World unit :=
  match o with
  | Start here sockfd err => start here sockfd err
  | Stop => stop
  | Restart sockfd err => restart sockfd err
  | RunTask sockfd err => runTask sockfd err
  | Event p error writable err sc => handleEvent p error writable err sc
  end.

(** A connection may be attempted only when no channel waits for its deletion;
    [socket] gives a descriptor. *)
Definition can_connect (sockfd : Z) (q : list task) : Prop := 0 <= sockfd /\ ResetChannel ∉ q.
Definition op_ok (o : op) (w : World) : Prop :=
  match o with
  | Start true sockfd _ => can_connect sockfd (queue w) \/ m_state (connector w) <> kDisconnected
  | Restart sockfd _ => can_connect sockfd (queue w) /\ m_state (connector w) <> kConnecting
  | RunTask sockfd _ =>
      match queue w with
      | StartInLoop :: q => can_connect sockfd q \/ m_state (connector w) <> kDisconnected
      | _ => True
      end
  | Event p _ _ _ _ => p ∈ registered w
  | _ => True
  end.
Inductive step : World -> World -> Prop :=
| step_op o w w' : op_ok o w -> exec o w = Ret (tt, w') -> step w w'.

Lemma connect_inv sockfd err w :
  m_state (connector w) = kDisconnected -> idle w -> can_connect sockfd (queue w) ->
  exists w', connect sockfd err w = Ret (tt, w') /\ inv w'.
Proof.
  destruct w as [[cn st ch dl] cs np rg q fs hd]. unfold idle. cbn. intros -> (-> & -> & Hch) [Hfd Hq].
  assert (ch = None /\ cs = ∅) as [-> ->] by (destruct ch; [by destruct Hch|done]).
  unfold connect. destruct (Z.ltb_spec sockfd 0); [lia|]. cbn. rewrite (right_id_L ∅ (∪)).
  destruct (in_progress err); cbn.
  - eexists. split; [reflexivity|]. unfold inv. cbn. exists np, sockfd. cbn. rewrite (right_id_L ∅ (∪)). by split_and!.
  - destruct (try_again err); cbn; eexists; (split; [reflexivity|]); unfold inv, idle; cbn; split_and!; try done; set_solver.
Qed.

Lemma startInLoop_inv sockfd err w :
  inv w -> can_connect sockfd (queue w) \/ m_state (connector w) <> kDisconnected ->
  exists w', startInLoop sockfd err w = Ret (tt, w') /\ inv w'.
Proof.
  intros Hi Hc. unfold startInLoop. rewrite M_bind_eq. cbn [self gets].
  case_bool_decide as Hs; [|by exists w].
  destruct (m_connect (connector w)); [|by exists w].
  apply connect_inv; [done|by unfold inv in Hi; rewrite Hs in Hi|by destruct Hc].
Qed.

(** The end of an attempt, whoever ends it. *)
Lemma removeAndReset_busy w :
  busy w -> exists p fd, m_channel (connector w) = Some p /\ fds w = {[ fd ]} /\
    removeAndResetChannel w =
      Ret (fd, mkWorld (connector w) {[ p := fd ]} (next_ptr w) ∅ (queue w ++ [ResetChannel]) {[ fd ]} (handed w)).
Proof.
  intros (p & fd & Hp & Hcs & Hrg & Hfd & Hq). exists p, fd. split_and!; [done|done|].
  unfold removeAndResetChannel. cbn. rewrite Hp. cbn. rewrite Hcs, lookup_singleton_eq. cbn.
  by rewrite Hcs, Hrg, Hfd, difference_diag_L.
Qed.

Lemma idle_ended s b dl p fd np q hd :
  s <> kConnecting ->
  inv (mkWorld (mkConnector b s (Some p) dl) {[ p := fd ]} np ∅ (q ++ [ResetChannel]) ∅ hd).
Proof.
  intros Hs. unfold inv. cbn. assert (idle (mkWorld (mkConnector b s (Some p) dl) {[ p := fd ]} np ∅ (q ++ [ResetChannel]) ∅ hd)).
  { unfold idle. cbn. split_and!; [done|done|apply dom_singleton_L|set_solver]. }
  by destruct s.
Qed.

Lemma retry_ended p fd w :
  m_channel (connector w) = Some p ->
  exists w', retry fd (mkWorld (connector w) {[ p := fd ]} (next_ptr w) ∅ (queue w ++ [ResetChannel]) {[ fd ]} (handed w))
    = Ret (tt, w') /\ inv w' /\ m_state (connector w') = kDisconnected /\ queue w' = queue w ++ [ResetChannel].
Proof.
  destruct w as [[cn st ch dl] cs np rg q fs hd]. cbn. intros ->. unfold retry. cbn. rewrite difference_diag_L.
  eexists. split; [reflexivity|]. split; [by apply idle_ended|done].
Qed.

Lemma stopInLoop_inv w : inv w -> exists w', stopInLoop w = Ret (tt, w') /\ inv w'.
Proof.
  intros Hi. unfold stopInLoop. rewrite M_bind_eq. cbn [self gets].
  case_bool_decide as Hs; [|by exists w]. unfold inv in Hi. rewrite Hs in Hi. cbn [when].
  rewrite M_bind_eq. cbn [setState update modify].
  match goal with |- context [bindM removeAndResetChannel _ ?v] => set (w1 := v) end.
  destruct (removeAndReset_busy w1) as (p & fd & Hp & _ & E); [exact Hi|].
  rewrite M_bind_eq, E. destruct (retry_ended p fd w1 Hp) as (w' & H & Hw & _). by exists w'.
Qed.

(** Both event callbacks end the attempt, if there is one. *)
Definition handler (m : M World unit) : Prop :=
  (forall w, m_state (connector w) <> kConnecting -> m w = Ret (tt, w)) /\
  (forall w, inv w -> m_state (connector w) = kConnecting ->
     exists w', m w = Ret (tt, w') /\ inv w' /\ m_state (connector w') <> kConnecting).

Lemma handleError_ends : handler handleError.
Proof.
  split; intros w Hi; unfold handleError; rewrite M_bind_eq; cbn [self gets].
  - by rewrite bool_decide_eq_false_2.
  - intros Hs. rewrite bool_decide_eq_true_2 by done. cbn [when]. unfold inv in Hi. rewrite Hs in Hi.
    destruct (removeAndReset_busy w Hi) as (p & fd & Hp & _ & E). rewrite M_bind_eq, E.
    destruct (retry_ended p fd w Hp) as (w' & H & Hw & Hst & _). exists w'. by rewrite Hst.
Qed.

Lemma handleWrite_ends err sc : handler (handleWrite err sc).
Proof.
  split; intros w Hi; unfold handleWrite; rewrite M_bind_eq; cbn [self gets].
  - by rewrite bool_decide_eq_false_2.
  - intros Hs. rewrite bool_decide_eq_true_2 by done. cbn [when]. unfold inv in Hi. rewrite Hs in Hi.
    destruct (removeAndReset_busy w Hi) as (p & fd & Hp & _ & E). rewrite M_bind_eq, E.
    destruct (negb (err =? 0) || sc).
    + destruct (retry_ended p fd w Hp) as (w' & H & Hw & Hst & _). exists w'. by rewrite Hst.
    + destruct w as [[cn st ch dl] cs np rg q fs hd]. cbn in *. subst ch.
      destruct cn; cbn; eexists; (split; [reflexivity|]); cbn; rewrite ?difference_diag_L; (split; [by apply (idle_ended kConnected)|done]).
Qed.

Lemma handler_inv m w : handler m -> inv w -> exists w', m w = Ret (tt, w') /\ inv w'.
Proof.
  intros [H1 H2] Hi. destruct (decide (m_state (connector w) = kConnecting)) as [Hs|Hs].
  - destruct (H2 w Hi Hs) as (w' & ? & ? & _). by exists w'.
  - rewrite H1 by done. by exists w.
Qed.

Lemma handleEvent_inv p error writable err sc w :
  inv w -> p ∈ registered w -> exists w', handleEvent p error writable err sc w = Ret (tt, w') /\ inv w'.
Proof.
  intros Hi Hp. unfold handleEvent. rewrite M_bind_eq. cbn [get].
  assert (exists fd, channels w !! p = Some fd) as [fd ->].
  { unfold inv in Hi. destruct (m_state (connector w)).
    2: destruct Hi as (p' & fd & _ & -> & Hr & _); rewrite Hr, elem_of_singleton in Hp; subst;
       exists fd; apply lookup_singleton_eq.
    all: destruct Hi as (Hr & _); rewrite Hr in Hp; set_solver. }
  rewrite M_bind_eq.
  assert (exists w1, when error handleError w = Ret (tt, w1) /\ inv w1) as (w1 & -> & H1).
  { destruct error; [by apply handler_inv, Hi; apply handleError_ends|by exists w]. }
  destruct writable; [by apply handler_inv, H1; apply handleWrite_ends|by exists w1].
Qed.

(** Tasks that come and go do not matter, as long as the reset stays. *)
Lemma inv_tasks q w :
  inv w -> (ResetChannel ∈ queue w <-> ResetChannel ∈ q) ->
  inv (mkWorld (connector w) (channels w) (next_ptr w) (registered w) q (fds w) (handed w)).
Proof.
  unfold inv, busy, idle. cbn. intros Hi Hq. destruct (m_state (connector w)).
  2: by destruct Hi as (p & fd & ? & ? & ? & ? & ?); exists p, fd; rewrite <- Hq.
  all: destruct Hi as (? & ? & Hc); split_and!; try done; destruct (m_channel (connector w)); [by rewrite <- Hq|done].
Qed.

Lemma connector_task_inv sockfd err w :
  inv w -> op_ok (RunTask sockfd err) w -> exists w', runTask sockfd err w = Ret (tt, w') /\ inv w'.
Proof.
  intros Hi Hok. unfold runTask. rewrite M_bind_eq. cbn [get op_ok] in *.
  destruct (queue w) as [|t q] eqn:Hq; [by exists w|]. rewrite M_bind_eq. cbn [set_queue modify].
  assert (t <> ResetChannel ->
    inv (mkWorld (connector w) (channels w) (next_ptr w) (registered w) q (fds w) (handed w))) as Hi'.
  { intros Ht. apply inv_tasks; [done|]. rewrite Hq, elem_of_cons. intuition congruence. }
  destruct t; [apply startInLoop_inv; [by apply Hi'|done]|by apply stopInLoop_inv, Hi'|].
  destruct w as [[cn st ch dl] cs np rg q0 fs hd]. cbn in *. subst q0. unfold resetChannel, reset. cbn.
  eexists. split; [reflexivity|]. unfold inv, idle, busy in *. cbn in *. destruct st.
  2: destruct Hi as (p & fd & _ & _ & _ & _ & Hn); exfalso; apply Hn, list_elem_of_here.
  all: destruct Hi as (? & ? & Hc); split_and!; try done; destruct ch as [p|]; [|done].
  all: destruct Hc as [Hc _]; apply dom_empty_inv_L; rewrite dom_delete_L, Hc; set_solver.
Qed.

Lemma exec_inv o w : inv w -> op_ok o w -> exists w', exec o w = Ret (tt, w') /\ inv w'.
Proof.
  intros Hi Hok. destruct o as [here sockfd err| |sockfd err|sockfd err|p e wr err sc]; cbn [exec].
  - unfold start. rewrite M_bind_eq. cbn [setConnect update modify]. destruct here.
    + by apply startInLoop_inv.
    + eexists. split; [reflexivity|]. exact (inv_tasks (queue w ++ [StartInLoop]) w Hi ltac:(set_solver)).
  - eexists. split; [reflexivity|]. exact (inv_tasks (queue w ++ [StopInLoop]) w Hi ltac:(set_solver)).
  - destruct Hok as [Hc Hn]. unfold restart. rewrite M_bind_eq. cbn [setState update modify].
    rewrite M_bind_eq. cbn [update modify]. rewrite M_bind_eq. cbn [setConnect update modify].
    apply startInLoop_inv; [|by left].
    unfold inv in *. cbn. destruct (m_state (connector w)); try done; exact Hi.
  - by apply connector_task_inv.
  - by apply handleEvent_inv.
Qed.

Lemma reachable_inv w : rtc step world w -> inv w.
Proof.
  intros Hrun. assert (inv world) as H0 by done. revert H0.
  induction Hrun as [|x y z [o v v' Hok Ho] _ IH]; [done|]. intros Hi. apply IH.
  destruct (exec_inv o v Hi Hok) as (w' & E & Hw). rewrite Ho in E. by injection E as <-.
Qed.

(** The end of an attempt on a writable event. *)
Lemma handleWrite_end p fd err sc w :
  inv w -> m_state (connector w) = kConnecting -> m_channel (connector w) = Some p -> channels w !! p = Some fd ->
  exists w', handleEvent p false true err sc w = Ret (tt, w') /\ fds w' = ∅ /\ registered w' = ∅ /\
    m_state (connector w') = (if negb (err =? 0) || sc then kDisconnected else kConnected) /\
    handed w' = handed w ++ (if (err =? 0) && negb sc && m_connect (connector w) then [fd] else []).
Proof.
  destruct w as [[cn st ch dl] cs np rg q fs hd]. unfold inv, busy. cbn. intros Hi -> -> Hl.
  destruct Hi as (p' & fd' & [= <-] & -> & -> & -> & _). rewrite lookup_singleton_eq in Hl. injection Hl as <-.
  unfold handleEvent, handleWrite, removeAndResetChannel, retry. cbn. rewrite lookup_singleton_eq. cbn.
  rewrite bool_decide_eq_true_2 by done. cbn. rewrite lookup_singleton_eq. cbn.
  destruct (err =? 0), sc, cn; cbn; eexists; (split; [reflexivity|]); cbn; rewrite ?app_nil_r; split_and!; try done;
    apply difference_diag_L.
Qed.

(** C30: The connector.  Along every run of calls, of queued tasks and of events of
    the poller, as long as no new attempt starts while the channel of the last one
    waits for its deletion, whatever may happen next is defined; what the poller
    holds leads to the live channel of the attempt; during an attempt exactly its
    socket is open, and otherwise none is, so that each socket was closed or handed
    over.  A writable event ends the attempt, and hands the socket over when the
    connection stands and is still wanted, and closes it otherwise. *)
Theorem connector_safe w :
  rtc step world w ->
  (forall o, op_ok o w -> exists w', exec o w = Ret (tt, w')) /\
  (forall p, p ∈ registered w ->
     m_state (connector w) = kConnecting /\ m_channel (connector w) = Some p /\ is_Some (channels w !! p)) /\
  (m_state (connector w) <> kConnecting -> registered w = ∅ /\ fds w = ∅) /\
  (m_state (connector w) = kConnecting -> exists p fd,
     m_channel (connector w) = Some p /\ channels w !! p = Some fd /\ registered w = {[ p ]} /\ fds w = {[ fd ]} /\
     forall err sc, exists w', handleEvent p false true err sc w = Ret (tt, w') /\ fds w' = ∅ /\ registered w' = ∅ /\
       m_state (connector w') = (if negb (err =? 0) || sc then kDisconnected else kConnected) /\
       handed w' = handed w ++ (if (err =? 0) && negb sc && m_connect (connector w) then [fd] else [])).
Proof.
  intros Hrun. pose proof (reachable_inv w Hrun) as Hi.
  split. { intros o Ho. destruct (exec_inv o w Hi Ho) as (w' & H & _). by exists w'. }
  pose proof (fun p fd err sc => handleWrite_end p fd err sc w Hi) as Hend. unfold inv in Hi.
  destruct (m_state (connector w)) eqn:Hs.
  2: { destruct Hi as (p & fd & Hc & Hcs & Hr & Hf & _). assert (channels w !! p = Some fd) as Hl.
       { rewrite Hcs. apply lookup_singleton_eq. }
       split_and!; [|done|intros _; exists p, fd; split_and!; auto].
       intros q Hq. rewrite Hr, elem_of_singleton in Hq. subst q. split_and!; [done..|by exists fd]. }
  all: destruct Hi as (Hr & Hf & _); split_and!; try done; intros p Hp; rewrite Hr in Hp; set_solver.
Qed.

Definition after (o : op) (w : World) : World := match exec o w with Ret (_, w') => w' | _ => w end.
(** A connection is asked for from another thread, is refused once and stands then. *)
Definition c1 : World := after (Start false 0 0) world.
Definition c2 : World := after (RunTask 7 115) c1.
Definition c3 : World := after (Event 1 true true 111 false) c2.
Definition c4 : World := after (RunTask 0 0) c3.
Definition c5 : World := after (Start true 8 115) c4.

Lemma connector_safe_witness :
  exists w', handleEvent 2 false true 0 false c5 = Ret (tt, w') /\ handed w' = [8] /\ fds w' = ∅.
Proof.
  destruct (connector_safe c5) as (_ & _ & _ & H).
  - eapply rtc_l; [by apply (step_op (Start false 0 0) world c1)|].
    eapply rtc_l; [apply (step_op (RunTask 7 115) c1 c2); [|by vm_compute]; left; split; [done|intros ?%elem_of_nil; done]|].
    eapply rtc_l; [apply (step_op (Event 1 true true 111 false) c2 c3); [|by vm_compute]|].
    { by apply (bool_decide_unpack (1 ∈ registered c2)). }
    eapply rtc_l; [by apply (step_op (RunTask 0 0) c3 c4)|].
    eapply rtc_l; [apply (step_op (Start true 8 115) c4 c5); [|by vm_compute]|apply rtc_refl].
    left; split; [done|intros ?%elem_of_nil; done].
  - destruct H as (p & fd & Hp & Hl & _ & _ & H); [reflexivity|].
    vm_compute in Hp. injection Hp as <-. vm_compute in Hl. injection Hl as <-.
    destruct (H 0 false) as (w' & Hw & Hf & _ & _ & Hh). by exists w'.
Defined.

(** The condition is needed: [stop] and then [start] from another thread during an
    attempt run in this order, and the reset that the stop leaves behind deletes the
    channel of the new attempt, which is still registered. *)
Definition stop_start : World :=
  after (RunTask 0 0) (after (RunTask 8 115) (after (RunTask 0 0) (after (Start false 0 0) (after Stop c2)))).
Example start_before_reset :
  m_state (connector stop_start) = kConnecting /\ registered stop_start = {[ 2 ]} /\ channels stop_start = ∅ /\
  handleEvent 2 false true 0 false stop_start = Undef DanglingPointer.
Proof. split_and!; by vm_compute. Qed.

End Connector.
