(* ===== verification/Clients.v ===== *)
(** * The client of one server

    [TcpClient] is net/TcpClient.*: a [Connector] (Client.v) whose sockets become
    connections (Connections.v), one at a time, all on one loop. *)
From S2P Require Import Prelude Buffers Channels Connections Servers Client.

Module TcpClient.

Record TcpClient : Type := mkClient {
  m_writeCompleteCallback : bool;
  m_retry : bool;
  m_connect : bool;
  m_nextConnId : Z;
  m_connection : option Z
}.
Definition make (callback : bool) : TcpClient := mkClient callback false true 1 None.

(** A connection; [detached] that its close callback is no longer the client's but
    [detail::removeConnection]; how often it was destroyed. *)
Record Conn : Type := mkConn { body : TcpConnection.World; detached : bool; destroyed : nat }.
(** The functors of the client and of its connections in the loop. *)
Inductive task : Type := Destroy (c : Z) | SetCloseCallback (c : Z).
#[export] Instance task_eq_dec : EqDecision task.
Proof. solve_decision. Defined.

(** [client] is [None] after its destructor. *)
Record World : Type := mkWorld {
  client : option TcpClient;
  connector : Connector.World;
  heap : gmap Z Conn;
  next_ptr : Z;
  queue : list task
}.
Definition world (callback : bool) : World := mkWorld (Some (make callback)) Connector.world ∅ 1 [].

Definition self : M World TcpClient := fun w =>
  match client w with Some k => Ret (k, w) | None => Undef DanglingPointer end.
Definition update (f : TcpClient -> TcpClient) : M World unit :=
  let! k := self in
  modify (fun w => mkWorld (Some (f k)) (connector w) (heap w) (next_ptr w) (queue w)).
Definition with_retry (k : TcpClient) : TcpClient :=
  mkClient (m_writeCompleteCallback k) true (m_connect k) (m_nextConnId k) (m_connection k).
Definition with_connect (b : bool) (k : TcpClient) : TcpClient :=
  mkClient (m_writeCompleteCallback k) (m_retry k) b (m_nextConnId k) (m_connection k).
Definition with_nextConnId (i : Z) (k : TcpClient) : TcpClient :=
  mkClient (m_writeCompleteCallback k) (m_retry k) (m_connect k) i (m_connection k).
Definition with_connection (c : option Z) (k : TcpClient) : TcpClient :=
  mkClient (m_writeCompleteCallback k) (m_retry k) (m_connect k) (m_nextConnId k) c.

Definition deref (c : Z) : M World Conn := fun w =>
  match heap w !! c with Some k => Ret (k, w) | None => Undef DanglingPointer end.
Definition put (c : Z) (k : Conn) : M World unit :=
  modify (fun w => mkWorld (client w) (connector w) (<[c := k]> (heap w)) (next_ptr w) (queue w)).
Definition queueInLoop (t : task) : M World unit :=
  modify (fun w => mkWorld (client w) (connector w) (heap w) (next_ptr w) (queue w ++ [t])).
Definition set_body (b : TcpConnection.World) (k : Conn) : Conn := mkConn b (detached k) (destroyed k).
Definition detach (k : Conn) : Conn := mkConn (body k) true (destroyed k).

Definition enableRetry : M World unit := update with_retry.

(** A call of the connector, or an event of its channel; the result is the sockets it
    gave to its callback. *)
Definition on_connector (o : Connector.op) : M World (list Z) := fun w =>
  r ← Connector.exec o (connector w);
  Ret (drop (length (Connector.handed (connector w))) (Connector.handed (snd r)),
       mkWorld (client w) (snd r) (heap w) (next_ptr w) (queue w)).

(** [sockfd] and [err] are what the kernel answers to a new attempt. *)
Definition removeConnection (c sockfd err : Z) : M World unit :=
  let! k := self in
  if negb (bool_decide (m_connection k = Some c)) then ret tt
  else
    do! update (with_connection None) in
    do! queueInLoop (Destroy c) in
    when (m_retry k && m_connect k)
      (let! _ := on_connector (Connector.Restart sockfd err) in ret tt).

(** An operation of the connection [c]; the close callback is its last call. *)
Definition operate (c : Z) (o : TcpConnection.op) (sockfd err : Z) : M World unit :=
  let! k := deref c in
  let! r := lift (TcpConnection.exec o (body k)) in
  do! put c (set_body (snd r) k) in
  when (TcpServer.closes (body k) <? TcpServer.closes (snd r))%nat
    (if detached k then queueInLoop (Destroy c) else removeConnection c sockfd err).

(** [ok] is what the poller answers to [enableReading].  The name of the connection,
    which only the log uses, is left out. *)
Definition newConnection (sockfd : Z) (ok : bool) (sockfd' err' : Z) : M World unit :=
  let! k := self in
  if m_nextConnId k =? 2 ^ 31 - 1 then undefined SignedOverflow
  else
    do! update (with_nextConnId (m_nextConnId k + 1)) in
    let! b := lift (TcpConnection.fresh 0 sockfd) in
    let! b' := lift (
      if m_writeCompleteCallback k then snd <$> TcpConnection.setWriteCompleteCallback b else Ret b) in
    let! w := get in
    let c := next_ptr w in
    do! modify (fun w => mkWorld (client w) (connector w) (heap w) (c + 1) (queue w)) in
    do! put c (mkConn b' false 0) in
    do! update (with_connection (Some c)) in
    operate c (TcpConnection.OpEstablished ok) sockfd' err'.

(** What happens to the connector, and the connections of the sockets it hands over. *)
Definition drive (o : Connector.op) (ok : bool) (sockfd' err' : Z) : M World unit :=
  let! fds := on_connector o in
  for_each fds (fun fd => newConnection fd ok sockfd' err').

Definition connect (here : bool) (sockfd err : Z) : M World unit :=
  do! update (with_connect true) in
  let! _ := on_connector (Connector.Start here sockfd err) in ret tt.
Definition stop : M World unit :=
  do! update (with_connect false) in
  let! _ := on_connector Connector.Stop in ret tt.
Definition disconnect (here : bool) (sockfd err : Z) : M World unit :=
  do! update (with_connect false) in
  let! k := self in
  match m_connection k with
  | Some c => operate c (TcpConnection.OpShutdown here) sockfd err
  | None => ret tt
  end.

(** The destructor; [unique] that nobody else owns the connection. *)
Definition delete (here unique : bool) : M World unit :=
  let! k := self in
  do! match m_connection k with
      | Some c =>
          do! (if here : bool then let! x := deref c in put c (detach x) else queueInLoop (SetCloseCallback c)) in
          when unique (operate c TcpConnection.OpForceClose 0 0)
      | None => let! _ := on_connector Connector.Stop in ret tt
      end in
  modify (fun w => mkWorld None (connector w) (heap w) (next_ptr w) (queue w)).

(** The loop runs the first functor. *)
Definition runTask (sockfd err : Z) : M World unit :=
  let! w := get in
  match queue w with
  | [] => ret tt
  | t :: q =>
      do! modify (fun w => mkWorld (client w) (connector w) (heap w) (next_ptr w) q) in
      match t with
      | Destroy c =>
          let! k := deref c in
          do! put c (mkConn (body k) (detached k) (S (destroyed k))) in
          operate c TcpConnection.OpDestroyed sockfd err
      | SetCloseCallback c => let! k := deref c in put c (detach k)
      end
  end.

(** What may happen; the connector is private to the client, which gives it calls. *)
Inductive op : Type :=
| Connect (here : bool) (sockfd err : Z)
| Disconnect (here : bool) (sockfd err : Z)
| Stop
| EnableRetry
| Drive (o : Connector.op) (ok : bool) (sockfd err : Z)
| OnConnection (c : Z) (o : TcpConnection.op) (sockfd err : Z)
| RunTask (sockfd err : Z)
| Delete (here unique : bool).
Definition exec (o : op) : M World unit :=
  match o with
  | Connect here sockfd err => connect here sockfd err
  | Disconnect here sockfd err => disconnect here sockfd err
  | Stop => stop
  | EnableRetry => enableRetry
  | Drive o ok sockfd err => drive o ok sockfd err
  | OnConnection c o sockfd err => operate c o sockfd err
  | RunTask sockfd err => runTask sockfd err
  | Delete here unique => delete here unique
  end.

(** The outputs fit in [int]; the functions of the life of a connection are called by
    the client only. *)
Definition of_loop (o : Connector.op) : bool :=
  match o with Connector.RunTask _ _ | Connector.Event _ _ _ _ _ => true | _ => false end.
Definition of_others (o : TcpConnection.op) : bool :=
  match o with TcpConnection.OpEstablished _ | TcpConnection.OpDestroyed => false | _ => true end.
Definition small (w : World) : Prop :=
  forall c k, heap w !! c = Some k -> zlen (TcpConnection.output (body k)) < 2 ^ 31.
Definition op_ok (o : op) (w : World) : Prop :=
  small w /\
  match o with
  | Drive o _ _ _ => of_loop o = true
  | OnConnection c o _ _ =>
      of_others o = true /\ forall k, heap w !! c = Some k -> TcpConnection.op_ok o (body k)
  | _ => True
  end.
Inductive step : World -> World -> Prop :=
| step_op o w w' : op_ok o w -> exec o w = Ret (tt, w') -> step w w'.

(** ** What the connector hands over *)
Definition same_handed (v v' : Connector.World) : Prop := Connector.handed v' = Connector.handed v.
#[export] Instance same_handed_preorder : PreOrder same_handed.
Proof. split; [done|intros ???; unfold same_handed; congruence]. Qed.
Lemma same_modify f : (forall v, Connector.handed (f v) = Connector.handed v) -> respects same_handed (modify f).
Proof. intros Hf. apply respects_modify. intros v. apply Hf. Qed.
#[local] Hint Extern 1 (respects same_handed (modify _)) => by apply same_modify : respects.

Ltac unfold_connector := unfold Connector.startInLoop, Connector.stopInLoop, Connector.resetChannel, Connector.handleError,
  Connector.connect, Connector.connecting, Connector.retry, Connector.removeAndResetChannel, Connector.close,
  Connector.reset, Connector.setState, Connector.setConnect, Connector.setChannel, Connector.set_fds, Connector.update,
  Connector.set_queue, Connector.queueInLoop, Connector.self.
Lemma same_startInLoop fd e : respects same_handed (Connector.startInLoop fd e).
Proof. unfold_connector. respects. Qed.
Lemma same_handleError : respects same_handed Connector.handleError.
Proof. unfold_connector. respects. Qed.
#[local] Hint Resolve same_startInLoop same_handleError : respects.
Lemma same_exec o : (forall p er wr e sc, o <> Connector.Event p er wr e sc) -> respects same_handed (Connector.exec o).
Proof.
  intros Ho. destruct o as [here fd e| |fd e|fd e|p er wr e sc]; [..|by destruct (Ho p er wr e sc)]; cbn [Connector.exec];
    unfold Connector.start, Connector.stop, Connector.restart, Connector.runTask; unfold_connector; respects.
Qed.

(** A connector that is done does nothing more until it is restarted. *)
Definition is_restart (o : Connector.op) : bool := match o with Connector.Restart _ _ => true | _ => false end.
Definition arrived (v : Connector.World) : Prop := Connector.m_state (Connector.connector v) = Connector.kConnected.
Lemma arrived_stays o v v' :
  is_restart o = false -> arrived v -> Connector.exec o v = Ret (tt, v') -> same_handed v v' /\ arrived v'.
Proof.
  unfold same_handed, arrived. destruct v as [[cn st ch dl] cs np rg q fs hd]. cbn. intros Ho -> H.
  destruct o as [[] fd e| |fd e|fd e|p er wr e sc]; try done; cbn in H; try (by injection H as <-).
  - unfold Connector.runTask in H. destruct q as [|[] q]; cbn in H; by injection H as <-.
  - unfold Connector.handleEvent in H. cbn in H. destruct (cs !! p); [|done]. destruct er, wr; cbn in H; by injection H as <-.
Qed.

Lemma handleWrite_hands e sc v v' :
  Connector.handleWrite e sc v = Ret (tt, v') ->
  same_handed v v' \/
  exists fd, Connector.handed v' = Connector.handed v ++ [fd] /\
    Connector.m_state (Connector.connector v) = Connector.kConnecting /\ arrived v'.
Proof.
  unfold same_handed, arrived, Connector.handleWrite. destruct v as [[cn st ch dl] cs np rg q fs hd]. cbn.
  case_bool_decide as Hs; cbn; [|intros [= <-]; by left]. unfold Connector.removeAndResetChannel. cbn.
  destruct ch as [p|]; [|done]. cbn. destruct (cs !! p) as [fd|]; [|done]. cbn.
  destruct (negb (e =? 0) || sc); cbn; [intros [= <-]; by left|].
  destruct cn; cbn; intros [= <-]; [right; by exists fd|by left].
Qed.

Lemma connector_hands o v v' :
  Connector.exec o v = Ret (tt, v') ->
  (same_handed v v' /\ (is_restart o = false -> arrived v -> arrived v')) \/
  (exists fd, Connector.handed v' = Connector.handed v ++ [fd] /\ of_loop o = true /\ ~ arrived v /\ arrived v').
Proof.
  intros H. assert (is_restart o = false -> arrived v -> arrived v') as Hd by (intros Ho Hv; by eapply arrived_stays).
  destruct o as [here fd e| |fd e|fd e|p er wr e sc]; try (left; split; [by eapply same_exec; [|exact H]|exact Hd]).
  cbn [Connector.exec] in H. unfold Connector.handleEvent in H. apply M_bind_inv in H as (w0 & w1 & [= <- <-] & H).
  destruct (Connector.channels v !! p); [|done]. apply M_bind_inv in H as ([] & v1 & H1 & H2).
  assert (same_handed v v1) as E1 by (destruct er; [by eapply same_handleError|injection H1 as <-; reflexivity]).
  destruct wr; [|injection H2 as <-; left; by split].
  apply handleWrite_hands in H2 as [E2|(fd & E2 & Hs & Hd')]; [left; split; [by etrans|done]|].
  right. exists fd. rewrite E2, E1. split_and!; try done. intros Hv.
  destruct er; [|injection H1 as <-; unfold arrived in Hv; congruence].
  unfold Connector.handleError in H1. cbn in H1. unfold arrived in Hv. rewrite bool_decide_eq_false_2 in H1 by congruence.
  injection H1 as <-. congruence.
Qed.

(** ** One connection at a time *)
Definition destroys (c : Z) (t : task) : bool := match t with Destroy c' => c' =? c | SetCloseCallback _ => false end.
Definition doomed (c : Z) (q : list task) : nat := length (List.filter (destroys c) q).
Lemma doomed_app c q q' : doomed c (q ++ q') = (doomed c q + doomed c q')%nat.
Proof. unfold doomed. by rewrite List.filter_app, length_app. Qed.
Lemma doomed_self c : doomed c [Destroy c] = 1%nat.
Proof. unfold doomed. cbn. by rewrite Z.eqb_refl. Qed.
Lemma doomed_other c c' : c <> c' -> doomed c [Destroy c'] = 0%nat.
Proof. intros Hne. unfold doomed. cbn. by rewrite (proj2 (Z.eqb_neq c' c)) by congruence. Qed.

Definition current (w : World) : option Z := client w ≫= m_connection.
#[local] Arguments doomed : simpl never.
#[local] Arguments current : simpl never.
Record conn_ok (w : World) (c : Z) (k : Conn) : Prop := {
  ok_body : TcpConnection.inv (body k);
  ok_once : (doomed c (queue w) + destroyed k = TcpServer.closes (body k))%nat;
  ok_closes : (TcpServer.closes (body k) <= 1)%nat;
  ok_open : is_Some (client w) -> TcpServer.closes (body k) = 0%nat -> current w = Some c /\ detached k = false
}.
(** [n] sockets were handed over and are not connections yet. *)
Record inv (n : nat) (w : World) : Prop := {
  i_conns : forall c k, heap w !! c = Some k -> conn_ok w c k;
  i_fresh : forall c k, heap w !! c = Some k -> c < next_ptr w;
  i_queue : forall c, next_ptr w <= c -> doomed c (queue w) = 0%nat;
  i_current : forall c, current w = Some c ->
    arrived (connector w) /\ exists k, heap w !! c = Some k /\ TcpServer.closes (body k) = 0%nat;
  i_detach : forall c, SetCloseCallback c ∈ queue w -> client w = None;
  i_count : forall k, client w = Some k -> zlen (Connector.handed (connector w)) = m_nextConnId k - 1 + Z.of_nat n
}.

Lemma inv_start callback : inv 0 (world callback).
Proof.
  split; cbn; try done; try (by intros c k; rewrite lookup_empty); [by intros c ?%elem_of_nil|by intros k [= <-]].
Qed.

(** A change of the client that keeps its connection. *)
Lemma inv_client n k k' w :
  client w = Some k -> m_connection k' = m_connection k -> m_nextConnId k' = m_nextConnId k ->
  inv n w -> inv n (mkWorld (Some k') (connector w) (heap w) (next_ptr w) (queue w)).
Proof.
  intros Hk Hc Hi [H1 H2 H3 H4 Hq' H5].
  assert (current (mkWorld (Some k') (connector w) (heap w) (next_ptr w) (queue w)) = current w) as Ec
    by (unfold current; rewrite Hk; exact Hc).
  split; cbn; try done.
  - intros c x Hx. destruct (H1 c x Hx) as [O1 O2 O3 O4]. split; try done. rewrite Ec. intros _. apply O4. by rewrite Hk.
  - intros c Hcur. apply H4. by rewrite <- Ec.
  - intros c Hc'. rewrite (Hq' c Hc') in Hk. done.
  - intros j [= <-]. rewrite (H5 k Hk). lia.
Qed.

(** A change of the connector that hands nothing over. *)
Lemma inv_connector n v w :
  same_handed (connector w) v -> (arrived (connector w) -> arrived v \/ current w = None) ->
  inv n w -> inv n (mkWorld (client w) v (heap w) (next_ptr w) (queue w)).
Proof.
  intros Hs Ha [H1 H2 H3 H4 Hq' H5]. split; cbn; try done.
  - intros c x Hx. by destruct (H1 c x Hx) as [O1 O2 O3 O4].
  - intros c Hc. change (current w = Some c) in Hc. destruct (H4 c Hc) as [Hv Hk]. split; [|done].
    destruct (Ha Hv); [done|congruence].
  - intros k Hk. rewrite Hs. by apply H5.
Qed.

(** The connection goes on, and is not closed. *)
Lemma inv_put n c k k' w :
  heap w !! c = Some k -> TcpConnection.inv (body k') -> TcpServer.closes (body k') = TcpServer.closes (body k) ->
  destroyed k' = destroyed k -> (is_Some (client w) -> detached k' = detached k) ->
  inv n w -> inv n (mkWorld (client w) (connector w) (<[c := k']> (heap w)) (next_ptr w) (queue w)).
Proof.
  intros Hk Hb Hc Hd Hdt [H1 H2 H3 H4 Hq' H5]. split; cbn; try done.
  - intros c1 x Hx. apply lookup_insert_Some in Hx as [[<- <-]|[Hne Hx]]; [|by destruct (H1 c1 x Hx)].
    destruct (H1 c k Hk) as [O1 O2 O3 O4]. split; cbn; rewrite ?Hc, ?Hd; try done.
    intros Hcl H0. rewrite (Hdt Hcl). by apply O4.
  - intros c1 x Hx. apply lookup_insert_Some in Hx as [[<- <-]|[Hne Hx]]; eauto.
  - intros c1 Hc1. destruct (H4 c1 Hc1) as [Hv (x & Hx & H0)]. split; [done|].
    destruct (decide (c1 = c)) as [->|Hne]; [exists k'; rewrite lookup_insert_eq; split; [done|congruence]|].
    exists x. by rewrite lookup_insert_ne by congruence.
Qed.

(** It is closed: it is the client's no more, and will be destroyed. *)
Lemma inv_close n c k k' cl w :
  heap w !! c = Some k -> TcpConnection.inv (body k') -> TcpServer.closes (body k) = 0%nat ->
  TcpServer.closes (body k') = 1%nat -> destroyed k' = destroyed k ->
  (forall j, cl = Some j -> m_connection j = None /\ exists j0, client w = Some j0 /\ m_nextConnId j = m_nextConnId j0) ->
  inv n w -> inv n (mkWorld cl (connector w) (<[c := k']> (heap w)) (next_ptr w) (queue w ++ [Destroy c])).
Proof.
  intros Hk Hb H0 H1' Hd Hcl [H1 H2 H3 H4 Hq' H5].
  assert (forall x, cl ≫= m_connection = Some x -> False) as Hnone
    by (intros x; destruct cl as [j|]; cbn; [destruct (Hcl j eq_refl) as [-> _]|]; done).
  split; cbn.
  - intros c1 x Hx. apply lookup_insert_Some in Hx as [[<- <-]|[Hne Hx]].
    + destruct (H1 c k Hk) as [O1 O2 O3 O4]. split; cbn; try done; [|lia|congruence].
      rewrite doomed_app, doomed_self, Hd, H1'. lia.
    + destruct (H1 c1 x Hx) as [O1 O2 O3 O4]. split; cbn; try done; [rewrite doomed_app, doomed_other by congruence; lia|].
      intros [j ->] Hx0. destruct (Hcl j eq_refl) as [_ (j0 & Hj0 & _)].
      destruct O4 as [Hc1 _]; [by rewrite Hj0|done|]. destruct (H1 c k Hk) as [_ _ _ O4'].
      destruct O4' as [Hc2 _]; [by rewrite Hj0|done|]. congruence.
  - intros c1 x Hx. apply lookup_insert_Some in Hx as [[<- <-]|[Hne Hx]]; eauto.
  - intros c1 Hc1. rewrite doomed_app, (H3 c1 Hc1), doomed_other; [done|]. intros ->. specialize (H2 c k Hk). lia.
  - intros c1 Hc1. by destruct (Hnone c1).
  - intros c1 [Hc1%Hq'|[=]%list_elem_of_singleton]%elem_of_app. destruct cl as [j|]; [|done].
    destruct (Hcl j eq_refl) as [_ (j0 & Hj0 & _)]. congruence.
  - intros j ->. destruct (Hcl j eq_refl) as [_ (j0 & Hj0 & ->)]. by apply H5.
Qed.

(** ** Every operation keeps it *)
Lemma self_inv w k w' : self w = Ret (k, w') -> client w = Some k /\ w' = w.
Proof. unfold self. destruct (client w); [|done]. by intros [= <- <-]. Qed.
Lemma client_deref_inv c w k w' : deref c w = Ret (k, w') -> heap w !! c = Some k /\ w' = w.
Proof. unfold deref. destruct (heap w !! c); [|done]. by intros [= <- <-]. Qed.
Lemma client_update_inv f w w' :
  update f w = Ret (tt, w') ->
  exists k, client w = Some k /\ w' = mkWorld (Some (f k)) (connector w) (heap w) (next_ptr w) (queue w).
Proof. unfold update. intros (k & w0 & [Hk ->]%self_inv & [= <-])%M_bind_inv. by exists k. Qed.
Lemma on_connector_inv o w l w' :
  on_connector o w = Ret (l, w') ->
  exists v, Connector.exec o (connector w) = Ret (tt, v) /\
    l = drop (length (Connector.handed (connector w))) (Connector.handed v) /\
    w' = mkWorld (client w) v (heap w) (next_ptr w) (queue w).
Proof.
  unfold on_connector. destruct (Connector.exec o (connector w)) as [[[] v]|e|u] eqn:E; [|done..].
  cbn [mbind outcome_bind snd]. intros [= <- <-]. by exists v.
Qed.
Lemma client_lift_inv {A} (o : outcome A) a (w w' : World) : lift o w = Ret (a, w') -> o = Ret a /\ w' = w.
Proof. unfold lift. intros H. by inv_bind. Qed.

(** Calls of the client on its connector hand nothing over. *)
Lemma on_connector_keeps n o w l w' :
  of_loop o = false -> (is_restart o = true -> current w = None) -> on_connector o w = Ret (l, w') -> inv n w -> inv n w'.
Proof.
  intros Ho Hr (v & E & _ & ->)%on_connector_inv. apply connector_hands in E as [[Hs Ha]|(fd & _ & H & _)]; [|congruence].
  apply inv_connector; [done|]. intros Hv. destruct (is_restart o); [right|left]; auto.
Qed.

Lemma client_remove_inv n c k k' j fd err w w' :
  heap w !! c = Some k -> TcpConnection.inv (body k') -> TcpServer.closes (body k) = 0%nat ->
  TcpServer.closes (body k') = 1%nat -> destroyed k' = destroyed k -> client w = Some j -> m_connection j = Some c ->
  removeConnection c fd err (mkWorld (client w) (connector w) (<[c := k']> (heap w)) (next_ptr w) (queue w)) = Ret (tt, w') ->
  inv n w -> inv n w'.
Proof.
  intros Hk Hb H0 H1 Hd Hj Hc. unfold removeConnection. intros (j0 & w0 & [Hj0 ->]%self_inv & H)%M_bind_inv Hi.
  cbn [client] in Hj0. assert (j0 = j) as -> by congruence. rewrite bool_decide_eq_true_2 in H by done. cbn [negb] in H.
  apply M_bind_inv in H as ([] & w1 & (j1 & Hj1 & ->)%client_update_inv & H).
  cbn [client connector heap next_ptr queue] in *. assert (j1 = j) as -> by congruence.
  apply M_bind_inv in H as ([] & w2 & [= <-] & H).
  assert (inv n (mkWorld (Some (with_connection None j)) (connector w) (<[c := k']> (heap w)) (next_ptr w) (queue w ++ [Destroy c]))) as Hi1.
  { apply (inv_close n c k k'); try done. intros j' [= <-]. split; [done|]. by exists j. }
  cbn [client connector heap next_ptr queue] in H.
  destruct (m_retry j && m_connect j); [|by injection H as <-].
  cbn [when] in H. apply M_bind_inv in H as (l & w3 & H & [= <-]). by eapply on_connector_keeps; [..|exact H|].
Qed.

Lemma operate_client_inv n c o fd err w w' :
  (forall k, heap w !! c = Some k -> TcpConnection.op_ok o (body k)) ->
  operate c o fd err w = Ret (tt, w') -> inv n w -> inv n w'.
Proof.
  intros Hok. unfold operate. intros (k & w0 & [Hk ->]%client_deref_inv & H)%M_bind_inv Hi.
  apply M_bind_inv in H as ([[] b] & w1 & [Hrun ->]%client_lift_inv & H). cbn [snd] in H.
  apply M_bind_inv in H as ([] & w1 & [= <-] & H). pose proof (i_conns n w Hi c k Hk) as [O1 O2 O3 O4].
  destruct (TcpServer.exec_closes o _ _ O1 (Hok k Hk) Hrun) as [Hb Hcl].
  destruct (Nat.ltb_spec (TcpServer.closes (body k)) (TcpServer.closes b)) as [Hlt|Hge]; cbn [when] in H.
  2: { injection H as <-. apply (inv_put n c k); cbn; try done. lia. }
  destruct (detached k) eqn:Hdt.
  - injection H as <-. apply (inv_close n c k (set_body b k)); cbn; try done; try lia.
    intros j Hj. destruct O4 as [_ [=]]; [by rewrite Hj|lia].
  - destruct (client w) as [j|] eqn:Hj; [rewrite <- Hj in H|by unfold removeConnection, self in H].
    destruct O4 as [Hc _]; [done|lia|]. unfold current in Hc. rewrite Hj in Hc.
    apply (client_remove_inv n c k (set_body b k) j fd err w); cbn; try done; lia.
Qed.

Lemma fresh_output b wc loop sockfd b0 :
  TcpConnection.fresh loop sockfd = Ret b0 ->
  (if wc : bool then snd <$> TcpConnection.setWriteCompleteCallback b0 else Ret b0) = Ret b ->
  TcpConnection.output b = [].
Proof.
  intros (_ & _ & Ho & _)%TcpConnection.fresh_inv Hb. destruct wc; [cbn in Hb|]; by injection Hb as <-.
Qed.

(** The new connection is the only one that is open. *)
Lemma inv_new n b j w :
  TcpConnection.inv b -> TcpServer.closes b = 0%nat -> arrived (connector w) -> client w = Some j -> current w = None ->
  inv (S n) w ->
  inv n (mkWorld (Some (with_connection (Some (next_ptr w)) (with_nextConnId (m_nextConnId j + 1) j))) (connector w)
           (<[next_ptr w := mkConn b false 0]> (heap w)) (next_ptr w + 1) (queue w)).
Proof.
  intros Hb H0 Hv Hj Hn [H1 H2 H3 H4 Hq' H5]. split; cbn.
  - intros c k Hk. apply lookup_insert_Some in Hk as [[<- <-]|[Hne Hk]].
    + split; cbn; [done|by rewrite H3, H0|lia|done].
    + destruct (H1 c k Hk) as [O1 O2 O3 O4]. split; cbn; try done. intros _ Hc0.
      destruct O4 as [Hc _]; [by rewrite Hj|done|]. congruence.
  - intros c k Hk. apply lookup_insert_Some in Hk as [[<- _]|[_ Hk%H2]]; lia.
  - intros c Hc. apply H3. lia.
  - intros c [= <-]. split; [done|]. eexists. by rewrite lookup_insert_eq.
  - intros c Hc. rewrite (Hq' c Hc) in Hj. done.
  - intros k [= <-]. cbn. rewrite (H5 j Hj). lia.
Qed.

Lemma newConnection_client_inv n sockfd ok fd err w w' :
  arrived (connector w) -> current w = None -> newConnection sockfd ok fd err w = Ret (tt, w') -> inv (S n) w -> inv n w'.
Proof.
  intros Hv Hn. unfold newConnection. intros (j & w0 & [Hj ->]%self_inv & H)%M_bind_inv Hi.
  destruct (m_nextConnId j =? 2 ^ 31 - 1); [done|].
  apply M_bind_inv in H as ([] & w1 & (j1 & Hj1 & ->)%client_update_inv & H). assert (j1 = j) as -> by congruence.
  apply M_bind_inv in H as (b0 & w1 & [Hf ->]%client_lift_inv & H).
  apply M_bind_inv in H as (b & w1 & [Hb ->]%client_lift_inv & H).
  destruct (TcpServer.fresh_body b _ _ _ b0 Hf Hb) as [Hbi H0]. pose proof (fresh_output b _ _ _ b0 Hf Hb) as Hout.
  apply M_bind_inv in H as (w2 & w3 & [= <- <-] & H). apply M_bind_inv in H as ([] & w4 & [= <-] & H).
  apply M_bind_inv in H as ([] & w5 & [= <-] & H).
  apply M_bind_inv in H as ([] & w6 & (j1 & [= <-] & ->)%client_update_inv & H). cbn in H.
  refine (operate_client_inv n _ _ _ _ _ _ _ H (inv_new n b j w Hbi H0 Hv Hj Hn Hi)).
  cbn [heap]. intros k. rewrite lookup_insert_eq. intros [= <-]. split; [cbn [body]; by rewrite Hout|done].
Qed.

Lemma drive_inv o ok fd err w w' : of_loop o = true -> drive o ok fd err w = Ret (tt, w') -> inv 0 w -> inv 0 w'.
Proof.
  intros Ho. unfold drive. intros (l & w0 & (v & E & -> & ->)%on_connector_inv & H)%M_bind_inv Hi.
  apply connector_hands in E as [[Hs Ha]|(sockfd & Hs & _ & Hnv & Hv)].
  - rewrite Hs, drop_all in H. injection H as <-. apply inv_connector; [done| |done].
    intros Hv. left. apply Ha; [by destruct o|done].
  - rewrite Hs, drop_app_length in H. apply M_bind_inv in H as ([] & w1 & H & [= <-]).
    destruct (current w) as [c|] eqn:Hc; [by destruct (i_current 0 w Hi c Hc)|].
    refine (newConnection_client_inv 0 sockfd ok fd err _ _ _ _ H _); [done|done|].
    destruct Hi as [H1 H2 H3 H4 Hq' H5]. split; cbn; try done.
    + intros c k Hk. by destruct (H1 c k Hk).
    + intros c Hc'. change (current w = Some c) in Hc'. congruence.
    + intros k Hk. rewrite Hs. unfold zlen in *. rewrite length_app. cbn. specialize (H5 k Hk). lia.
Qed.

(** Deleting the client: the connection that is open loses its close callback first,
    or will when the loop gets to it. *)
Lemma inv_deleted n w : inv n w -> inv n (mkWorld None (connector w) (heap w) (next_ptr w) (queue w)).
Proof.
  intros [H1 H2 H3 H4 Hq' H5]. split; cbn; try done. intros c k Hk. destruct (H1 c k Hk) as [O1 O2 O3 O4].
  split; cbn; try done.
Qed.
Lemma inv_queue_set n c w :
  inv n w -> inv n (mkWorld None (connector w) (heap w) (next_ptr w) (queue w ++ [SetCloseCallback c])).
Proof.
  assert (forall c', doomed c' [SetCloseCallback c] = 0%nat) as H0 by done.
  intros [H1 H2 H3 H4 Hq' H5]. split; cbn; try done.
  - intros c1 k Hk. destruct (H1 c1 k Hk) as [O1 O2 O3 O4]. split; cbn; try done. by rewrite doomed_app, H0, Nat.add_0_r.
  - intros c1 Hc1. by rewrite doomed_app, H0, H3.
Qed.

(** [forceClose] only asks the loop. *)
Lemma forceClose_log b b' : TcpConnection.forceClose b = Ret (tt, b') -> TcpConnection.log b' = TcpConnection.log b.
Proof.
  unfold TcpConnection.forceClose. rewrite M_bind_eq. cbn [TcpConnection.self gets].
  destruct (TcpConnection.is_open _); by intros [= <-].
Qed.
Lemma operate_forceClose n c w w' :
  (forall k, heap w !! c = Some k -> zlen (TcpConnection.output (body k)) < 2 ^ 31) ->
  operate c TcpConnection.OpForceClose 0 0 w = Ret (tt, w') ->
  inv n (mkWorld None (connector w) (heap w) (next_ptr w) (queue w)) ->
  inv n (mkWorld None (connector w') (heap w') (next_ptr w') (queue w')).
Proof.
  intros Hsm. unfold operate. intros (k & w0 & [Hk ->]%client_deref_inv & H)%M_bind_inv Hi.
  apply M_bind_inv in H as ([[] b] & w1 & [Hrun ->]%client_lift_inv & H). cbn [snd] in H.
  apply M_bind_inv in H as ([] & w1 & [= <-] & H). destruct (i_conns _ _ Hi c k Hk) as [O1 O2 O3 O4].
  destruct (TcpServer.exec_closes TcpConnection.OpForceClose _ _ O1 (conj (Hsm k Hk) I) Hrun) as [Hb _].
  assert (TcpServer.closes b = TcpServer.closes (body k)) as E by (unfold TcpServer.closes; by rewrite (forceClose_log _ _ Hrun)).
  rewrite E, Nat.ltb_irrefl in H. injection H as <-. cbn.
  by apply (inv_put n c k (set_body b k) (mkWorld None (connector w) (heap w) (next_ptr w) (queue w))).
Qed.

Lemma delete_inv here unique w w' : small w -> delete here unique w = Ret (tt, w') -> inv 0 w -> inv 0 w'.
Proof.
  intros Hsm. unfold delete. intros (j & w0 & [Hj ->]%self_inv & ([] & w1 & H & [= <-])%M_bind_inv)%M_bind_inv Hi.
  destruct (m_connection j) as [c|].
  2: { apply M_bind_inv in H as (l & w2 & H & [= <-]). apply inv_deleted. by eapply on_connector_keeps; [..|exact H|]. }
  apply M_bind_inv in H as ([] & w2 & E & H).
  assert (inv 0 (mkWorld None (connector w2) (heap w2) (next_ptr w2) (queue w2)) /\ small w2) as [Hi2 Hsm2].
  { destruct here; [|injection E as <-; split; [by apply (inv_queue_set 0 c w)|exact Hsm]].
    apply M_bind_inv in E as (k & w3 & [Hk ->]%client_deref_inv & [= <-]). cbn. split.
    - apply (inv_put 0 c k (detach k) (mkWorld None (connector w) (heap w) (next_ptr w) (queue w)) Hk); try done.
      + by destruct (i_conns _ _ Hi c k Hk).
      + by intros [? ?].
      + by apply inv_deleted.
    - intros c1 x Hx. cbn in Hx. apply lookup_insert_Some in Hx as [[<- <-]|[_ Hx]]; [exact (Hsm c k Hk)|by eapply Hsm]. }
  destruct unique; [|by injection H as <-]. eapply operate_forceClose; [|exact H|done]. intros k. apply Hsm2.
Qed.

(** The loop destroys a connection that is closed already. *)
Lemma client_task_inv fd err w w' : small w -> runTask fd err w = Ret (tt, w') -> inv 0 w -> inv 0 w'.
Proof.
  intros Hsm. unfold runTask. rewrite M_bind_eq. cbn [get]. destruct (queue w) as [|t q] eqn:Hq; [by intros [= <-]|].
  rewrite M_bind_eq. cbn [modify]. destruct t as [c|c].
  - intros (k & w0 & [Hk ->]%client_deref_inv & ([] & w1 & [= <-] & H)%M_bind_inv)%M_bind_inv Hi. cbn in Hk, H.
    refine (operate_client_inv 0 _ _ _ _ _ _ _ H _).
    { cbn. intros x. rewrite lookup_insert_eq. intros [= <-]. split; [exact (Hsm c k Hk)|done]. }
    assert (forall c', doomed c' (queue w) = (doomed c' q + if (c =? c')%Z then 1 else 0)%nat) as Hd.
    { intros c'. rewrite Hq. unfold doomed. cbn. destruct (c =? c'); cbn; lia. }
    destruct Hi as [H1 H2 H3 H4 Hq' H5]. split; cbn; try done.
    + intros c1 x Hx. apply lookup_insert_Some in Hx as [[<- <-]|[Hne Hx]].
      * destruct (H1 c k Hk) as [O1 O2 O3 O4]. split; cbn; try done. rewrite Hd, Z.eqb_refl in O2. lia.
      * destruct (H1 c1 x Hx) as [O1 O2 O3 O4]. split; cbn; try done. rewrite Hd, (proj2 (Z.eqb_neq c c1)) in O2 by done. lia.
    + intros c1 x Hx. apply lookup_insert_Some in Hx as [[<- <-]|[Hne Hx]]; eauto.
    + intros c1 Hc1. specialize (H3 c1 Hc1). rewrite Hd in H3. lia.
    + intros c1 Hc1. destruct (H4 c1 Hc1) as [Hv (x & Hx & H0)]. split; [done|].
      destruct (decide (c1 = c)) as [->|Hne]; [|exists x; by rewrite lookup_insert_ne by congruence].
      eexists. rewrite lookup_insert_eq. split; [reflexivity|]. cbn. congruence.
    + intros c1 Hc1. apply (Hq' c1). rewrite Hq. by apply list_elem_of_further.
  - intros (k & w0 & [Hk ->]%client_deref_inv & [= <-])%M_bind_inv Hi. cbn in Hk. cbn.
    assert (client w = None) as Hcl by (apply (i_detach 0 w Hi c); rewrite Hq; apply list_elem_of_here).
    assert (inv 0 (mkWorld (client w) (connector w) (heap w) (next_ptr w) q)) as Hi'.
    { assert (forall c', doomed c' (queue w) = doomed c' q) as Hd by (intros c'; by rewrite Hq).
      destruct Hi as [H1 H2 H3 H4 Hq' H5]. split; cbn; try done.
      - intros c1 x Hx. destruct (H1 c1 x Hx) as [O1 O2 O3 O4]. split; cbn; try done. by rewrite <- Hd.
      - intros c1 Hc1. rewrite <- Hd. by apply H3. }
    apply (inv_put 0 c k (detach k) (mkWorld (client w) (connector w) (heap w) (next_ptr w) q) Hk); try done.
    + by destruct (i_conns _ _ Hi' c k Hk).
    + rewrite Hcl. by intros [? ?].
Qed.

Lemma flag_inv n f w w' :
  (forall k, m_connection (f k) = m_connection k /\ m_nextConnId (f k) = m_nextConnId k) ->
  update f w = Ret (tt, w') -> inv n w -> inv n w'.
Proof. intros Hf (k & Hk & ->)%client_update_inv. destruct (Hf k). by apply (inv_client n k). Qed.

Lemma client_exec_inv o w w' : op_ok o w -> exec o w = Ret (tt, w') -> inv 0 w -> inv 0 w'.
Proof.
  intros [Hsm Ho] H Hi. destruct o as [here fd err|here fd err| | |o ok fd err|c o fd err|fd err|here unique]; cbn [exec] in H.
  - apply M_bind_inv in H as ([] & w1 & H & (l & w2 & E & [= <-])%M_bind_inv).
    eapply on_connector_keeps; [..|exact E|by eapply flag_inv; [|exact H|]]; done.
  - apply M_bind_inv in H as ([] & w1 & H & (k & w2 & [Hk ->]%self_inv & E)%M_bind_inv).
    assert (inv 0 w1) as Hi1 by (by eapply flag_inv; [|exact H|]).
    apply client_update_inv in H as (k0 & _ & ->). destruct (m_connection k) as [c|]; [|by injection E as <-].
    refine (operate_client_inv 0 _ _ _ _ _ _ _ E Hi1). intros x Hx. split; [exact (Hsm c x Hx)|done].
  - apply M_bind_inv in H as ([] & w1 & H & (l & w2 & E & [= <-])%M_bind_inv).
    eapply on_connector_keeps; [..|exact E|by eapply flag_inv; [|exact H|]]; done.
  - by eapply flag_inv; [|exact H|].
  - by eapply drive_inv.
  - destruct Ho as [_ Ho]. by eapply operate_client_inv.
  - by eapply client_task_inv.
  - by eapply delete_inv.
Qed.
Lemma client_always callback w : rtc step (world callback) w -> inv 0 w.
Proof.
  generalize (inv_start callback). intros H0 Hr. revert H0. induction Hr as [|x y z [o v v' Hok E] _ IH]; [done|].
  intros Hi. apply IH. by eapply client_exec_inv.
Qed.

(** Nothing restarts a connector whose connection is gone. *)
Definition over (w : World) : Prop := arrived (connector w) /\ current w = None.
Definition remains (w w' : World) : Prop := over w' /\ same_handed (connector w) (connector w').

Lemma operate_over c o fd err w w' : over w -> operate c o fd err w = Ret (tt, w') -> remains w w'.
Proof.
  intros [Hv Hc]. unfold operate. intros (k & w0 & [Hk ->]%client_deref_inv & H)%M_bind_inv.
  apply M_bind_inv in H as ([[] b] & w1 & [_ ->]%client_lift_inv & ([] & w1 & [= <-] & H)%M_bind_inv). cbn [snd] in H.
  destruct (_ <? _)%nat; [|by injection H as <-]. cbn [when] in H. destruct (detached k); [by injection H as <-|].
  unfold removeConnection in H. apply M_bind_inv in H as (j & w1 & [Hj ->]%self_inv & H). cbn in Hj.
  unfold current in Hc. rewrite Hj in Hc. cbn in Hc. rewrite Hc in H. injection H as <-.
  split; [|done]. split; [done|]. unfold current. cbn. by rewrite Hj.
Qed.
Lemma on_connector_over o w l w' :
  is_restart o = false -> over w -> on_connector o w = Ret (l, w') -> remains w w' /\ l = [].
Proof.
  intros Ho [Hv Hc] (v & E & -> & ->)%on_connector_inv. destruct (arrived_stays o _ _ Ho Hv E) as [Hs Hv'].
  split; [by split; [split|]|]. rewrite Hs. apply drop_all.
Qed.
Lemma flag_over f w w' :
  (forall k, m_connection (f k) = m_connection k) -> over w -> update f w = Ret (tt, w') -> remains w w'.
Proof.
  intros Hf [Hv Hc] (k & Hk & ->)%client_update_inv. split; [|done]. split; [done|]. unfold current in *. cbn.
  rewrite Hk in Hc. cbn in Hc. by rewrite Hf.
Qed.
Lemma remains_trans w w1 w2 : remains w w1 -> (over w1 -> remains w1 w2) -> remains w w2.
Proof. intros [Ho Hs] H. destruct (H Ho) as [Ho' Hs']. split; [done|]. by etrans. Qed.

Lemma over_exec o w w' : op_ok o w -> over w -> exec o w = Ret (tt, w') -> remains w w'.
Proof.
  intros [_ Ho] Hov H. destruct o as [here fd err|here fd err| | |o ok fd err|c o fd err|fd err|here unique]; cbn [exec] in H.
  - apply M_bind_inv in H as ([] & w1 & H & (l & w2 & E & [= <-])%M_bind_inv).
    eapply remains_trans; [by eapply flag_over; [|exact Hov|exact H]|]. intros H1. by eapply on_connector_over; [|exact H1|exact E].
  - apply M_bind_inv in H as ([] & w1 & H & (k & w2 & [Hk ->]%self_inv & E)%M_bind_inv).
    eapply remains_trans; [by eapply flag_over; [|exact Hov|exact H]|]. intros H1.
    destruct (m_connection k) as [c|]; [by eapply operate_over|by injection E as <-].
  - apply M_bind_inv in H as ([] & w1 & H & (l & w2 & E & [= <-])%M_bind_inv).
    eapply remains_trans; [by eapply flag_over; [|exact Hov|exact H]|]. intros H1. by eapply on_connector_over; [|exact H1|exact E].
  - by eapply flag_over; [|exact Hov|exact H].
  - unfold drive in H. apply M_bind_inv in H as (l & w1 & E & H).
    destruct (on_connector_over o w l w1) as [Hr ->]; [by destruct o|done..|]. by injection H as <-.
  - by eapply operate_over.
  - unfold runTask in H. rewrite M_bind_eq in H. cbn [get] in H. destruct (queue w) as [|t q]; [by injection H as <-|].
    rewrite M_bind_eq in H. cbn [modify] in H. destruct t as [c|c].
    + apply M_bind_inv in H as (k & w1 & [_ ->]%client_deref_inv & ([] & w2 & [= <-] & H)%M_bind_inv).
      by apply operate_over in H.
    + by apply M_bind_inv in H as (k & w1 & [_ ->]%client_deref_inv & [= <-]).
  - unfold delete in H. apply M_bind_inv in H as (j & w1 & [Hj ->]%self_inv & ([] & w2 & H & [= <-])%M_bind_inv).
    destruct Hov as [Hv Hc]. unfold current in Hc. rewrite Hj in Hc. cbn in Hc. rewrite Hc in H.
    apply M_bind_inv in H as (l & w3 & E & [= <-]).
    destruct (on_connector_over Connector.Stop w l w3) as [[[Hv2 _] Hs] _]; [done| |done|by split; [split|]].
    split; [done|]. unfold current. by rewrite Hj.
Qed.
Lemma over_for_ever w w' : rtc step w w' -> over w -> remains w w'.
Proof.
  intros Hr. induction Hr as [w|w w1 w2 [o v v' Hok E] _ IH]; intros Hov; [by split; [|reflexivity]|].
  eapply remains_trans; [by eapply over_exec|exact IH].
Qed.

(** C31: the connections of a client.  In every state that is reached by calls, by
    tasks of the loop and by events of the connector and of the connections, in any
    order and with any answers of the kernel, and after the client is deleted too:
    every connection that closed is destroyed once, now or by a task that is queued,
    and none is before it closes.  While the client lives every socket the connector
    handed over became a connection, and the one it holds is the only one that is
    open.  A connection that is lost, and for which no attempt is under way, is the
    last: no later call, [connect] among them, makes another. *)
Theorem client_connections (callback : bool) (w : World) :
  rtc step (world callback) w ->
  (forall c k, heap w !! c = Some k ->
     (doomed c (queue w) + destroyed k = TcpServer.closes (body k))%nat /\ (TcpServer.closes (body k) <= 1)%nat) /\
  (forall j, client w = Some j ->
     zlen (Connector.handed (connector w)) = m_nextConnId j - 1 /\
     forall c, m_connection j = Some c <-> exists k, heap w !! c = Some k /\ TcpServer.closes (body k) = 0%nat) /\
  (arrived (connector w) -> current w = None -> forall w', rtc step w w' ->
     Connector.handed (connector w') = Connector.handed (connector w) /\ current w' = None).
Proof.
  intros Hr. pose proof (client_always callback w Hr) as [H1 H2 H3 H4 Hq H5]. split_and!.
  - intros c k Hk. by destruct (H1 c k Hk).
  - intros j Hj. split; [rewrite (H5 j Hj); lia|]. intros c. split.
    + intros Hc. apply H4. unfold current. by rewrite Hj.
    + intros (k & Hk & H0). destruct (H1 c k Hk) as [_ _ _ O4]. destruct O4 as [Hc _]; [by rewrite Hj|done|].
      unfold current in Hc. by rewrite Hj in Hc.
  - intros Hv Hc w' Hr'. destruct (over_for_ever w w' Hr') as [[_ ?] ?]; [by split|done].
Qed.

(** *** Witnesses *)
Definition op_okb (o : op) (w : World) : bool :=
  bool_decide (map_Forall (fun _ k => zlen (TcpConnection.output (body k)) < 2 ^ 31) (heap w)) &&
  match o with
  | Drive o _ _ _ => of_loop o
  | OnConnection c o _ _ =>
      of_others o && match heap w !! c with Some k => TcpConnection.op_okb o (body k) | None => true end
  | _ => true
  end.
Lemma client_op_okb o w : op_okb o w = true -> op_ok o w.
Proof.
  intros [Hs%bool_decide_eq_true H]%andb_true_iff. split; [exact Hs|]. destruct o; try done.
  apply andb_true_iff in H as [Ho H]. split; [done|]. intros k Hk. rewrite Hk in H. by apply TcpConnection.op_okb_ok.
Qed.
Fixpoint run (l : list op) (w : World) : option World :=
  match l with
  | [] => Some w
  | o :: l' => if op_okb o w then match exec o w with Ret (_, w') => run l' w' | _ => None end else None
  end.
Lemma client_run_rtc l w w' : run l w = Some w' -> rtc step w w'.
Proof.
  revert w. induction l as [|o l IH]; intros w; cbn; [by intros [= ->]|].
  destruct (op_okb o w) eqn:Ho; [|done]. destruct (exec o w) as [[[] v]|e|u] eqn:E; [|done..].
  intros H. eapply rtc_l; [by apply (step_op o w v); [apply client_op_okb|]|by apply IH].
Qed.

(** Connected, closed by the peer, and asked to connect again. *)
Definition lost_once : list op :=
  [Connect true 7 115; Drive (Connector.Event 1 false true 0 false) true 0 0; Drive (Connector.RunTask 0 0) true 0 0;
   OnConnection 1 (TcpConnection.OpRead (ByteBuffer.ReadBytes []) 0) 0 0; RunTask 0 0; Connect true 8 115].
Definition after (l : list op) : World := default (world false) (run l (world false)).

Lemma client_connections_witness :
  (Connector.handed (connector (after lost_once)), destroyed <$> heap (after lost_once) !! 1, current (after lost_once)) =
  ([7], Some 1%nat, None) /\
  forall w', rtc step (after lost_once) w' -> Connector.handed (connector w') = [7] /\ current w' = None.
Proof.
  split; [vm_compute; reflexivity|].
  destruct (client_connections false (after lost_once)) as (_ & _ & H); [apply (client_run_rtc lost_once); vm_compute; reflexivity|].
  apply H; vm_compute; reflexivity.
Defined.

(** With [enableRetry] the connector is restarted. *)
Example retried :
  let w := after (EnableRetry :: removelast lost_once) in
  Connector.m_state (Connector.connector (connector w)) = Connector.kConnecting.
Proof. vm_compute. reflexivity. Qed.

(** A client that is deleted on another thread: the peer closes before the loop takes
    the close callback away, and the callback of the client that is gone runs. *)
Example deleted_elsewhere :
  (let! _ := exec (Delete false true) in
   exec (OnConnection 1 TcpConnection.OpClosed 0 0)) (after (take 3 lost_once)) = Undef DanglingPointer.
Proof. vm_compute. reflexivity. Qed.

(** A connection that fails at once restarts the connector before the channel of the
    last attempt was deleted: the task that does so deletes the new one. *)
Example restart_before_reset :
  let w := after [EnableRetry; Connect true 7 115; Drive (Connector.Event 1 false true 0 false) false 8 115;
                  Drive (Connector.RunTask 0 0) true 0 0] in
  (elements (Connector.registered (connector w)), size (Connector.channels (connector w))) = ([2], 0%nat) /\
  exec (Drive (Connector.Event 2 false true 0 false) true 0 0) w = Undef DanglingPointer.
Proof. split; vm_compute; reflexivity. Qed.

End TcpClient.
